(* ===== verification/_CoqProject ===== *)
-Q . S2P
Prelude.v
RustStr.v
Timed.v
Errors.v
Strategy.v
Chain.v
Metrics.v
Endpoint.v
Types.v
Effects.v
Calls.v
Traces.v
Observe.v
Scenario.v
ChainAccess.v
Signing.v
Submission.v
SubmissionSafety.v
SubmissionSpec.v
SnapshotFetch.v
SnapshotSpec.v
Miner.v
SubmissionSends.v
MinerSafety.v
MinerSpec.v
MinerPanics.v
Delivery.v
Retries.v
Listener.v
ListenerSpec.v
Janitor.v
JanitorSpec.v
Client.v
ClientSpec.v
Tokens.v
ElectionData.v
ElectionDataSpec.v
Staking.v
StakingSpec.v
Predictions.v
PredictionsSpec.v
Runtime.v
Glue.v
Predict.v
PredictSpec.v
System.v
SystemSpec.v
Server.v
ServerSpec.v
Threads.v
Main.v
MainSpec.v
Options.v
Cells.v
Conformance.v
