(* ===== verification/Prelude.v ===== *)
(** * Verification of polkadot-staking-miner

    The miner watches the finalized blocks of a Polkadot chain, computes
    solutions to the validator election in the signed phase and submits them
    page by page; beside that it reclaims deposits of old submissions, prunes old
    eras, and predicts elections, from the command line or as a server.  This
    library models the program as it is written and proves what it promises.  File
    and function names below are those under [src/].

    ** The program and its model

    The process ([main.rs]) connects, selects the chain, reads the constants of
    the runtime into global cells, starts a task that follows upgrades of the
    runtime, and runs one command:
    - [monitor], the tasks below;
    - [predict] ([commands/predict.rs]) and [server] ([commands/server.rs]), which
      take the election data from the snapshot or from the staking pallets
      ([dynamic/staking.rs], [dynamic/election_data.rs]), mine, and turn the
      solution into predictions.

    The monitor is a set of asynchronous tasks that share a connection pool and
    talk over channels (spawned by [monitor_cmd]):
    - the listener ([commands/multi_block/monitor.rs]: [listener_task]) follows
      finalized blocks and tells the other tasks about blocks, rounds and phases;
    - the miner ([miner_task], [process_block], with [dynamic/multi_block.rs])
      fetches the paged snapshot, mines, validates and submits solutions;
    - the clear-old-rounds task and the era pruning task do the housekeeping;
    - all of them use [client.rs], the endpoint pool with failover.

    Everything the tasks do not control (the node behind subxt, the solver and
    feasibility check of polkadot-sdk, timers, channels, hash order, task
    completion order) is an operation of [Effects].[op].  A function of the
    sources becomes a program over these operations that threads the state it
    holds behind [&mut]; [Effects].[run] executes it against a handler, which may
    answer any operation from the whole history and fire any timer (a timer is known
    by its seconds, so that of two nested timeouts either may fire alone).  The theorems
    quantify over all handlers, so they hold whatever the node does, and wherever
    a [tokio::time::timeout] interrupts the code.  Results are [Ok], [Err],
    [Panic] or [Elapsed]; a theorem about what a call returns says so for each.
    [Effects].[wp] is the proof method; [Traces] and [Observe] classify the
    events of a run; [Scenario] is a concrete node on which the witnesses run.

    ** Files

    - [Prelude], [RustStr]: integers at their width, lists, the string functions
      of the standard library that the sources use ([trim], [split],
      [strip_prefix], [u32::from_str]; white space is that of ASCII); [Timed]
      ([utils.rs]: futures that measure how long they take).
    - [Errors] ([error.rs]), [Chain] (runtime data), [Types]
      ([commands/multi_block/types.rs]: snapshot cache, submissions, messages),
      [Metrics] ([prometheus.rs]: registry and update functions), [Endpoint]
      (same file: the endpoint that serves them, and its place in the start of
      the process), [Strategy] ([commands/types.rs], [utils.rs]: submission
      strategies and score checks).
    - [Effects], [Calls], [Traces], [Observe], [Scenario]: programs, their runs,
      and reasoning about both; [Calls] has the judgements for straight-line code
      (what a program returns against any handler, what it yields against a
      given one).
    - [ChainAccess] ([utils.rs]: storage helpers); [Signing] ([signer.rs], and
      the signing extension of [dynamic/utils.rs]); [Submission]
      ([dynamic/multi_block.rs]: [submit] and what it calls), with its theorems
      in [SubmissionSafety], [SubmissionSpec], [SubmissionSends]; [SnapshotFetch]
      and [SnapshotSpec] (same file: fetching snapshots, mining).
    - [Miner] ([process_block], [mine_and_validate], [miner_task]) with
      [MinerSafety], [MinerSpec] and [MinerPanics] (the causes of its panics); [Delivery] has total correctness of the
      submission and of a block, on the nodes of its classes [Answering],
      [Cooperative] and [ServesRound]; [Retries] that of a submission whose
      transactions may be lost (class [Flaky]).
    - [Listener] ([process_listener_iteration], [listener_task]) with
      [ListenerSpec]; [Janitor] ([clear_old_rounds_task],
      [lazy_era_pruning_task]) with [JanitorSpec].
    - [System] and [SystemSpec] ([monitor_cmd]): the four tasks over their
      bounded channels as a transition system; the class [TaskSpec] states what
      a receiving task promises, and its instances discharge it from the
      theorems of the task.
    - [Client] and [ClientSpec] ([client.rs]).
    - [ElectionData] and [ElectionDataSpec] ([dynamic/election_data.rs],
      overrides and paging); [Tokens] ([utils.rs], printing amounts).
    - [Staking] and [StakingSpec] ([dynamic/staking.rs]): candidates, the walk
      over the bags list, voters in batches.
    - [Predictions] and [PredictionsSpec] (the rest of
      [dynamic/election_data.rs]; the prediction types of [commands/types.rs];
      the JSON files of [utils.rs]).
    - [Runtime] ([opt.rs], [static_types/multi_block.rs], [macros.rs],
      [dynamic/mod.rs], [dynamic/pallet_api.rs]): chains, parameter
      types, constants of the metadata; [Glue] ([dynamic/utils.rs] and the items
      of [dynamic/pallet_api.rs]): dynamic values, addresses and payloads, over a
      codec that is a class with laws; [Predict]
      ([commands/predict.rs], RPC helpers of [utils.rs]); the theorems on both
      are in [PredictSpec].
    - [Server] and [ServerSpec] ([commands/server.rs]): requests as programs, and
      the server as a transition system over its two semaphores; the class
      [ServerHandler] is the trait of the sources, [ConfinedHandler] what the
      server asks of it.  [Threads] adds the blocking threads of the solver
      ([spawn_blocking] in [mine_solution]) with their dropped handles.
    - [Main] and [MainSpec] ([main.rs], the start of [monitor_cmd] and [serve]):
      the process as a transition system of the main task, the upgrade task and
      the running command, which may be the system of [System] or of [Server].
      [Options] has the command line ([main.rs], [commands/types.rs]): the
      declared arguments and how the options are read from what [clap] matched
      (class [Clap]), with the unit tests of [main.rs].
    - [Cells]: the parameter types of [macros.rs] as memory that the main task,
      the upgrade task and the tasks of the monitor share; a step of the process
      reads what the cells hold and writes them.
    - [Conformance]: the unit tests of the repository that exercise modelled
      code, on the model.

    ** What the theorems show

    - Safety of what is signed.  Every transaction of the miner, over any
      sequence of messages and in the running system, is justified by what it read: a registration or page
      of a validated solution above the minimum score and beating the
      competition (a page may instead complete a submission it read, with that
      score and without that page), in a signed phase with enough blocks left and
      the right mortality; a bail only of a submission it read; with [--shady]
      nothing but registrations of the malicious score.  The housekeeping tasks
      claim only deposits of their own recent submissions and prune only the
      oldest era, at most once per block of the Off phase.
    - Liveness, outside shady mode.  On a node that answers, includes transactions
      and stays in the signed phase, one block makes the miner mine the solution of the round, if
      it has none, and send its registration and every page exactly once, in
      order, whatever the chunk size; the block returns [Ok].  On a node that
      loses transactions, but none twice, a submission without chunks ends with
      [Ok] after sending exactly the lost pages again.
    - Functional behaviour.  An [Ok] of [submit] without chunking, and a chunked
      round without failures, confirm every page; nonces are consecutive; a fetch
      that returns leaves the cache complete and coherent; batches, retries,
      cleanups, connection attempts, overrides and pages are described exactly.
    - Composition.  In the running system, under any interleaving, blocks reach
      the miner only from signed or snapshot phases the listener read, and eras are
      pruned at most once per block of the Off phase.  In the running process the constants are set
      before the command starts, the [unreachable!] of [run_command] is not
      reached, and the monitor and the server run from their initial states.  A
      prediction is correct from the staking state of the node, through the
      overrides and the pages the solver is given, to its result.
    - Refinement.  One block makes the listener send exactly the messages of an
      abstract listener; [fetch_voters] and [fetch_candidates] return abstract
      lists, whatever the batches; the walk over the bags list is the
      concatenation of the bags, and ends on every list.
    - The server.  At most one request holds the permit of a prediction, and only
      that one sets parameters or runs the solver, wherever requests time out,
      panic or are dropped; every branch of a request has its status.  With the
      threads of the solver the server still refines this, but a solver whose
      request is gone goes on: at most one runs more than were abandoned.
    - Shared memory.  While the monitor runs, every parameter type holds, and
      every page count a task has read was, a value of the metadata or of the
      configuration; a scrape of the metrics is complete once they are
      registered, and counters never go down from scrape to scrape.
    - Signing.  The signer signs for the account of its seed, and a transaction
      carries the [RestrictOrigins] extension exactly when the runtime takes it.
    - Invariants over the whole life of a task: mining once per round, counting a
      lost round once, telling about a round once, stopping pruning only after
      starting it, provenance of the cache, counters never decreasing, one update
      of the constants per change of the runtime version, the algorithm cell well
      typed, and the shared connection under concurrent reconnects.
    - Errors and panics.  The only panics of a block and what causes them, the only
      ways a task ends.
    - Round trips: strategies, endpoint lists, token amounts, the command line,
      and the payload of a transaction, which a node dispatches as the call it was
      built from.
    - Behaviour that differs from what the code or its comments intend is proved
      as well: a chunked submission that skips pages, missing pages counted as a
      success, the listener that is stuck after the recreation limit, a block
      buffered behind a busy miner, voters included twice, a division by zero, a
      voter limit that wraps, a prediction with the number of another block, an
      upgrade that goes unnoticed at the start, a page count that goes stale after
      an upgrade, solvers that pile up, a first scrape without the counters.

    ** Bounds

    Programs are inductive trees, so for any handler a run ends; loops over the
    life of a task take the messages, or the number of iterations, as an
    argument, and the theorems hold for all of them.  Retry loops carry the
    constants of the code (10 registrations, 3 connection attempts, 8 retries of a
    batch) and [chunks] as much fuel as the list is long, which [chunks_concat]
    shows to be enough.  The walk over a bag ([walk_bag]) has one step more than
    there are nodes, which [voter_list_walk_terminates] shows to be enough on any
    links, since every step but the last marks a node of the list.  Arithmetic on [u32], [u64] and [u128] wraps as in the release
    profile, which has no overflow checks, except where the code saturates.
    The schedules of [MainSpec], [Threads] and [Cells] that witnesses run take a list
    of moves or fuel; what they reach is evaluated, so too few would show.

    ** What is not modelled

    Log texts, reads that only feed the log, HTTP itself ([hyper]), the matcher of
    the command line ([clap]), the codec and the registry of types ([scale_info],
    [scale_value]), cryptography and key derivation, the encoding of metrics,
    SS58 addresses and JSON (parameters of the model, with the laws their crates
    document), code generated from runtime metadata, [run_command] on systems
    other than unix, the solver and subxt themselves (their errors become [Error::Subxt] in [Effects].[query], as
    the [From] implementations of [error.rs] do), and the reorderings of the
    relaxed atomics of [client.rs] (those of the parameter types are sequentially
    consistent).  An operation is atomic, except the solver, which [Threads] splits
    into its start and its end. *)

From stdpp Require Export base tactics option list list_numbers strings pretty.
From stdpp Require Export gmap fin_maps sorting.
From Stdlib Require Export ZArith Lia.

(** The development keeps its notations in a scope of its own. *)
Declare Scope miner_scope.
Delimit Scope miner_scope with miner.

(** Lemmas that discharge the routine side conditions of the components. *)
Create HintDb miner.

(** ** Results

    Rust's [Result<A, E>] as it is returned by code outside the crate. *)
Inductive Result (A E : Type) : Type :=
| ok (a : A)
| err (e : E).
Arguments ok {A E} a.
Arguments err {A E} e.

Definition is_ok {A E} (r : Result A E) : bool :=
  match r with ok _ => true | err _ => false end.

(** ** Machine integers

    Unsigned integers are [Z] values; the operations the sources use at a
    given width are written out. *)
Section integers.
Local Open Scope Z_scope.

Definition u32_max : Z := 2 ^ 32 - 1.
Definition u64_max : Z := 2 ^ 64 - 1.
Definition u128_max : Z := 2 ^ 128 - 1.

(** The range of a [u32]. *)
Definition is_u32 (z : Z) : Prop := 0 <= z <= u32_max.

(** [a + b] on [u32] in a build without overflow checks. *)
Definition u32_add (a b : Z) : Z := (a + b) mod 2 ^ 32.

(** [a - b] on [u32] in a build without overflow checks. *)
Definition u32_sub (a b : Z) : Z := (a - b) mod 2 ^ 32.

(** [u32::saturating_sub]. *)
Definition u32_saturating_sub (a b : Z) : Z := Z.max 0 (a - b).

(** [u32::saturating_add] and [u128::saturating_add]. *)
Definition u32_saturating_add (a b : Z) : Z := Z.min u32_max (a + b).
Definition u128_saturating_add (a b : Z) : Z := Z.min u128_max (a + b).

(** [a + b] on [u64] in a build without overflow checks. *)
Definition u64_add (a b : Z) : Z := (a + b) mod 2 ^ 64.

Lemma u32_add_small a b : 0 <= a + b <= u32_max -> u32_add a b = a + b.
Proof. unfold u32_add, u32_max. intros. apply Z.mod_small. lia. Qed.

Lemma u32_add_range a b : is_u32 (u32_add a b).
Proof.
  unfold is_u32, u32_add, u32_max.
  pose proof (Z.mod_pos_bound (a + b) (2 ^ 32)). lia.
Qed.

End integers.

(** ** Lists *)

(** [slice::chunks]; the first argument bounds the number of chunks. *)
Fixpoint chunks_fuel {A} (fuel n : nat) (l : list A) : list (list A) :=
  match fuel, l with
  | 0%nat, _ | _, [] => []
  | S fuel, _ => take n l :: chunks_fuel fuel n (drop n l)
  end.

Definition chunks {A} (n : nat) (l : list A) : list (list A) :=
  chunks_fuel (length l) n l.

Lemma chunks_fuel_concat {A} n (l : list A) : forall fuel,
  (0 < n)%nat -> (length l <= fuel)%nat -> concat (chunks_fuel fuel n l) = l.
Proof.
  intros fuel Hn. revert l. induction fuel as [|fuel IH]; intros l Hl.
  - by destruct l; simpl in *; [|lia].
  - destruct l as [|x l]; [done|].
    change (take n (x :: l) ++ concat (chunks_fuel fuel n (drop n (x :: l))) = x :: l).
    rewrite IH; [apply take_drop|]. rewrite length_drop. simpl in *. lia.
Qed.

Lemma chunks_concat {A} n (l : list A) : (0 < n)%nat -> concat (chunks n l) = l.
Proof. intros. by apply chunks_fuel_concat. Qed.

Lemma chunks_fuel_length {A} n (l : list A) : forall fuel,
  Forall (fun c => length c <= n)%nat (chunks_fuel fuel n l).
Proof.
  intros fuel. revert l. induction fuel as [|fuel IH]; intros l; [by destruct l; constructor|].
  destruct l as [|x l]; [constructor|].
  constructor; [rewrite length_take; lia|apply IH].
Qed.

Lemma chunks_length {A} n (l : list A) : Forall (fun c => length c <= n)%nat (chunks n l).
Proof. apply chunks_fuel_length. Qed.

(** Ranges are sorted. *)
Lemma seq_sorted k : forall j, StronglySorted lt (seq j k).
Proof.
  induction k as [|k IH]; intros j; cbn; constructor; [done|].
  apply Forall_forall. intros i Hi%elem_of_seq. lia.
Qed.

Lemma seqZ_sorted m n : StronglySorted Z.le (seqZ m n).
Proof.
  unfold seqZ. apply (StronglySorted_fmap _ lt); [intros; lia|]. apply seq_sorted.
Qed.

Lemma StronglySorted_list_filter {A} (R : relation A) (P : A -> Prop) `{!forall x, Decision (P x)} l :
  StronglySorted R l -> StronglySorted R (filter P l).
Proof.
  induction 1 as [|x l Hs IH Hx]; cbn; [constructor|].
  case_decide; [|done]. constructor; [done|].
  apply Forall_forall. intros y [_ Hy]%list_elem_of_filter. by eapply Forall_forall in Hx.
Qed.

Lemma zip_image {A B} (f : A -> B) l : zip l (f <$> l) = (fun a => (a, f a)) <$> l.
Proof. induction l as [|a l IH]; [done|]. cbn. by rewrite IH. Qed.

(** The order of a descending sort. *)
#[export] Instance Z_ge_trans : Transitive Z.ge.
Proof. intros x y z. lia. Qed.
#[export] Instance Z_ge_antisymm : AntiSymm (=) Z.ge.
Proof. intros x y. lia. Qed.
#[export] Instance Z_ge_total : Total Z.ge.
Proof. intros x y. lia. Qed.

(** In a sorted list an earlier element is related to every later one. *)
Lemma StronglySorted_lookup_lt {A} (R : relation A) (l : list A) i j x y :
  StronglySorted R l -> (i < j)%nat -> l !! i = Some x -> l !! j = Some y -> R x y.
Proof.
  intros Hs. revert i j. induction Hs as [|z l Hs IH Hz]; intros [|i] [|j] Hij Hi Hj; try done; try lia.
  - cbn in *. simplify_eq. rewrite Forall_forall in Hz. by apply Hz, list_elem_of_lookup_2 with j.
  - apply (IH i j); [lia|done|done].
Qed.

(** ** Stable sorting

    [slice::sort_by_key]: ascending keys, elements with equal keys in their
    original order. *)
Section stable_sort.
Local Open Scope Z_scope.
Context {A : Type} (key : A -> Z).

Fixpoint sort_insert (x : A) (l : list A) : list A :=
  match l with
  | [] => [x]
  | y :: l' => if key x <=? key y then x :: l else y :: sort_insert x l'
  end.

Definition sort_by_key (l : list A) : list A := foldr sort_insert [] l.

Definition key_le (x y : A) : Prop := key x <= key y.

Lemma sort_insert_permutation x l : sort_insert x l ≡ₚ x :: l.
Proof.
  induction l as [|y l IH]; cbn; [done|]. destruct (key x <=? key y); [done|].
  rewrite IH. constructor.
Qed.

Lemma sort_by_key_permutation l : sort_by_key l ≡ₚ l.
Proof. induction l as [|x l IH]; cbn; [done|]. by rewrite sort_insert_permutation, IH. Qed.

Lemma sort_insert_sorted x l : StronglySorted key_le l -> StronglySorted key_le (sort_insert x l).
Proof.
  induction 1 as [|y l Hl IH Hy]; cbn; [repeat constructor|].
  destruct (Z.leb_spec (key x) (key y)).
  - constructor; [by constructor|]. constructor; [done|].
    eapply Forall_impl; [exact Hy|]. unfold key_le. intros; lia.
  - constructor; [done|]. rewrite sort_insert_permutation. constructor; [unfold key_le; lia|done].
Qed.

Lemma sort_by_key_sorted l : StronglySorted key_le (sort_by_key l).
Proof. induction l; cbn; [constructor|by apply sort_insert_sorted]. Qed.

(** The elements with a given key. *)
Definition with_key (k : Z) (l : list A) : list A := filter (fun x => key x = k) l.

Lemma sort_insert_stable k x l : with_key k (sort_insert x l) = with_key k (x :: l).
Proof.
  unfold with_key. induction l as [|y l IH]; [done|]. cbn [sort_insert].
  destruct (Z.leb_spec (key x) (key y)); [done|]. rewrite !filter_cons, IH, filter_cons.
  repeat case_decide; try done. lia.
Qed.

Lemma sort_by_key_stable k l : with_key k (sort_by_key l) = with_key k l.
Proof.
  induction l as [|x l IH]; [done|]. cbn [sort_by_key foldr]. fold (sort_by_key l).
  rewrite sort_insert_stable. unfold with_key in *. by rewrite !filter_cons, IH.
Qed.

End stable_sort.

(** ** Strings *)

(** [str::contains]. *)
Fixpoint str_contains (needle hay : string) : bool :=
  String.prefix needle hay ||
  match hay with
  | EmptyString => false
  | String _ rest => str_contains needle rest
  end.
