(* ===== verification/RustStr.v ===== *)
(** * Strings of the Rust standard library

    [str::trim], [strip_prefix], [split], [u32::from_str] and decimal
    formatting, as the sources use them.  A string is the list of its bytes;
    the white space [trim] removes is the ASCII part of the Unicode property
    (the command line and the configuration of the miner are ASCII). *)

From stdpp Require Import pretty.
From Stdlib Require Import Ascii.
From S2P Require Import Prelude.
Local Open Scope Z_scope.

Definition is_whitespace (c : ascii) : bool :=
  match Ascii.nat_of_ascii c with
  | 9 | 10 | 11 | 12 | 13 | 32 => true
  | _ => false
  end%nat.

Fixpoint trim_start (s : string) : string :=
  match s with
  | String c rest => if is_whitespace c then trim_start rest else s
  | EmptyString => EmptyString
  end.

(** Drops white space at the end: a suffix is dropped when all of it is white. *)
Fixpoint trim_end (s : string) : string :=
  match s with
  | EmptyString => EmptyString
  | String c rest =>
      match trim_end rest with
      | EmptyString => if is_whitespace c then EmptyString else String c EmptyString
      | rest' => String c rest'
      end
  end.

Definition trim (s : string) : string := trim_start (trim_end s).

(** [str::strip_prefix] *)
Fixpoint strip_prefix (p s : string) : option string :=
  match p, s with
  | EmptyString, _ => Some s
  | String a p, String b s => if Ascii.eqb a b then strip_prefix p s else None
  | _, _ => None
  end.

(** [str::split] by a character: there is always a first piece. *)
Fixpoint split (sep : ascii) (s : string) : list string :=
  match s with
  | EmptyString => [EmptyString]
  | String c rest =>
      if Ascii.eqb c sep then EmptyString :: split sep rest
      else match split sep rest with
           | [] => [String c EmptyString]
           | piece :: pieces => String c piece :: pieces
           end
  end.

(** [u32::from_str] *)
Inductive IntErrorKind : Type := Empty | InvalidDigit | PosOverflow.

Definition to_digit (c : ascii) : option Z :=
  let n := Z.of_nat (Ascii.nat_of_ascii c) in
  if (48 <=? n) && (n <=? 57) then Some (n - 48) else None.

Fixpoint parse_digits (s : string) (result : Z) : Result Z IntErrorKind :=
  match s with
  | EmptyString => ok result
  | String c rest =>
      match to_digit c with
      | None => err InvalidDigit
      | Some d =>
          if u32_max <? result * 10 then err PosOverflow
          else if u32_max <? result * 10 + d then err PosOverflow
          else parse_digits rest (result * 10 + d)
      end
  end.

Definition parse_u32 (s : string) : Result Z IntErrorKind :=
  match s with
  | EmptyString => err Empty
  | String c rest =>
      if Ascii.eqb c "+"%char
      then match rest with EmptyString => err InvalidDigit | _ => parse_digits rest 0 end
      else parse_digits s 0
  end.

(** [format!("{e:?}")] of a [ParseIntError]. *)
Definition int_error_debug (e : IntErrorKind) : string :=
  "ParseIntError { kind: " +:+
  match e with Empty => "Empty" | InvalidDigit => "InvalidDigit" | PosOverflow => "PosOverflow" end +:+
  " }".

(** [char::escape_debug] as the [Debug] of a string applies it: the characters
    0, 9, 10, 13, the quote and the backslash have short escapes, the other
    ASCII control characters are written in hexadecimal. *)
Definition hex_digit (n : nat) : ascii :=
  Ascii.ascii_of_nat (if (n <? 10)%nat then 48 + n else 87 + n)%nat.

Definition escape_debug (c : ascii) : string :=
  let backslash := Ascii.ascii_of_nat 92 in
  let short (x : ascii) := String backslash (String x EmptyString) in
  match Ascii.nat_of_ascii c with
  | 0 => short "0"%char
  | 9 => short "t"%char
  | 10 => short "n"%char
  | 13 => short "r"%char
  | 34 => short c
  | 92 => short c
  | n =>
      if (n <? 16)%nat then String backslash ("u{" +:+ String (hex_digit n) "}")
      else if (n <? 32)%nat || (n =? 127)%nat
           then String backslash
                  ("u{" +:+ String (hex_digit (n / 16)) (String (hex_digit (n mod 16)) "}"))
      else String c EmptyString
  end%nat.

Fixpoint escape_all (s : string) : string :=
  match s with
  | EmptyString => EmptyString
  | String c rest => escape_debug c +:+ escape_all rest
  end.

(** [format!("{s:?}")] of a string. *)
Definition str_debug (s : string) : string :=
  let quote := String (Ascii.ascii_of_nat 34) EmptyString in
  quote +:+ escape_all s +:+ quote.

(** ** Lemmas *)

Lemma to_digit_pretty x : (x < 10)%N -> to_digit (pretty_N_char x) = Some (Z.of_N x).
Proof.
  intros Hx. destruct x as [|p]; [done|].
  do 4 (try destruct p as [p|p|]); done || lia.
Qed.

Lemma to_digit_not_ws c d : to_digit c = Some d -> is_whitespace c = false.
Proof. by destruct c as [[] [] [] [] [] [] [] []]. Qed.

(** The digits [pretty] prints parse back to the number. *)
Lemma parse_digits_pretty (x : N) : Z.of_N x <= u32_max -> forall s,
  parse_digits (pretty_N_go x s) 0 = parse_digits s (Z.of_N x).
Proof.
  induction (N.lt_wf_0 x) as [x _ IH]. intros Hx s.
  destruct (decide (0 < x)%N) as [Hpos|Hz]; [|by replace x with 0%N by lia; rewrite pretty_N_go_0].
  assert (Z.of_N x = Z.of_N (x / 10) * 10 + Z.of_N (x mod 10)) as Hdiv.
  { rewrite (N.div_mod x 10) at 1 by done. lia. }
  pose proof (N.mod_lt x 10 ltac:(done)) as Hr. pose proof (N.div_lt x 10 Hpos ltac:(done)) as Hq.
  rewrite pretty_N_go_step by done. revert Hdiv Hr Hq.
  generalize (x / 10)%N (x mod 10)%N. intros q r Hdiv Hr Hq.
  rewrite IH by (done || lia). cbn. rewrite to_digit_pretty by done.
  destruct (Z.ltb_spec u32_max (Z.of_N q * 10)); [lia|].
  destruct (Z.ltb_spec u32_max (Z.of_N q * 10 + Z.of_N r)); [lia|].
  by rewrite <- Hdiv.
Qed.

Lemma parse_digits_pretty_Z n : 0 <= n <= u32_max -> parse_digits (pretty n) 0 = ok n.
Proof.
  intros Hn. destruct n as [|p|p]; [done| |lia].
  change (pretty (Z.pos p)) with (pretty_N_go (N.pos p) "").
  rewrite parse_digits_pretty by lia. done.
Qed.

(** [u32::from_str] inverts the decimal [Display]. *)
Lemma parse_u32_pretty n : is_u32 n -> parse_u32 (pretty n) = ok n.
Proof.
  intros Hn. pose proof (parse_digits_pretty_Z n Hn) as Hp.
  destruct (pretty n) as [|c rest] eqn:Hs.
  - injection Hp as <-. by compute in Hs.
  - cbn. destruct (Ascii.eqb_spec c "+"%char) as [->|]; [done|exact Hp].
Qed.

Lemma parse_u32_range s n : parse_u32 s = ok n -> is_u32 n.
Proof.
  assert (forall s r n, is_u32 r -> parse_digits s r = ok n -> is_u32 n) as Hd.
  { clear s n. induction s as [|c s IH]; intros r n Hr; cbn; [by intros [= <-]|].
    destruct (to_digit c) as [d|] eqn:Hd; [|done].
    destruct (Z.ltb_spec u32_max (r * 10)); [done|].
    destruct (Z.ltb_spec u32_max (r * 10 + d)); [done|]. apply IH.
    unfold to_digit in Hd. case_match eqn:E; [|done]. injection Hd as <-.
    apply andb_prop in E as [?%Z.leb_le ?%Z.leb_le]. unfold is_u32 in *. lia. }
  assert (is_u32 0) by (unfold is_u32, u32_max; lia).
  destruct s as [|c rest]; cbn [parse_u32]; [done|]. case_match; [|by apply Hd].
  destruct rest; [done|by apply Hd].
Qed.

(** Text without white space at its ends is not changed by [trim]. *)
Lemma trim_end_digits s : forall r n, parse_digits s r = ok n -> trim_end s = s.
Proof.
  induction s as [|c s IH]; intros r n; cbn; [done|].
  destruct (to_digit c) as [d|] eqn:Hd; [|done].
  destruct (u32_max <? r * 10); [done|]. destruct (u32_max <? r * 10 + d); [done|].
  intros Hs%IH. rewrite Hs. destruct s; [|done]. by rewrite (to_digit_not_ws c d).
Qed.

Lemma trim_end_app a b : trim_end b <> "" -> trim_end (a +:+ b) = a +:+ trim_end b.
Proof.
  intros Hb. induction a as [|c a IH]; [done|].
  change (match trim_end (a +:+ b) with
          | EmptyString => if is_whitespace c then EmptyString else String c EmptyString
          | rest' => String c rest'
          end = String c (a +:+ trim_end b)).
  rewrite IH. destruct a; [|done]. cbn. by destruct (trim_end b).
Qed.

Lemma trim_white s : trim_start s = s -> trim_end s = s -> trim s = s.
Proof. unfold trim. by intros ? ->. Qed.

Lemma strip_prefix_app p s : strip_prefix p (p +:+ s) = Some s.
Proof. 
  induction p as [|c p IH]; [done|].
  change (strip_prefix (String c p) (String c (p +:+ s)) = Some s).
  cbn [strip_prefix]. by rewrite Ascii.eqb_refl.
Qed.

Lemma strip_prefix_Some p : forall s rest, strip_prefix p s = Some rest -> s = p +:+ rest.
Proof.
  induction p as [|a p IH]; intros s rest; cbn; [by intros [= <-]|].
  destruct s as [|b s]; [done|]. destruct (Ascii.eqb_spec a b); [|done].
  intros Hs%IH. by subst.
Qed.

(** [trim] is idempotent. *)
Lemma trim_end_idemp s : trim_end (trim_end s) = trim_end s.
Proof.
  induction s as [|c s IH]; cbn; [done|]. destruct (trim_end s) as [|a s'] eqn:E.
  - destruct (is_whitespace c) eqn:Hc; [done|]. cbn. by rewrite Hc.
  - change (match trim_end (String a s') with
            | EmptyString => if is_whitespace c then EmptyString else String c EmptyString
            | rest' => String c rest'
            end = String c (String a s')). by rewrite IH.
Qed.

Lemma trim_end_tail c s : trim_end (String c s) = String c s -> trim_end s = s.
Proof.
  cbn. destruct (trim_end s) as [|a s'] eqn:E; [|by intros [= ->]].
  destruct (is_whitespace c); [done|]. by intros [= <-].
Qed.

Lemma trim_end_trim_start s : trim_end s = s -> trim_end (trim_start s) = trim_start s.
Proof.
  induction s as [|c s IH]; intros Hs; [done|]. cbn [trim_start].
  destruct (is_whitespace c); [|done]. by eapply IH, trim_end_tail.
Qed.

Lemma trim_start_idemp s : trim_start (trim_start s) = trim_start s.
Proof.
  induction s as [|c s IH]; cbn; [done|]. destruct (is_whitespace c) eqn:Hc; [done|].
  cbn. by rewrite Hc.
Qed.

Lemma trim_idemp s : trim (trim s) = trim s.
Proof.
  unfold trim. rewrite trim_end_trim_start by apply trim_end_idemp. apply trim_start_idemp.
Qed.

(** ** Splitting *)

(** [str::contains] for a character. *)
Fixpoint has_char (c : ascii) (s : string) : bool :=
  match s with
  | EmptyString => false
  | String a rest => Ascii.eqb a c || has_char c rest
  end.

Lemma split_no_sep sep s : has_char sep s = false -> split sep s = [s].
Proof.
  induction s as [|c s IH]; cbn; [done|]. intros [Hc Hs]%orb_false_iff. by rewrite Hc, IH.
Qed.

Lemma split_cons_sep sep a b :
  has_char sep a = false -> split sep (a +:+ String sep b) = a :: split sep b.
Proof.
  induction a as [|c a IH]; intros Ha.
  - change (split sep (String sep b) = "" :: split sep b). cbn. by rewrite Ascii.eqb_refl.
  - cbn in Ha. apply orb_false_iff in Ha as [Hc Ha].
    change (split sep (String c (a +:+ String sep b)) = String c a :: split sep b). cbn [split].
    by rewrite Hc, IH.
Qed.

Lemma split_pieces sep s : Forall (fun x => has_char sep x = false) (split sep s).
Proof.
  induction s as [|c s IH]; cbn; [by repeat constructor|].
  destruct (Ascii.eqb c sep) eqn:Hc; [by constructor|].
  destruct (split sep s) as [|x xs]; [constructor; [|done]|]; cbn; rewrite ?Hc; [done|].
  apply Forall_cons in IH as [Hx Hxs]. constructor; [cbn; by rewrite Hc|done].
Qed.

Lemma has_char_trim_end c s : has_char c s = false -> has_char c (trim_end s) = false.
Proof.
  induction s as [|a s IH]; cbn; [done|]. intros [Ha Hs]%orb_false_iff. specialize (IH Hs).
  destruct (trim_end s); [destruct (is_whitespace a)|]; cbn in *; by rewrite ?Ha, ?IH.
Qed.

Lemma has_char_trim_start c s : has_char c s = false -> has_char c (trim_start s) = false.
Proof.
  induction s as [|a s IH]; [done|]. cbn [trim_start]. intros H.
  destruct (is_whitespace a); [|done]. apply IH. cbn in H. by apply orb_false_iff in H as [_ ?].
Qed.

Lemma has_char_trim c s : has_char c s = false -> has_char c (trim s) = false.
Proof. intros. by apply has_char_trim_start, has_char_trim_end. Qed.
