(* ===== verification/Timed.v ===== *)
(** * Measuring how long a future takes

    [Timed] and [TimedFuture] of [src/utils.rs].  A future is a state machine that
    its executor polls; [Timed] polls the future inside it and keeps the time of
    its own first poll. *)

From S2P Require Import Prelude.
Local Open Scope Z_scope.

(** [std::future::Future]: [None] is [Poll::Pending]. *)
Class Future (F A : Type) : Type := poll : F -> F * option A.

(** [std::time::Instant], in nanoseconds; a clock that went backwards gives zero. *)
Definition Instant : Type := Z.
Definition elapsed (start now : Instant) : Z := Z.max 0 (now - start).

Record Timed (F : Type) : Type := {
  inner : F;
  start : option Instant;
}.
Arguments inner {F} t.
Arguments start {F} t.

(** [TimedFuture::timed] *)
Definition timed {F} (f : F) : Timed F := {| inner := f; start := None |}.

Section timed.
Context `{Fut : Future F A}.

(** [Timed::poll]; the clock is read at [now] when the poll begins, if there is no
    start yet, and at [later] when the inner future is ready. *)
Definition timed_poll (now later : Instant) (this : Timed F) : Timed F * option (A * Z) :=
  let start := default now (start this) in
  let '(f, r) := poll (inner this) in
  ({| inner := f; start := Some start |},
   match r with
   | None => None
   | Some v => Some (v, elapsed start later)
   end).

(** The state of a future after [n] polls. *)
Fixpoint polled (n : nat) (f : F) : F :=
  match n with 0%nat => f | S n => (poll (polled n f)).1 end.

(** The same for the timed future; [clock i] are the two readings of poll [i]. *)
Fixpoint timed_polled (clock : nat -> Instant * Instant) (n : nat) (f : F) : Timed F :=
  match n with
  | 0%nat => timed f
  | S n => (timed_poll (clock n).1 (clock n).2 (timed_polled clock n f)).1
  end.

Lemma timed_polled_state clock n f :
  timed_polled clock n f =
  {| inner := polled n f; start := match n with 0%nat => None | _ => Some (clock 0%nat).1 end |}.
Proof.
  induction n as [|n IH]; [done|]. cbn. rewrite IH. unfold timed_poll. cbn.
  destruct (poll (polled n f)) as [f' r]. cbn. by destruct n.
Qed.

(** A timed future is ready exactly when the future inside it is, at the same poll
    and with its value, and the time is that since the first poll: a future that
    is made long before it is awaited does not count the time in between. *)
Theorem timed_measures clock n f :
  (timed_poll (clock n).1 (clock n).2 (timed_polled clock n f)).2 =
  (fun v => (v, elapsed (clock 0%nat).1 (clock n).2)) <$> (poll (polled n f)).2.
Proof.
  rewrite timed_polled_state. unfold timed_poll. cbn.
  destruct (poll (polled n f)) as [f' [v|]]; [|done]. cbn. by destruct n.
Qed.

End timed.

(** A future that is ready at its third poll. *)
#[local] Instance countdown : Future nat string :=
  fun n => match n with 0%nat => (0%nat, Some "done") | S n => (n, None) end.

Example third_poll :
  (fun n => (timed_poll (100 + 10 * Z.of_nat n) (105 + 10 * Z.of_nat n)
     (timed_polled (fun i => (100 + 10 * Z.of_nat i, 105 + 10 * Z.of_nat i)) n 2%nat)).2) <$> [0; 1; 2]%nat
  = [None; None; Some ("done", 25)].
Proof. reflexivity. Qed.
