(* ===== verification/Errors.v ===== *)
(** * Errors of the miner

    The error types of [src/error.rs] and the two classifications of
    [src/commands/multi_block/monitor.rs] that decide whether a task keeps
    running after an error ([is_critical_miner_error],
    [is_critical_listener_error]), and the texts the error types print. *)

From S2P Require Import Prelude RustStr.
Local Open Scope Z_scope.

(** The score of an election solution ([sp_npos_elections::ElectionScore]):
    the three fields the sources read and write. *)
Record ElectionScore : Type := {
  minimal_stake : Z;
  sum_stake : Z;
  sum_stake_squared : Z;
}.

#[export] Instance ElectionScore_eq_dec : EqDecision ElectionScore.
Proof. solve_decision. Defined.

(** The variants of [subxt::Error] that the sources name; every other variant
    is [SubxtOther].  No code of the crate inspects their payload. *)
Inductive SubxtError : Type :=
| ExtrinsicError
| TransactionFinalizedSuccessError
| TransactionProgressError
| TransactionStatusError
| TransactionEventsError
| OtherRpcClientError
| BackendError
| StorageError
| StorageValueError
| SubxtOther.

#[export] Instance SubxtError_eq_dec : EqDecision SubxtError.
Proof. solve_decision. Defined.

Module TimeoutError.
Inductive t : Type :=
| Mining (timeout_secs : Z)
| CheckExistingSubmission (timeout_secs : Z)
| Bail (timeout_secs : Z)
| Submit (timeout_secs : Z)
| PhaseCheck (timeout_secs : Z)
| ScoreCheck (timeout_secs : Z)
| MissingPages (timeout_secs : Z)
| InitialConnection (timeout_secs attempt max_attempts : Z).
End TimeoutError.

Module ChannelFailureError.
Inductive t : Type := Miner | EraPruning | ClearOldRounds.
End ChannelFailureError.

Module TaskFailureError.
Inductive t : Type := Listener | Miner | EraPruning | ClearOldRounds.
End TaskFailureError.

(** Payloads that are errors of other crates are kept as the text the crate
    prints for them. *)
Module Error.
Inductive t : Type :=
| LogParse (e : string)
| Io (e : string)
| Rpc (e : string)
| Subxt (e : SubxtError)
| Crypto (e : string)
| Codec (e : string)
| AccountDoesNotExists
| InvalidChain (chain : string)
| Other (msg : string)
| InvalidMetadata (msg : string)
| DynamicTransaction (msg : string)
| Feasibility (msg : string)
| Join (e : string)
| EmptySnapshot
| MissingTxEvent (msg : string)
| FailedToSubmitPages (n : Z)
| InsufficientSignedPhaseBlocks (blocks_remaining min_blocks : Z)
| PhaseChangedDuringSubmission (new_phase : string) (round : Z)
| SolutionValidation (desired_targets solution_winner_count : Z)
| WrongPageCount (solution_pages max_pages : Z)
| WrongRound (solution_round current_round : Z)
| ScoreBelowMinimum (score minimum : ElectionScore)
| Timeout (e : TimeoutError.t)
| SubscriptionRecreationLimitExceeded (max_attempts : Z)
| ChannelFailure (e : ChannelFailureError.t)
| TaskFailure (e : TaskFailureError.t)
| SerdeJson (e : string).
End Error.

#[export] Instance TimeoutError_eq_dec : EqDecision TimeoutError.t.
Proof. solve_decision. Defined.
#[export] Instance ChannelFailureError_eq_dec : EqDecision ChannelFailureError.t.
Proof. solve_decision. Defined.
#[export] Instance TaskFailureError_eq_dec : EqDecision TaskFailureError.t.
Proof. solve_decision. Defined.
#[export] Instance Error_eq_dec : EqDecision Error.t.
Proof. solve_decision. Defined.

(** [is_critical_miner_error]: does the miner (or the clear-old-rounds) task
    exit on this error? *)
Definition is_critical_miner_error (e : Error.t) : bool :=
  match e with
  | Error.Join _ | Error.Feasibility _ | Error.EmptySnapshot
  | Error.FailedToSubmitPages _ | Error.SolutionValidation _ _
  | Error.WrongPageCount _ _ | Error.WrongRound _ _
  | Error.ScoreBelowMinimum _ _ | Error.Timeout _ => false
  | Error.Subxt
      (ExtrinsicError | TransactionFinalizedSuccessError
      | TransactionProgressError | TransactionStatusError
      | TransactionEventsError | OtherRpcClientError | BackendError
      | StorageError | StorageValueError) => false
  | Error.InsufficientSignedPhaseBlocks _ _ => false
  | Error.PhaseChangedDuringSubmission _ _ => false
  | _ => true
  end.

(** [is_critical_listener_error]: does the listener task exit on this error? *)
Definition is_critical_listener_error (e : Error.t) : bool :=
  match e with
  | Error.ChannelFailure _ => true
  | Error.TaskFailure _ => true
  | Error.Other msg => str_contains "Subscription terminated" msg
  | _ => false
  end.

(** ** Display

    The [#[error(..)]] attributes.  [subxt] is the text of a boxed
    [subxt::Error] and [score] the [Debug] text of a score, both printed by
    other crates. *)
Definition timeout_error_display (e : TimeoutError.t) : string :=
  let after (what : string) (secs : Z) :=
    what +:+ " timed out after " +:+ pretty secs +:+ " seconds" in
  match e with
  | TimeoutError.Mining n => after "Solution mining" n
  | TimeoutError.CheckExistingSubmission n => after "Checking existing submission" n
  | TimeoutError.Bail n => after "Bail operation" n
  | TimeoutError.Submit n => after "Solution submission" n
  | TimeoutError.PhaseCheck n => after "Phase check" n
  | TimeoutError.ScoreCheck n => after "Score check" n
  | TimeoutError.MissingPages n => after "Missing pages submission" n
  | TimeoutError.InitialConnection n attempt max_attempts =>
      after "Initial connection" n +:+ " (attempt " +:+ pretty attempt +:+ "/"
        +:+ pretty max_attempts +:+ ")"
  end.

Definition channel_failure_display (e : ChannelFailureError.t) : string :=
  match e with
  | ChannelFailureError.Miner => "Miner command channel closed unexpectedly"
  | ChannelFailureError.EraPruning => "Era pruning command channel closed unexpectedly"
  | ChannelFailureError.ClearOldRounds => "Clear old rounds command channel closed unexpectedly"
  end.

Definition task_failure_display (e : TaskFailureError.t) : string :=
  match e with
  | TaskFailureError.Listener => "Listener task terminated unexpectedly"
  | TaskFailureError.Miner => "Miner task terminated unexpectedly"
  | TaskFailureError.EraPruning => "Era pruning task terminated unexpectedly"
  | TaskFailureError.ClearOldRounds => "Clear old rounds task terminated unexpectedly"
  end.

Definition error_display (subxt : SubxtError -> string) (score : ElectionScore -> string)
    (e : Error.t) : string :=
  match e with
  | Error.LogParse x => "Failed to parse log directive: `" +:+ x +:+ "´"
  | Error.Io x => "I/O error: `" +:+ x +:+ "`"
  | Error.Rpc x => "RPC error: `" +:+ x +:+ "`"
  | Error.Subxt x => "subxt error: `" +:+ subxt x +:+ "`"
  | Error.Crypto x => "Crypto error: `" +:+ x +:+ "`"
  | Error.Codec x => "Codec error: `" +:+ x +:+ "`"
  | Error.AccountDoesNotExists => "The account does not exist"
  | Error.InvalidChain x =>
      "Invalid chain: `" +:+ x +:+
      "`, staking-miner supports only polkadot, kusama, westend, node and asset-hub-next"
  | Error.Other x => "Other error: `" +:+ x +:+ "`"
  | Error.InvalidMetadata x => "Invalid metadata: " +:+ x
  | Error.DynamicTransaction x => "Dynamic transaction error: " +:+ x
  | Error.Feasibility x => "Feasibility error: " +:+ x
  | Error.Join x => x
  | Error.EmptySnapshot => "Empty snapshot"
  | Error.MissingTxEvent x => "Missing event for transaction: " +:+ x
  | Error.FailedToSubmitPages n => "Failed to submit " +:+ pretty n +:+ " pages"
  | Error.InsufficientSignedPhaseBlocks blocks_remaining min_blocks =>
      "Signed phase has insufficient blocks remaining: " +:+ pretty blocks_remaining +:+
      " (need at least " +:+ pretty min_blocks +:+ ")"
  | Error.PhaseChangedDuringSubmission new_phase round =>
      "Phase changed from Signed to " +:+ str_debug new_phase +:+
      " during submission for round " +:+ pretty round
  | Error.SolutionValidation desired_targets solution_winner_count =>
      "Solution validation failed: desired_targets (" +:+ pretty desired_targets +:+
      ") != solution winner count (" +:+ pretty solution_winner_count +:+ ")"
  | Error.WrongPageCount solution_pages max_pages =>
      "Wrong page count: solution has " +:+ pretty solution_pages +:+
      " pages but maximum is " +:+ pretty max_pages
  | Error.WrongRound solution_round current_round =>
      "Wrong round: solution is for round " +:+ pretty solution_round +:+
      " but current round is " +:+ pretty current_round
  | Error.ScoreBelowMinimum sc minimum =>
      "Mined solution score " +:+ score sc +:+ " does not exceed on-chain minimum score " +:+
      score minimum +:+ "; not submitting to avoid a slashed deposit"
  | Error.Timeout x => "Operation timed out: " +:+ timeout_error_display x
  | Error.SubscriptionRecreationLimitExceeded max_attempts =>
      "Exceeded maximum subscription recreation attempts (" +:+ pretty max_attempts +:+ ")"
  | Error.ChannelFailure x => "Channel failure: " +:+ channel_failure_display x
  | Error.TaskFailure x => "Task failure: " +:+ task_failure_display x
  | Error.SerdeJson x => "JSON serialization error: `" +:+ x +:+ "`"
  end.
