(* ===== verification/Strategy.v ===== *)
(** * Submission strategies

    [SubmissionStrategy] of [src/commands/types.rs] with its parser, and the
    two score checks of [src/utils.rs].  The comparison of scores and
    [Perbill] belong to polkadot-sdk: they are the class [ScoreOrder], with
    the documented facts the miner relies on as laws. *)

From S2P Require Import Prelude RustStr Errors.
Local Open Scope Z_scope.

(** [sp_runtime::Perbill] and the comparisons of
    [sp_npos_elections::ElectionScore]. *)
Class ScoreOrder : Type := {
  Perbill : Type;
  perbill_zero : Perbill;
  from_percent : Z -> Perbill;
  strict_threshold_better : ElectionScore -> ElectionScore -> Perbill -> bool;
  strict_better : ElectionScore -> ElectionScore -> bool;
}.

(** What the documentation of [ElectionScore] promises: [strict_better] is the
    comparison with threshold zero and a strict order, and being better by a
    threshold is stronger than being better. *)
Class ScoreOrderLaws `{ScoreOrder} : Prop := {
  strict_better_zero a b : strict_better a b = strict_threshold_better a b perbill_zero;
  strict_better_irrefl a : strict_better a a = false;
  strict_better_trans a b c :
    strict_better a b = true -> strict_better b c = true -> strict_better a c = true;
  threshold_better_strict a b eps :
    strict_threshold_better a b eps = true -> strict_better a b = true;
}.

Section strategy.
Context `{ScoreOrder}.

(** [SubmissionStrategy] *)
Inductive SubmissionStrategy : Type :=
| Always
| IfLeading
| ClaimNoWorseThan (p : Perbill)
| ClaimBetterThan (p : Perbill).

(** [SubmissionStrategy::from_str] *)
Definition strategy_from_str (s : string) : Result SubmissionStrategy string :=
  let s := trim s in
  if String.eqb s "if-leading" then ok IfLeading
  else if String.eqb s "always" then ok Always
  else match strip_prefix "no-worse-than " s with
  | Some percent =>
      match parse_u32 percent with
      | ok n => ok (ClaimNoWorseThan (from_percent n))
      | err e => err (int_error_debug e)
      end
  | None =>
      match strip_prefix "percent-better " s with
      | Some percent =>
          match parse_u32 percent with
          | ok n => ok (ClaimBetterThan (from_percent n))
          | err e => err (int_error_debug e)
          end
      | None => err s
      end
  end.

(** [score_passes_strategy] *)
Definition score_passes_strategy (our_score best_score : ElectionScore)
    (strategy : SubmissionStrategy) : bool :=
  match strategy with
  | Always => true
  | IfLeading => strict_threshold_better our_score best_score perbill_zero
  | ClaimBetterThan epsilon => strict_threshold_better our_score best_score epsilon
  | ClaimNoWorseThan epsilon => negb (strict_threshold_better best_score our_score epsilon)
  end.

(** [meets_minimum_score] *)
Definition meets_minimum_score (score : ElectionScore) (minimum : option ElectionScore) : bool :=
  match minimum with
  | None => true
  | Some min => strict_better score min
  end.

Lemma strict_better_asym `{!ScoreOrderLaws} a b :
  strict_better a b = true -> strict_better b a = false.
Proof.
  intros Hab. destruct (strict_better b a) eqn:Hba; [|done].
  pose proof (strict_better_trans a b a Hab Hba). by rewrite strict_better_irrefl in *.
Qed.

End strategy.

(** A concrete order for the examples: scores compare by [minimal_stake], and
    a threshold is a number of units. *)
Definition stake_order : ScoreOrder := {|
  Perbill := Z;
  perbill_zero := 0;
  from_percent := fun n => Z.min n 100 * 10000000;
  strict_threshold_better := fun a b eps => Z.max 0 eps <? minimal_stake a - minimal_stake b;
  strict_better := fun a b => 0 <? minimal_stake a - minimal_stake b;
|}.

Lemma stake_order_laws : @ScoreOrderLaws stake_order.
Proof. split; cbn; intros; lia || done. Qed.

(** the strategies are ordered from strict to permissive: a score that
    passes [ClaimBetterThan] passes [IfLeading], one that passes [IfLeading]
    passes [ClaimNoWorseThan] and [Always]; and with equal scores [IfLeading]
    and [ClaimBetterThan] refuse, [ClaimNoWorseThan] accepts. *)
Theorem strategies_ordered `{ScoreOrderLaws} ours best eps eps' :
  (score_passes_strategy ours best (ClaimBetterThan eps) = true ->
     score_passes_strategy ours best IfLeading = true) /\
  (score_passes_strategy ours best IfLeading = true ->
     score_passes_strategy ours best (ClaimNoWorseThan eps') = true /\
     strict_better ours best = true /\ score_passes_strategy best ours IfLeading = false) /\
  score_passes_strategy ours best Always = true /\
  score_passes_strategy ours ours IfLeading = false /\
  score_passes_strategy ours ours (ClaimBetterThan eps) = false /\
  score_passes_strategy ours ours (ClaimNoWorseThan eps) = true.
Proof.
  assert (forall a e, strict_threshold_better a a e = false) as Hirr.
  { intros a e. destruct (strict_threshold_better a a e) eqn:E; [|done].
    apply threshold_better_strict in E. by rewrite strict_better_irrefl in E. }
  cbn. rewrite <- !strict_better_zero, strict_better_irrefl, !Hirr. split_and!; try done.
  - apply threshold_better_strict.
  - intros Hlead. split_and!; [|done|by apply strict_better_asym].
    destruct (strict_threshold_better best ours eps') eqn:E; [|done].
    apply threshold_better_strict in E. apply strict_better_asym in E. congruence.
Qed.

Lemma strategies_ordered_witness :
  let ours := {| minimal_stake := 12; sum_stake := 0; sum_stake_squared := 0 |} in
  let best := {| minimal_stake := 10; sum_stake := 0; sum_stake_squared := 0 |} in
  @score_passes_strategy stake_order ours best (@ClaimBetterThan stake_order 1) = true /\
  @score_passes_strategy stake_order ours best (@IfLeading stake_order) = true.
Proof.
  intros ours best. split; [reflexivity|].
  apply (@strategies_ordered stake_order stake_order_laws ours best 1 0).
Defined.

(** Every strategy the documentation of the command line lists parses to
    itself, with white space around it ignored for the keywords, any percentage
    that fits in a [u32] accepted, and everything else refused with an error
    that repeats the text. *)
Theorem strategy_from_str_spec `{ScoreOrder} s n :
  is_u32 n ->
  strategy_from_str "if-leading" = ok IfLeading /\
  strategy_from_str "always" = ok Always /\
  strategy_from_str ("no-worse-than " +:+ pretty n) = ok (ClaimNoWorseThan (from_percent n)) /\
  strategy_from_str ("percent-better " +:+ pretty n) = ok (ClaimBetterThan (from_percent n)) /\
  strategy_from_str s = strategy_from_str (trim s) /\
  (forall st, strategy_from_str s = ok st ->
     match st with
     | IfLeading => trim s = "if-leading"
     | Always => trim s = "always"
     | ClaimNoWorseThan p => exists t m, trim s = "no-worse-than " +:+ t /\
         parse_u32 t = ok m /\ p = from_percent m
     | ClaimBetterThan p => exists t m, trim s = "percent-better " +:+ t /\
         parse_u32 t = ok m /\ p = from_percent m
     end).
Proof.
  intros Hn.
  assert (forall p, trim_start (p +:+ pretty n) = p +:+ pretty n ->
    trim (p +:+ pretty n) = p +:+ pretty n) as Htrim.
  { intros p Hs. apply trim_white; [done|].
    pose proof (parse_digits_pretty_Z n Hn) as Hp. pose proof (trim_end_digits _ _ _ Hp) as Ht.
    rewrite trim_end_app; rewrite Ht; [done|]. intros Hs'. rewrite Hs' in Hp.
    injection Hp as <-. by compute in Hs'. }
  split_and!.
  - reflexivity.
  - reflexivity.
  - unfold strategy_from_str. rewrite Htrim by done. cbn [String.eqb].
    rewrite strip_prefix_app, parse_u32_pretty by done. done.
  - unfold strategy_from_str. rewrite Htrim by done.
    rewrite strip_prefix_app, parse_u32_pretty by done. done.
  - unfold strategy_from_str. by rewrite trim_idemp.
  - intros st. unfold strategy_from_str.
    destruct (String.eqb_spec (trim s) "if-leading"); [by intros [= <-]|].
    destruct (String.eqb_spec (trim s) "always"); [by intros [= <-]|].
    destruct (strip_prefix "no-worse-than " (trim s)) as [t|] eqn:Hw.
    { apply strip_prefix_Some in Hw. destruct (parse_u32 t) as [m|] eqn:Hm; [|done].
      intros [= <-]. by exists t, m. }
    destruct (strip_prefix "percent-better " (trim s)) as [t|] eqn:Hb; [|done].
    apply strip_prefix_Some in Hb. destruct (parse_u32 t) as [m|] eqn:Hm; [|done].
    intros [= <-]. by exists t, m.
Qed.

Lemma strategy_from_str_spec_witness :
  @strategy_from_str stake_order ("no-worse-than " +:+ pretty 99) =
    ok (@ClaimNoWorseThan stake_order 990000000).
Proof.
  apply (@strategy_from_str_spec stake_order "" 99). unfold is_u32, u32_max. lia.
Defined.
