(* ===== verification/Chain.v ===== *)
(** * Data exchanged with the chain

    The values the miner reads from and writes to the node.  These types come
    from the runtime metadata, from subxt and from polkadot-sdk; only what the
    sources use of them is kept.  The generic parameter [T: MinerConfig] of the
    sources is the class [MinerConfig]. *)

From S2P Require Import Prelude Errors.
Local Open Scope Z_scope.

(** [AccountId32] and [H256], as the big-endian value of their 32 bytes. *)
Definition AccountId : Type := Z.
Definition Hash : Type := Z.

(** The election phase.  The sources match on [Off], [Signed] and [Snapshot];
    every other variant is [OtherPhase] with its debug text. *)
Inductive Phase : Type :=
| Off
| Signed (blocks_remaining : Z)
| Snapshot_ (page : Z)
| OtherPhase (text : string).

#[export] Instance Phase_eq_dec : EqDecision Phase.
Proof. solve_decision. Defined.

(** [format!("{phase:?}")] *)
Definition phase_debug (p : Phase) : string :=
  match p with
  | Off => "Off"
  | Signed n => "Signed(" +:+ pretty n +:+ ")"
  | Snapshot_ n => "Snapshot(" +:+ pretty n +:+ ")"
  | OtherPhase s => s
  end.

Definition is_off (p : Phase) : bool :=
  match p with Off => true | _ => false end.

Definition is_signed (p : Phase) : bool :=
  match p with Signed _ => true | _ => false end.

(** A client positioned at a block ([subxt::OnlineClientAtBlock]). *)
Record AtBlock : Type := {
  ab_hash : Hash;
  ab_number : Z;
  ab_spec_version : Z;
}.

(** A block header: only its number is used. *)
Record Header : Type := { number : Z }.

Record AccountInfo : Type := { ai_nonce : Z; ai_free : Z }.

(** [SubmissionMetadata] of the signed pallet: the claimed score and one flag
    per page. *)
Record SubmissionMetadata : Type := {
  claimed_score : ElectionScore;
  sm_pages : list bool;
}.

(** [frame_election_provider_support::Voter]: stash, stake, votes. *)
Definition Voter : Type := AccountId * Z * list AccountId.
Definition TargetSnapshotPage : Type := list AccountId.
Definition VoterSnapshotPage : Type := list Voter.

(** What the sources take from their parameter [T: MinerConfig]: the solution
    type of one page, with its [Default] value. *)
Class MinerConfig : Type := {
  Solution : Type;
  solution_default : Solution;
}.

Section with_config.
Context `{T : MinerConfig}.

(** [PagedRawSolution<T>] *)
Record PagedRawSolution : Type := {
  solution_pages : list Solution;
  score : ElectionScore;
  prs_round : Z;
}.

(** [MineInput<T>], as [mine_solution] builds it. *)
Record MineInput : Type := {
  mi_desired_targets : Z;
  mi_all_targets : TargetSnapshotPage;
  mi_voter_pages : list VoterSnapshotPage;
  mi_pages : Z;
  mi_do_reduce : bool;
  mi_round : Z;
}.

(** The extrinsics the miner signs. *)
Inductive Call : Type :=
| register (sc : ElectionScore)
| submit_page_call (page : Z) (maybe_solution : option Solution)
| bail_call
| clear_old_round_data_call (round witness_pages : Z)
| prune_era_step_call (era : Z).

End with_config.

(** The runtime events the miner looks for in an included transaction.
    [Stored] has three fields, the last one is the page; an event that carries
    the name but fails to decode is [StoredUndecodable]. *)
Inductive RtEvent : Type :=
| Registered
| Stored (round : Z) (who : AccountId) (page : Z)
| StoredUndecodable
| OtherEvent.

(** [TransactionProgress] and [TransactionInBlock] of subxt. *)
Definition TxProgress : Type := Z.
Record TxInBlock : Type := { tx_block_hash : Hash; tx_extrinsic_hash : Hash }.

(** ** Staking storage

    The values of the staking and bags-list pallets that [src/dynamic/staking.rs]
    decodes; [bag_upper] and [score] are [u64], bytes are [Z]. *)
Record ListBag : Type := {
  bag_head : option AccountId;
  bag_tail : option AccountId;
}.

Record ListNode : Type := {
  node_id : AccountId;
  node_prev : option AccountId;
  node_next : option AccountId;
  node_bag_upper : Z;
  node_score : Z;
}.

Record Nominations : Type := {
  targets : list AccountId;
  submitted_in : Z;
  suppressed : bool;
}.

(** The fields of a decoded ledger that are [u128] values. *)
Record LedgerValue : Type := {
  ledger_active : option Z;
  ledger_total : option Z;
}.

(** One entry of a storage iteration: the bytes of its key and its value, with
    the codec error where it cannot be decoded. *)
Definition KeyValue (A : Type) : Type := list Z * Result A string.

(** ** Predictions, constants and the runtime *)

(** [sp_npos_elections::Support]: the total backing of a winner and its parts. *)
Record Support : Type := {
  sup_total : Z;
  sup_voters : list (AccountId * Z);
}.

(** [ChainProperties] of [src/utils.rs]. *)
Record ChainProperties : Type := {
  token_symbol : option string;
  token_decimals : option Z;
}.

(** [PerDispatchClass] and [BlockLength] of [src/dynamic/pallet_api.rs]. *)
Record PerDispatchClass : Type := { normal : Z; operational : Z; mandatory : Z }.
Record BlockLength : Type := { bl_max : PerDispatchClass }.

(** [sp_version::RuntimeVersion], as far as the sources read it. *)
Record RuntimeVersion : Type := {
  spec_name : string;
  impl_name : string;
  spec_version : Z;
  impl_version : Z;
  authoring_version : Z;
  transaction_version : Z;
}.

(** The parameter types of [src/static_types/multi_block.rs] that are set at run
    time, besides [Pages]. *)
Inductive Param : Type :=
| ParamPages
| ParamTargetSnapshotPerBlock
| ParamVoterSnapshotPerBlock
| ParamMaxLength
| ParamMaxWinnersPerPage
| ParamMaxBackersPerWinner
| ParamBalancingIterations
| ParamAlgorithm.

#[export] Instance Param_eq_dec : EqDecision Param.
Proof. solve_decision. Defined.

(** A directory joined with a plain file name; [Path::parent] of such a path is
    the directory. *)
Record FilePath : Type := { parent_dir : string; file_name : string }.

(** Reading the body of a request into memory. *)
Inductive BodyRead : Type :=
| Collected (bytes : string)
| LengthLimitError
| BodyError.
