(* ===== verification/Metrics.v ===== *)
(** * Prometheus metrics

    The metric registry of [src/prometheus.rs]: every [Lazy] static is a
    [MetricName], every update function of the module is a constructor of
    [Metric], and [apply_metric] is what the function does to the registry.
    Gauges keep the value before its conversion to [f64]; the values of the
    duration gauges and of the timestamp come from the clock and are not kept. *)

From S2P Require Import Prelude Errors.
Local Open Scope Z_scope.

Inductive MetricName : Type :=
| MINED_SOLUTION_DURATION | SUBMIT_SOLUTION_AND_WATCH_DURATION | BALANCE
| SCORE_MINIMAL_STAKE | SCORE_SUM_STAKE | SCORE_SUM_STAKE_SQUARED
| RUNTIME_UPGRADES | SUBMISSIONS_STARTED | SUBMISSIONS_SUCCESS
| SUBMISSIONS_SKIPPED_NOT_COMPETITIVE
| CLEAR_OLD_ROUNDS_CLEANUP_SUCCESS | CLEAR_OLD_ROUNDS_CLEANUP_FAILURES
| CLEAR_OLD_ROUNDS_OLD_SUBMISSIONS_FOUND
| CLEAR_OLD_ROUNDS_OLD_SUBMISSIONS_CLEARED
| CLEAR_OLD_ROUNDS_CLEANUP_DURATION
| ERA_PRUNING_SUBMISSIONS_SUCCESS | ERA_PRUNING_SUBMISSIONS_FAILURES
| ERA_PRUNING_STORAGE_MAP_SIZE
| LISTENER_SUBSCRIPTION_STALLS | ENDPOINT_SWITCHES
| STORAGE_QUERY_DURATION | BLOCK_STATE_DURATION | BLOCK_DETAILS_DURATION
| CHECK_EXISTING_SUBMISSION_DURATION | BAIL_DURATION | BALANCE_FETCH_DURATION
| PHASE_CHECK_DURATION | SCORE_CHECK_DURATION | MISSING_PAGES_DURATION
| LAST_BLOCK_PROCESSING_TIME
| BLOCK_PROCESSING_STALLS | MINING_TIMEOUTS | CHECK_EXISTING_SUBMISSION_TIMEOUTS
| BAIL_TIMEOUTS | SUBMIT_TIMEOUTS | BALANCE_FETCH_TIMEOUTS
| PHASE_CHECK_TIMEOUTS | SCORE_CHECK_TIMEOUTS | MISSING_PAGES_TIMEOUTS
| ERA_PRUNING_TIMEOUTS | CONNECTION_TIMEOUTS.

#[export] Instance MetricName_eq_dec : EqDecision MetricName.
Proof. solve_decision. Defined.

(** [register_counter!] or [register_gauge!]. *)
Inductive MetricKind : Type := Counter | Gauge.

Definition metric_kind (n : MetricName) : MetricKind :=
  match n with
  | RUNTIME_UPGRADES | SUBMISSIONS_STARTED | SUBMISSIONS_SUCCESS
  | SUBMISSIONS_SKIPPED_NOT_COMPETITIVE
  | CLEAR_OLD_ROUNDS_CLEANUP_SUCCESS | CLEAR_OLD_ROUNDS_CLEANUP_FAILURES
  | ERA_PRUNING_SUBMISSIONS_SUCCESS | ERA_PRUNING_SUBMISSIONS_FAILURES
  | LISTENER_SUBSCRIPTION_STALLS | ENDPOINT_SWITCHES
  | BLOCK_PROCESSING_STALLS | MINING_TIMEOUTS
  | CHECK_EXISTING_SUBMISSION_TIMEOUTS | BAIL_TIMEOUTS | SUBMIT_TIMEOUTS
  | BALANCE_FETCH_TIMEOUTS | PHASE_CHECK_TIMEOUTS | SCORE_CHECK_TIMEOUTS
  | MISSING_PAGES_TIMEOUTS | ERA_PRUNING_TIMEOUTS | CONNECTION_TIMEOUTS => Counter
  | _ => Gauge
  end.

(** The update functions of the module. *)
Inductive Metric : Type :=
| on_runtime_upgrade
| set_balance (balance : Z)
| set_score (sc : ElectionScore)
| observe_submit_and_watch_duration
| observe_mined_solution_duration
| on_submission_started
| on_submission_success
| on_submission_skipped_not_competitive
| on_clear_old_rounds_cleanup_success (cleared_count : Z)
| on_clear_old_rounds_cleanup_failure
| set_clear_old_rounds_old_submissions_found (count : Z)
| observe_clear_old_rounds_cleanup_duration
| on_era_pruning_submission_success
| on_era_pruning_submission_failure
| set_era_pruning_storage_map_size (size : Z)
| on_listener_subscription_stall
| on_endpoint_switch
| observe_storage_query_duration
| observe_block_state_duration
| observe_block_details_duration
| observe_check_existing_submission_duration
| observe_bail_duration
| set_last_block_processing_time
| on_block_processing_stall
| on_mining_timeout
| on_check_existing_submission_timeout
| on_bail_timeout
| on_submit_timeout
| observe_balance_fetch_duration
| on_balance_fetch_timeout
| observe_phase_check_duration
| on_phase_check_timeout
| observe_score_check_duration
| on_score_check_timeout
| observe_missing_pages_duration
| on_missing_pages_timeout
| on_era_pruning_timeout
| on_connection_timeout.

#[export] Instance Metric_eq_dec : EqDecision Metric.
Proof. solve_decision. Defined.

(** What one call does to one static: [inc()], or [set(v)] where [None] stands
    for a value read from the clock. *)
Inductive Update : Type :=
| Inc (n : MetricName)
| SetTo (n : MetricName) (v : option Z).

Definition update_name (u : Update) : MetricName :=
  match u with Inc n => n | SetTo n _ => n end.

Definition metric_updates (m : Metric) : list Update :=
  match m with
  | on_runtime_upgrade => [Inc RUNTIME_UPGRADES]
  | set_balance b => [SetTo BALANCE (Some b)]
  | set_score sc =>
      [SetTo SCORE_MINIMAL_STAKE (Some (minimal_stake sc));
       SetTo SCORE_SUM_STAKE (Some (sum_stake sc));
       SetTo SCORE_SUM_STAKE_SQUARED (Some (sum_stake_squared sc))]
  | observe_submit_and_watch_duration => [SetTo SUBMIT_SOLUTION_AND_WATCH_DURATION None]
  | observe_mined_solution_duration => [SetTo MINED_SOLUTION_DURATION None]
  | on_submission_started => [Inc SUBMISSIONS_STARTED]
  | on_submission_success => [Inc SUBMISSIONS_SUCCESS]
  | on_submission_skipped_not_competitive => [Inc SUBMISSIONS_SKIPPED_NOT_COMPETITIVE]
  | on_clear_old_rounds_cleanup_success n =>
      [Inc CLEAR_OLD_ROUNDS_CLEANUP_SUCCESS;
       SetTo CLEAR_OLD_ROUNDS_OLD_SUBMISSIONS_CLEARED (Some n)]
  | on_clear_old_rounds_cleanup_failure => [Inc CLEAR_OLD_ROUNDS_CLEANUP_FAILURES]
  | set_clear_old_rounds_old_submissions_found n =>
      [SetTo CLEAR_OLD_ROUNDS_OLD_SUBMISSIONS_FOUND (Some n)]
  | observe_clear_old_rounds_cleanup_duration => [SetTo CLEAR_OLD_ROUNDS_CLEANUP_DURATION None]
  | on_era_pruning_submission_success => [Inc ERA_PRUNING_SUBMISSIONS_SUCCESS]
  | on_era_pruning_submission_failure => [Inc ERA_PRUNING_SUBMISSIONS_FAILURES]
  | set_era_pruning_storage_map_size n => [SetTo ERA_PRUNING_STORAGE_MAP_SIZE (Some n)]
  | on_listener_subscription_stall => [Inc LISTENER_SUBSCRIPTION_STALLS]
  | on_endpoint_switch => [Inc ENDPOINT_SWITCHES]
  | observe_storage_query_duration => [SetTo STORAGE_QUERY_DURATION None]
  | observe_block_state_duration => [SetTo BLOCK_STATE_DURATION None]
  | observe_block_details_duration => [SetTo BLOCK_DETAILS_DURATION None]
  | observe_check_existing_submission_duration => [SetTo CHECK_EXISTING_SUBMISSION_DURATION None]
  | observe_bail_duration => [SetTo BAIL_DURATION None]
  | set_last_block_processing_time => [SetTo LAST_BLOCK_PROCESSING_TIME None]
  | on_block_processing_stall => [Inc BLOCK_PROCESSING_STALLS]
  | on_mining_timeout => [Inc MINING_TIMEOUTS]
  | on_check_existing_submission_timeout => [Inc CHECK_EXISTING_SUBMISSION_TIMEOUTS]
  | on_bail_timeout => [Inc BAIL_TIMEOUTS]
  | on_submit_timeout => [Inc SUBMIT_TIMEOUTS]
  | observe_balance_fetch_duration => [SetTo BALANCE_FETCH_DURATION None]
  | on_balance_fetch_timeout => [Inc BALANCE_FETCH_TIMEOUTS]
  | observe_phase_check_duration => [SetTo PHASE_CHECK_DURATION None]
  | on_phase_check_timeout => [Inc PHASE_CHECK_TIMEOUTS]
  | observe_score_check_duration => [SetTo SCORE_CHECK_DURATION None]
  | on_score_check_timeout => [Inc SCORE_CHECK_TIMEOUTS]
  | observe_missing_pages_duration => [SetTo MISSING_PAGES_DURATION None]
  | on_missing_pages_timeout => [Inc MISSING_PAGES_TIMEOUTS]
  | on_era_pruning_timeout => [Inc ERA_PRUNING_TIMEOUTS]
  | on_connection_timeout => [Inc CONNECTION_TIMEOUTS]
  end.

(** The default registry: what has been registered so far (a [Lazy] static is
    registered by its first access), counters and gauges. *)
Record Registry : Type := {
  registered : list MetricName;
  counter : MetricName -> Z;
  gauge : MetricName -> option Z;
}.

Definition registry_empty : Registry :=
  {| registered := []; counter := fun _ => 0; gauge := fun _ => None |}.

(** [Lazy::force]: registers the metric unless it is registered already. *)
Definition lazy_force (n : MetricName) (r : Registry) : Registry :=
  if decide (n ∈ registered r) then r
  else {| registered := n :: registered r; counter := counter r; gauge := gauge r |}.

Definition apply_update (u : Update) (r : Registry) : Registry :=
  let r := lazy_force (update_name u) r in
  match u with
  | Inc n =>
      {| registered := registered r;
         counter := fun k => if decide (k = n) then counter r k + 1 else counter r k;
         gauge := gauge r |}
  | SetTo n v =>
      {| registered := registered r;
         counter := counter r;
         gauge := fun k => if decide (k = n) then v else gauge r k |}
  end.

Definition apply_metric (m : Metric) (r : Registry) : Registry :=
  fold_left (fun r u => apply_update u r) (metric_updates m) r.

(** The statics [init] forces, in the order of the source. *)
Definition init_metrics : list MetricName :=
  [MINED_SOLUTION_DURATION; SUBMIT_SOLUTION_AND_WATCH_DURATION; BALANCE;
   SCORE_MINIMAL_STAKE; SCORE_SUM_STAKE; SCORE_SUM_STAKE_SQUARED;
   RUNTIME_UPGRADES; SUBMISSIONS_STARTED; SUBMISSIONS_SUCCESS;
   SUBMISSIONS_SKIPPED_NOT_COMPETITIVE; CLEAR_OLD_ROUNDS_CLEANUP_SUCCESS;
   CLEAR_OLD_ROUNDS_CLEANUP_FAILURES; CLEAR_OLD_ROUNDS_OLD_SUBMISSIONS_FOUND;
   CLEAR_OLD_ROUNDS_OLD_SUBMISSIONS_CLEARED; CLEAR_OLD_ROUNDS_CLEANUP_DURATION;
   ERA_PRUNING_SUBMISSIONS_SUCCESS; ERA_PRUNING_SUBMISSIONS_FAILURES;
   ERA_PRUNING_STORAGE_MAP_SIZE; LISTENER_SUBSCRIPTION_STALLS;
   ENDPOINT_SWITCHES; STORAGE_QUERY_DURATION; BLOCK_STATE_DURATION;
   BLOCK_DETAILS_DURATION; CHECK_EXISTING_SUBMISSION_DURATION; BAIL_DURATION;
   BALANCE_FETCH_DURATION; PHASE_CHECK_DURATION; SCORE_CHECK_DURATION;
   MISSING_PAGES_DURATION; LAST_BLOCK_PROCESSING_TIME; BLOCK_PROCESSING_STALLS;
   MINING_TIMEOUTS; CHECK_EXISTING_SUBMISSION_TIMEOUTS; BAIL_TIMEOUTS;
   SUBMIT_TIMEOUTS; BALANCE_FETCH_TIMEOUTS; PHASE_CHECK_TIMEOUTS;
   SCORE_CHECK_TIMEOUTS; MISSING_PAGES_TIMEOUTS; ERA_PRUNING_TIMEOUTS;
   CONNECTION_TIMEOUTS].

Definition init (r : Registry) : Registry :=
  fold_left (fun r n => lazy_force n r) init_metrics r.

(** ** The registry after [init] *)

Lemma lazy_force_registered n r : n ∈ registered (lazy_force n r).
Proof. unfold lazy_force. case_decide; simpl; [done | set_solver]. Qed.

Lemma lazy_force_mono n r k : k ∈ registered r -> k ∈ registered (lazy_force n r).
Proof. unfold lazy_force. case_decide; simpl; set_solver. Qed.

Lemma lazy_force_counter n r : counter (lazy_force n r) = counter r.
Proof. unfold lazy_force. by case_decide. Qed.

Lemma lazy_force_id n r : n ∈ registered r -> lazy_force n r = r.
Proof. unfold lazy_force. intros. by case_decide. Qed.

Lemma force_all_registered ns : forall r n,
  n ∈ ns \/ n ∈ registered r ->
  n ∈ registered (fold_left (fun r n => lazy_force n r) ns r).
Proof.
  induction ns as [|m ns IH]; simpl; intros r n Hn; [set_solver|].
  apply IH. destruct Hn as [Hn|Hn]; [|right; by apply lazy_force_mono].
  apply elem_of_cons in Hn as [->|Hn]; [right; apply lazy_force_registered|by left].
Qed.

Lemma force_all_counter ns : forall r,
  counter (fold_left (fun r n => lazy_force n r) ns r) = counter r.
Proof.
  induction ns as [|m ns IH]; simpl; intros r; [done|].
  rewrite IH. apply lazy_force_counter.
Qed.

(** Every static of the module is in the list [init] forces. *)
Lemma init_metrics_complete n : n ∈ init_metrics.
Proof. destruct n; unfold init_metrics; set_solver. Qed.

Lemma apply_update_registered_id u r :
  update_name u ∈ registered r -> registered (apply_update u r) = registered r.
Proof. intros H. unfold apply_update. rewrite lazy_force_id by done. by destruct u. Qed.

Lemma apply_update_counter_mono u r k : counter r k <= counter (apply_update u r) k.
Proof.
  unfold apply_update. destruct u; simpl; rewrite lazy_force_counter; [case_decide|]; lia.
Qed.

Lemma apply_updates_counter_mono us : forall r k,
  counter r k <= counter (fold_left (fun r u => apply_update u r) us r) k.
Proof.
  induction us as [|u us IH]; simpl; intros r k; [lia|].
  etrans; [apply (apply_update_counter_mono u)|apply IH].
Qed.

Lemma apply_updates_registered_id us : forall r,
  (forall n, n ∈ registered r) ->
  registered (fold_left (fun r u => apply_update u r) us r) = registered r.
Proof.
  induction us as [|u us IH]; simpl; intros r Hall; [done|].
  rewrite IH; [by apply apply_update_registered_id|].
  intros n. rewrite apply_update_registered_id; auto.
Qed.

Lemma apply_metrics_registered_id ms : forall r,
  (forall n, n ∈ registered r) ->
  registered (fold_left (fun r m => apply_metric m r) ms r) = registered r.
Proof.
  induction ms as [|m ms IH]; simpl; intros r Hall; [done|].
  assert (registered (apply_metric m r) = registered r) as Hm by by apply apply_updates_registered_id.
  rewrite IH; [done|]. intros n. by rewrite Hm.
Qed.

Lemma apply_metrics_counter_mono ms : forall r k,
  counter r k <= counter (fold_left (fun r m => apply_metric m r) ms r) k.
Proof.
  induction ms as [|m ms IH]; simpl; intros r k; [lia|].
  etrans; [apply (apply_updates_counter_mono (metric_updates m))|apply IH].
Qed.

(** After [init] every metric of the miner is registered and every counter
    is zero; whatever is recorded later registers nothing new (so no metric is
    exported late) and never decreases a counter. *)
Theorem metrics_registered_and_monotone (ms : list Metric) :
  let r0 := init registry_empty in
  let r := fold_left (fun r m => apply_metric m r) ms r0 in
  (forall n, n ∈ registered r0 /\ counter r0 n = 0) /\
  registered r = registered r0 /\
  (forall n, 0 <= counter r n) /\
  (forall m n, counter r n <= counter (apply_metric m r) n).
Proof.
  intros r0 r.
  assert (forall n, n ∈ registered r0) as Hreg.
  { intros n. apply force_all_registered. left. apply init_metrics_complete. }
  assert (forall n, counter r0 n = 0) as Hz.
  { intros n. unfold r0, init. by rewrite force_all_counter. }
  split_and!; [auto|by apply apply_metrics_registered_id| |].
  - intros n. rewrite <- (Hz n). apply apply_metrics_counter_mono.
  - intros m n. apply apply_updates_counter_mono.
Qed.
