(* ===== verification/Endpoint.v ===== *)
(** * The metrics endpoint

    [serve_req] and [run] of [src/prometheus.rs], and the start of the process as
    the endpoint sees it: [main] binds the socket, registers the metrics, and then
    the tasks update them while any number of connections ask for them.  The
    collection and the text format are those of the [prometheus] crate. *)

From Stdlib Require Import Ascii.
From S2P Require Import Prelude Errors Metrics.
Local Open Scope Z_scope.

Module Endpoint.

Inductive Method : Type := GET | OtherMethod.

Record Request : Type := {
  method : Method;
  path : string;
}.

Record Response : Type := {
  status : Z;
  content_type : option string;
  body : string;
}.

(** A metric as it is exported: its name and its value. *)
Record MetricFamily : Type := {
  family : MetricName;
  value : option Z;
}.

(** What the [prometheus] crate does: collect the default registry, and encode
    what was collected. *)
Class Prometheus : Type := {
  gather : Registry -> list MetricFamily;
  encode : list MetricFamily -> Result string string;
  format_type : string;
}.

(** What it documents: [gather] collects every registered metric with its value,
    the encoder writes to a buffer, and from the text the families can be read
    back. *)
Class PrometheusLaws `{P : Prometheus} : Type := {
  decode : string -> list MetricFamily;
  gather_registered r m : m ∈ gather r <->
    family m ∈ registered r /\
    value m = match metric_kind (family m) with
              | Counter => Some (counter r (family m))
              | Gauge => gauge r (family m)
              end;
  encode_gather r : exists text, encode (gather r) = ok text /\ decode text = gather r;
}.

Section endpoint.
Context `{P : Prometheus}.

(** [serve_req]; [None] is the panic of [unwrap] on the encoder. *)
Definition serve_req (req : Request) (r : Registry) : option Response :=
  match method req with
  | GET =>
      if String.eqb (path req) "/metrics" then
        match encode (gather r) with
        | ok buffer => Some {| status := 200; content_type := Some format_type; body := buffer |}
        | err _ => None
        end
      else if String.eqb (path req) "/" then
        Some {| status := 200; content_type := None; body := "" |}
      else Some {| status := 404; content_type := None; body := "" |}
  | OtherMethod => Some {| status := 404; content_type := None; body := "" |}
  end.

(** [run]: the text of an error of the socket. *)
Definition run (port : Z) (bound : Result unit string) : Result unit string :=
  match bound with
  | ok _ => ok tt
  | err e => err ("Failed to bind socket on port " +:+ pretty port +:+ ": " +:+ e)
  end.

(** Where [main] is: before [prometheus::run], between it and [init], after. *)
Inductive Stage : Type := NotStarted | Serving | Ready.

(** One answer: the request, what was answered, and the registry at that time. *)
Record Served : Type := {
  served_req : Request;
  served_at : Stage;
  served_registry : Registry;
  response : option Response;
}.

(** The process: how far [main] is, whether the socket is bound, the connections
    that are open, the registry, and every answer (newest first). *)
Record State : Type := {
  stage : Stage;
  listening : bool;
  connections : nat;
  registry : Registry;
  served : list Served;
}.

Definition initial : State :=
  {| stage := NotStarted; listening := false; connections := 0; registry := registry_empty; served := [] |}.

Definition with_registry (r : Registry) (x : State) : State :=
  {| stage := stage x; listening := listening x; connections := connections x; registry := r;
     served := served x |}.

Definition with_connections (n : nat) (x : State) : State :=
  {| stage := stage x; listening := listening x; connections := n; registry := registry x;
     served := served x |}.

(** [prometheus::run] as [main] calls it: a failure is logged, and nothing
    listens. *)
Definition main_runs (port : Z) (bound : Result unit string) (x : State) : State :=
  {| stage := Serving; listening := match run port bound with ok _ => true | err _ => false end;
     connections := connections x; registry := registry x; served := served x |}.

(** [prometheus::init] *)
Definition main_inits (x : State) : State :=
  {| stage := Ready; listening := listening x; connections := connections x;
     registry := init (registry x); served := served x |}.

Definition answered (req : Request) (x : State) : Served :=
  {| served_req := req; served_at := stage x; served_registry := registry x;
     response := serve_req req (registry x) |}.

Definition serves (req : Request) (x : State) : State :=
  {| stage := stage x; listening := listening x; connections := connections x; registry := registry x;
     served := answered req x :: served x |}.

Inductive step (x : State) : State -> Prop :=
| step_run port bound : stage x = NotStarted -> step x (main_runs port bound x)
| step_init : stage x = Serving -> step x (main_inits x)
(* every update of a metric is after [init] in [main] *)
| step_metric m : stage x = Ready -> step x (with_registry (apply_metric m (registry x)) x)
(* the accept loop: a failing [accept] is logged, a connection gets its own task *)
| step_accept_fails : listening x = true -> step x x
| step_accept : listening x = true -> step x (with_connections (S (connections x)) x)
| step_request req : (0 < connections x)%nat -> step x (serves req x)
| step_close n : connections x = S n -> step x (with_connections n x).

End endpoint.

(** ** What a scrape sees *)
Section scrapes.
Context `{P : Prometheus} {L : PrometheusLaws (P := P)}.

(** The counters of a later scrape are not below those of an earlier one. *)
Definition counters_le (r r' : Registry) : Prop := forall n, counter r n <= counter r' n.

#[local] Instance counters_le_preorder : PreOrder counters_le.
Proof. split; [by intros r n|]. intros r1 r2 r3 H1 H2 n. etrans; [apply H1|apply H2]. Qed.

Definition all_registered (r : Registry) : Prop := forall n, n ∈ registered r.

Lemma init_all_registered r : all_registered (init r).
Proof. intros n. apply force_all_registered. left. apply init_metrics_complete. Qed.

Lemma init_counters r : counters_le r (init r).
Proof. intros n. unfold init. by rewrite force_all_counter. Qed.

Lemma apply_metric_counters m r : counters_le r (apply_metric m r).
Proof. intros n. apply apply_updates_counter_mono. Qed.

Lemma apply_metric_registered m r : all_registered r -> all_registered (apply_metric m r).
Proof. intros H n. unfold apply_metric. rewrite apply_updates_registered_id; auto. Qed.

(** What holds of the answers so far, newest first, for a registry that is
    newer than all of them. *)
Record served_ok (x : State) : Prop := {
  so_ready : stage x = Ready -> all_registered (registry x);
  so_all : Forall (fun s => response s = serve_req (served_req s) (served_registry s) /\
             (served_at s = Ready -> all_registered (served_registry s)) /\
             counters_le (served_registry s) (registry x)) (served x);
  so_order : Sorted.StronglySorted
               (fun newer older => counters_le (served_registry older) (served_registry newer)) (served x);
}.

Lemma served_ok_registry x r' st :
  served_ok x -> counters_le (registry x) r' -> (st = Ready -> all_registered r') ->
  served_ok {| stage := st; listening := listening x; connections := connections x; registry := r';
               served := served x |}.
Proof.
  intros [Hr Ha Ho] Hle Hst. split; [done| |done].
  eapply Forall_impl; [exact Ha|]. intros s (H1 & H2 & H3). split_and!; [done|done|by etrans].
Qed.

Lemma served_ok_step x x' : served_ok x -> step x x' -> served_ok x'.
Proof.
  intros Hok Hs. pose proof Hok as [Hr Ha Ho]. destruct Hs as [port bound Hst|Hst|m Hst|Hl|Hl|req Hc|n Hc].
  - by split.
  - apply (served_ok_registry x (init (registry x)) Ready); [done|apply init_counters|].
    intros _. apply init_all_registered.
  - apply (served_ok_registry x _ (stage x)); [done|apply apply_metric_counters|].
    intros E. by apply apply_metric_registered, Hr.
  - done.
  - by split.
  - split; [done| |].
    + constructor; [|done]. split_and!; [done|done|]. by intros n.
    + constructor; [done|]. eapply Forall_impl; [exact Ha|]. by intros s (_ & _ & H).
  - by split.
Qed.

Lemma served_ok_reachable x : rtc step initial x -> served_ok x.
Proof.
  intros H. assert (served_ok initial) as H0 by (split; [done|constructor..]).
  induction H as [|x y z Hs _ IH]; eauto using served_ok_step.
Qed.

(** The families of an answer to [GET /metrics]. *)
Definition is_scrape (req : Request) : bool :=
  match method req with GET => String.eqb (path req) "/metrics" | _ => false end.

Lemma serve_scrape req r : is_scrape req = true ->
  exists text, serve_req req r = Some {| status := 200; content_type := Some format_type; body := text |} /\
    decode text = gather r.
Proof.
  unfold is_scrape, serve_req. destruct (method req); [|done]. intros ->.
  destruct (encode_gather r) as (text & -> & Hd). by exists text.
Qed.

(** C33: The metrics endpoint, however requests, the start of the process and the
    updates interleave.  Every request is answered, without a panic: a scrape with
    the metrics, the root with nothing, the rest with 404.  Once [init] has run, a
    scrape exports every metric of the miner; and no scrape shows a counter below
    what an earlier scrape showed. *)
Theorem scrapes_complete_and_monotone (x : State) :
  rtc step initial x ->
  (forall s, s ∈ served x -> exists resp, response s = Some resp /\
     status resp = match method (served_req s) with
                   | GET => if String.eqb (path (served_req s)) "/metrics" || String.eqb (path (served_req s)) "/"
                            then 200 else 404
                   | OtherMethod => 404
                   end /\
     (is_scrape (served_req s) = true -> served_at s = Ready ->
        forall n, exists v, {| family := n; value := v |} ∈ decode (body resp))) /\
  (forall i j s s' resp resp' n v v',
     (i < j)%nat -> served x !! i = Some s' -> served x !! j = Some s ->
     is_scrape (served_req s) = true -> is_scrape (served_req s') = true ->
     response s = Some resp -> response s' = Some resp' -> metric_kind n = Counter ->
     {| family := n; value := Some v |} ∈ decode (body resp) ->
     {| family := n; value := Some v' |} ∈ decode (body resp') -> v <= v').
Proof.
  intros [Hr Ha Ho]%served_ok_reachable. rewrite Forall_forall in Ha. split.
  - intros s Hs. destruct (Ha s Hs) as (Hresp & Hall & _).
    unfold is_scrape. rewrite Hresp. unfold serve_req. destruct (method (served_req s)); [|by eexists].
    destruct (String.eqb (path (served_req s)) "/metrics").
    + destruct (encode_gather (served_registry s)) as (text & -> & Hd).
      eexists. split; [done|]. split; [done|]. intros _ Hready n. cbn. rewrite Hd.
      eexists. apply gather_registered. split; [by apply Hall|cbn; reflexivity].
    + destruct (String.eqb (path (served_req s)) "/"); by eexists.
  - intros i j s s' resp resp' n v v' Hij Hi Hj Es Es' Hs Hs' Hk Hv Hv'.
    destruct (Ha s) as (Hresp & _ & _); [by eapply list_elem_of_lookup_2|].
    destruct (Ha s') as (Hresp' & _ & _); [by eapply list_elem_of_lookup_2|].
    destruct (serve_scrape _ (served_registry s) Es) as (text & Ht & Hd).
    destruct (serve_scrape _ (served_registry s') Es') as (text' & Ht' & Hd').
    rewrite Hs, Ht in Hresp. rewrite Hs', Ht' in Hresp'. simplify_eq. cbn in *.
    rewrite Hd in Hv. rewrite Hd' in Hv'. apply gather_registered in Hv, Hv'. cbn in *. rewrite Hk in *.
    destruct Hv as [_ [= ->]], Hv' as [_ [= ->]].
    exact (StronglySorted_lookup_lt _ _ _ _ _ _ Ho Hij Hi Hj n).
Qed.

End scrapes.

(** ** Examples *)

(** Families as bits, which can be read back. *)
Fixpoint bits (p : positive) : string :=
  match p with xH => "" | xO p => String "0"%char (bits p) | xI p => String "1"%char (bits p) end.

Fixpoint unbits (s : string) : positive :=
  match s with
  | EmptyString => xH
  | String c s => if Ascii.eqb c "1"%char then xI (unbits s) else xO (unbits s)
  end.

Lemma unbits_bits p : unbits (bits p) = p.
Proof. induction p; cbn; congruence. Qed.

Definition metric_index (n : MetricName) : nat := default 0%nat (fst <$> list_find (fun k => k = n) init_metrics).

#[local] Instance MetricName_countable : Countable MetricName.
Proof.
  refine (inj_countable' metric_index (fun i => default BALANCE (init_metrics !! i)) _).
  intros n. by destruct n.
Defined.

Definition exported (n : MetricName) (r : Registry) : MetricFamily :=
  {| family := n; value := match metric_kind n with Counter => Some (counter r n) | Gauge => gauge r n end |}.

#[local] Instance toy_prometheus : Prometheus := {|
  gather := fun r => (fun n => exported n r) <$> registered r;
  encode := fun l => ok (bits (countable.encode ((fun m => (family m, value m)) <$> l)));
  format_type := "text/plain";
|}.

#[local] Instance toy_prometheus_laws : PrometheusLaws (P := toy_prometheus).
Proof.
  refine {| decode := fun text =>
    (fun p => {| family := p.1; value := p.2 |}) <$> default [] (countable.decode (unbits text)) |}.
  - intros r [n v]. cbn. rewrite list_elem_of_fmap. unfold exported. split.
    + intros (k & [= -> ->] & Hk). done.
    + intros [Hn ->]. by exists n.
  - intros r. eexists. split; [done|]. rewrite unbits_bits, decode_encode. cbn.
    rewrite <- list_fmap_compose. etrans; [|apply list_fmap_id].
    apply list_fmap_ext. by intros i [n v].
Defined.

(** A scrape, as the numbers of what it exports. *)
Definition scrape : Request := {| method := GET; path := "/metrics" |}.

Definition exports (n : MetricName) (s : Served) : option (option Z) :=
  resp ← response s;
  m ← head (filter (fun m => family m = n) (decode (body resp)));
  Some (value m).

Lemma exports_elem n s v resp : exports n s = Some v -> response s = Some resp ->
  {| family := n; value := v |} ∈ decode (body resp).
Proof.
  unfold exports. intros He Hr. rewrite Hr in He. cbn [mbind option_bind] in He.
  destruct (filter _ _) as [|m l] eqn:E; [done|]. cbn in He.
  assert (m ∈ filter (fun m => family m = n) (decode (body resp))) as Hm by (rewrite E; left).
  apply list_elem_of_filter in Hm as [<- Hm]. injection He as <-. by destruct m.
Qed.

(** The socket is bound, a scrape comes before [init]; then [init], a scrape, an
    upgrade of the runtime and a last scrape. *)
Definition ready : State := main_inits (serves scrape (with_connections 1 (main_runs 9999 (ok tt) initial))).
Definition upgraded : State :=
  let x := serves scrape ready in with_registry (apply_metric on_runtime_upgrade (registry x)) x.
Definition scraped : State := serves scrape upgraded.

Lemma scraped_reachable : rtc step initial scraped.
Proof.
  eapply rtc_l; [by apply (step_run _ 9999 (ok tt))|].
  eapply rtc_l; [by apply step_accept|].
  eapply rtc_l; [apply (step_request _ scrape); cbn; lia|].
  eapply rtc_l; [by apply step_init|].
  eapply rtc_l; [apply (step_request _ scrape); cbn; lia|].
  eapply rtc_l; [by apply (step_metric _ on_runtime_upgrade)|].
  apply rtc_once, step_request. cbn. lia.
Qed.

(** The endpoint answers before [init] has registered the metrics: the first
    scrape can miss every counter. *)
Example early_scrape_misses_counters :
  exports RUNTIME_UPGRADES <$> reverse (served scraped) = [None; Some (Some 0); Some (Some 1)].
Proof. vm_compute. reflexivity. Qed.

Lemma scrapes_complete_and_monotone_witness :
  rtc step initial scraped /\
  exists s s' resp resp', served scraped !! 0%nat = Some s' /\ served scraped !! 1%nat = Some s /\
    response s = Some resp /\ response s' = Some resp' /\
    {| family := RUNTIME_UPGRADES; value := Some 0 |} ∈ decode (body resp) /\
    {| family := RUNTIME_UPGRADES; value := Some 1 |} ∈ decode (body resp') /\
    (exists v, {| family := BALANCE; value := v |} ∈ decode (body resp')) /\ 0 <= 1.
Proof.
  split; [exact scraped_reachable|].
  destruct (scrapes_complete_and_monotone scraped scraped_reachable) as [Hc Hm].
  set (s' := answered scrape upgraded). set (s := answered scrape ready).
  assert (s' ∈ served scraped) as Hin' by apply list_elem_of_here.
  assert (s ∈ served scraped) as Hin by apply list_elem_of_further, list_elem_of_here.
  destruct (Hc s' Hin') as (resp' & Hr' & _ & Hall). destruct (Hc s Hin) as (resp & Hr & _).
  assert ({| family := RUNTIME_UPGRADES; value := Some 0 |} ∈ decode (body resp)) as Hv.
  { apply (exports_elem _ s); [vm_compute; reflexivity|exact Hr]. }
  assert ({| family := RUNTIME_UPGRADES; value := Some 1 |} ∈ decode (body resp')) as Hv'.
  { apply (exports_elem _ s'); [vm_compute; reflexivity|exact Hr']. }
  exists s, s', resp, resp'. split_and!; [reflexivity|reflexivity|exact Hr|exact Hr'|exact Hv|exact Hv'| |].
  - exact (Hall eq_refl eq_refl BALANCE).
  - exact (Hm 0%nat 1%nat s s' resp resp' RUNTIME_UPGRADES 0 1 (le_n 1) eq_refl eq_refl eq_refl eq_refl Hr Hr' eq_refl Hv Hv').
Defined.

End Endpoint.
