(* ===== verification/Types.v ===== *)
(** * Snapshot cache, block details and submissions

    The data types of [src/commands/multi_block/types.rs] with their methods,
    and the messages the tasks of [src/commands/multi_block/monitor.rs]
    exchange.  [BlockDetails::new], which reads the chain, is in [Listener]. *)

From S2P Require Import Prelude Errors Chain.
Local Open Scope Z_scope.

(** ** Snapshot

    A [BTreeMap] is a [gmap]; what depends on its order (iteration) sorts the
    keys. *)
Record Snapshot : Type := mkSnapshot {
  target : option (TargetSnapshotPage * Hash);
  voter : gmap Z (VoterSnapshotPage * Hash);
  n_pages : Z;
}.

Definition snapshot_new (n : Z) : Snapshot :=
  {| target := None; voter := ∅; n_pages := n |}.

Definition needs_target_snapshot (s : Snapshot) (hash : Hash) : bool :=
  match target s with
  | Some (_, target_hash) => negb (Z.eqb target_hash hash)
  | None => true
  end.

Definition needs_voter_page (s : Snapshot) (page : Z) (hash : Hash) : bool :=
  match voter s !! page with
  | Some (_, voter_hash) => negb (Z.eqb voter_hash hash)
  | None => true
  end.

Definition set_target_snapshot (s : Snapshot) (t : TargetSnapshotPage) (hash : Hash) : Snapshot :=
  {| target := Some (t, hash); voter := voter s; n_pages := n_pages s |}.

(** [None] is the failing [assert!]. *)
Definition set_voter_page (s : Snapshot) (page : Z) (v : VoterSnapshotPage) (hash : Hash)
    : option Snapshot :=
  if page <? n_pages s
  then Some {| target := target s; voter := <[page := (v, hash)]> (voter s);
               n_pages := n_pages s |}
  else None.

Definition snapshot_clear (s : Snapshot) : Snapshot :=
  {| target := None; voter := ∅; n_pages := n_pages s |}.

(** The entries of a [BTreeMap] in the order of [iter]. *)
Definition key_le {V} (a b : Z * V) : Prop := a.1 <= b.1.

#[export] Instance key_le_dec {V} : RelDecision (@key_le V).
Proof. intros a b. unfold key_le. apply _. Defined.

Definition btree_iter {V} (m : gmap Z V) : list (Z * V) :=
  merge_sort key_le (map_to_list m).

(** [None] is the panic of [expect("Target snapshot not fetched")]. *)
Definition snapshot_get (s : Snapshot) : option (TargetSnapshotPage * list VoterSnapshotPage) :=
  match target s with
  | Some (t, _) => Some (t, (fun e => e.2.1) <$> btree_iter (voter s))
  | None => None
  end.

(** ** Block details *)
Record BlockDetails : Type := {
  at_block : AtBlock;
  phase : Phase;
  bd_n_pages : Z;
  round : Z;
  desired_targets : Z;
  block_number : Z;
}.

(** ** Submissions *)
Record IncompleteSubmission : Type := {
  is_score : ElectionScore;
  is_pages : gset Z;
  is_n_pages : Z;
}.

Inductive CurrentSubmission : Type :=
| Done (sc : ElectionScore)
| Incomplete (s : IncompleteSubmission)
| NotStarted.

Definition get_missing_pages (s : IncompleteSubmission) : list Z :=
  filter (fun page => page ∉ is_pages s) (seqZ 0 (is_n_pages s)).

(** ** Messages between the tasks *)
Inductive MinerMessage : Type :=
| ProcessBlock (state : BlockDetails)
| ClearSnapshots.

Inductive ClearOldRoundsMessage : Type :=
| ClearOldRoundsTick (current_round : Z).

Inductive EraPruningMessage : Type :=
| EnterOffPhase
| ExitOffPhase
| NewBlock (block_number : Z).

(** ** Invariant of the snapshot: the keys are pages *)

Definition snapshot_wf (s : Snapshot) : Prop :=
  forall p v, voter s !! p = Some v -> 0 <= p < n_pages s.

Lemma snapshot_new_wf n : snapshot_wf (snapshot_new n).
Proof. intros p v. simpl. by rewrite lookup_empty. Qed.

Lemma snapshot_clear_wf s : snapshot_wf (snapshot_clear s).
Proof. intros p v. simpl. by rewrite lookup_empty. Qed.

Lemma set_target_snapshot_wf s t h : snapshot_wf s -> snapshot_wf (set_target_snapshot s t h).
Proof. intros Hwf p v. simpl. apply Hwf. Qed.

Lemma set_voter_page_wf s p v h s' :
  0 <= p -> snapshot_wf s -> set_voter_page s p v h = Some s' -> snapshot_wf s'.
Proof.
  intros Hp Hwf. unfold set_voter_page. case_match eqn:E; [|done].
  intros [= <-] q w. simpl. intros [[-> _]|[_ Hq]]%lookup_insert_Some; [lia|].
  by apply Hwf in Hq.
Qed.

#[export] Hint Resolve snapshot_new_wf snapshot_clear_wf set_target_snapshot_wf
  set_voter_page_wf : miner.

(** ** Order of [get]

    [btree_iter] lists the entries by increasing key, so once every page of a
    well-formed snapshot is present, [get] yields page 0 first. *)

#[export] Instance key_le_total {V} : Total (@key_le V).
Proof. intros a b. unfold key_le. lia. Qed.

#[export] Instance key_le_trans {V} : Transitive (@key_le V).
Proof. intros a b c. unfold key_le. lia. Qed.

Lemma btree_iter_perm {V} (m : gmap Z V) : btree_iter m ≡ₚ map_to_list m.
Proof. apply merge_sort_Permutation. Qed.

Lemma btree_iter_sorted {V} (m : gmap Z V) : StronglySorted key_le (btree_iter m).
Proof. apply Sorted_StronglySorted; [apply _|]. apply Sorted_merge_sort; apply _. Qed.

Lemma btree_iter_NoDup_keys {V} (m : gmap Z V) : NoDup (btree_iter m).*1.
Proof. rewrite btree_iter_perm. apply NoDup_fst_map_to_list. Qed.

Lemma elem_of_btree_iter {V} (m : gmap Z V) k v : (k, v) ∈ btree_iter m <-> m !! k = Some v.
Proof. rewrite btree_iter_perm. apply elem_of_map_to_list. Qed.

(** The keys of [iter] are the sorted list of the keys of the map. *)
Lemma btree_iter_keys {V} (m : gmap Z V) (ks : list Z) :
  StronglySorted Z.le ks -> NoDup ks -> (forall k, k ∈ ks <-> is_Some (m !! k)) ->
  (btree_iter m).*1 = ks.
Proof.
  intros Hs Hnd Hks. apply (StronglySorted_unique Z.le); [|done|].
  - apply (StronglySorted_fmap _ key_le); [done|]. apply btree_iter_sorted.
  - apply NoDup_Permutation; [apply btree_iter_NoDup_keys|done|]. intros k. rewrite Hks.
    rewrite list_elem_of_fmap. split.
    + intros ([k' v] & -> & Hv%elem_of_btree_iter). by exists v.
    + intros [v Hv]. exists (k, v). split; [done|by apply elem_of_btree_iter].
Qed.

(** Every page of the snapshot is cached. *)
Definition snapshot_complete (s : Snapshot) : Prop :=
  forall p, 0 <= p < n_pages s -> is_Some (voter s !! p).

Lemma snapshot_keys s :
  snapshot_wf s -> snapshot_complete s -> (btree_iter (voter s)).*1 = seqZ 0 (n_pages s).
Proof.
  intros Hwf Hc. apply btree_iter_keys; [apply seqZ_sorted|apply NoDup_seqZ|].
  intros k. rewrite elem_of_seqZ. split.
  - intros Hk. apply Hc. lia.
  - intros [v Hv]. apply Hwf in Hv. lia.
Qed.

Lemma btree_iter_lookup {V} (m : gmap Z V) i k :
  (btree_iter m).*1 !! i = Some k -> (btree_iter m).*2 !! i = m !! k.
Proof.
  rewrite !list_lookup_fmap. destruct (_ !! i) as [[k' v]|] eqn:Hi; cbn; [|done].
  intros [= ->]. symmetry. apply elem_of_btree_iter. by eapply list_elem_of_lookup_2.
Qed.

(** once the target and every voter page are cached, [get] succeeds and
    returns the voter pages in page order, so the miner sees the snapshot as
    the chain paged it. *)
Theorem snapshot_get_in_page_order s t h :
  snapshot_wf s -> snapshot_complete s -> 0 <= n_pages s -> target s = Some (t, h) ->
  exists vs, snapshot_get s = Some (t, vs) /\ Z.of_nat (length vs) = n_pages s /\
    forall i : nat, vs !! i = fst <$> voter s !! Z.of_nat i.
Proof.
  intros Hwf Hc Hn Ht. unfold snapshot_get. rewrite Ht. eexists. split; [done|].
  pose proof (snapshot_keys s Hwf Hc) as Hk.
  assert (Z.of_nat (length (btree_iter (voter s))) = n_pages s) as Hlen.
  { rewrite <- (length_fmap fst), Hk, length_seqZ. lia. }
  rewrite length_fmap. split; [done|]. intros i.
  destruct (decide (i < length (btree_iter (voter s)))%nat) as [Hi|Hi].
  - assert ((btree_iter (voter s)).*1 !! i = Some (Z.of_nat i)) as Hki.
    { rewrite Hk. apply lookup_seqZ. lia. }
    apply btree_iter_lookup in Hki. rewrite <- Hki, !list_lookup_fmap, <- option_fmap_compose.
    done.
  - rewrite lookup_ge_None_2 by (rewrite length_fmap; lia).
    destruct (voter s !! Z.of_nat i) as [v|] eqn:Hv; [|done].
    apply Hwf in Hv. lia.
Qed.

Definition snapshot3 : Snapshot :=
  {| target := Some ([1], 9);
     voter := <[2 := ([(22, 1, [])], 52)]> (<[0 := ([(20, 1, [])], 50)]>
                (<[1 := ([(21, 1, [])], 51)]> ∅));
     n_pages := 3 |}.

Lemma snapshot_get_in_page_order_witness :
  exists vs, snapshot_get snapshot3 = Some ([1], vs) /\ Z.of_nat (length vs) = 3 /\
    forall i : nat, vs !! i = fst <$> voter snapshot3 !! Z.of_nat i.
Proof.
  apply (snapshot_get_in_page_order snapshot3 [1] 9); [| |done|done].
  - intros p v. cbn. rewrite !lookup_insert_Some, lookup_empty. naive_solver lia.
  - intros p Hp. cbn in *. rewrite !lookup_insert_is_Some. lia.
Defined.

(** The cache asks for exactly what it does not have: after storing a page
    with its hash the page is not needed for that hash and is needed for every
    other one, the other pages are unaffected, storing a page outside the
    snapshot is refused, and after [clear] everything is needed again. *)
Theorem snapshot_cache_coherent s p v h :
  (is_Some (set_voter_page s p v h) <-> p < n_pages s) /\
  (forall s', set_voter_page s p v h = Some s' ->
     (forall h', needs_voter_page s' p h' = negb (h =? h')) /\
     (forall p' h', p' <> p -> needs_voter_page s' p' h' = needs_voter_page s p' h') /\
     (forall h', needs_target_snapshot s' h' = needs_target_snapshot s h')) /\
  (forall p' h', needs_voter_page (snapshot_clear s) p' h' = true /\
     needs_target_snapshot (snapshot_clear s) h' = true).
Proof.
  split_and!.
  - unfold set_voter_page. destruct (Z.ltb_spec p (n_pages s)); split; try done; try lia.
  - unfold set_voter_page. case_match; [|done]. intros s' [= <-].
    unfold needs_voter_page, needs_target_snapshot. cbn. split_and!; [|intros p' h' Hp|done].
    + intros h'. by rewrite lookup_insert_eq.
    + by rewrite lookup_insert_ne.
  - intros p' h'. unfold needs_voter_page. cbn. by rewrite lookup_empty.
Qed.

(** the missing pages of an incomplete submission are, in increasing order
    and without repetition, exactly the pages of the solution that were not
    submitted. *)
Theorem get_missing_pages_exact sub :
  StronglySorted Z.le (get_missing_pages sub) /\ NoDup (get_missing_pages sub) /\
  (forall p, p ∈ get_missing_pages sub <-> 0 <= p < is_n_pages sub /\ p ∉ is_pages sub).
Proof.
  unfold get_missing_pages. split_and!.
  - apply StronglySorted_list_filter, seqZ_sorted.
  - apply NoDup_filter, NoDup_seqZ.
  - intros p. rewrite list_elem_of_filter, elem_of_seqZ. split; intros []; split; try done; lia.
Qed.
