(* ===== verification/Effects.v ===== *)
(** * Effects

    The miner is asynchronous code over a node it does not control.  Every
    [await] on the node, every shared cell it reads and every metric it updates
    is an operation [op]; a function of the sources is a program [prog] over
    these operations, threading the state it holds behind [&mut].  A program is
    an inductive tree, so for any answers of the environment it ends.

    - [M S A] adds the ways a Rust call ends: a value, an error returned with
      [?], a panic, or the enclosing [tokio::time::timeout] firing.
    - [cancellable] is what [timeout] does to a future: after each [await] the
      timer may have fired, the rest is dropped and the state stays as it is.
    - [run] executes a program against a [handler] (an environment that answers
      each operation from the whole history) and returns the trace.
    - [wp] is the verification condition over all environments; [I] is an
      invariant that holds after every operation, hence at every point where a
      timeout can interrupt the program. *)

From S2P Require Import Prelude Errors Chain Metrics Types.
Local Open Scope Z_scope.

(** The outcome of [mpsc::Sender::try_send]. *)
Inductive TrySend : Type := Sent | Full | Closed.

(** One message of the block subscription. *)
Definition NextBlock : Type := option (Result (Header * Hash) SubxtError).

(** A value fetched from storage that the caller decodes by hand: absent,
    undecodable (with the codec error), or decoded. *)
Definition Fetched (A : Type) : Type := option (Result A string).

Section effects.
Context `{T : MinerConfig}.

(** ** Operations *)
Inductive op : Type -> Type :=
(* positioning a client *)
| AtCurrentBlock : op (Result AtBlock SubxtError)
| AtBlockHash (h : Hash) : op (Result AtBlock SubxtError)
(* typed storage reads: fetch and decode *)
| FetchCurrentPhase (b : AtBlock) : op (Result Phase SubxtError)
| TryFetchCurrentPhase (b : AtBlock) : op (Result (option Phase) SubxtError)
| FetchRound (b : AtBlock) : op (Result Z SubxtError)
| TryFetchDesiredTargets (b : AtBlock) (round : Z) : op (Result (option Z) SubxtError)
| TryFetchAccount (b : AtBlock) (who : AccountId) : op (Result (option AccountInfo) SubxtError)
| TryFetchMinimumScore (b : AtBlock) : op (Result (option ElectionScore) SubxtError)
| FetchSortedScores (b : AtBlock) (round : Z)
    : op (Result (list (AccountId * ElectionScore)) SubxtError)
| TryFetchSubmission (b : AtBlock) (round : Z) (who : AccountId)
    : op (Result (option SubmissionMetadata) SubxtError)
| IterEraPruningState (b : AtBlock)
    : op (Result (list (Result (list Z) SubxtError)) SubxtError)
(* dynamic storage reads *)
| TryFetchVoterSnapshotHash (b : AtBlock) (round page : Z) : op (Result (Fetched Hash) SubxtError)
| TryFetchTargetSnapshotHash (b : AtBlock) (round page : Z) : op (Result (Fetched Hash) SubxtError)
| TryFetchVoterSnapshot (b : AtBlock) (round page : Z)
    : op (Result (Fetched VoterSnapshotPage) SubxtError)
| TryFetchTargetSnapshot (b : AtBlock) (round page : Z)
    : op (Result (Fetched TargetSnapshotPage) SubxtError)
(* the staking and bags-list pallets; an entry of an iteration that cannot be
   read is the text of its error *)
| IterValidators (b : AtBlock) : op (Result (list (Result (list Z) string)) SubxtError)
| IterListBags (b : AtBlock) : op (Result (list (Result (KeyValue ListBag) string)) SubxtError)
| IterListNodes (b : AtBlock) : op (Result (list (Result (KeyValue ListNode) string)) SubxtError)
| TryFetchNominators (b : AtBlock) (who : AccountId) : op (Result (Fetched Nominations) SubxtError)
| TryFetchBonded (b : AtBlock) (who : AccountId) : op (Result (option (list Z)) SubxtError)
| TryFetchLedger (b : AtBlock) (who : AccountId) : op (Result (Fetched LedgerValue) SubxtError)
(* awaiting a spawned task: the join error, if any *)
| JoinTask : op (option string)
(* the texts other crates print for their errors and values *)
| SubxtText (e : SubxtError) : op string
| ScoreText (sc : ElectionScore) : op string
(* transactions *)
| AccountNonce : op (Result Z SubxtError)
| ToScaleValue : op (Result unit string)
| CreateSigned (c : Call) (nonce : Z) (mortality : option Z) : op (Result unit SubxtError)
| SubmitAndWatch (c : Call) (nonce : Z) (mortality : option Z) : op (Result TxProgress SubxtError)
| WaitForFinalized (p : TxProgress) : op (Result TxInBlock SubxtError)
| WaitForSuccess (t : TxInBlock) : op (Result (list (Result RtEvent SubxtError)) SubxtError)
| NextReady (pending : nat) : op nat
| HashSetIter (s : gset Z) : op (list Z)
(* mining, in a blocking thread *)
| MineSolution (input : MineInput) : op (Result (Result PagedRawSolution string) string)
| CheckFeasibility (s : PagedRawSolution) (input : MineInput) : op (Result unit string)
| WinnerCount (s : PagedRawSolution) : op Z
| EvaluateSupports (s : PagedRawSolution) (voter_pages : list VoterSnapshotPage)
    (target_snapshot : TargetSnapshotPage) (desired_targets : Z)
    : op (Result (list (list (AccountId * Support))) string)
(* the static parameter types and the constants of the metadata: the entry, then
   its value *)
| PagesGet : op Z
| ParamGet (p : Param) : op Z
| ParamSet (p : Param) (v : Z) : op unit
| Constant (b : AtBlock) (pallet variant : string) : op (Result (Result Z string) string)
| ConstantBlockLength (b : AtBlock) : op (Result (Result BlockLength string) string)
| CoreVersion (b : AtBlock) : op (Result (Result RuntimeVersion string) SubxtError)
(* reads of the prediction commands *)
| TryFetchRound (b : AtBlock) : op (Result (option Z) SubxtError)
| TryFetchValidatorCount (b : AtBlock) : op (Result (Fetched Z) string)
| CurrentEndpoint : op string
| RpcFromUrl (uri : string) : op (Result unit SubxtError)
| RpcParamsPush (n : Z) : op (Result unit string)
| RpcBlockHash (n : Z) : op (Result (option Hash) string)
| RpcSystemProperties : op (Result ChainProperties string)
(* files, the clock and HTTP requests *)
| CreateDirAll (dir : string) : op (Result unit string)
| FileCreate (path : FilePath) : op (Result unit string)
| FileWriteAll (path : FilePath) (content : string) : op (Result unit string)
| FileFlush (path : FilePath) : op (Result unit string)
| FileOpen (path : string) : op (Result unit string)
| FileReadToString (path : string) : op (Result string string)
| FsRead (path : string) : op (option (Result string string))
| PrometheusRun (port : Z) : op (Result unit string)
| SystemTime : op (option Z)
| HealthCheckTick : op unit
| ParseDirective (directive : string) : op (Result unit string)
| SocketAddr (listen : string) (port : Z) : op (Result string string)
| TcpBind (addr : string) : op (Result unit string)
| SignalStream (kind : string) : op (Result unit string)
| SpawnUpgradeTask : op unit
| CollectBody (limit : Z) : op BodyRead
| TryAcquirePrediction : op bool
| ReleasePrediction : op unit
(* the block subscription and the endpoint pool *)
| StreamBlocks : op (Result unit SubxtError)
| SubscriptionNext : op NextBlock
| IsDisconnectedWillReconnect (e : SubxtError) : op bool
| Reconnect : op (Result unit Error.t)
(* connecting to an endpoint: the RPC client, then the client on a backend *)
| BuildRpc (uri : string) : op (Result unit string)
| FromBackend (uri : string) (use_legacy : bool) : op (Result unit SubxtError)
(* the channels *)
| MinerTrySend (m : MinerMessage) : op TrySend
| MinerSend (m : MinerMessage) : op (Result unit string)
| ClearTrySend (m : ClearOldRoundsMessage) : op TrySend
| EraSend (m : EraPruningMessage) : op (Result unit string)
| EraTrySend (m : EraPruningMessage) : op TrySend
(* time *)
| Sleep (ms : Z) : op unit
(* metrics *)
| MetricOp (m : Metric) : op unit.

(** Operations a pending future waits on; the others complete at once. *)
Definition is_await {R} (o : op R) : bool :=
  match o with
  | EvaluateSupports _ _ _ _ | ParamGet _ | ParamSet _ _ | Constant _ _ _ | ConstantBlockLength _
  | RpcParamsPush _ | CreateDirAll _ | FileCreate _ | FileWriteAll _ _ | FileFlush _ | FileOpen _
  | FileReadToString _ | FsRead _ | SystemTime | ParseDirective _ | SocketAddr _ _ | SignalStream _
  | SpawnUpgradeTask | TryAcquirePrediction | ReleasePrediction
  | SubxtText _ | ScoreText _ | ToScaleValue | HashSetIter _ | WinnerCount _ | PagesGet | IsDisconnectedWillReconnect _
  | MinerTrySend _ | ClearTrySend _ | EraTrySend _ | MetricOp _ => false
  | _ => true
  end.

(** An operation with its answer; a trace lists them, the newest first. *)
Inductive event : Type :=
| Event {R : Type} (o : op R) (r : R).

Definition trace : Type := list event.

(** ** Programs

    [Get] and [Put] access the state behind [&mut]; [Timer] asks whether the
    timer of an enclosing timeout, of so many seconds, has fired. *)
Inductive prog (S A : Type) : Type :=
| Ret (a : A)
| Get (k : S -> prog S A)
| Put (s : S) (k : prog S A)
| Timer (secs : Z) (k : bool -> prog S A)
| Vis {R : Type} (o : op R) (k : R -> prog S A).

End effects.

Arguments Ret {T S A} a.
Arguments Get {T S A} k.
Arguments Put {T S A} s k.
Arguments Timer {T S A} secs k.
Arguments Vis {T S A R} o k.

(** How a call ends. *)
Inductive outcome (A : Type) : Type :=
| Ok (a : A)
| Err (e : Error.t)
| Panic (msg : string)
| Elapsed.
Arguments Ok {A} a.
Arguments Err {A} e.
Arguments Panic {A} msg.
Arguments Elapsed {A}.

Section programs.
Context `{T : MinerConfig}.

Fixpoint pbind {S A B} (p : prog S A) (f : A -> prog S B) : prog S B :=
  match p with
  | Ret a => f a
  | Get k => Get (fun s => pbind (k s) f)
  | Put s k => Put s (pbind k f)
  | Timer secs k => Timer secs (fun b => pbind (k b) f)
  | Vis o k => Vis o (fun r => pbind (k r) f)
  end.

Definition M (S A : Type) : Type := prog S (outcome A).

#[global] Instance M_ret S : MRet (M S) := fun A a => Ret (Ok a).

#[global] Instance M_bind S : MBind (M S) := fun A B f m =>
  pbind m (fun o =>
    match o with
    | Ok a => f a
    | Err e => Ret (Err e)
    | Panic msg => Ret (Panic msg)
    | Elapsed => Ret Elapsed
    end).

Definition throw {S A} (e : Error.t) : M S A := Ret (Err e).
Definition panic {S A} (msg : string) : M S A := Ret (Panic msg).

(** An operation whose answer is used as it is. *)
Definition ask {S R} (o : op R) : M S R := Vis o (fun r => Ret (Ok r)).

(** [op.await?] for an operation failing with a subxt error: the [From]
    implementations of [src/error.rs] box it into [Error::Subxt]. *)
Definition query {S R} (o : op (Result R SubxtError)) : M S R :=
  Vis o (fun r => Ret match r with ok a => Ok a | err e => Err (Error.Subxt e) end).

Definition metric {S} (m : Metric) : M S unit := ask (MetricOp m).

Definition get_state {S} : M S S := Get (fun s => Ret (Ok s)).
Definition put_state {S} (s : S) : M S unit := Put s (Ret (Ok tt)).

(** [match fut.await { Ok(..) => .., Err(e) => .. }] *)
Definition catch {S A} (m : M S A) : M S (Result A Error.t) :=
  pbind m (fun o => Ret
    match o with
    | Ok a => Ok (ok a)
    | Err e => Ok (err e)
    | Panic msg => Panic msg
    | Elapsed => Elapsed
    end).

(** [?] on a value *)
Definition of_result {S A} (r : Result A Error.t) : M S A :=
  match r with ok a => mret a | err e => throw e end.

(** [format!("{e}")]: the environment knows the texts of other crates. *)
Definition display_error {S} (e : Error.t) : M S string :=
  let no_text {A} (_ : A) : string := "" in
  match e with
  | Error.Subxt x => text ← ask (SubxtText x); mret (error_display (fun _ => text) no_text e)
  | Error.ScoreBelowMinimum sc minimum =>
      text ← ask (ScoreText sc);
      text_min ← ask (ScoreText minimum);
      mret (error_display no_text
              (fun x => if decide (x = sc) then text else text_min) e)
  | _ => mret (error_display no_text no_text e)
  end.

(** ** Timeouts *)
Fixpoint cancellable {S A} (secs : Z) (p : M S A) : M S A :=
  match p with
  | Ret o => Ret o
  | Get k => Get (fun s => cancellable secs (k s))
  | Put s k => Put s (cancellable secs k)
  | Timer inner k => Timer inner (fun b => cancellable secs (k b))
  | Vis o k =>
      if is_await o
      then Vis o (fun r => Timer secs (fun fired : bool =>
             if fired then Ret Elapsed else cancellable secs (k r)))
      else Vis o (fun r => cancellable secs (k r))
  end.

(** [tokio::time::timeout(secs, fut).await]: [None] when the timer fired. *)
Definition timeout {S A} (secs : Z) (p : M S A) : M S (option (Result A Error.t)) :=
  pbind (cancellable secs p) (fun o => Ret
    match o with
    | Ok a => Ok (Some (ok a))
    | Err e => Ok (Some (err e))
    | Panic msg => Panic msg
    | Elapsed => Ok None
    end).

(** ** Loops *)

(** [for x in xs { body(x)?; }] *)
Fixpoint for_each {S A} (xs : list A) (body : A -> M S unit) : M S unit :=
  match xs with
  | [] => mret tt
  | x :: xs => body x;; for_each xs body
  end.

(** ** Execution

    An environment answers an operation, and decides when timers fire, from
    everything that happened before. *)
Record handler : Type := {
  answer : forall R, op R -> trace -> R;
  fires : Z -> trace -> bool;
}.

Fixpoint run {S A} (h : handler) (p : prog S A) (s : S) (t : trace) : A * S * trace :=
  match p with
  | Ret a => (a, s, t)
  | Get k => run h (k s) s t
  | Put s' k => run h k s' t
  | Timer secs k => run h (k (fires h secs t)) s t
  | Vis o k => let r := answer h _ o t in run h (k r) s (Event o r :: t)
  end.

(** ** Verification conditions *)
Fixpoint wp {S A} (I : S -> trace -> Prop) (p : prog S A)
    (Q : A -> S -> trace -> Prop) (s : S) (t : trace) : Prop :=
  match p with
  | Ret a => Q a s t
  | Get k => wp I (k s) Q s t
  | Put s' k => wp I k Q s' t
  | Timer _ k => forall b, wp I (k b) Q s t
  | Vis o k => forall r, I s (Event o r :: t) /\ wp I (k r) Q s (Event o r :: t)
  end.

(** No invariant. *)
Definition Itrue {S} (_ : S) (_ : trace) : Prop := True.

Ltac prog_induction p :=
  induction p as [a|k IH|s' k IH|? k IH|R o k IH]; simpl; intros;
  repeat match goal with
  | H : _ /\ _ |- _ => destruct H
  | |- _ /\ _ => split
  | H : forall r : ?R, _ /\ _, r : ?R |- _ => destruct (H r); clear H
  end; auto; try by (eapply IH; eauto).

Lemma wp_run {S A} I (p : prog S A) Q : forall s t h,
  wp I p Q s t -> let '(a, s', t') := run h p s t in Q a s' t'.
Proof.
  prog_induction p. destruct (H (answer h _ o t)). by apply IH.
Qed.

Lemma wp_mono {S A} (I I' : S -> trace -> Prop) (p : prog S A) Q Q' : forall s t,
  (forall s t, I s t -> I' s t) ->
  (forall a s t, Q a s t -> Q' a s t) ->
  wp I p Q s t -> wp I' p Q' s t.
Proof. prog_induction p. Qed.

Lemma wp_true {S A} (p : prog S A) : forall s t, wp Itrue p (fun _ _ _ => True) s t.
Proof.
  induction p as [a|k IH|s' k IH|? k IH|R o k IH]; cbn; intros s t; auto. by split.
Qed.

Lemma wp_pbind {S A B} I (p : prog S A) (f : A -> prog S B) Q : forall s t,
  wp I p (fun a s t => wp I (f a) Q s t) s t -> wp I (pbind p f) Q s t.
Proof. prog_induction p. Qed.

Lemma run_pbind {S A B} h (p : prog S A) (f : A -> prog S B) : forall s t,
  run h (pbind p f) s t = let '(a, s', t') := run h p s t in run h (f a) s' t'.
Proof. prog_induction p. Qed.

Lemma run_mbind {S A B} h (m : M S A) (f : A -> M S B) s t :
  run h (mbind f m) s t =
  let '(o, s', t') := run h m s t in
  match o with
  | Ok a => run h (f a) s' t'
  | Err e => (Err e, s', t')
  | Panic msg => (Panic msg, s', t')
  | Elapsed => (Elapsed, s', t')
  end.
Proof.
  unfold mbind, M_bind. rewrite run_pbind. destruct (run h m s t) as [[o s'] t']. by destruct o.
Qed.

(** The postcondition of a bind: errors, panics and timeouts end the program. *)
Definition bind_post {S A B} (f : A -> M S B) (I : S -> trace -> Prop)
    (Q : outcome B -> S -> trace -> Prop) : outcome A -> S -> trace -> Prop :=
  fun o s t =>
    match o with
    | Ok a => wp I (f a) Q s t
    | Err e => Q (Err e) s t
    | Panic msg => Q (Panic msg) s t
    | Elapsed => Q Elapsed s t
    end.

Lemma wp_bind {S A B} I (m : M S A) (f : A -> M S B) Q s t :
  wp I m (bind_post f I Q) s t -> wp I (mbind f m) Q s t.
Proof.
  intros H. apply wp_pbind. revert H. apply wp_mono; [done|].
  intros [] s' t'; simpl; auto.
Qed.

(** Binds may be regrouped. *)
Lemma wp_bind_assoc {S A B C} I (m : M S A) (f : A -> M S B) (g : B -> M S C) Q : forall s t,
  wp I (mbind g (mbind f m)) Q s t -> wp I (x ← m; mbind g (f x)) Q s t.
Proof.
  unfold mbind, M_bind. induction m as [a|k IH|s' k IH|? k IH|R o k IH]; cbn; intros s t Hwp.
  - by destruct a.
  - by apply IH.
  - by apply IH.
  - intros b. by apply IH.
  - intros r. destruct (Hwp r). split; [done|by apply IH].
Qed.

Lemma wp_catch {S A} I (m : M S A) Q s t :
  wp I m (fun o s t => Q
    match o with
    | Ok a => Ok (ok a) | Err e => Ok (err e)
    | Panic msg => Panic msg | Elapsed => Elapsed
    end s t) s t ->
  wp I (catch m) Q s t.
Proof. intros H. apply wp_pbind. by simpl. Qed.

Lemma wp_ret {S A} I (a : A) (Q : outcome A -> S -> trace -> Prop) s t :
  Q (Ok a) s t -> wp I (mret a : M S A) Q s t.
Proof. done. Qed.

Lemma wp_throw {S A} I e (Q : outcome A -> S -> trace -> Prop) s t :
  Q (Err e) s t -> wp I (throw e : M S A) Q s t.
Proof. done. Qed.

Lemma wp_panic {S A} I msg (Q : outcome A -> S -> trace -> Prop) s t :
  Q (Panic msg) s t -> wp I (panic msg : M S A) Q s t.
Proof. done. Qed.

Lemma wp_metric {S} I m (Q : outcome unit -> S -> trace -> Prop) s t :
  I s (Event (MetricOp m) tt :: t) -> Q (Ok tt) s (Event (MetricOp m) tt :: t) ->
  wp I (metric m) Q s t.
Proof. intros HI HQ []. by split. Qed.

Lemma wp_get {S} I (Q : outcome S -> S -> trace -> Prop) s t :
  Q (Ok s) s t -> wp I get_state Q s t.
Proof. done. Qed.

Lemma wp_put {S} I s' (Q : outcome unit -> S -> trace -> Prop) s t :
  Q (Ok tt) s' t -> wp I (put_state s') Q s t.
Proof. done. Qed.

(** Under a timeout the body keeps its postcondition; where the timer fires,
    the invariant is what is known. *)
Lemma wp_cancellable {S A} I secs (p : M S A) Q : forall s t,
  wp I p Q s t ->
  wp I (cancellable secs p) (fun o s t => Q o s t \/ o = Elapsed /\ I s t) s t.
Proof.
  prog_induction p. destruct (is_await o); simpl.
  - intros r. destruct (H r). split; [done|]. intros []; simpl; auto.
  - intros r. destruct (H r). split; auto.
Qed.

Lemma wp_timeout {S A} I secs (p : M S A) Q s t :
  wp I p (fun o s t => Q
    match o with
    | Ok a => Ok (Some (ok a)) | Err e => Ok (Some (err e))
    | Panic msg => Panic msg | Elapsed => Ok None
    end s t) s t ->
  (forall s t, I s t -> Q (Ok None) s t) ->
  wp I (timeout secs p) Q s t.
Proof.
  intros H HE. apply wp_pbind. simpl.
  eapply wp_mono; [done| |apply wp_cancellable, H].
  intros o s' t' [HQ|[-> HI]]; simpl; auto.
Qed.

Lemma wp_for_each {S A} (I : S -> trace -> Prop) (xs : list A) (body : A -> M S unit)
    (J : list A -> S -> trace -> Prop) (Q : outcome unit -> S -> trace -> Prop) :
  (forall done x rest s t, xs = done ++ x :: rest -> J done s t ->
     wp I (body x) (fun o s t =>
       match o with Ok _ => J (done ++ [x]) s t | _ => Q o s t end) s t) ->
  (forall s t, J xs s t -> Q (Ok tt) s t) ->
  forall s t, J [] s t -> wp I (for_each xs body) Q s t.
Proof.
  intros Hbody Hend.
  enough (forall rest done s t, xs = done ++ rest -> J done s t ->
            wp I (for_each rest body) Q s t) as H by (intros; by apply (H xs [])).
  induction rest as [|x rest IH]; intros done s t Hxs HJ.
  - apply Hend. by rewrite app_nil_r in Hxs; subst.
  - apply wp_bind. eapply wp_mono; [done| |by eapply Hbody].
    intros [[]|e|m|] s' t'; simpl; auto.
    intros HJ'. apply (IH (done ++ [x])); [|done]. by rewrite <- app_assoc.
Qed.

(** Facts about the past survive: a program only extends the trace. *)
Lemma wp_suffix {S A} I (p : prog S A) Q : forall s t,
  wp I p Q s t -> wp I p (fun a s' t' => Q a s' t' /\ t `suffix_of` t') s t.
Proof.
  induction p as [a|k IH|s' k IH|? k IH|R o k IH]; simpl; intros s t H; auto.
  - intros r. destruct (H r) as [HI HQ]. split; [done|].
    eapply wp_mono; [done| |apply IH, HQ].
    intros a s' t' [Ha Ht]. split; [done|]. etrans; [|exact Ht]. by exists [Event o r].
Qed.

(** Two verification conditions of the same program. *)
Lemma wp_and {S A} (I1 I2 : S -> trace -> Prop) (p : prog S A) Q1 Q2 : forall s t,
  wp I1 p Q1 s t -> wp I2 p Q2 s t ->
  wp (fun s t => I1 s t /\ I2 s t) p (fun a s t => Q1 a s t /\ Q2 a s t) s t.
Proof.
  induction p as [a|k IH|s' k IH|? k IH|R o k IH]; cbn; intros s t H1 H2; auto.
  - intros r. destruct (H1 r), (H2 r). auto.
Qed.

(** A fact about the past holds at the end of a program as well. *)
Lemma wp_frame {S A} (I : S -> trace -> Prop) (F : trace -> Prop) (p : prog S A) Q :
  (forall e t, F t -> F (e :: t)) -> forall s t, F t -> wp I p Q s t ->
  wp (fun s t => I s t /\ F t) p (fun a s t => Q a s t /\ F t) s t.
Proof.
  intros HF. induction p as [a|k IH|s' k IH|? k IH|R o k IH]; intros s t Ht H; cbn in *; auto.
  - intros r. destruct (H r). split; auto.
Qed.

(** ** Programs that keep an invariant

    [keeps I m R]: from a state and trace with [I], every operation of [m]
    keeps [I], and a value it returns satisfies [R]. *)
Definition keeps {S A} (I : S -> trace -> Prop) (m : M S A) (R : A -> S -> trace -> Prop) : Prop :=
  forall s t, I s t ->
    wp I m (fun o s t => I s t /\ match o with Ok a => R a s t | _ => True end) s t.

(** No information on the value. *)
Definition anything {S A} (_ : A) (_ : S) (_ : trace) : Prop := True.

(** Operations that keep [I] whatever they answer. *)
Definition neutral {S R} (I : S -> trace -> Prop) (o : op R) : Prop :=
  forall s t r, I s t -> I s (Event o r :: t).

Lemma keeps_run {S A} (I : S -> trace -> Prop) (m : M S A) R h s t :
  keeps I m R -> I s t ->
  let '(o, s', t') := run h m s t in
  I s' t' /\ match o with Ok a => R a s' t' | _ => True end.
Proof. intros Hm HI. eapply wp_run. by apply Hm. Qed.

Lemma keeps_elim {S A} (I : S -> trace -> Prop) (m : M S A) R s t :
  keeps I m R -> I s t ->
  wp I m (fun o s t => I s t /\ match o with Ok a => R a s t | _ => True end) s t.
Proof. auto. Qed.

Lemma keeps_ret {S A} I (a : A) (R : A -> S -> trace -> Prop) :
  (forall s t, I s t -> R a s t) -> keeps I (mret a) R.
Proof. intros H s t HI. simpl. auto. Qed.

Lemma keeps_throw {S A} I e (R : A -> S -> trace -> Prop) : keeps I (throw e) R.
Proof. intros s t HI. simpl. auto. Qed.

Lemma keeps_panic {S A} I msg (R : A -> S -> trace -> Prop) : keeps I (panic msg) R.
Proof. intros s t HI. simpl. auto. Qed.

Lemma keeps_ask {S R'} I (o : op R') (R : R' -> S -> trace -> Prop) :
  neutral I o -> (forall s t r, I s t -> R r s (Event o r :: t)) -> keeps I (ask o) R.
Proof. intros Ho HR s t HI r. simpl. auto. Qed.

Lemma keeps_query {S R'} I (o : op (Result R' SubxtError)) (R : R' -> S -> trace -> Prop) :
  neutral I o -> (forall s t a, I s t -> R a s (Event o (ok a) :: t)) -> keeps I (query o) R.
Proof. intros Ho HR s t HI [a|e]; simpl; split; auto. Qed.

Lemma keeps_bind {S A B} I (m : M S A) (f : A -> M S B) R1 (R2 : B -> S -> trace -> Prop) :
  keeps I m R1 ->
  (forall a, keeps I (f a) R2) ->
  keeps I (mbind f m) R2.
Proof.
  intros Hm Hf s t HI. apply wp_bind. eapply wp_mono; [done| |by apply Hm].
  intros [a|e|msg|] s' t' [HI' HR]; simpl; auto. by apply Hf.
Qed.

(** The continuation may use what the first program established. *)
Lemma keeps_bind_post {S A B} I (m : M S A) (f : A -> M S B) R1 (R2 : B -> S -> trace -> Prop) :
  keeps I m R1 ->
  (forall a s t, I s t -> R1 a s t ->
     wp I (f a) (fun o s t => I s t /\ match o with Ok b => R2 b s t | _ => True end) s t) ->
  keeps I (mbind f m) R2.
Proof.
  intros Hm Hf s t HI. apply wp_bind. eapply wp_mono; [done| |by apply Hm].
  intros [a|e|msg|] s' t' [HI' HR]; simpl; auto.
Qed.

(** A program that keeps a fact, before one that starts from it. *)
Lemma wp_keeps_bind {S A B} (I : S -> trace -> Prop) (m : M S A) (f : A -> M S B) R Q s t :
  keeps I m R -> I s t ->
  (forall a s' t', I s' t' -> R a s' t' -> wp Itrue (f a) Q s' t') ->
  (forall o s' t', I s' t' -> (forall b, o <> Ok b) -> Q o s' t') ->
  wp Itrue (mbind f m) Q s t.
Proof.
  intros Hm HI Hf HQ. apply wp_bind. eapply wp_mono; [| |by apply Hm]; [done|].
  intros [a|e|msg|] s' t' [HI' HR]; simpl; auto; by apply HQ.
Qed.

Lemma keeps_catch {S A} I (m : M S A) R :
  keeps I m R ->
  keeps I (catch m) (fun r s t => match r with ok a => R a s t | err _ => True end).
Proof.
  intros Hm s t HI. apply wp_catch. eapply wp_mono; [done| |by apply Hm].
  intros [a|e|msg|] s' t' [HI' HR]; simpl; auto.
Qed.

Lemma keeps_timeout {S A} I secs (m : M S A) R :
  keeps I m R ->
  keeps I (timeout secs m)
    (fun r s t => match r with Some (ok a) => R a s t | _ => True end).
Proof.
  intros Hm s t HI. apply wp_timeout; [|auto].
  eapply wp_mono; [done| |by apply Hm].
  intros [a|e|msg|] s' t' [HI' HR]; simpl; auto.
Qed.

Lemma keeps_weaken {S A} I (m : M S A) (R R' : A -> S -> trace -> Prop) :
  keeps I m R -> (forall a s t, I s t -> R a s t -> R' a s t) -> keeps I m R'.
Proof.
  intros Hm HR s t HI. eapply wp_mono; [done| |by apply Hm].
  intros [a|e|msg|] s' t' [HI' HR']; simpl; auto.
Qed.

End programs.

#[global] Arguments keeps : simpl never.
#[global] Arguments wp : simpl never.

(** [keeps_auto tac] walks through a program whose operations all keep the
    invariant; [tac] proves that an operation is neutral. *)
Ltac keeps_step tac :=
  lazymatch goal with
  | |- keeps _ (mret _) _ => apply keeps_ret; intros; exact Logic.I
  | |- keeps _ (throw _) _ => apply keeps_throw
  | |- keeps _ (panic _) _ => apply keeps_panic
  | |- keeps _ (mbind _ _) _ => eapply (keeps_bind _ _ _ anything); [|intros ?]
  | |- keeps _ (catch _) _ =>
      eapply keeps_weaken; [apply (keeps_catch _ _ anything)|intros; exact Logic.I]
  | |- keeps _ (timeout _ _) _ =>
      eapply keeps_weaken; [apply (keeps_timeout _ _ _ anything)|intros; exact Logic.I]
  | |- keeps _ (ask _) _ => apply keeps_ask; [tac|intros; exact Logic.I]
  | |- keeps _ (metric _) _ => unfold metric
  | |- keeps _ (query _) _ => apply keeps_query; [tac|intros; exact Logic.I]
  | |- keeps _ (of_result ?r) _ => destruct r; unfold of_result
  | |- keeps _ (match ?x with _ => _ end) _ => destruct x
  end.
