(* ===== verification/Calls.v ===== *)
(** * Judgements on calls

    Two ways to specify a call whose state does not matter:
    - [returns m P]: against any environment the call does not panic, and what
      it returns satisfies [P];
    - [yields h m P]: against the environment [h] the call returns a value, and
      that value satisfies [P] (total correctness).
    Both compose along the calls of a program; the lemmas are in the hint
    database [calls]. *)

From S2P Require Import Prelude Errors Chain Metrics Types Effects.
Local Open Scope Z_scope.

Create HintDb calls.

Section returns.
Context `{T : MinerConfig} {S : Type}.

Definition returns {A} (m : M S A) (P : A -> Prop) : Prop :=
  forall s t, wp Itrue m (fun o _ _ =>
    match o with Ok a => P a | Err _ => True | Panic _ | Elapsed => False end) s t.

Lemma returns_run {A} (m : M S A) P h s t :
  returns m P ->
  match (run h m s t).1.1 with Ok a => P a | Err _ => True | Panic _ | Elapsed => False end.
Proof.
  intros Hm. pose proof (wp_run _ _ _ s t h (Hm s t)) as H.
  destruct (run h m s t) as [[o s'] t']. exact H.
Qed.

Lemma returns_ret {A} (a : A) (P : A -> Prop) : P a -> returns (mret a) P.
Proof. by intros HP s t. Qed.

Lemma returns_throw {A} e (P : A -> Prop) : returns (throw e) P.
Proof. by intros s t. Qed.

Lemma returns_bind {A B} (m : M S A) (f : A -> M S B) P Q :
  returns m P -> (forall a, P a -> returns (f a) Q) -> returns (mbind f m) Q.
Proof.
  intros Hm Hf s t. apply wp_bind. eapply wp_mono; [done| |apply Hm].
  intros [a|e|msg|] s' t' HP; cbn; try done. by apply Hf.
Qed.

Lemma returns_weaken {A} (m : M S A) (P Q : A -> Prop) :
  returns m P -> (forall a, P a -> Q a) -> returns m Q.
Proof.
  intros Hm HPQ s t. eapply wp_mono; [done| |apply Hm].
  intros [a|e|msg|] s' t'; cbn; auto.
Qed.

Lemma returns_ask {R} (o : op R) (P : R -> Prop) : (forall r, P r) -> returns (ask o) P.
Proof. intros HP s t r. split; [done|exact (HP r)]. Qed.

Lemma returns_query {R} (o : op (Result R SubxtError)) (P : R -> Prop) :
  (forall r, P r) -> returns (query o) P.
Proof. intros HP s t [a|e]; (split; [done|]); [exact (HP a)|exact Logic.I]. Qed.

Lemma returns_of_result {A} (r : Result A Error.t) (P : A -> Prop) :
  (forall a, r = ok a -> P a) -> returns (of_result r) P.
Proof. destruct r; intros HP; [by apply returns_ret, HP|apply returns_throw]. Qed.

Lemma returns_catch {A} (m : M S A) (P : A -> Prop) :
  returns m P -> returns (catch m) (fun r => match r with ok a => P a | err _ => True end).
Proof.
  intros Hm s t. apply wp_catch. eapply wp_mono; [done| |apply Hm].
  by intros [a|e|msg|] s' t'.
Qed.

Lemma returns_metric m (P : unit -> Prop) : P tt -> returns (metric m) P.
Proof. intros HP. apply returns_ask. by intros []. Qed.

Lemma returns_display e : returns (display_error e) (fun _ => True).
Proof.
  destruct e; cbn [display_error]; try by apply returns_ret.
  - eapply returns_bind; [by apply (returns_ask _ (fun _ => True))|]. intros. by apply returns_ret.
  - eapply returns_bind; [by apply (returns_ask _ (fun _ => True))|]. intros.
    eapply returns_bind; [by apply (returns_ask _ (fun _ => True))|]. intros. by apply returns_ret.
Qed.

End returns.

#[export] Hint Resolve returns_ret returns_throw returns_ask returns_query returns_of_result
  returns_catch returns_metric returns_display : calls.
#[global] Arguments returns : simpl never.

Section yields.
Context `{T : MinerConfig} {S : Type} (h : handler).

Definition yields {A} (m : M S A) (P : A -> Prop) : Prop :=
  forall s t, exists a t', run h m s t = (Ok a, s, t') /\ P a.

Lemma yields_ret {A} (a : A) (P : A -> Prop) : P a -> yields (mret a) P.
Proof. intros HP s t. by exists a, t. Qed.

Lemma yields_bind {A B} (m : M S A) (f : A -> M S B) P Q :
  yields m P -> (forall a, P a -> yields (f a) Q) -> yields (mbind f m) Q.
Proof.
  intros Hm Hf s t. destruct (Hm s t) as (a & t' & Hr & HP).
  destruct (Hf a HP s t') as (b & t'' & Hr' & HQ).
  exists b, t''. split; [|done]. rewrite run_mbind, Hr. exact Hr'.
Qed.

Lemma yields_weaken {A} (m : M S A) (P Q : A -> Prop) :
  yields m P -> (forall a, P a -> Q a) -> yields m Q.
Proof. intros Hm HPQ s t. destruct (Hm s t) as (a & t' & Hr & HP). eauto. Qed.

Lemma yields_ask {R} (o : op R) (P : R -> Prop) :
  (forall t, P (answer h _ o t)) -> yields (ask o) P.
Proof. intros HP s t. exists (answer h _ o t), (Event o (answer h _ o t) :: t). by split. Qed.

Lemma yields_query {R} (o : op (Result R SubxtError)) (P : R -> Prop) :
  (forall t, exists r, answer h _ o t = ok r /\ P r) -> yields (query o) P.
Proof.
  intros HP s t. destruct (HP t) as (r & Hr & HPr).
  exists r, (Event o (ok r) :: t). cbn. by rewrite Hr.
Qed.

Lemma yields_query_eq {R} (o : op (Result R SubxtError)) r :
  (forall t, answer h _ o t = ok r) -> yields (query o) (.= r).
Proof. intros Hr. apply yields_query. intros t. exists r. by rewrite Hr. Qed.

Lemma yields_of_result {A} (r : Result A Error.t) (P : A -> Prop) a :
  r = ok a -> P a -> yields (of_result r) P.
Proof. intros -> HP. by apply yields_ret. Qed.

Lemma yields_catch {A} (m : M S A) (P : A -> Prop) :
  yields m P -> yields (catch m) (fun r => exists a, r = ok a /\ P a).
Proof.
  intros Hm s t. destruct (Hm s t) as (a & t' & Hr & HP).
  exists (ok a), t'. split; [|by exists a]. unfold catch. rewrite run_pbind, Hr. done.
Qed.

End yields.

#[export] Hint Resolve yields_ret yields_ask yields_query yields_catch : calls.
#[global] Arguments yields : simpl never.

(** One step through a bind; the postcondition of the first call is left to the
    lemma that proves it. *)
Ltac returns_step := eapply returns_bind; [eauto with calls|intros ? ?].
Ltac yields_step := eapply yields_bind; [eauto with calls|intros ? ?].

(** A call whose result does not matter. *)
Ltac returns_skip :=
  eapply (returns_bind _ _ (fun _ => True));
  [first [apply returns_display|apply returns_query|apply returns_ask|apply returns_of_result|apply returns_metric];
   by intros|intros ? _].

(** Against the environment [h] the call returns an error. *)
Definition fails `{T : MinerConfig} {S A} (h : handler) (m : M S A) : Prop :=
  forall s t, exists e t', run h m s t = (Err e, s, t').

Section fails.
Context `{T : MinerConfig} {S : Type} (h : handler).

Lemma fails_throw {A} e : fails h (throw e : M S A).
Proof. intros s t. by exists e, t. Qed.

Lemma fails_bind {A B} (m : M S A) (f : A -> M S B) P :
  yields h m P -> (forall a, P a -> fails h (f a)) -> fails h (mbind f m).
Proof.
  intros Hm Hf s t. destruct (Hm s t) as (a & t' & Hr & HP).
  destruct (Hf a HP s t') as (e & t'' & Hr').
  exists e, t''. rewrite run_mbind, Hr. exact Hr'.
Qed.

Lemma fails_bind_first {A B} (m : M S A) (f : A -> M S B) : fails h m -> fails h (mbind f m).
Proof. intros Hm s t. destruct (Hm s t) as (e & t' & Hr). exists e, t'. by rewrite run_mbind, Hr. Qed.

Lemma yields_catch_fails {A} (m : M S A) :
  fails h m -> yields h (catch m) (fun r => exists e, r = err e).
Proof.
  intros Hm s t. destruct (Hm s t) as (e & t' & Hr). exists (err e), t'.
  split; [|by exists e]. unfold catch. rewrite run_pbind, Hr. done.
Qed.

End fails.

(** A timer that does not fire changes nothing. *)
Section no_timers.
Context `{T : MinerConfig} {S : Type} (h : handler) (Hfires : forall secs t, fires h secs t = false).

Lemma run_cancellable {A} secs (p : M S A) : forall s t, run h (cancellable secs p) s t = run h p s t.
Proof.
  induction p as [a|k IH|s' k IH|? k IH|R o k IH]; intros s t; cbn; auto.
  destruct (is_await o); cbn; [rewrite Hfires; cbn|]; apply IH.
Qed.

Lemma yields_timeout {A} secs (m : M S A) P :
  yields h m P -> yields h (timeout secs m) (fun r => exists a, r = Some (ok a) /\ P a).
Proof.
  intros Hm s t. destruct (Hm s t) as (a & t' & Hr & HP).
  exists (Some (ok a)), t'. split; [|by exists a]. unfold timeout.
  by rewrite run_pbind, run_cancellable, Hr.
Qed.

End no_timers.

Lemma yields_ask_eq `{T : MinerConfig} {S R} (h : handler) (o : op R) r :
  (forall t, answer h _ o t = r) -> yields h (ask o : M S R) (.= r).
Proof. intros Hr. by apply yields_ask. Qed.
