(* ===== verification/Traces.v ===== *)
(** * Reasoning about traces

    Classifiers of events, and [guarded]: every event of a trace is justified
    by what happened before it. *)

From S2P Require Import Prelude Errors Chain Metrics Types Effects.
Local Open Scope Z_scope.

Section traces.
Context `{T : MinerConfig}.

(** The phase a storage read returned; an absent value reads as [Off]. *)
Definition phase_read (e : event) : option Phase :=
  match e with
  | Event o r =>
      match o in op R return R -> option Phase with
      | TryFetchCurrentPhase _ => fun r =>
          match r with ok p => Some (default Off p) | err _ => None end
      | FetchCurrentPhase _ => fun r =>
          match r with ok p => Some p | err _ => None end
      | _ => fun _ => None
      end r
  end.

(** The transaction an event sends, with its nonce and mortality. *)
Definition sent_tx (e : event) : option (Call * Z * option Z) :=
  match e with
  | Event o _ =>
      match o with
      | SubmitAndWatch c nonce mortality => Some (c, nonce, mortality)
      | _ => None
      end
  end.

(** The events of an included transaction. *)
Definition included_events (e : event) : list (Result RtEvent SubxtError) :=
  match e with
  | Event o r =>
      match o in op R return R -> list (Result RtEvent SubxtError) with
      | WaitForSuccess _ => fun r => match r with ok evs => evs | err _ => [] end
      | _ => fun _ => []
      end r
  end.

(** The metric an event updates. *)
Definition metric_of (e : event) : option Metric :=
  match e with
  | Event o _ => match o with MetricOp m => Some m | _ => None end
  end.

(** The solver runs of a trace, newest first. *)
Definition mine_event (e : event) : option MineInput :=
  match e with
  | Event o _ => match o with MineSolution input => Some input | _ => None end
  end.

Definition mined (t : trace) : list MineInput := omap mine_event t.

Definition last_phase (t : trace) : option Phase := head (omap phase_read t).

(** The transactions and the metric updates of a trace, oldest first. *)
Definition sent_txs (t : trace) : list (Call * Z * option Z) := reverse (omap sent_tx t).
Definition metrics (t : trace) : list Metric := reverse (omap metric_of t).

(** The pages of which a trace saw a [Stored] event. *)
Definition stored_event_pages (evs : list (Result RtEvent SubxtError)) : gset Z :=
  list_to_set (omap (fun e => match e with ok (Stored _ _ p) => Some p | _ => None end) evs).

Definition pages_stored (t : trace) : gset Z :=
  ⋃ ((fun e => stored_event_pages (included_events e)) <$> t).

(** A trace saw a [Registered] event. *)
Definition registered_seen (t : trace) : Prop :=
  exists e, e ∈ t /\ ok Registered ∈ included_events e.

(** Every event is justified by its past. *)
Fixpoint guarded (J : event -> trace -> Prop) (t : trace) : Prop :=
  match t with
  | [] => True
  | e :: past => J e past /\ guarded J past
  end.

Lemma guarded_lookup J t : guarded J t <->
  forall new e past, t = new ++ e :: past -> J e past.
Proof.
  induction t as [|e t IH]; simpl.
  - split; [|done]. intros _ [|??] ? ? [=].
  - rewrite IH. split.
    + intros [He Ht] [|e' new] e0 past [=]; subst; eauto.
    + intros H. split; [by apply (H [])|].
      intros new e0 past ->. by apply (H (e :: new)).
Qed.

Lemma pages_stored_cons e t :
  pages_stored (e :: t) = stored_event_pages (included_events e) ∪ pages_stored t.
Proof. done. Qed.

Lemma registered_seen_cons e t : registered_seen t -> registered_seen (e :: t).
Proof. intros (e' & He & Hr). exists e'. split; [by right|done]. Qed.

Lemma registered_seen_here e t : ok Registered ∈ included_events e -> registered_seen (e :: t).
Proof. intros H. exists e. split; [by left|done]. Qed.

Lemma sent_txs_cons e t : sent_txs (e :: t) = sent_txs t ++ option_list (sent_tx e).
Proof. unfold sent_txs. csimpl. destruct (sent_tx e); simpl; [by rewrite reverse_cons|by rewrite app_nil_r]. Qed.

Lemma metrics_cons e t : metrics (e :: t) = metrics t ++ option_list (metric_of e).
Proof. unfold metrics. csimpl. destruct (metric_of e); simpl; [by rewrite reverse_cons|by rewrite app_nil_r]. Qed.

(** Running a program only extends the trace. *)
Lemma run_extends {S A} h (p : prog S A) : forall s t,
  exists new, (run h p s t).2 = new ++ t.
Proof.
  induction p as [a|k IH|s' k IH|? k IH|R o k IH]; simpl; intros s t; auto.
  - by exists [].
  - destruct (IH (answer h R o t) s (Event o (answer h R o t) :: t)) as [new ->].
    exists (new ++ [Event o (answer h R o t)]). by rewrite <- app_assoc.
Qed.

(** ** Quiet invariants

    Sending a transaction, updating a metric, running the solver and setting a
    parameter type are the visible effects; an invariant that only constrains
    those is kept by every other operation. *)
Definition is_quiet {R} (o : op R) : bool :=
  match o with
  | SubmitAndWatch _ _ _ | MetricOp _ | MineSolution _ | ParamSet _ _ => false
  | _ => true
  end.

Class Quiet {S} (I : S -> trace -> Prop) : Prop :=
  quiet_neutral R (o : op R) : is_quiet o = true -> neutral I o.

#[global] Instance Quiet_guarded {S} J :
  (forall R (o : op R) r past, is_quiet o = true -> J (Event o r) past) ->
  Quiet (fun (_ : S) t => guarded J t).
Proof. intros HJ R o Ho s t r H. simpl. auto. Qed.

#[global] Instance Quiet_Itrue {S} : Quiet (S := S) Itrue.
Proof. done. Qed.

(** The facts a program inherits from its past. *)
#[global] Instance Quiet_and {S} (I : S -> trace -> Prop) (F : trace -> Prop) :
  Quiet I -> (forall e t, F t -> F (e :: t)) ->
  Quiet (fun s t => I s t /\ F t).
Proof. intros HI HF R o Ho s t r [H1 H2]. split; [by apply HI|auto]. Qed.

(** The transactions sent so far are a quiet fact. *)
#[global] Instance Quiet_sent {S} (L : list (Call * Z * option Z)) :
  Quiet (fun (_ : S) t => sent_txs t = L).
Proof. intros R o Ho s t r H. unfold sent_txs in *. by destruct o. Qed.

(** Quiet operations, one at a time. *)
Lemma wp_ask_quiet {S R} (I : S -> trace -> Prop) (o : op R) Q s t :
  Quiet I -> is_quiet o = true -> I s t ->
  (forall r, I s (Event o r :: t) -> Q (Ok r) s (Event o r :: t)) ->
  wp I (ask o) Q s t.
Proof. intros HQu Ho HI HQ r. pose proof (HQu R o Ho s t r HI). split; [done|]. by apply HQ. Qed.

Lemma wp_query_quiet {S R} (I : S -> trace -> Prop) (o : op (Result R SubxtError)) Q s t :
  Quiet I -> is_quiet o = true -> I s t ->
  (forall a, I s (Event o (ok a) :: t) -> Q (Ok a) s (Event o (ok a) :: t)) ->
  (forall e, I s (Event o (err e) :: t) -> Q (Err (Error.Subxt e)) s (Event o (err e) :: t)) ->
  wp I (query o) Q s t.
Proof.
  intros HQu Ho HI Hok Herr r. pose proof (HQu _ o Ho s t r HI).
  split; [done|]. destruct r; [by apply Hok|by apply Herr].
Qed.

End traces.

Ltac quiet := apply quiet_neutral; reflexivity.

(** Programs made of quiet operations. *)
Ltac keeps_quiet := repeat (keeps_step quiet).

(** [wp_pure] executes what is not an operation, [wp_quiet] also the next
    quiet operation of a program. *)
Ltac wp_pure :=
  repeat (cbn [bind_post];
    lazymatch goal with
    | |- wp _ (mret _) _ _ _ => apply wp_ret
    | |- wp _ (throw _) _ _ _ => apply wp_throw
    | |- wp _ (panic _) _ _ _ => apply wp_panic
    end); cbn [bind_post].

Ltac wp_quiet :=
  wp_pure;
  lazymatch goal with
  | |- wp _ (mbind _ _) _ _ _ => apply wp_bind; wp_quiet
  | |- wp _ (query _) _ _ _ =>
      apply wp_query_quiet; [apply _|reflexivity|assumption|intros ? ?|intros ? ?]; wp_pure
  | |- wp _ (ask _) _ _ _ =>
      apply wp_ask_quiet; [apply _|reflexivity|assumption|intros ? ?]; wp_pure
  end.
