(* ===== verification/Observe.v ===== *)
(** * Observations of a program

    What a program makes visible through one kind of event (the metrics it
    records, the messages it sends), in order: all of a list when it returns, a
    prefix of it when it fails. *)

From S2P Require Import Prelude Errors Chain Metrics Types Effects Traces.
Local Open Scope Z_scope.

Section observe.
Context `{T : MinerConfig} {S X : Type} (f : event -> option X).

(** The observations of a trace, oldest first. *)
Definition observed (t : trace) : list X := reverse (omap f t).

Lemma observed_cons e t : observed (e :: t) = observed t ++ option_list (f e).
Proof.
  unfold observed. csimpl. destruct (f e); simpl; [by rewrite reverse_cons|by rewrite app_nil_r].
Qed.

(** Nothing was observed since [L]. *)
Definition unobserved (L : list X) (_ : S) (t : trace) : Prop := observed t = L.

Context (strict : Prop).

(** After [L] the program shows [full], or if it does not return a prefix of it
    (shorter than [full] when [strict]). *)
Definition yields {A} (L full : list X) : outcome A -> S -> trace -> Prop :=
  fun o _ t => exists new, observed t = L ++ new /\
    match o with
    | Ok _ => new = full
    | _ => new `prefix_of` full /\ (strict -> new <> full)
    end.

Lemma yields_early {A} L new full (o : outcome A) s t :
  (forall a, o <> Ok a) -> observed t = L ++ new -> new `prefix_of` full -> (strict -> new <> full) ->
  yields L full o s t.
Proof. intros Ho Ht Hpre Hne. exists new. split; [done|]. by destruct o; [destruct (Ho a)|..]. Qed.

Lemma yields_nothing {A} L full (o : outcome A) s t :
  (forall a, o <> Ok a) -> observed t = L -> (strict -> full <> []) -> yields L full o s t.
Proof.
  intros Ho Ht Hne. apply (yields_early _ []); [done|by rewrite app_nil_r|apply prefix_nil|].
  intros Hs Heq. by apply (Hne Hs).
Qed.

Lemma observes_ret {A} L (a : A) s t : observed t = L -> yields L [] (Ok a) s t.
Proof. intros Ht. exists []. by rewrite app_nil_r. Qed.

(** A silent program before one that is observed. *)
Lemma observes_bind {A B} L full (m : M S A) (k : A -> M S B) R s t :
  (strict -> full <> []) -> observed t = L -> keeps (unobserved L) m R ->
  (forall a s' t', observed t' = L -> R a s' t' -> wp Itrue (k a) (yields L full) s' t') ->
  wp Itrue (mbind k m) (yields L full) s t.
Proof.
  intros Hfull HL Hm Hf. eapply (wp_keeps_bind (unobserved L)); [exact Hm|done|auto|].
  intros o s' t' HI Ho. by apply yields_nothing.
Qed.

(** Two programs that are observed. *)
Lemma yields_seq {A B} L full1 full2 (m : M S A) (k : A -> M S B) s t :
  (strict -> full2 <> []) -> wp Itrue m (yields L full1) s t ->
  (forall a s' t', observed t' = L ++ full1 ->
     wp Itrue (k a) (yields (L ++ full1) full2) s' t') ->
  wp Itrue (mbind k m) (yields L (full1 ++ full2)) s t.
Proof.
  intros Hne Hm Hf. apply wp_bind. eapply wp_mono; [done| |exact Hm].
  intros o s' t' (new & Ht & Ho). destruct o as [a|e|msg|]; cbn [bind_post].
  { subst new. eapply wp_mono; [done| |by apply Hf].
    intros o s2 t2 (new2 & Ht2 & Ho2). exists (full1 ++ new2). rewrite app_assoc. split; [done|].
    destruct o as [b| | |]; [by subst|..];
      (destruct Ho2 as [[q ->] Hn2]; split; [by exists q; rewrite app_assoc|]);
      intros Hs Hk%app_inv_head; by apply Hn2. }
  all: destruct Ho as [[q ->] Hn]; apply (yields_early _ new); [done|done|..];
    [by exists (q ++ full2); rewrite app_assoc|];
    intros Hs Hk; apply (f_equal length) in Hk; rewrite !length_app in Hk;
    destruct full2; [by apply Hne|cbn in Hk; lia].
Qed.

(** An operation that is observed as [x]. *)
Lemma observes_ask {A R} (o : op R) x L full (k : R -> M S A) s t :
  (forall r, f (Event o r) = Some x) -> observed t = L ->
  (forall r t', observed t' = L ++ [x] -> wp Itrue (k r) (yields (L ++ [x]) full) s t') ->
  wp Itrue (mbind k (ask o)) (yields L (x :: full)) s t.
Proof.
  intros Hx HL Hk. apply wp_bind. intros r. split; [done|]. apply wp_ret. cbn [bind_post].
  eapply wp_mono; [done| |apply Hk; by rewrite observed_cons, Hx, HL].
  intros o' s' t' (new & Ht & Ho). exists (x :: new). rewrite Ht, <- app_assoc. split; [done|].
  destruct o'; [by subst|..]; (destruct Ho as [[q ->] Hn]; split; [by exists q|]);
    intros Hs [=]; by apply Hn.
Qed.

(** A failure after everything was shown. *)
Lemma yields_fail {A} L (o : outcome A) s t :
  ~ strict -> observed t = L -> yields L [] o s t.
Proof. intros Hs Ht. exists []. rewrite app_nil_r. split; [done|]. by destruct o. Qed.

End observe.
