(* ===== verification/Scenario.v ===== *)
(** * A concrete node

    An executable environment for the examples of the development: a node
    whose phase, submissions and dropped transactions are functions of the
    history, and that includes every other transaction with the events the
    runtime emits for it. *)

From S2P Require Import Prelude Errors Chain Metrics Types Effects Traces.
Local Open Scope Z_scope.

(** Pages of a solution are numbers. *)
#[export] Instance num_config : MinerConfig := {| Solution := Z; solution_default := -1 |}.

Definition block0 : AtBlock := {| ab_hash := 7; ab_number := 100; ab_spec_version := 1 |}.

(** A transaction is identified by the call it carries. *)
Definition register_id : Z := 1000.
Definition other_id : Z := 2000.

Definition call_id (c : Call) : Z :=
  match c with
  | register _ => register_id
  | submit_page_call p _ => p
  | _ => other_id
  end.

Definition inclusion_events (id : Z) : list (Result RtEvent SubxtError) :=
  if id =? register_id then [ok Registered]
  else if id =? other_id then [ok OtherEvent]
  else [ok (Stored 1 1 id); ok OtherEvent].

Record Node : Type := {
  node_phase : trace -> Phase;
  node_drops : Z -> trace -> bool;
  node_submission : option SubmissionMetadata;
  node_round : trace -> Z;
  node_scores : list (AccountId * ElectionScore);
  node_minimum : option ElectionScore;
  node_mined : PagedRawSolution;
  node_winners : Z;
  node_block : trace -> NextBlock;
  node_reconnect : Result unit Error.t;
  node_fires : Z -> trace -> bool;
  node_reachable : string -> bool;
}.

Definition node_answer (nd : Node) {R} (o : op R) (t : trace) : R :=
  match o in op R return R with
  | AtCurrentBlock | AtBlockHash _ => ok block0
  | FetchCurrentPhase _ => ok (node_phase nd t)
  | TryFetchCurrentPhase _ => ok (Some (node_phase nd t))
  | FetchRound _ => ok (node_round nd t)
  | TryFetchDesiredTargets _ _ => ok (Some (node_winners nd))
  | TryFetchAccount _ _ => ok (Some {| ai_nonce := 0; ai_free := 10000000000000 |})
  | TryFetchMinimumScore _ => ok (node_minimum nd)
  | FetchSortedScores _ _ => ok (node_scores nd)
  | TryFetchSubmission _ _ _ => ok (node_submission nd)
  | IterEraPruningState _ => ok [ok [9; 9; 3; 0; 0; 0]; ok [9; 9; 2; 1; 0; 0]; ok [7]]
  | TryFetchVoterSnapshotHash _ _ page => ok (Some (ok (50 + page)))
  | TryFetchTargetSnapshotHash _ _ page => ok (Some (ok (90 + page)))
  | TryFetchVoterSnapshot _ _ page => ok (Some (ok [(page, 1, [])]))
  | TryFetchTargetSnapshot _ _ _ => ok (Some (ok [1; 2]))
  | IterValidators _ => ok []
  | IterListBags _ => ok []
  | IterListNodes _ => ok []
  | TryFetchNominators _ _ => ok None
  | TryFetchBonded _ _ => ok None
  | TryFetchLedger _ _ => ok None
  | JoinTask => None
  | SubxtText _ | ScoreText _ => ""
  | AccountNonce => ok 5
  | ToScaleValue => ok tt
  | CreateSigned _ _ _ => ok tt
  | SubmitAndWatch c _ _ => ok (call_id c)
  | WaitForFinalized p =>
      if node_drops nd p t then err TransactionStatusError
      else ok {| tx_block_hash := p; tx_extrinsic_hash := p |}
  | WaitForSuccess x => ok (inclusion_events (tx_block_hash x))
  | NextReady _ => 0%nat
  | HashSetIter s => elements s
  | MineSolution _ => ok (ok (node_mined nd))
  | CheckFeasibility _ _ => ok tt
  | WinnerCount _ => node_winners nd
  | EvaluateSupports _ _ _ _ => ok []
  | PagesGet => 4
  | ParamGet _ => 4
  | ParamSet _ _ => tt
  | Constant _ _ _ => ok (ok 4)
  | ConstantBlockLength _ => ok (ok {| bl_max := {| normal := 75; operational := 20; mandatory := 5 |} |})
  | CoreVersion _ => ok (ok {| spec_name := "westend"; impl_name := "parity-westend"; spec_version := 1;
      impl_version := 0; authoring_version := 2; transaction_version := 26 |})
  | TryFetchRound _ => ok (Some (node_round nd t))
  | TryFetchValidatorCount _ => ok (Some (ok (node_winners nd)))
  | CurrentEndpoint => "wss://node"
  | RpcFromUrl _ => ok tt
  | RpcParamsPush _ => ok tt
  | RpcBlockHash n => ok (Some n)
  | RpcSystemProperties => ok {| token_symbol := Some "DOT"; token_decimals := Some 10 |}
  | CreateDirAll _ | FileCreate _ | FileWriteAll _ _ | FileFlush _ | FileOpen _ => ok tt
  | FileReadToString _ => ok ""
  | FsRead _ => None
  | PrometheusRun _ => ok tt
  | SystemTime => Some 1700000000
  | HealthCheckTick => tt
  | ParseDirective _ | TcpBind _ | SignalStream _ => ok tt
  | SocketAddr listen port => ok (listen +:+ ":" +:+ pretty port)
  | SpawnUpgradeTask => tt
  | CollectBody _ => Collected ""
  | TryAcquirePrediction => true
  | ReleasePrediction => tt
  | StreamBlocks => ok tt
  | SubscriptionNext => node_block nd t
  | IsDisconnectedWillReconnect _ => false
  | Reconnect => node_reconnect nd
  | BuildRpc uri => if node_reachable nd uri then ok tt else err "unreachable"
  | FromBackend _ _ => ok tt
  | MinerTrySend _ | ClearTrySend _ | EraTrySend _ => Sent
  | MinerSend _ | EraSend _ => ok tt
  | Sleep _ => tt
  | MetricOp _ => tt
  end.

Definition node_handler (nd : Node) : handler :=
  {| answer := fun R o t => node_answer nd o t; fires := node_fires nd |}.

Definition score0 : ElectionScore :=
  {| minimal_stake := 10; sum_stake := 100; sum_stake_squared := 1000 |}.

Definition mined4 : PagedRawSolution :=
  {| solution_pages := [11; 12; 13; 14]; score := score0; prs_round := 1 |}.

(** A node in a long signed phase that includes everything. *)
Definition good_node : Node := {|
  node_phase := fun _ => Signed 50;
  node_drops := fun _ _ => false;
  node_submission := None;
  node_round := fun _ => 1;
  node_scores := [];
  node_minimum := None;
  node_mined := mined4;
  node_winners := 2;
  node_block := fun _ => Some (ok ({| number := 100 |}, 7));
  node_reconnect := ok tt;
  node_fires := fun _ _ => false;
  node_reachable := fun _ => true;
|}.

(** The same node with one behaviour replaced. *)
Definition with_phase (x : trace -> Phase) (nd : Node) : Node := {|
  node_phase := x;
  node_drops := node_drops nd;
  node_submission := node_submission nd;
  node_round := node_round nd;
  node_scores := node_scores nd;
  node_minimum := node_minimum nd;
  node_mined := node_mined nd;
  node_winners := node_winners nd;
  node_block := node_block nd;
  node_reconnect := node_reconnect nd;
  node_fires := node_fires nd;
  node_reachable := node_reachable nd;
|}.

Definition with_drops (x : Z -> trace -> bool) (nd : Node) : Node := {|
  node_phase := node_phase nd;
  node_drops := x;
  node_submission := node_submission nd;
  node_round := node_round nd;
  node_scores := node_scores nd;
  node_minimum := node_minimum nd;
  node_mined := node_mined nd;
  node_winners := node_winners nd;
  node_block := node_block nd;
  node_reconnect := node_reconnect nd;
  node_fires := node_fires nd;
  node_reachable := node_reachable nd;
|}.

Definition with_submission (x : option SubmissionMetadata) (nd : Node) : Node := {|
  node_phase := node_phase nd;
  node_drops := node_drops nd;
  node_submission := x;
  node_round := node_round nd;
  node_scores := node_scores nd;
  node_minimum := node_minimum nd;
  node_mined := node_mined nd;
  node_winners := node_winners nd;
  node_block := node_block nd;
  node_reconnect := node_reconnect nd;
  node_fires := node_fires nd;
  node_reachable := node_reachable nd;
|}.

Definition with_round (x : trace -> Z) (nd : Node) : Node := {|
  node_phase := node_phase nd;
  node_drops := node_drops nd;
  node_submission := node_submission nd;
  node_round := x;
  node_scores := node_scores nd;
  node_minimum := node_minimum nd;
  node_mined := node_mined nd;
  node_winners := node_winners nd;
  node_block := node_block nd;
  node_reconnect := node_reconnect nd;
  node_fires := node_fires nd;
  node_reachable := node_reachable nd;
|}.

Definition with_scores (x : list (AccountId * ElectionScore)) (nd : Node) : Node := {|
  node_phase := node_phase nd;
  node_drops := node_drops nd;
  node_submission := node_submission nd;
  node_round := node_round nd;
  node_scores := x;
  node_minimum := node_minimum nd;
  node_mined := node_mined nd;
  node_winners := node_winners nd;
  node_block := node_block nd;
  node_reconnect := node_reconnect nd;
  node_fires := node_fires nd;
  node_reachable := node_reachable nd;
|}.

Definition with_block (x : trace -> NextBlock) (nd : Node) : Node := {|
  node_phase := node_phase nd;
  node_drops := node_drops nd;
  node_submission := node_submission nd;
  node_round := node_round nd;
  node_scores := node_scores nd;
  node_minimum := node_minimum nd;
  node_mined := node_mined nd;
  node_winners := node_winners nd;
  node_block := x;
  node_reconnect := node_reconnect nd;
  node_fires := node_fires nd;
  node_reachable := node_reachable nd;
|}.

Definition with_fires (x : Z -> trace -> bool) (nd : Node) : Node := {|
  node_phase := node_phase nd;
  node_drops := node_drops nd;
  node_submission := node_submission nd;
  node_round := node_round nd;
  node_scores := node_scores nd;
  node_minimum := node_minimum nd;
  node_mined := node_mined nd;
  node_winners := node_winners nd;
  node_block := node_block nd;
  node_reconnect := node_reconnect nd;
  node_fires := x;
  node_reachable := node_reachable nd;
|}.

Definition with_reachable (x : string -> bool) (nd : Node) : Node := {|
  node_phase := node_phase nd;
  node_drops := node_drops nd;
  node_submission := node_submission nd;
  node_round := node_round nd;
  node_scores := node_scores nd;
  node_minimum := node_minimum nd;
  node_mined := node_mined nd;
  node_winners := node_winners nd;
  node_block := node_block nd;
  node_reconnect := node_reconnect nd;
  node_fires := node_fires nd;
  node_reachable := x;
|}.

(** A node that loses the transactions [drops] chooses. *)
Definition lossy_node (drops : Z -> trace -> bool) : Node := with_drops drops good_node.

(** How many transactions with [id] were sent. *)
Definition sent_count (id : Z) (t : trace) : nat :=
  length (filter (fun x => call_id x.1.1 = id) (sent_txs t)).
