(* ===== verification/ChainAccess.v ===== *)
(** * Reading the chain

    The storage helpers of [src/utils.rs] and the idioms of the sources that
    read the election phase. *)

From S2P Require Import Prelude Errors Chain Metrics Types Effects Traces.
Local Open Scope Z_scope.

Section chain_access.
Context `{T : MinerConfig} {S : Type}.

(** [get_latest_finalized_head] *)
Definition get_latest_finalized_head : M S Hash :=
  b ← query AtCurrentBlock;
  mret (ab_hash b).

(** [storage_at] *)
Definition storage_at (block : option Hash) : M S AtBlock :=
  match block with
  | Some block_hash => query (AtBlockHash block_hash)
  | None => query AtCurrentBlock
  end.

(** [storage_at_head] *)
Definition storage_at_head : M S AtBlock :=
  hash ← get_latest_finalized_head;
  storage_at (Some hash).

(** [wait_tx_in_finalized_block] *)
Definition wait_tx_in_finalized_block (tx : TxProgress) : M S TxInBlock :=
  query (WaitForFinalized tx).

(** The phase at the finalized head, [Off] when the storage has none. *)
Definition current_phase_at_head : M S Phase :=
  storage ← storage_at_head;
  p ← query (TryFetchCurrentPhase storage);
  mret (default Off p).

(** [signed_phase] *)
Definition signed_phase : M S bool :=
  b ← storage_at_head;
  current_phase ← query (FetchCurrentPhase b);
  mret (is_signed current_phase).

(** [client.chain_api().await.tx().await?.account_nonce(..).await?] *)
Definition account_nonce : M S Z :=
  query AtCurrentBlock;;
  query AccountNonce.

(** [create_signed] followed by [submit_and_watch]. *)
Definition sign_and_submit (c : Call) (nonce : Z) (mortality : option Z) : M S TxProgress :=
  query (CreateSigned c nonce mortality);;
  query (SubmitAndWatch c nonce mortality).

(** ** Reading the chain is quiet *)

Section quiet.
Context (I : S -> trace -> Prop) `{!Quiet I}.

Lemma keeps_storage_at b : keeps I (storage_at b) anything.
Proof. unfold storage_at. keeps_quiet. Qed.

Lemma keeps_storage_at_head : keeps I storage_at_head anything.
Proof. unfold storage_at_head, get_latest_finalized_head, storage_at. keeps_quiet. Qed.

Lemma keeps_wait_tx p : keeps I (wait_tx_in_finalized_block p) anything.
Proof. unfold wait_tx_in_finalized_block. keeps_quiet. Qed.

Lemma keeps_account_nonce : keeps I account_nonce anything.
Proof. unfold account_nonce. keeps_quiet. Qed.

Lemma keeps_signed_phase : keeps I signed_phase anything.
Proof.
  unfold signed_phase. eapply keeps_bind; [apply keeps_storage_at_head|]. intros b. keeps_quiet.
Qed.

(** The phase that was read is the last one of the trace. *)
Lemma keeps_current_phase : keeps I current_phase_at_head (fun p _ t => last_phase t = Some p).
Proof.
  unfold current_phase_at_head.
  eapply keeps_bind; [apply keeps_storage_at_head|]. intros b.
  eapply keeps_bind_post; [apply (keeps_query _ _
    (fun p _ t => last_phase t = Some (default Off p))); [quiet|done]|].
  by intros p s t HI Hp.
Qed.

End quiet.

End chain_access.
