(* ===== verification/Signing.v ===== *)
(** * Signing transactions

    The signer of [src/signer.rs], and the parameters a transaction is signed
    with: the nonce, its lifetime and the [RestrictOrigins] extension of
    [src/dynamic/utils.rs].  The keys are those of [sp_core], the parameters and
    the metadata those of [subxt]: both are classes. *)

From S2P Require Import Prelude RustStr Errors Chain Metrics Types Effects Traces Scenario.
Local Open Scope Z_scope.

(** ** The signer *)

(** [sp_core::sr25519]: a pair, its public key, the account of a public key
    ([MultiSigner::from(public).into_account()]) and signatures. *)
Class Crypto : Type := {
  Pair : Type;
  Public : Type;
  Signature : Type;
  pair_from_string : string -> Result Pair string;
  pair_public : Pair -> Public;
  into_account : Public -> AccountId;
  pair_sign : Pair -> string -> Signature;
}.

Section signer.
Context `{K : Crypto}.

(** [subxt::config::substrate::MultiSignature]: the variant the signer makes. *)
Inductive MultiSignature : Type := Sr25519 (signature : Signature).

Record PairSigner : Type := {
  ps_account_id : AccountId;
  ps_signer : Pair;
}.

(** [PairSigner::new] *)
Definition pair_signer_new (signer : Pair) : PairSigner :=
  {| ps_account_id := into_account (pair_public signer); ps_signer := signer |}.

(** The methods of [subxt::tx::Signer]. *)
Definition signer_account_id (s : PairSigner) : AccountId := ps_account_id s.

Definition signer_sign (s : PairSigner) (signer_payload : string) : MultiSignature :=
  Sr25519 (pair_sign (ps_signer s) signer_payload).

(** [Signer], with its [Deref] to the pair; its text is that of the account. *)
Record Signer : Type := { signer_deref : PairSigner }.

Definition signer_display (account_text : AccountId -> string) (s : Signer) : string :=
  account_text (signer_account_id (signer_deref s)).

(** [Signer::new].  A path that cannot be read is itself the seed. *)
Definition signer_new `{T : MinerConfig} {S} (seed_or_path : string) : M S Signer :=
  let seed_or_path := trim seed_or_path in
  file ← ask (FsRead seed_or_path);
  seed ← match file with
         | Some (ok s) => mret s
         | Some (err e) => throw (Error.Other e)
         | None => mret seed_or_path
         end;
  let seed := trim seed in
  pair ← match pair_from_string seed with ok p => mret p | err e => throw (Error.Crypto e) end;
  mret {| signer_deref := pair_signer_new pair |}.

End signer.

(** What [sp_runtime] documents of signatures: the one a pair makes is accepted
    for the account of the pair. *)
Class CryptoLaws `{K : Crypto} : Type := {
  verify : MultiSignature -> string -> AccountId -> bool;
  verify_sign p payload :
    verify (Sr25519 (pair_sign p payload)) payload (into_account (pair_public p)) = true;
}.

(** ** Extensions of a transaction *)

Definition RESTRICT_ORIGINS : string := "RestrictOrigins".

(** An extension the metadata declares, with the type of its value. *)
Record TransactionExtension (Ty : Type) : Type := {
  identifier : string;
  extra_ty : Ty;
}.
Arguments identifier {Ty} _.
Arguments extra_ty {Ty} _.

(** What the metadata tells: the newest version for encoding ([u8]), the
    extensions of a version, and whether [true] can be encoded as a type. *)
Class ExtrinsicMetadata (Ty Metadata : Type) : Type := {
  transaction_extension_version_to_use_for_encoding : Metadata -> Z;
  transaction_extensions_by_version : Metadata -> Z -> option (list (TransactionExtension Ty));
  encodes_true : Metadata -> Ty -> bool;
}.

(** [DefaultExtrinsicParamsBuilder] *)
Class ExtrinsicParamsBuilder (Builder : Type) : Type := {
  builder_default : Builder;
  builder_nonce : Z -> Builder -> Builder;
  builder_mortal : Z -> Builder -> Builder;
  custom_extension : string -> bool -> Builder -> Builder;
}.

(** What [subxt] documents of the builder: the extensions supplied by name are
    those of the calls of [custom_extension], in order. *)
Class BuilderLaws `{PB : ExtrinsicParamsBuilder Builder} : Type := {
  supplied : Builder -> list (string * bool);
  supplied_default : supplied builder_default = [];
  supplied_nonce n b : supplied (builder_nonce n b) = supplied b;
  supplied_mortal n b : supplied (builder_mortal n b) = supplied b;
  supplied_custom name v b : supplied (custom_extension name v b) = supplied b ++ [(name, v)];
}.

Section extensions.
Context `{MD : ExtrinsicMetadata Ty Metadata} `{PB : ExtrinsicParamsBuilder Builder}.

(** The extensions of every version up to the newest, in order. *)
Definition probed_extensions (metadata : Metadata) : list (TransactionExtension Ty) :=
  let newest_version := transaction_extension_version_to_use_for_encoding metadata in
  concat (omap (transaction_extensions_by_version metadata) (seqZ 0 (newest_version + 1))).

Definition takes_a_bool (metadata : Metadata) : bool :=
  existsb (fun extension => encodes_true metadata (extra_ty extension))
    (filter (fun extension => identifier extension = RESTRICT_ORIGINS) (probed_extensions metadata)).

(** [with_restrict_origins] *)
Definition with_restrict_origins (builder : Builder) (metadata : Metadata) : Builder :=
  if takes_a_bool metadata then custom_extension RESTRICT_ORIGINS true builder else builder.

(** The parameters of a transaction: [submit_inner] gives it a lifetime, [bail]
    and the housekeeping transactions do not. *)
Definition xt_cfg (nonce : Z) (mortality : option Z) (metadata : Metadata) : Builder :=
  let builder := builder_nonce nonce builder_default in
  with_restrict_origins
    (match mortality with Some n => builder_mortal n builder | None => builder end) metadata.

(** ** The properties *)

(** Which metadata take a bool. *)
Definition declares_bool (metadata : Metadata) : Prop :=
  exists version extensions extension,
    0 <= version <= transaction_extension_version_to_use_for_encoding metadata /\
    transaction_extensions_by_version metadata version = Some extensions /\
    extension ∈ extensions /\ identifier extension = RESTRICT_ORIGINS /\
    encodes_true metadata (extra_ty extension) = true.

Lemma elem_of_probed metadata extension : extension ∈ probed_extensions metadata <->
  exists version extensions,
    0 <= version <= transaction_extension_version_to_use_for_encoding metadata /\
    transaction_extensions_by_version metadata version = Some extensions /\ extension ∈ extensions.
Proof.
  unfold probed_extensions. rewrite list_elem_of_In, in_concat.
  setoid_rewrite <- list_elem_of_In. setoid_rewrite list_elem_of_omap.
  setoid_rewrite elem_of_seqZ. split.
  - intros (extensions & (version & Hv & He) & Hin). exists version, extensions. split_and!; [lia..|done|done].
  - intros (version & extensions & Hv & He & Hin). exists extensions. split; [|done].
    exists version. split; [lia|done].
Qed.

Lemma takes_a_bool_spec metadata : takes_a_bool metadata = true <-> declares_bool metadata.
Proof.
  unfold takes_a_bool, declares_bool. rewrite existsb_exists.
  setoid_rewrite <- list_elem_of_In. setoid_rewrite list_elem_of_filter.
  setoid_rewrite elem_of_probed. naive_solver.
Qed.

End extensions.

Section signed.
Context `{MD : ExtrinsicMetadata Ty Metadata} `{PB : ExtrinsicParamsBuilder Builder}.
Context {L : BuilderLaws (PB := PB)}.

(** C36: What every transaction is signed with, whatever the metadata: the value
    [true] for [RestrictOrigins] exactly once if some version up to the encoding
    one declares the extension with a type that [true] encodes as, and otherwise
    nothing.  So no name is supplied that the runtime does not declare (which
    [subxt] would refuse), and where nothing is supplied the parameters are those
    of the plain builder. *)
Theorem restrict_origins_exact (nonce : Z) (mortality : option Z) (metadata : Metadata) :
  let xt := xt_cfg nonce mortality metadata in
  let plain := builder_nonce nonce builder_default in
  (declares_bool metadata -> supplied xt = [(RESTRICT_ORIGINS, true)]) /\
  (~ declares_bool metadata ->
     xt = match mortality with Some n => builder_mortal n plain | None => plain end /\ supplied xt = []) /\
  (forall name v, (name, v) ∈ supplied xt ->
     exists extension, extension ∈ probed_extensions metadata /\ identifier extension = name).
Proof.
  intros xt plain.
  assert (supplied (match mortality with Some n => builder_mortal n plain | None => plain end) = []) as Hs.
  { destruct mortality; rewrite ?supplied_mortal; unfold plain; by rewrite supplied_nonce, supplied_default. }
  unfold xt, xt_cfg, with_restrict_origins. fold plain.
  pose proof (takes_a_bool_spec metadata) as Ht.
  destruct (takes_a_bool metadata); rewrite ?supplied_custom, ?Hs.
  - split_and!; [done|naive_solver|]. intros name v [= -> ->]%list_elem_of_singleton.
    destruct ((proj1 Ht) eq_refl) as (version & extensions & e & Hv & Hl & He & Hi & _).
    exists e. split; [|done]. apply elem_of_probed. eauto.
  - split_and!; [intros H; by apply Ht in H|done|by intros ?? ?%elem_of_nil].
Qed.

End signed.

Section new_signer.
Context `{T : MinerConfig} `{K : Crypto} {L : CryptoLaws (K := K)} {S : Type}.

(** C34: [Signer::new], whatever the file system answers: one read, of the trimmed
    argument.  The seed is the trimmed content of the file when it can be read and
    the trimmed argument otherwise; the account is that of the pair of the seed,
    and every signature the signer makes is accepted for that account.  It fails
    only when the file is not text or the seed is none. *)
Theorem signer_new_signs (seed_or_path : string) (s : S) (t : trace) :
  wp Itrue (signer_new seed_or_path)
    (fun o s' t' => s' = s /\ exists file, t' = Event (FsRead (trim seed_or_path)) file :: t /\
       let seed := match file with Some (ok content) => trim content | _ => trim seed_or_path end in
       match o with
       | Ok signer =>
           (exists pair, pair_from_string seed = ok pair /\
              signer_account_id (signer_deref signer) = into_account (pair_public pair)) /\
           (forall e, file <> Some (err e)) /\
           forall payload, verify (signer_sign (signer_deref signer) payload) payload
                             (signer_account_id (signer_deref signer)) = true
       | Err e => (exists text, e = Error.Other text /\ file = Some (err text)) \/
                  (exists text, e = Error.Crypto text /\ pair_from_string seed = err text)
       | _ => False
       end) s t.
Proof.
  unfold signer_new. apply wp_bind. intros file. split; [done|]. apply wp_ret. cbn [bind_post].
  apply wp_bind. destruct file as [[content|e]|].
  2: { apply wp_throw. cbn [bind_post]. split; [done|]. exists (Some (err e)). split; [done|]. left. by exists e. }
  1: set (seed := content). 2: set (seed := trim seed_or_path).
  all: apply wp_ret; cbn [bind_post]; apply wp_bind;
    destruct (pair_from_string (trim seed)) as [pair|e] eqn:Ep;
    [apply wp_ret|apply wp_throw]; cbn [bind_post]; [apply wp_ret|..]; (split; [done|]).
  1,2: exists (Some (ok content)). 3,4: exists None.
  all: split; [done|]; unfold seed in Ep; rewrite ?trim_idemp in Ep; cbv zeta.
  - split; [by exists pair|]. split; [done|]. intros payload. apply verify_sign.
  - right. by exists e.
  - split; [by exists pair|]. split; [done|]. intros payload. apply verify_sign.
  - right. by exists e.
Qed.

End new_signer.

(** ** Examples *)

(** Keys whose pair is the seed: the account is its length, and a signature is
    accepted when it was made by a pair of that account over that payload. *)
#[local] Instance toy_crypto : Crypto := {|
  Pair := string; Public := string; Signature := string * string;
  pair_from_string := fun seed => if String.eqb seed "" then err "invalid seed" else ok seed;
  pair_public := fun p => p;
  into_account := fun p => Z.of_nat (String.length p);
  pair_sign := fun p payload => (p, payload);
|}.

#[local] Instance toy_crypto_laws : CryptoLaws (K := toy_crypto).
Proof.
  refine {| verify := fun sig payload who =>
              let '(Sr25519 (p, m)) := sig in String.eqb m payload && (Z.of_nat (String.length p) =? who) |}.
  intros p payload. cbn. by rewrite String.eqb_refl, Z.eqb_refl.
Defined.

(** A path to a file that holds a seed and a line break. *)
Definition seed_path : string := " seed.txt ".
Definition seed_file : option (Result string string) :=
  Some (ok (String (Ascii.ascii_of_nat 10) "//Alice" +:+ String (Ascii.ascii_of_nat 10) "")).

#[local] Instance toy_metadata : ExtrinsicMetadata nat (list (option (list (TransactionExtension nat)))) := {|
  transaction_extension_version_to_use_for_encoding := fun md => Z.of_nat (length md) - 1;
  transaction_extensions_by_version := fun md v => mjoin (md !! Z.to_nat v);
  encodes_true := fun _ ty => Nat.eqb ty 1;
|}.

Record ToyBuilder : Type := {
  tb_nonce : option Z;
  tb_mortal : option Z;
  tb_custom : list (string * bool);
}.

#[local] Instance toy_builder : ExtrinsicParamsBuilder ToyBuilder := {|
  builder_default := {| tb_nonce := None; tb_mortal := None; tb_custom := [] |};
  builder_nonce := fun n b => {| tb_nonce := Some n; tb_mortal := tb_mortal b; tb_custom := tb_custom b |};
  builder_mortal := fun n b => {| tb_nonce := tb_nonce b; tb_mortal := Some n; tb_custom := tb_custom b |};
  custom_extension := fun name v b =>
    {| tb_nonce := tb_nonce b; tb_mortal := tb_mortal b; tb_custom := tb_custom b ++ [(name, v)] |};
|}.

#[local] Instance toy_builder_laws : BuilderLaws (PB := toy_builder).
Proof. by refine {| supplied := tb_custom |}. Defined.

Definition extension (name : string) (ty : nat) : TransactionExtension nat :=
  {| identifier := name; extra_ty := ty |}.

(** Version 0 declares the extension as an option (type 2), version 2 as a bool. *)
Definition restricting : list (option (list (TransactionExtension nat))) :=
  [Some [extension "CheckNonce" 0; extension RESTRICT_ORIGINS 2]; None;
   Some [extension RESTRICT_ORIGINS 1; extension RESTRICT_ORIGINS 1]].

Lemma restrict_origins_exact_witness :
  declares_bool restricting /\
  supplied (xt_cfg 7 (Some 11) restricting) = [(RESTRICT_ORIGINS, true)] /\
  xt_cfg 7 (Some 11) (take 2 restricting) = {| tb_nonce := Some 7; tb_mortal := Some 11; tb_custom := [] |}.
Proof.
  assert (declares_bool restricting) as Hd by (apply takes_a_bool_spec; reflexivity).
  split; [exact Hd|]. split.
  - exact (proj1 (restrict_origins_exact 7 (Some 11) restricting) Hd).
  - assert (~ declares_bool (take 2 restricting)) as Hn.
    { intros H. apply takes_a_bool_spec in H. discriminate H. }
    exact (proj1 (proj1 (proj2 (restrict_origins_exact 7 (Some 11) (take 2 restricting))) Hn)).
Defined.

(** A file system with that file, and nothing else of interest. *)
Definition seed_handler : handler := {|
  answer := fun R o t => match o in op R return R with FsRead _ => seed_file | o => node_answer good_node o t end;
  fires := fun _ _ => false;
|}.

(** The signer of the file signs for the account of the seed in it. *)
Lemma signer_new_signs_witness :
  exists signer, run seed_handler (signer_new seed_path) tt [] = (Ok signer, tt, [Event (FsRead "seed.txt") seed_file]) /\
    signer_account_id (signer_deref signer) = 7 /\
    verify (signer_sign (signer_deref signer) "payload") "payload" 7 = true.
Proof.
  exists {| signer_deref := pair_signer_new (K := toy_crypto) "//Alice" |}.
  split; [vm_compute; reflexivity|]. split; [reflexivity|].
  pose proof (wp_run _ _ _ tt [] seed_handler (signer_new_signs seed_path tt [])) as H.
  assert (run seed_handler (signer_new seed_path) tt [] =
    (Ok {| signer_deref := pair_signer_new (K := toy_crypto) "//Alice" |}, tt, [Event (FsRead "seed.txt") seed_file])) as E
    by (vm_compute; reflexivity).
  rewrite E in H. destruct H as (_ & file & _ & _ & _ & Hv). exact (Hv "payload").
Defined.
