(* ===== verification/Submission.v ===== *)
(** * Submitting a solution

    The transactions of [src/dynamic/multi_block.rs]: registering the score,
    submitting the pages concurrently or in chunks, retrying the failed ones
    once, and bailing out of an incomplete submission. *)

From S2P Require Import Prelude Errors Chain Metrics Types Effects Traces ChainAccess.
Local Open Scope Z_scope.

Section submission.
Context `{T : MinerConfig}.

(** ** Transactions *)
Inductive TransactionKind : Type :=
| RegisterScore
| SubmitPage (page : Z).

Record MultiBlockTransaction : Type := {
  kind : TransactionKind;
  tx : Call;
}.

Context {S : Type}.

(** [to_scale_value(..).map_err(decode_error)?] *)
Definition to_scale_value : M S unit :=
  r ← ask ToScaleValue;
  match r with
  | ok _ => mret tt
  | err e => throw (Error.DynamicTransaction e)
  end.

(** [MultiBlockTransaction::register_score] *)
Definition register_score (sc : ElectionScore) : M S MultiBlockTransaction :=
  to_scale_value;;
  mret {| kind := RegisterScore; tx := register sc |}.

(** [MultiBlockTransaction::submit_page] *)
Definition submit_page (page : Z) (maybe_solution : option Solution)
    : M S MultiBlockTransaction :=
  to_scale_value;;
  to_scale_value;;
  mret {| kind := SubmitPage page; tx := submit_page_call page maybe_solution |}.

(** [submit_inner] *)
Definition submit_inner (t : MultiBlockTransaction) (nonce blocks_remaining : Z)
    : M S TxProgress :=
  let mortality := u32_add blocks_remaining 1 in
  query AtCurrentBlock;;
  sign_and_submit (tx t) nonce (Some mortality).

(** [bail] *)
Definition bail : M S unit :=
  query AtCurrentBlock;;
  nonce ← query AccountNonce;
  t ← sign_and_submit bail_call nonce None;
  wait_tx_in_finalized_block t;;
  mret tt.

(** [get_signed_phase_blocks_remaining] *)
Definition get_signed_phase_blocks_remaining (current_phase : Phase) : M S Z :=
  match current_phase with
  | Signed blocks_remaining => mret blocks_remaining
  | _ => panic "get_signed_phase_blocks_remaining called but not in SignedPhase"
  end.

(** [validate_signed_phase_or_bail] *)
Definition validate_signed_phase_or_bail (current_phase : Phase) (signer : AccountId)
    (round min_signed_phase_blocks : Z) : M S unit :=
  match current_phase with
  | Signed blocks_remaining =>
      if blocks_remaining <=? min_signed_phase_blocks then
        storage ← storage_at_head;
        maybe_submission ← query (TryFetchSubmission storage round signer);
        match maybe_submission with
        | Some submission =>
            if negb (forallb id (sm_pages submission)) then bail else mret tt
        | None => mret tt
        end;;
        throw (Error.InsufficientSignedPhaseBlocks blocks_remaining min_signed_phase_blocks)
      else mret tt
  | _ => throw (Error.PhaseChangedDuringSubmission (phase_debug current_phase) round)
  end.

(** ** Page batches *)

(** [SubmissionResult] *)
Record SubmissionResult : Type := {
  failed_pages : list Z;
  submitted_pages : gset Z;
}.

Definition all_successful (r : SubmissionResult) : bool :=
  match failed_pages r with [] => true | _ => false end.

(** The iteration order of a [HashSet] is the environment's choice. *)
Definition hash_set_iter (s : gset Z) : M S (list Z) :=
  l ← ask (HashSetIter s);
  mret (if decide (l ≡ₚ elements s) then l else elements s).

(** Step 1 of [submit_pages_batch]: sign and send every page, with consecutive
    nonces; the mortality of each follows the phase read just before. *)
Fixpoint submit_batch_loop (pages_to_submit : list (Z * Solution)) (nonce : Z)
    : M S (list (Z * TxProgress)) :=
  match pages_to_submit with
  | [] => mret []
  | (page, solution) :: rest =>
      current_phase ← current_phase_at_head;
      blocks_remaining ← get_signed_phase_blocks_remaining current_phase;
      t ← submit_page page (Some solution);
      tx_status ← submit_inner t nonce blocks_remaining;
      txs ← submit_batch_loop rest (u64_add nonce 1);
      mret ((page, tx_status) :: txs)
  end.

(** The pages of the [Stored] events of an included transaction. *)
Fixpoint stored_pages (events : list (Result RtEvent SubxtError)) (acc : gset Z)
    : Result (gset Z) Error.t :=
  match events with
  | [] => ok acc
  | err e :: _ => err (Error.Subxt e)
  | ok (Stored _ _ page) :: rest => stored_pages rest ({[page]} ∪ acc)
  | ok _ :: rest => stored_pages rest acc
  end.

(** Step 3 of [submit_pages_batch]: [FuturesUnordered] yields the pending
    transactions in the order they complete; [n] is their number. *)
Fixpoint process_txs (n : nat) (txs : list (Z * TxProgress)) (failed submitted : gset Z)
    : M S (gset Z * gset Z) :=
  match n with
  | 0%nat => mret (failed, submitted)
  | Datatypes.S n =>
      i ← ask (NextReady (length txs));
      let i := (i mod length txs)%nat in
      match txs !! i with
      | None => mret (failed, submitted)
      | Some (page, tx_status) =>
          let txs := delete i txs in
          r ← catch (wait_tx_in_finalized_block tx_status);
          match r with
          | ok tx =>
              events ← query (WaitForSuccess tx);
              submitted ← of_result (stored_pages events submitted);
              process_txs n txs failed submitted
          | err _ => process_txs n txs ({[page]} ∪ failed) submitted
          end
      end
  end.

(** [submit_pages_batch] *)
Definition submit_pages_batch (signer : AccountId) (pages_to_submit : list (Z * Solution))
    (round min_signed_phase_blocks : Z) : M S SubmissionResult :=
  current_phase ← current_phase_at_head;
  validate_signed_phase_or_bail current_phase signer round min_signed_phase_blocks;;
  nonce ← account_nonce;
  let expected_pages : gset Z := list_to_set pages_to_submit.*1 in
  txs ← submit_batch_loop pages_to_submit nonce;
  '(failed_pages_set, submitted) ← process_txs (length txs) txs ∅ ∅;
  let missing_pages := expected_pages ∖ submitted in
  failed ← hash_set_iter (failed_pages_set ∪ missing_pages);
  mret {| failed_pages := failed; submitted_pages := submitted |}.

(** [inner_submit_pages_concurrent] *)
Definition inner_submit_pages_concurrent (signer : AccountId)
    (paged_raw_solution : list (Z * Solution)) (round min_signed_phase_blocks : Z)
    : M S (list Z) :=
  result ← submit_pages_batch signer paged_raw_solution round min_signed_phase_blocks;
  if all_successful result then mret [] else mret (failed_pages result).

(** The loop over the chunks of [inner_submit_pages_chunked]. *)
Fixpoint submit_chunks (signer : AccountId) (todo : list (list (Z * Solution)))
    (total_pages : nat) (round min_signed_phase_blocks : Z) (submitted : gset Z)
    : M S (list Z) :=
  match todo with
  | [] => mret []
  | chunk :: todo =>
      current_phase ← current_phase_at_head;
      validate_signed_phase_or_bail current_phase signer round min_signed_phase_blocks;;
      result ← submit_pages_batch signer chunk round min_signed_phase_blocks;
      if negb (all_successful result) then mret (failed_pages result)
      else
        let submitted := submitted ∪ submitted_pages result in
        if decide (size submitted = total_pages) then mret []
        else submit_chunks signer todo total_pages round min_signed_phase_blocks submitted
  end.

(** [inner_submit_pages_chunked] *)
Definition inner_submit_pages_chunked (signer : AccountId)
    (paged_raw_solution : list (Z * Solution)) (chunk_size : nat)
    (round min_signed_phase_blocks : Z) : M S (list Z) :=
  if decide (chunk_size = 0%nat) then panic "Chunk size must be greater than 0"
  else submit_chunks signer (chunks chunk_size paged_raw_solution)
         (length paged_raw_solution) round min_signed_phase_blocks ∅.

(** ** Submitting a solution *)

(** The loop that registers the score: a transaction refused with an extrinsic
    error is sent again, [tries] times in all. *)
Fixpoint register_loop (tries : nat) (sc : ElectionScore) (blocks_remaining : Z)
    : M S TxProgress :=
  match tries with
  | 0%nat => panic "unreachable"
  | Datatypes.S tries =>
      nonce ← account_nonce;
      t ← register_score sc;
      r ← catch (submit_inner t nonce blocks_remaining);
      match r with
      | ok tx => mret tx
      | err (Error.Subxt ExtrinsicError) =>
          if decide (tries = 0%nat) then throw (Error.Subxt ExtrinsicError)
          else ask (Sleep 6000);; register_loop tries sc blocks_remaining
      | err e => throw e
      end
  end.

(** Whether the events of an included transaction have [Registered]. *)
Definition has_registered (events : list (Result RtEvent SubxtError)) : bool :=
  existsb (fun e => match e with ok Registered => true | _ => false end) events.

(** [std::mem::take] of the failed pages; [None] is an index out of bounds. *)
Fixpoint take_pages (pages : list Solution) (failed : list Z) : option (list (Z * Solution)) :=
  match failed with
  | [] => Some []
  | page :: rest =>
      match pages !! Z.to_nat page with
      | None => None
      | Some solution =>
          l ← take_pages (<[Z.to_nat page := solution_default]> pages) rest;
          Some ((page, solution) :: l)
      end
  end.

(** The pages of a solution with their index. *)
Definition enumerate_pages (pages : list Solution) : list (Z * Solution) :=
  zip (seqZ 0 (Z.of_nat (length pages))) pages.

(** The two submission strategies, chosen by the chunk size. *)
Definition submit_pages (signer : AccountId) (solutions : list (Z * Solution))
    (chunk_size : nat) (round min_signed_phase_blocks : Z) : M S (list Z) :=
  if decide (chunk_size = 0%nat)
  then inner_submit_pages_concurrent signer solutions round min_signed_phase_blocks
  else inner_submit_pages_chunked signer solutions chunk_size round min_signed_phase_blocks.

(** Steps 1 and 2 of [submit]: register the score and wait for its event. *)
Definition register_phase (signer : AccountId) (sc : ElectionScore)
    (round min_signed_phase_blocks : Z) : M S unit :=
  current_phase ← current_phase_at_head;
  validate_signed_phase_or_bail current_phase signer round min_signed_phase_blocks;;
  blocks_remaining ← get_signed_phase_blocks_remaining current_phase;
  tx_status ← register_loop 10 sc blocks_remaining;
  tx ← wait_tx_in_finalized_block tx_status;
  events ← query (WaitForSuccess tx);
  if negb (has_registered events) then throw (Error.MissingTxEvent "Register score")
  else metric on_submission_started.

(** Steps 3 and 4 of [submit]: all the pages. *)
Definition first_pages (signer : AccountId) (pages : list Solution) (chunk_size : nat)
    (round min_signed_phase_blocks : Z) : M S (list Z) :=
  current_phase ← current_phase_at_head;
  validate_signed_phase_or_bail current_phase signer round min_signed_phase_blocks;;
  submit_pages signer (enumerate_pages pages) chunk_size round min_signed_phase_blocks.

(** Steps 6 and 7 of [submit]: the failed pages once more, then give up. *)
Definition retry_pages (signer : AccountId) (pages : list Solution) (failed : list Z)
    (chunk_size : nat) (round min_signed_phase_blocks : Z) : M S unit :=
  current_phase ← current_phase_at_head;
  validate_signed_phase_or_bail current_phase signer round min_signed_phase_blocks;;
  match take_pages pages failed with
  | None => panic "index out of bounds"
  | Some solutions =>
      failed ← submit_pages signer solutions chunk_size round min_signed_phase_blocks;
      match failed with
      | [] => metric on_submission_success
      | _ =>
          current_phase ← current_phase_at_head;
          validate_signed_phase_or_bail current_phase signer round min_signed_phase_blocks;;
          throw (Error.FailedToSubmitPages (Z.of_nat (length failed)))
      end
  end.

(** [submit] *)
Definition submit (signer : AccountId) (paged_raw_solution : PagedRawSolution)
    (chunk_size : nat) (round min_signed_phase_blocks : Z) : M S unit :=
  register_phase signer (score paged_raw_solution) round min_signed_phase_blocks;;
  failed ← first_pages signer (solution_pages paged_raw_solution) chunk_size
             round min_signed_phase_blocks;
  match failed with
  | [] => metric on_submission_success
  | _ => retry_pages signer (solution_pages paged_raw_solution) failed chunk_size
           round min_signed_phase_blocks
  end.

End submission.
