(* ===== verification/SubmissionSafety.v ===== *)
(** * What [submit] sends

    Every transaction of a submission is justified by what the miner has read
    before: the score is registered only in a signed phase with enough blocks
    left, pages follow a confirmed registration and expire with the signed
    phase, and a bail is sent only for an incomplete submission when the phase
    is about to end. *)

From S2P Require Import Prelude Errors Chain Metrics Types Effects Traces ChainAccess Submission.
Local Open Scope Z_scope.

Section safety.
Context `{T : MinerConfig} {S : Type}.

(** The submission metadata a storage read returned. *)
Definition submission_read (e : event) : option (option SubmissionMetadata) :=
  match e with
  | Event o r =>
      match o in op R return R -> option (option SubmissionMetadata) with
      | TryFetchSubmission _ _ _ => fun r =>
          match r with ok md => Some md | err _ => None end
      | _ => fun _ => None
      end r
  end.

Definition last_submission (t : trace) : option (option SubmissionMetadata) :=
  head (omap submission_read t).

Definition tx_justified (min_blocks : Z) (e : event) (past : trace) : Prop :=
  match sent_tx e with
  | None => True
  | Some (register _, _, mortality) =>
      exists n, last_phase past = Some (Signed n) /\ min_blocks < n /\
        mortality = Some (u32_add n 1)
  | Some (submit_page_call _ _, _, mortality) =>
      registered_seen past /\
      exists n, last_phase past = Some (Signed n) /\ mortality = Some (u32_add n 1)
  | Some (bail_call, _, mortality) =>
      mortality = None /\
      exists n md, last_phase past = Some (Signed n) /\ n <= min_blocks /\
        last_submission past = Some (Some md) /\ forallb id (sm_pages md) = false
  | Some _ => False
  end.

Context (min_blocks : Z).

Definition justified_trace (_ : S) (t : trace) : Prop := guarded (tx_justified min_blocks) t.

#[global] Instance Quiet_justified : Quiet justified_trace.
Proof.
  intros R o Ho s t r H. split; [|done]. unfold tx_justified.
  destruct o; simpl in *; done.
Qed.

(** ** Bail and phase validation *)

(** Signing and sending a transaction that is justified now. *)
Lemma wp_sign_and_submit (I : S -> trace -> Prop) c nonce m (Q : outcome TxProgress -> S -> trace -> Prop) s t :
  Quiet I -> I s t ->
  (forall r1 r2, I s (Event (CreateSigned c nonce m) r1 :: t) ->
     I s (Event (SubmitAndWatch c nonce m) r2 :: Event (CreateSigned c nonce m) r1 :: t)) ->
  (forall o t', I s t' -> t `suffix_of` t' -> last_phase t' = last_phase t -> Q o s t') ->
  wp I (sign_and_submit c nonce m) Q s t.
Proof.
  intros HQu HI Hsend HQ. unfold sign_and_submit.
  wp_quiet; [|by apply HQ; [|eexists [_]|]].
  intros r2. split; [by apply Hsend|].
  by destruct r2; apply HQ; [by apply Hsend|eexists [_; _]| |by apply Hsend|eexists [_; _]|].
Qed.

(** The last thing read is an incomplete submission near the end of the
    signed phase. *)
Definition bail_due (t : trace) : Prop :=
  exists n md, last_phase t = Some (Signed n) /\ n <= min_blocks /\
    last_submission t = Some (Some md) /\ forallb id (sm_pages md) = false.

Lemma wp_bail s t (Q : outcome unit -> S -> trace -> Prop) :
  justified_trace s t -> bail_due t ->
  (forall o t', justified_trace s t' -> Q o s t') ->
  wp justified_trace bail Q s t.
Proof.
  intros HI Hdue HQ. unfold bail.
  wp_quiet; [|by apply HQ]. wp_quiet; [|by apply HQ].
  apply wp_bind, wp_sign_and_submit; [apply _|done| |].
  - intros r1 r2 H1. split; [|done]. simpl. split; [done|]. exact Hdue.
  - intros [p|e|msg|] t' HI' _ _; wp_pure; auto.
    unfold wait_tx_in_finalized_block. wp_quiet; by apply HQ.
Qed.

(** Validation succeeds only in a signed phase with more than [min_blocks]
    blocks left, and keeps the trace justified. *)
Lemma wp_validate p signer rnd s t (Q : outcome unit -> S -> trace -> Prop) :
  justified_trace s t -> last_phase t = Some p ->
  (forall n, p = Signed n -> min_blocks < n -> Q (Ok tt) s t) ->
  (forall o t', justified_trace s t' -> o <> Ok tt -> Q o s t') ->
  wp justified_trace (validate_signed_phase_or_bail p signer rnd min_blocks) Q s t.
Proof.
  intros HI Hp Hok Herr. unfold validate_signed_phase_or_bail.
  destruct p as [|n|pg|txt]; try by apply Herr.
  destruct (n <=? min_blocks) eqn:Hn; [|by apply (Hok n); [done|lia]].
  unfold storage_at_head, get_latest_finalized_head, storage_at.
  wp_quiet; [|by apply Herr]. wp_quiet; [|by apply Herr].
  wp_quiet; [|by apply Herr].
  destruct a1 as [md|]; [destruct (forallb id (sm_pages md)) eqn:Hc|]; simpl;
    apply wp_bind; wp_pure; try by apply Herr.
  apply wp_bail; [done| |].
  - exists n, md. split_and!; [done|lia|done..].
  - intros [u|e|msg|] t' HI'; wp_pure; by apply Herr.
Qed.

(** ** Registering the score *)

(** Sending a transaction with the mortality of the phase read last. *)
Lemma wp_submit_inner I t0 nonce n s t (Q : outcome TxProgress -> S -> trace -> Prop) :
  Quiet I -> I s t ->
  (forall r0 r1 r2,
     let t1 := Event (CreateSigned (tx t0) nonce (Some (u32_add n 1))) r1 ::
               Event AtCurrentBlock r0 :: t in
     I s t1 -> I s (Event (SubmitAndWatch (tx t0) nonce (Some (u32_add n 1))) r2 :: t1)) ->
  (forall o t', I s t' -> t `suffix_of` t' -> last_phase t' = last_phase t -> Q o s t') ->
  wp I (submit_inner t0 nonce n) Q s t.
Proof.
  intros HQu HI Hsend HQ. unfold submit_inner.
  wp_quiet; [|by apply HQ; [|by eexists [_]|]].
  apply wp_sign_and_submit; [apply _|done| |].
  - intros r1 r2 H1. by apply Hsend.
  - intros o t' HI' Hsuf Hlast. apply HQ; [done| |by rewrite Hlast].
    etrans; [|exact Hsuf]. by eexists [_].
Qed.

Lemma wp_to_scale_value I s t (Q : outcome unit -> S -> trace -> Prop) :
  Quiet I -> I s t ->
  (forall o t', I s t' -> t `suffix_of` t' -> last_phase t' = last_phase t -> Q o s t') ->
  wp I to_scale_value Q s t.
Proof.
  intros HQu HI HQ. unfold to_scale_value. wp_quiet.
  destruct r; wp_pure; (apply HQ; [done|by eexists [_]|done]).
Qed.

Lemma wp_register_loop tries sc n : forall s t (Q : outcome TxProgress -> S -> trace -> Prop),
  justified_trace s t -> last_phase t = Some (Signed n) -> min_blocks < n ->
  (forall o t', justified_trace s t' -> Q o s t') ->
  wp justified_trace (register_loop tries sc n) Q s t.
Proof.
  induction tries as [|tries IH]; intros s t Q HI Hp Hn HQ; [by apply HQ|].
  cbn [register_loop]. unfold register_score, account_nonce.
  apply wp_bind. wp_quiet; [|by apply HQ]. wp_quiet; [|by apply HQ].
  apply wp_bind, wp_bind, wp_to_scale_value; [apply _|done|].
  intros [u|e|msg|] t1 HI1 _ Hp1; wp_pure; try by apply HQ.
  apply wp_bind, wp_catch, wp_submit_inner; [apply _|done| |].
  { intros r0 r1 r2 t2 H2. split; [|done]. exists n. split_and!; [|done..].
    change (last_phase t1 = Some (Signed n)). by rewrite Hp1. }
  intros o t2 HI2 _ Hp2. destruct o as [p|e|msg|]; wp_pure; try by apply HQ.
  destruct e as [| | |e| | | | | | | | | | | | | | | | | | | | | | |]; try by apply HQ.
  destruct e; try by apply HQ.
  case_decide; [by apply HQ|].
  wp_quiet. apply IH; [done| |done|done]. change (last_phase t2 = Some (Signed n)). by rewrite Hp2, Hp1.
Qed.

(** After the registration phase a [Registered] event has been seen. *)
Lemma keeps_register_phase signer sc rnd :
  keeps justified_trace (register_phase signer sc rnd min_blocks)
    (fun _ (_ : S) t => registered_seen t).
Proof.
  unfold register_phase. eapply keeps_bind_post; [by apply keeps_current_phase, _|].
  intros p s t HI Hp. apply wp_bind, wp_validate; [done..| |intros [[]|e|msg|] ???; by wp_pure].
  intros n -> Hn. unfold get_signed_phase_blocks_remaining. apply wp_bind. wp_pure.
  apply wp_bind, wp_register_loop; [done..|].
  intros [q|e|msg|] t1 HI1; wp_pure; try done. unfold wait_tx_in_finalized_block.
  wp_quiet; [|done]. wp_quiet; [|done].
  destruct (has_registered a0) eqn:Hreg; cbn [negb]; wp_pure; [|done].
  intros []. cbn. split; [|split]; try done.
  apply registered_seen_cons, registered_seen_here. cbn.
  unfold has_registered in Hreg. apply existsb_exists in Hreg as (x & Hx & Hm).
  apply list_elem_of_In. by destruct x as [[]|].
Qed.

(** ** Pages *)

(** What holds while pages are submitted. *)
Definition pages_inv (s : S) (t : trace) : Prop := justified_trace s t /\ registered_seen t.

#[global] Instance Quiet_pages_inv : Quiet pages_inv.
Proof. apply Quiet_and; [apply _|apply registered_seen_cons]. Qed.

Lemma wp_validate_pages p signer rnd s t (Q : outcome unit -> S -> trace -> Prop) :
  pages_inv s t -> last_phase t = Some p ->
  (forall n, p = Signed n -> min_blocks < n -> Q (Ok tt) s t) ->
  (forall o t', pages_inv s t' -> o <> Ok tt -> Q o s t') ->
  wp pages_inv (validate_signed_phase_or_bail p signer rnd min_blocks) Q s t.
Proof.
  intros [HI Hr] Hp Hok Herr.
  eapply (wp_mono pages_inv); [done| |apply (wp_frame justified_trace registered_seen);
    [apply registered_seen_cons|done|apply (wp_validate _ _ _ _ _ (fun o s' t' =>
      s' = s /\ (o = Ok tt /\ t' = t /\ (exists n, p = Signed n /\ min_blocks < n) \/
                 justified_trace s t' /\ o <> Ok tt)))]].
  - intros o s' t' [[-> [(-> & -> & n & -> & Hn)|[HI' Ho]]] Hr']; [by apply (Hok n)|].
    by apply Herr.
  - done.
  - done.
  - intros n -> Hn. split; [done|]. left. eauto.
  - intros o t' HI' Ho. auto.
Qed.

Lemma keeps_submit_batch_loop pages : forall nonce,
  keeps pages_inv (submit_batch_loop pages nonce) anything.
Proof.
  induction pages as [|[page sol] rest IH]; intros nonce; cbn [submit_batch_loop]; [keeps_quiet|].
  eapply keeps_bind_post; [by apply keeps_current_phase, _|].
  intros p s t HI Hp. unfold get_signed_phase_blocks_remaining, submit_page.
  destruct p as [|n|pg|txt]; apply wp_bind; wp_pure; try done.
  apply wp_bind, wp_bind, wp_to_scale_value; [apply _|done|].
  intros [[]|e|msg|] t1 HI1 _ Hp1; wp_pure; try done.
  apply wp_bind, wp_to_scale_value; [apply _|done|].
  intros [[]|e|msg|] t2 HI2 _ Hp2; wp_pure; try done.
  apply wp_bind, wp_submit_inner; [apply _|done| |].
  { intros r0 r1 r2 t3 [H3 H3']. split; [|by apply registered_seen_cons].
    split; [|done]. split; [done|]. exists n. split; [|done].
    change (last_phase t2 = Some (Signed n)). by rewrite Hp2, Hp1. }
  intros [q|e|msg|] t3 HI3 _ _; wp_pure; try done.
  eapply (keeps_bind _ _ _ anything); [apply IH|intros; keeps_quiet|done].
Qed.

Lemma keeps_process_txs n : forall txs failed submitted,
  keeps pages_inv (process_txs n txs failed submitted) anything.
Proof.
  induction n as [|n IH]; intros txs failed submitted; cbn [process_txs]; [keeps_quiet|].
  unfold wait_tx_in_finalized_block. repeat (apply IH || keeps_step quiet).
Qed.

Lemma keeps_submit_pages_batch signer pages rnd :
  keeps pages_inv (submit_pages_batch signer pages rnd min_blocks) anything.
Proof.
  unfold submit_pages_batch. eapply keeps_bind_post; [by apply keeps_current_phase, _|].
  intros p s t HI Hp. apply wp_bind, wp_validate_pages;
    [done..| |intros [[]|e|msg|] ???; by wp_pure].
  intros n -> Hn. wp_pure. apply keeps_elim; [|done].
  unfold hash_set_iter.
  eapply (keeps_bind _ _ _ anything); [by apply keeps_account_nonce, _|intros nonce].
  eapply (keeps_bind _ _ _ anything); [apply keeps_submit_batch_loop|intros txs].
  eapply (keeps_bind _ _ _ anything); [apply keeps_process_txs|intros [failed submitted]].
  keeps_quiet.
Qed.

(** Reading the phase, validating it and going on with [m]. *)
Lemma keeps_validated {A} signer rnd (m : M S A) :
  keeps pages_inv m anything ->
  keeps pages_inv
    (current_phase ← current_phase_at_head;
     validate_signed_phase_or_bail current_phase signer rnd min_blocks;; m) anything.
Proof.
  intros Hm. eapply keeps_bind_post; [by apply keeps_current_phase, _|].
  intros p s t HI Hp. apply wp_bind, wp_validate_pages;
    [done..| |intros [[]|e|msg|] ???; by wp_pure].
  intros n -> Hn. wp_pure. by apply keeps_elim.
Qed.

Lemma keeps_submit_chunks signer total rnd : forall todo submitted,
  keeps pages_inv (submit_chunks signer todo total rnd min_blocks submitted) anything.
Proof.
  induction todo as [|chunk todo IH]; intros submitted; cbn [submit_chunks]; [keeps_quiet|].
  apply keeps_validated.
  eapply (keeps_bind _ _ _ anything); [apply keeps_submit_pages_batch|intros result].
  destruct (negb _); [keeps_quiet|]. case_decide; [keeps_quiet|apply IH].
Qed.

Lemma keeps_submit_pages signer solutions chunk_size rnd :
  keeps pages_inv (submit_pages signer solutions chunk_size rnd min_blocks) anything.
Proof.
  unfold submit_pages, inner_submit_pages_concurrent, inner_submit_pages_chunked.
  case_decide; [|apply keeps_submit_chunks].
  eapply (keeps_bind _ _ _ anything); [apply keeps_submit_pages_batch|intros result].
  keeps_quiet.
Qed.

Lemma keeps_metric_pages m : keeps pages_inv (metric m) anything.
Proof.
  apply keeps_ask; [|done]. intros s t r [HI Hr].
  split; [|by apply registered_seen_cons]. by split.
Qed.

Lemma keeps_retry_pages signer pages failed chunk_size rnd :
  keeps pages_inv (retry_pages signer pages failed chunk_size rnd min_blocks) anything.
Proof.
  apply keeps_validated. destruct (take_pages pages failed) as [sols|]; [|keeps_quiet].
  eapply (keeps_bind _ _ _ anything); [apply keeps_submit_pages|intros [|page rest]].
  - apply keeps_metric_pages.
  - apply keeps_validated. keeps_quiet.
Qed.

Lemma keeps_submit signer sol chunk_size rnd :
  keeps justified_trace (submit signer sol chunk_size rnd min_blocks) anything.
Proof.
  eapply keeps_bind_post; [apply keeps_register_phase|].
  intros [] s t HI Hreg.
  eapply wp_mono; [| |apply (keeps_elim pages_inv _ anything); [|done]];
    [by intros ?? [? _]|by intros ??? [[? _] ?]; split|].
  eapply (keeps_bind _ _ _ anything).
  - apply keeps_validated, keeps_submit_pages.
  - intros [|page rest]; [apply keeps_metric_pages|apply keeps_retry_pages].
Qed.

End safety.
(** C4: whatever the node answers and whenever it fails, every transaction that
    [submit] sends is justified by the last phase and submission it has read:
    the score is registered only in a signed phase with more than
    [min_signed_phase_blocks] blocks left and expires with it, a page is sent
    only after a [Registered] event and during a signed phase, and a bail only
    for an incomplete submission with too few blocks left. *)
Theorem submit_transactions_justified `{T : MinerConfig} {S : Type} (h : handler) (s : S)
    (signer : AccountId) (sol : PagedRawSolution) (chunk_size : nat) (rnd min_blocks : Z) :
  guarded (tx_justified min_blocks)
    (run h (submit signer sol chunk_size rnd min_blocks) s []).2.
Proof.
  pose proof (keeps_run _ _ _ h s [] (keeps_submit min_blocks signer sol chunk_size rnd)) as H.
  destruct (run _ _ _ _) as [[o s'] t']. by apply H.
Qed.
