(* ===== verification/SubmissionSpec.v ===== *)
(** * What [submit] achieves

    The result of a batch of pages, what a successful submission means on
    chain, the nonces and retries, the metrics, and the ways it can panic. *)

From S2P Require Import Prelude Errors Chain Metrics Types Effects Traces Observe ChainAccess Scenario Submission.
Local Open Scope Z_scope.

Section spec.
Context `{T : MinerConfig} {S : Type}.

(** ** Postconditions

    A call returns a value with [R], fails, or panics because the phase it
    read last was not the signed phase. *)
Definition phase_panic : string :=
  "get_signed_phase_blocks_remaining called but not in SignedPhase".

Definition not_signed_read (t : trace) : Prop :=
  exists p, last_phase t = Some p /\ is_signed p = false.

Definition post {A} (R : A -> trace -> Prop) : outcome A -> S -> trace -> Prop :=
  fun o _ t =>
    match o with
    | Ok a => R a t
    | Err _ | Elapsed => True
    | Panic msg => msg = phase_panic /\ not_signed_read t
    end.

Lemma post_bind {A B} (m : M S A) (f : A -> M S B) R1 R2 s t :
  wp Itrue m (post R1) s t ->
  (forall a s' t', t `suffix_of` t' -> R1 a t' -> wp Itrue (f a) (post R2) s' t') ->
  wp Itrue (mbind f m) (post R2) s t.
Proof.
  intros Hm Hf. apply wp_bind. eapply wp_mono; [done| |by apply wp_suffix, Hm].
  intros [a|e|msg|] s' t' [HR Hsuf]; simpl; auto.
Qed.

Lemma post_weaken {A} (m : M S A) (R1 R2 : A -> trace -> Prop) s t :
  wp Itrue m (post R1) s t ->
  (forall a t', t `suffix_of` t' -> R1 a t' -> R2 a t') ->
  wp Itrue m (post R2) s t.
Proof.
  intros Hm HR. eapply wp_mono; [done| |by apply wp_suffix, Hm].
  intros [a|e|msg|] s' t' [H Hsuf]; simpl; auto.
Qed.

Lemma post_quiet {R} (o : op (Result R SubxtError)) s t :
  wp (S := S) Itrue (query o) (post (fun a t' => t' = Event o (ok a) :: t)) s t.
Proof. intros r. split; [done|]. by destruct r. Qed.

Lemma pages_stored_suffix t t' : t `suffix_of` t' -> pages_stored t ⊆ pages_stored t'.
Proof.
  intros [new ->]. induction new as [|e new IH]; simpl; [done|].
  rewrite pages_stored_cons. set_solver.
Qed.

(** ** Reading, validating, sending *)

Lemma post_storage_at_head s t :
  wp (S := S) Itrue storage_at_head (post (fun _ _ => True)) s t.
Proof.
  unfold storage_at_head, get_latest_finalized_head, storage_at.
  apply (post_bind _ _ (fun _ _ => True)); [eapply post_bind; [apply post_quiet|done]|intros].
  eapply post_weaken; [apply post_quiet|done].
Qed.

Lemma post_current_phase s t :
  wp (S := S) Itrue current_phase_at_head (post (fun p t' => last_phase t' = Some p)) s t.
Proof.
  eapply post_bind; [apply post_storage_at_head|intros].
  by eapply post_bind; [apply post_quiet|intros ????->].
Qed.

(** Programs that never panic, whatever they return. *)
Lemma post_sign_and_submit c nonce mortality s t :
  wp (S := S) Itrue (sign_and_submit c nonce mortality) (post (fun _ _ => True)) s t.
Proof.
  unfold sign_and_submit. eapply post_bind; [apply post_quiet|intros ????->].
  eapply post_weaken; [apply post_quiet|done].
Qed.

Lemma post_account_nonce s t :
  wp (S := S) Itrue account_nonce (post (fun _ _ => True)) s t.
Proof.
  unfold account_nonce. eapply post_bind; [apply post_quiet|intros ????->].
  eapply post_weaken; [apply post_quiet|done].
Qed.

Lemma post_to_scale_value s t :
  wp (S := S) Itrue to_scale_value (post (fun _ _ => True)) s t.
Proof.
  unfold to_scale_value. assert (Itrue s t) by done. wp_quiet. by destruct r.
Qed.

Lemma post_submit_inner t0 nonce n s t :
  wp (S := S) Itrue (submit_inner t0 nonce n) (post (fun _ _ => True)) s t.
Proof.
  unfold submit_inner. eapply post_bind; [apply post_quiet|intros ????->].
  apply post_sign_and_submit.
Qed.

Lemma post_bail s t : wp (S := S) Itrue bail (post (fun _ _ => True)) s t.
Proof.
  unfold bail, wait_tx_in_finalized_block. do 2 (eapply post_bind; [apply post_quiet|intros ????->]).
  eapply post_bind; [apply post_sign_and_submit|intros].
  by eapply post_bind; [apply post_quiet|].
Qed.

(** Validation passes only in a signed phase with more than [min_blocks]
    blocks left, and then does nothing else. *)
Lemma post_validate p signer rnd min_blocks s t :
  wp (S := S) Itrue (validate_signed_phase_or_bail p signer rnd min_blocks)
    (post (fun _ t' => t' = t /\ exists n, p = Signed n /\ min_blocks < n)) s t.
Proof.
  unfold validate_signed_phase_or_bail. destruct p as [|n|pg|txt]; try done.
  destruct (n <=? min_blocks) eqn:Hn; [|simpl; split; [done|]; exists n; split; [done|lia]].
  eapply post_bind; [apply post_storage_at_head|intros].
  eapply post_bind; [apply post_quiet|intros a1 ???->].
  destruct a1 as [md|]; [destruct (forallb id (sm_pages md))|]; simpl; try done.
  by eapply post_bind; [apply post_bail|].
Qed.

(** The mortality of a page is read from a signed phase, or the miner panics. *)
Lemma post_blocks_remaining p s t :
  last_phase t = Some p ->
  wp (S := S) Itrue (get_signed_phase_blocks_remaining p)
    (post (fun n t' => t' = t /\ p = Signed n)) s t.
Proof. intros Hp. destruct p; try done; (split; [done|by eexists]). Qed.

Lemma post_catch {A} (m : M S A) R s t :
  wp Itrue m (post R) s t ->
  wp Itrue (catch m) (post (fun r t' => match r with ok a => R a t' | err _ => True end)) s t.
Proof.
  intros Hm. apply wp_catch. eapply wp_mono; [done| |exact Hm].
  by intros [a|e|msg|] s' t'.
Qed.

(** ** The result of a batch *)

Lemma post_submit_batch_loop pages : forall nonce s t,
  wp (S := S) Itrue (submit_batch_loop pages nonce)
    (post (fun txs _ => txs.*1 = pages.*1)) s t.
Proof.
  induction pages as [|[page sol] rest IH]; intros nonce s t; cbn [submit_batch_loop]; [done|].
  eapply post_bind; [apply post_current_phase|intros p s1 t1 _ Hp].
  eapply post_bind; [by apply post_blocks_remaining|intros n s2 t2 _ _].
  unfold submit_page.
  apply (post_bind _ _ (fun _ _ => True)).
  { do 2 (eapply post_bind; [apply post_to_scale_value|intros]). done. }
  intros tr s3 t3 _ _.
  eapply post_bind; [apply post_submit_inner|intros st s4 t4 _ _].
  eapply post_bind; [apply IH|intros txs s5 t5 _ Htxs].
  apply wp_ret. cbn [post]. csimpl. by rewrite Htxs.
Qed.

Lemma stored_pages_ok evs : forall acc res,
  stored_pages evs acc = ok res -> res = stored_event_pages evs ∪ acc.
Proof.
  induction evs as [|ev evs IH]; intros acc res; [cbn; intros [= <-]; set_solver|].
  destruct ev as [[|r w p| |]|e]; cbn; [apply IH| |apply IH|apply IH|done].
  intros H. apply IH in H as ->. unfold stored_event_pages. set_solver.
Qed.

(** Every pending transaction ends as failed or adds the pages of its events. *)
Lemma post_process_txs n : forall txs failed submitted s t,
  submitted ⊆ pages_stored t ->
  wp (S := S) Itrue (process_txs n txs failed submitted)
    (post (fun r t' => r.1 ⊆ failed ∪ list_to_set txs.*1 /\
                       submitted ⊆ r.2 /\ r.2 ⊆ pages_stored t')) s t.
Proof.
  induction n as [|n IH]; intros txs failed submitted s t Hsub; cbn [process_txs].
  { apply wp_ret; cbn; set_solver. }
  assert (Itrue s t) by done. wp_quiet.
  destruct (txs !! _) as [[page st]|] eqn:Hi; [|apply wp_ret; cbn; set_solver].
  assert (list_to_set (delete (r mod length txs)%nat txs).*1 ⊆@{gset Z} list_to_set txs.*1
          /\ page ∈ txs.*1) as [Hdel Hpage].
  { rewrite (list_fmap_delete fst). split.
    - intros x. rewrite !elem_of_list_to_set. apply list_subseteq_delete.
    - apply list_elem_of_fmap. exists (page, st). split; [done|].
      by eapply list_elem_of_lookup_2. }
  eapply post_bind; [apply post_catch, post_quiet|intros [tx|e] s1 t1 Hsuf1 Ht1].
  - eapply post_bind; [apply post_quiet|intros evs s2 t2 _ ->].
    apply pages_stored_suffix in Hsuf1. rewrite pages_stored_cons in Hsuf1.
    destruct (stored_pages evs submitted) as [sub|e] eqn:Hev; [|done].
    apply stored_pages_ok in Hev as ->.
    apply (post_bind _ _ (fun a t' => a = stored_event_pages evs ∪ submitted /\
        a ⊆ pages_stored t')).
    { apply wp_ret. cbn [post]. split; [done|]. rewrite pages_stored_cons. cbn. set_solver. }
    intros ? s3 t3 _ [-> Hs3]. eapply post_weaken; [by apply IH|cbn]. set_solver.
  - eapply post_weaken; [apply IH|cbn; set_solver].
    apply pages_stored_suffix in Hsuf1. rewrite pages_stored_cons in Hsuf1. set_solver.
Qed.

(** What a batch reports: no page twice, only pages it was asked to submit,
    every one of them either failed or confirmed, and confirmed pages have a
    [Stored] event in the trace. *)
Definition batch_spec (pages : list Z) (r : SubmissionResult) (t : trace) : Prop :=
  NoDup (failed_pages r) /\
  failed_pages r ⊆ pages /\
  (forall p, p ∈ pages -> p ∈ failed_pages r \/ p ∈ submitted_pages r) /\
  submitted_pages r ⊆ pages_stored t.

Lemma post_hash_set_iter X s t :
  wp (S := S) Itrue (hash_set_iter X) (post (fun l t' => l ≡ₚ elements X /\
    pages_stored t' = pages_stored t)) s t.
Proof.
  unfold hash_set_iter. assert (Itrue s t) by done. wp_quiet.
  split; [by case_decide|]. rewrite pages_stored_cons. cbn. set_solver.
Qed.

Lemma post_submit_pages_batch signer pages rnd min_blocks s t :
  wp (S := S) Itrue (submit_pages_batch signer pages rnd min_blocks)
    (post (batch_spec pages.*1)) s t.
Proof.
  unfold submit_pages_batch.
  eapply post_bind; [apply post_current_phase|intros p s1 t1 _ Hp].
  eapply post_bind; [apply post_validate|intros _ s2 t2 _ _].
  eapply post_bind; [apply post_account_nonce|intros nonce s3 t3 _ _].
  eapply post_bind; [apply post_submit_batch_loop|intros txs s4 t4 _ Htxs].
  eapply post_bind; [apply post_process_txs; set_solver|].
  intros [failed submitted] s5 t5 _ (Hf & _ & Hs). cbn in Hf, Hs. rewrite Htxs in Hf.
  eapply post_bind; [apply post_hash_set_iter|intros l s6 t6 _ [Hl Hst]].
  apply wp_ret. unfold batch_spec. cbn. split_and!.
  - rewrite Hl. apply NoDup_elements.
  - intros q. rewrite Hl, elem_of_elements. set_solver.
  - intros q Hq. rewrite Hl, elem_of_elements.
    destruct (decide (q ∈ submitted)); [by right|left]. set_solver.
  - by rewrite Hst.
Qed.


(** ** Pages and the whole submission *)

(** What is left after a round of page submissions. *)
Definition round_spec (pages failed : list Z) (t : trace) : Prop :=
  NoDup failed /\ failed ⊆ pages /\
  (forall p, p ∈ pages -> p ∈ failed \/ p ∈ pages_stored t).

Lemma post_concurrent signer sols rnd min_blocks s t :
  wp (S := S) Itrue (inner_submit_pages_concurrent signer sols rnd min_blocks)
    (post (round_spec sols.*1)) s t.
Proof.
  eapply post_bind; [apply post_submit_pages_batch|intros [failed sub] s1 t1 _ H].
  unfold batch_spec in H; cbn in H. destruct H as (Hnd & Hsub & Hcov & Hst).
  unfold all_successful; cbn. destruct failed; apply wp_ret; cbn;
    (split_and!; [done|done|]); intros p Hp; destruct (Hcov p Hp); auto.
Qed.

(** A round in chunks reports pages of one chunk; when it reports none, every
    page is stored, or as many distinct pages as it was given. *)
Definition chunked_spec (pages failed : list Z) (total : nat) (t : trace) : Prop :=
  NoDup failed /\ failed ⊆ pages /\
  (failed = [] -> (forall p, p ∈ pages -> p ∈ pages_stored t) \/
     exists X : gset Z, X ⊆ pages_stored t /\ size X = total).

Lemma post_submit_chunks signer total rnd min_blocks : forall todo submitted s t,
  submitted ⊆ pages_stored t ->
  wp (S := S) Itrue (submit_chunks signer todo total rnd min_blocks submitted)
    (post (fun failed => chunked_spec (concat todo).*1 failed total)) s t.
Proof.
  induction todo as [|chunk todo IH]; intros submitted s t Hsub; cbn [submit_chunks concat].
  { apply wp_ret. cbn. split_and!; [constructor|done|]. intros _. left. set_solver. }
  eapply post_bind; [apply post_current_phase|intros p s1 t1 Hs1 Hp].
  eapply post_bind; [apply post_validate|intros _ s2 t2 Hs2 _].
  eapply post_bind; [apply post_submit_pages_batch|intros [failed sub] s3 t3 Hs3 H].
  unfold batch_spec in H; cbn in H. destruct H as (Hnd & Hin & Hcov & Hst).
  rewrite fmap_app. unfold all_successful; cbn.
  destruct failed as [|p' failed]; cbn [negb].
  - assert (submitted ∪ sub ⊆ pages_stored t3) as Hsub3.
    { assert (t `suffix_of` t3) as Hs by (do 2 (etrans; [eassumption|]); done).
      apply pages_stored_suffix in Hs. set_solver. }
    case_decide as Hsz.
    + apply wp_ret. cbn. split_and!; [constructor|set_solver|]. intros _. right. eauto.
    + eapply post_weaken; [by apply IH|]. intros failed t4 Hs4 (Hnd' & Hin' & Hall).
      split_and!; [done|set_solver|]. intros Hnil. destruct (Hall Hnil) as [Hst'|]; [left|by right].
      apply pages_stored_suffix in Hs4. intros q [Hq|Hq]%elem_of_app; [|by apply Hst'].
      destruct (Hcov q Hq); set_solver.
  - apply wp_ret. cbn. split_and!; [done|set_solver|done].
Qed.

Lemma post_chunked signer sols n rnd min_blocks s t :
  n <> 0%nat ->
  wp (S := S) Itrue (inner_submit_pages_chunked signer sols n rnd min_blocks)
    (post (fun failed => chunked_spec sols.*1 failed (length sols))) s t.
Proof.
  intros Hn. unfold inner_submit_pages_chunked. rewrite decide_False by done.
  replace (sols.*1) with (concat (chunks n sols)).*1 by (rewrite chunks_concat; [done|lia]).
  apply post_submit_chunks. set_solver.
Qed.

(** Both strategies report distinct pages of those they were given. *)
Lemma post_submit_pages signer sols n rnd min_blocks s t :
  wp (S := S) Itrue (submit_pages signer sols n rnd min_blocks)
    (post (fun failed t' => NoDup failed /\ failed ⊆ sols.*1 /\
       (n = 0%nat -> forall p, p ∈ sols.*1 -> p ∈ failed \/ p ∈ pages_stored t'))) s t.
Proof.
  unfold submit_pages. case_decide.
  - eapply post_weaken; [apply post_concurrent|]. by intros failed t' _ (?&?&?).
  - eapply post_weaken; [by apply post_chunked|]. by intros failed t' _ (?&?&?).
Qed.

Lemma enumerate_pages_fst (pages : list Solution) :
  (enumerate_pages pages).*1 = seqZ 0 (Z.of_nat (length pages)).
Proof. unfold enumerate_pages. rewrite fst_zip; [done|]. rewrite length_seqZ. lia. Qed.

(** Taking the failed pages out of the solution never indexes out of bounds. *)
Lemma take_pages_some : forall failed (pages : list Solution),
  failed ⊆ seqZ 0 (Z.of_nat (length pages)) ->
  exists l, take_pages pages failed = Some l /\ l.*1 = failed.
Proof.
  induction failed as [|p failed IH]; intros pages Hin; cbn; [by eexists|].
  assert (p ∈ seqZ 0 (Z.of_nat (length pages))) as [? ?]%elem_of_seqZ by (apply Hin; by left).
  destruct (lookup_lt_is_Some_2 pages (Z.to_nat p)) as [sol Hsol]; [lia|].
  rewrite Hsol. destruct (IH (<[Z.to_nat p:=solution_default]> pages)) as (l & -> & Hl).
  { rewrite length_insert. intros q Hq. apply Hin. by right. }
  eexists. split; [done|]. cbn. by rewrite Hl.
Qed.

Lemma post_register_loop tries sc n : forall s t, tries <> 0%nat ->
  wp (S := S) Itrue (register_loop tries sc n) (post (fun _ _ => True)) s t.
Proof.
  induction tries as [|tries IH]; intros s t Ht; [done|]. cbn [register_loop].
  eapply post_bind; [apply post_account_nonce|intros nonce s1 t1 _ _].
  apply (post_bind _ _ (fun _ _ => True)).
  { by eapply post_bind; [apply post_to_scale_value|]. }
  intros tr s2 t2 _ _.
  eapply post_bind; [apply post_catch, post_submit_inner|intros [p|e] s3 t3 _ _]; [done|].
  destruct e as [| | |[]| | | | | | | | | | | | | | | | | | | | | | |]; try done.
  case_decide; [done|]. assert (Itrue s3 t3) by done. wp_quiet. by apply IH.
Qed.

Lemma post_register_phase signer sc rnd min_blocks s t :
  wp (S := S) Itrue (register_phase signer sc rnd min_blocks) (post (fun _ _ => True)) s t.
Proof.
  unfold register_phase, wait_tx_in_finalized_block.
  eapply post_bind; [apply post_current_phase|intros p s1 t1 _ Hp].
  eapply post_bind; [apply post_validate|intros _ s2 t2 _ [-> _]].
  eapply post_bind; [by apply post_blocks_remaining|intros n s3 t3 _ _].
  eapply post_bind; [by apply post_register_loop|intros st s4 t4 _ _].
  do 2 (eapply post_bind; [apply post_quiet|intros ????->]).
  destruct (negb _); [done|]. by intros [].
Qed.

(** The retry can only succeed with every failed page stored. *)
Lemma post_retry_pages signer pages failed n rnd min_blocks s t :
  failed ⊆ seqZ 0 (Z.of_nat (length pages)) ->
  wp (S := S) Itrue (retry_pages signer pages failed n rnd min_blocks)
    (post (fun _ t' => n = 0%nat -> forall p, p ∈ failed -> p ∈ pages_stored t')) s t.
Proof.
  intros Hin. unfold retry_pages.
  eapply post_bind; [apply post_current_phase|intros p s1 t1 _ Hp].
  eapply post_bind; [apply post_validate|intros _ s2 t2 _ _].
  destruct (take_pages_some failed pages Hin) as (l & -> & Hl).
  eapply post_bind; [apply post_submit_pages|rewrite Hl].
  intros [|q qs] s3 t3 _ (_ & _ & Hcov).
  - intros []. split; [done|]. cbn. intros Hn r Hr.
    apply (pages_stored_suffix t3); [by eexists [_]|].
    destruct (Hcov Hn r Hr) as [Hc|]; [|done]. by apply not_elem_of_nil in Hc.
  - eapply post_bind; [apply post_current_phase|intros p' s4 t4 _ Hp'].
    by eapply post_bind; [apply post_validate|].
Qed.

Lemma post_submit signer sol n rnd min_blocks s t :
  wp (S := S) Itrue (submit signer sol n rnd min_blocks)
    (post (fun _ t' => n = 0%nat -> forall i : nat,
       (i < length (solution_pages sol))%nat -> Z.of_nat i ∈ pages_stored t')) s t.
Proof.
  unfold submit, first_pages.
  eapply post_bind; [apply post_register_phase|intros _ s0 t0 _ _].
  eapply (post_bind _ _ (fun failed t' => failed ⊆ seqZ 0 (Z.of_nat (length (solution_pages sol))) /\
    (n = 0%nat -> forall p, p ∈ seqZ 0 (Z.of_nat (length (solution_pages sol))) ->
       p ∈ failed \/ p ∈ pages_stored t'))).
  { eapply post_bind; [apply post_current_phase|intros p s1 t1 _ Hp].
    eapply post_bind; [apply post_validate|intros _ s2 t2 _ _].
    eapply post_weaken; [apply post_submit_pages|]. rewrite enumerate_pages_fst.
    by intros failed t' _ (_ & ? & ?). }
  intros failed s1 t1 _ [Hin Hcov].
  apply (post_weaken _ (fun _ t' => n = 0%nat -> forall p, p ∈ failed -> p ∈ pages_stored t')).
  - destruct failed; [|by apply post_retry_pages].
    intros []. split; [done|]. intros Hn q Hq. by apply not_elem_of_nil in Hq.
  - intros _ t' Hsuf Hr Hn i Hi. destruct (Hcov Hn (Z.of_nat i)) as [|Hst]; [|by apply Hr|].
    + apply elem_of_seqZ. lia.
    + by eapply pages_stored_suffix.
Qed.

(** ** Nonces *)

(** The page transactions of a batch with their nonces. *)
Fixpoint page_txs (pages : list (Z * Solution)) (nonce : Z) : list (Call * Z) :=
  match pages with
  | [] => []
  | (page, sol) :: rest => (submit_page_call page (Some sol), nonce) :: page_txs rest (u64_add nonce 1)
  end.

Lemma length_page_txs pages : forall nonce, length (page_txs pages nonce) = length pages.
Proof. induction pages as [|[]]; intros; cbn; auto. Qed.

Lemma keeps_submit_page I page sol :
  Quiet I -> keeps (S := S) I (submit_page page sol) (fun tr _ _ => tx tr = submit_page_call page sol).
Proof.
  intros HI. unfold submit_page, to_scale_value.
  eapply (keeps_bind _ _ _ anything); [keeps_quiet|intros _].
  eapply (keeps_bind _ _ _ anything); [keeps_quiet|intros _]. by apply keeps_ret.
Qed.

(** What a program sends after [L]: a prefix of [new], all of it if it returns. *)
Definition sends {A} (L : list (Call * Z)) (new : list (Call * Z)) : outcome A -> S -> trace -> Prop :=
  fun o _ t => exists k : nat, (sent_txs t).*1 = L ++ take k new /\
    match o with Ok _ => (length new <= k)%nat | _ => True end.

Lemma sends_none {A} new (o : outcome A) (s : S) t :
  (forall a, o <> Ok a) -> sends (sent_txs t).*1 new o s t.
Proof. intros Ho. exists 0%nat. rewrite take_0, app_nil_r. by destruct o; [destruct (Ho a)|..]. Qed.

Lemma sends_cons {A} L x new (o : outcome A) (s : S) t :
  sends (L ++ [x]) new o s t -> sends L (x :: new) o s t.
Proof.
  intros (k & Hk & Hok). exists (Datatypes.S k). cbn. rewrite Hk, <- app_assoc. split; [done|].
  destruct o; cbn; lia || done.
Qed.

(** [submit_inner] sends its transaction once, unless it fails before. *)
Lemma wp_submit_inner_sends tr nonce n s t :
  let x := (tx tr, nonce, Some (u32_add n 1)) in
  wp (S := S) Itrue (submit_inner tr nonce n) (fun o _ t' =>
    sent_txs t' = sent_txs t ++ [x] \/
    sent_txs t' = sent_txs t /\ forall p, o <> Ok p) s t.
Proof.
  intros x. unfold submit_inner, sign_and_submit. assert (Itrue s t) by done.
  wp_quiet; [|auto]. wp_quiet; [|auto].
  intros r. split; [done|]. left. by rewrite !sent_txs_cons, !app_nil_r.
Qed.

Lemma wp_submit_batch_loop_sends pages : forall nonce s t,
  wp (S := S) Itrue (submit_batch_loop pages nonce)
    (sends (sent_txs t).*1 (page_txs pages nonce)) s t.
Proof.
  induction pages as [|[page sol] rest IH]; intros nonce s t; cbn [submit_batch_loop page_txs].
  { apply wp_ret. exists 0%nat. by rewrite app_nil_r. }
  eapply (wp_keeps_bind (fun _ t' => sent_txs t' = sent_txs t));
    [by apply keeps_current_phase, _|done| |by intros o ? ? <- ?; apply sends_none].
  intros p s1 t1 <- _. apply wp_bind.
  destruct p as [|n|pg|txt]; try (apply wp_panic; by apply sends_none).
  apply wp_ret. cbn [bind_post].
  eapply (wp_keeps_bind (fun _ t' => sent_txs t' = sent_txs t1));
    [by apply keeps_submit_page, _|done| |by intros o ? ? <- ?; apply sends_none].
  intros tr s2 t2 <- Htr. apply wp_bind.
  eapply wp_mono; [done| |apply wp_submit_inner_sends].
  intros o s3 t3. cbn beta. rewrite Htr. intros [Hs3|[Hs3 Ho]].
  - assert (forall A (o : outcome A) (s' : S) t', (forall a, o <> Ok a) -> t' = t3 ->
      sends (sent_txs t2).*1
        ((submit_page_call page (Some sol), nonce) :: page_txs rest (u64_add nonce 1)) o s' t')
      as Hstop.
    { intros A o' s' t' Ho' ->. apply sends_cons. apply (f_equal (fmap fst)) in Hs3.
      rewrite fmap_app in Hs3. cbn in Hs3. rewrite <- Hs3. by apply sends_none. }
    destruct o as [pr|e|msg|]; cbn [bind_post]; try by apply Hstop.
    apply wp_bind. eapply wp_mono; [done| |apply IH].
    intros o s4 t4 H4. rewrite Hs3, fmap_app in H4. apply sends_cons in H4. by destruct o.
  - destruct o as [pr|e|msg|]; [by destruct (Ho pr)|..]; rewrite <- Hs3; by apply sends_none.
Qed.

(** ** Metrics *)

Section metrics.
Context (L : list Metric).

(** Nothing was recorded since [L]. *)
Definition unrecorded (_ : S) (t : trace) : Prop := metrics t = L.

Ltac no_metric := intros ? ? ? H; exact H.
Ltac silent := repeat (keeps_step no_metric).

Lemma silent_current_phase : keeps unrecorded current_phase_at_head anything.
Proof.
  unfold current_phase_at_head, storage_at_head, get_latest_finalized_head, storage_at. silent.
Qed.

Lemma silent_validate p signer rnd min_blocks :
  keeps unrecorded (validate_signed_phase_or_bail p signer rnd min_blocks) anything.
Proof.
  unfold validate_signed_phase_or_bail, storage_at_head, get_latest_finalized_head, storage_at,
    bail, sign_and_submit, wait_tx_in_finalized_block. silent.
Qed.

Lemma silent_validated {A} signer rnd min_blocks (m : M S A) :
  keeps unrecorded m anything ->
  keeps unrecorded
    (current_phase ← current_phase_at_head;
     validate_signed_phase_or_bail current_phase signer rnd min_blocks;; m) anything.
Proof.
  intros Hm. eapply (keeps_bind _ _ _ anything); [apply silent_current_phase|intros p].
  by eapply (keeps_bind _ _ _ anything); [apply silent_validate|].
Qed.

Lemma silent_batch_loop pages : forall nonce,
  keeps unrecorded (submit_batch_loop pages nonce) anything.
Proof.
  induction pages as [|[page sol] rest IH]; intros nonce; cbn [submit_batch_loop]; [silent|].
  eapply (keeps_bind _ _ _ anything); [apply silent_current_phase|intros p].
  unfold get_signed_phase_blocks_remaining, submit_page, to_scale_value, submit_inner, sign_and_submit.
  repeat (apply IH || keeps_step no_metric).
Qed.

Lemma silent_process_txs n : forall txs failed submitted,
  keeps unrecorded (process_txs n txs failed submitted) anything.
Proof.
  induction n as [|n IH]; intros txs failed submitted; cbn [process_txs]; [silent|].
  unfold wait_tx_in_finalized_block. repeat (apply IH || keeps_step no_metric).
Qed.

Lemma silent_batch signer pages rnd min_blocks :
  keeps unrecorded (submit_pages_batch signer pages rnd min_blocks) anything.
Proof.
  apply silent_validated. unfold account_nonce, hash_set_iter.
  repeat (apply silent_batch_loop || apply silent_process_txs || keeps_step no_metric).
Qed.

Lemma silent_chunks signer total rnd min_blocks : forall todo submitted,
  keeps unrecorded (submit_chunks signer todo total rnd min_blocks submitted) anything.
Proof.
  induction todo as [|chunk todo IH]; intros submitted; cbn [submit_chunks]; [silent|].
  apply silent_validated.
  eapply (keeps_bind _ _ _ anything); [apply silent_batch|intros result].
  destruct (negb _); [silent|]. case_decide; [silent|apply IH].
Qed.

Lemma silent_submit_pages signer sols n rnd min_blocks :
  keeps unrecorded (submit_pages signer sols n rnd min_blocks) anything.
Proof.
  unfold submit_pages, inner_submit_pages_concurrent, inner_submit_pages_chunked.
  case_decide; [|apply silent_chunks].
  eapply (keeps_bind _ _ _ anything); [apply silent_batch|intros result]. silent.
Qed.

Lemma silent_register_loop tries sc n :
  keeps unrecorded (register_loop tries sc n) anything.
Proof.
  induction tries as [|tries IH]; cbn [register_loop]; [silent|].
  unfold account_nonce, register_score, to_scale_value, submit_inner, sign_and_submit.
  repeat (apply IH || keeps_step no_metric).
Qed.

End metrics.

(** The metrics a call recorded after [L]: [full] if it returns, otherwise a
    prefix of [full] shorter than it. *)
Definition records {A} (L full : list Metric) : outcome A -> S -> trace -> Prop :=
  yields metric_of True L full.

Lemma records_bind {A B} L full (m : M S A) (f : A -> M S B) s t :
  full <> [] -> metrics t = L -> keeps (unrecorded L) m anything ->
  (forall a s' t', metrics t' = L -> wp Itrue (f a) (records L full) s' t') ->
  wp Itrue (mbind f m) (records L full) s t.
Proof. intros Hne HL Hm Hf. eapply observes_bind; [by intros _|done|exact Hm|]. intros. by apply Hf. Qed.

Lemma records_nothing {A} L full (o : outcome A) (s : S) t :
  (forall a, o <> Ok a) -> metrics t = L -> full <> [] -> records L full o s t.
Proof. intros. by apply yields_nothing. Qed.

Lemma records_metric L m s t :
  metrics t = L -> wp Itrue (metric m) (records L [m]) s t.
Proof. intros <-. apply wp_metric; [done|]. exists [m]. split; [apply metrics_cons|done]. Qed.

Lemma wp_register_phase_records signer sc rnd min_blocks s t :
  wp Itrue (register_phase signer sc rnd min_blocks)
    (records (metrics t) [on_submission_started]) s t.
Proof.
  unfold register_phase, wait_tx_in_finalized_block, get_signed_phase_blocks_remaining.
  apply records_bind; [done..|apply silent_current_phase|intros p s1 t1 H1].
  apply records_bind; [done..|apply silent_validate|intros _ s2 t2 H2].
  apply records_bind; [done..|repeat (keeps_step idtac)|intros n s3 t3 H3].
  apply records_bind; [done..|apply silent_register_loop|intros st s4 t4 H4].
  apply records_bind; [done..|apply keeps_query; [by intros ????|done]|intros x s5 t5 H5].
  apply records_bind; [done..|apply keeps_query; [by intros ????|done]|intros evs s6 t6 H6].
  destruct (negb _); [by apply wp_throw, records_nothing|by apply records_metric].
Qed.

Lemma wp_retry_records signer pages failed n rnd min_blocks s t :
  wp Itrue (retry_pages signer pages failed n rnd min_blocks)
    (records (metrics t) [on_submission_success]) s t.
Proof.
  unfold retry_pages.
  apply records_bind; [done..|apply silent_current_phase|intros p s1 t1 H1].
  apply records_bind; [done..|apply silent_validate|intros _ s2 t2 H2].
  destruct (take_pages pages failed) as [sols|]; [|by apply wp_panic, records_nothing].
  apply records_bind; [done..|apply silent_submit_pages|intros [|q qs] s3 t3 H3];
    [by apply records_metric|].
  apply records_bind; [done..|apply silent_current_phase|intros p' s4 t4 H4].
  apply records_bind; [done..|apply silent_validate|intros _ s5 t5 H5].
  by apply wp_throw, records_nothing.
Qed.

Lemma wp_submit_records signer sol n rnd min_blocks s t :
  wp Itrue (submit signer sol n rnd min_blocks)
    (records (metrics t) [on_submission_started; on_submission_success]) s t.
Proof.
  unfold submit, first_pages.
  apply (yields_seq _ _ _ [on_submission_started] [on_submission_success]);
    [done|apply wp_register_phase_records|intros _ s1 t1 <-].
  apply records_bind; [done..| |intros [|q qs] s2 t2 <-].
  - apply silent_validated, silent_submit_pages.
  - by apply records_metric.
  - apply wp_retry_records.
Qed.

(** ** Registration attempts *)

(** What [register_loop] sends: [tries] times the same transaction at most,
    each with a nonce it has just read. *)
Definition registers {A} (L : list (Call * Z * option Z)) (tries : nat) (sc : ElectionScore) (n : Z)
    : outcome A -> S -> trace -> Prop :=
  fun _ _ t => exists nonces : list Z, (length nonces <= tries)%nat /\
    sent_txs t = L ++ ((fun nonce => (register sc, nonce, Some (u32_add n 1))) <$> nonces).

Lemma registers_none {A} tries sc n (o : outcome A) (s : S) t :
  registers (sent_txs t) tries sc n o s t.
Proof. exists []. cbn. rewrite app_nil_r. split; [lia|done]. Qed.

Lemma registers_cons {A} L tries sc n nonce (o : outcome A) (s : S) t :
  registers (L ++ [(register sc, nonce, Some (u32_add n 1))]) tries sc n o s t ->
  registers L (Datatypes.S tries) sc n o s t.
Proof.
  intros (nonces & Hlen & Ht). exists (nonce :: nonces). cbn. split; [lia|].
  by rewrite Ht, <- app_assoc.
Qed.

Lemma wp_register_loop_sends tries sc n : forall s t,
  wp (S := S) Itrue (register_loop tries sc n) (registers (sent_txs t) tries sc n) s t.
Proof.
  induction tries as [|tries IH]; intros s t; cbn [register_loop]; [apply registers_none|].
  eapply (wp_keeps_bind (fun _ t' => sent_txs t' = sent_txs t) _ _ anything);
    [by apply keeps_account_nonce, _|done| |by intros o ? ? <- ?; apply registers_none].
  intros nonce s1 t1 <- _.
  eapply (wp_keeps_bind (fun _ t' => sent_txs t' = sent_txs t1) _ _
    (fun tr _ _ => tx tr = register sc)); [|done| |by intros o ? ? <- ?; apply registers_none].
  { unfold register_score, to_scale_value.
    eapply (keeps_bind _ _ _ anything); [keeps_quiet|intros _]. by apply keeps_ret. }
  intros tr s2 t2 <- Htr. apply wp_bind, wp_catch.
  eapply wp_mono; [done| |apply wp_submit_inner_sends].
  intros o s3 t3. cbn beta. rewrite Htr. intros Hs3.
  assert (forall A (o : outcome A) s', registers (sent_txs t2) (Datatypes.S tries) sc n o s' t3)
    as Hstop.
  { intros A o' s'. destruct Hs3 as [Hs3|[<- _]]; [|apply registers_none].
    eapply registers_cons. rewrite <- Hs3. apply registers_none. }
  destruct o as [pr|e|msg|]; try apply Hstop. cbn [bind_post].
  destruct e as [| | |[]| | | | | | | | | | | | | | | | | | | | | | |]; try apply Hstop.
  case_decide; [apply Hstop|]. assert (Itrue s3 t3) by done. wp_quiet.
  eapply wp_mono; [done| |apply IH]. intros o s4 t4. rewrite sent_txs_cons, app_nil_r.
  destruct Hs3 as [->|[-> _]]; [apply registers_cons|].
  intros (nonces & ? & ?). exists nonces. split; [lia|done].
Qed.

End spec.

(** C6: when [submit] without chunking returns [Ok], every page of the solution
    was confirmed by a [Stored] event, after the first attempt or after the
    retry. *)
Theorem submit_concurrent_stores_every_page `{T : MinerConfig} {S : Type} (h : handler)
    (s s' : S) (t' : trace) signer sol rnd min_blocks :
  run h (submit signer sol 0 rnd min_blocks) s [] = (Ok tt, s', t') ->
  forall i : nat, (i < length (solution_pages sol))%nat -> Z.of_nat i ∈ pages_stored t'.
Proof.
  intros Hrun. pose proof (wp_run _ _ _ _ _ h (post_submit signer sol 0 rnd min_blocks s [])) as H.
  rewrite Hrun in H. by apply H.
Qed.

(** Page 2 is lost the first time it is sent, and confirmed by the retry. *)
Definition flaky_node : Node :=
  lossy_node (fun id t => bool_decide (id = 2 /\ sent_count 2 t = 1%nat)).

Lemma submit_concurrent_stores_every_page_witness :
  exists t', run (node_handler flaky_node) (submit 1 mined4 0 1 10) tt [] = (Ok tt, tt, t') /\
    sent_count 2 t' = 2%nat /\ 2 ∈ pages_stored t'.
Proof.
  eexists. split; [vm_compute; reflexivity|]. split; [vm_compute; reflexivity|].
  apply (submit_concurrent_stores_every_page (node_handler flaky_node) tt tt _ 1 mined4 1 10
    ltac:(vm_compute; reflexivity) 2). vm_compute. lia.
Defined.

(** C16: a round in chunks that reports no failed page has every page confirmed,
    provided [Stored] events only name pages of the solution. *)
Theorem chunked_round_stores_every_page `{T : MinerConfig} {S : Type} (h : handler)
    (s s' : S) (t' : trace) signer sols n rnd min_blocks :
  run h (inner_submit_pages_chunked signer sols n rnd min_blocks) s [] = (Ok [], s', t') ->
  NoDup sols.*1 -> pages_stored t' ⊆ list_to_set sols.*1 ->
  forall p, p ∈ sols.*1 -> p ∈ pages_stored t'.
Proof.
  intros Hrun Hnd Hsound. destruct (decide (n = 0%nat)) as [->|Hn].
  { unfold inner_submit_pages_chunked in Hrun. by rewrite decide_True in Hrun. }
  pose proof (wp_run _ _ _ _ _ h (post_chunked signer sols n rnd min_blocks s [] Hn)) as H.
  rewrite Hrun in H. destruct H as (_ & _ & Hall). destruct (Hall eq_refl) as [Hst|(X & HX & Hsz)].
  { exact Hst. }
  intros p Hp. apply HX.
  assert (X ≡ list_to_set sols.*1) as ->; [|by apply elem_of_list_to_set].
  apply set_subseteq_size_equiv; [set_solver|].
  rewrite Hsz, size_list_to_set by done. by rewrite length_fmap.
Qed.

Lemma chunked_round_stores_every_page_witness :
  exists t', run (node_handler good_node)
      (inner_submit_pages_chunked 1 [(0, 11); (1, 12); (2, 13)] 2 1 10) tt [] = (Ok [], tt, t') /\
    2 ∈ pages_stored t'.
Proof.
  eexists. split; [vm_compute; reflexivity|].
  apply (chunked_round_stores_every_page (node_handler good_node) tt tt _ 1
    [(0, 11); (1, 12); (2, 13)] 2 1 10 ltac:(vm_compute; reflexivity)).
  - apply (bool_decide_unpack _). vm_compute. exact Logic.I.
  - apply (bool_decide_unpack _). vm_compute. exact Logic.I.
  - apply (bool_decide_unpack _). vm_compute. exact Logic.I.
Defined.

(** [submit] panics only when the phase it has just read is no longer the
    signed phase; the retry loop never falls through, the failed pages always
    index the solution, and chunking is never entered with size 0. *)
Theorem submit_panics_only_outside_signed `{T : MinerConfig} {S : Type} (h : handler)
    (s s' : S) (t' : trace) signer sol n rnd min_blocks msg :
  run h (submit signer sol n rnd min_blocks) s [] = (Panic msg, s', t') ->
  msg = phase_panic /\ not_signed_read t'.
Proof.
  intros Hrun. pose proof (wp_run _ _ _ _ _ h (post_submit signer sol n rnd min_blocks s [])) as H.
  by rewrite Hrun in H.
Qed.

(** The phase ends right after a batch has been validated. *)
Definition ending_node : Node :=
  with_phase (fun t => if bool_decide (length (omap phase_read t) < 3)%nat then Signed 50 else Off)
    good_node.

Lemma submit_panics_only_outside_signed_witness :
  exists t', run (node_handler ending_node) (submit 1 mined4 0 1 10) tt []
      = (Panic phase_panic, tt, t') /\ not_signed_read t'.
Proof.
  eexists. split; [vm_compute; reflexivity|].
  by apply (submit_panics_only_outside_signed (node_handler ending_node) tt tt _ 1 mined4 0 1 10
    phase_panic ltac:(vm_compute; reflexivity)).
Defined.

(** the result of a batch partitions what it was asked to submit: no page
    is reported twice, every page is reported as failed or as submitted, only
    pages of the batch fail, and a page counts as submitted only after a
    [Stored] event. *)
Theorem submit_pages_batch_result `{T : MinerConfig} {S : Type} (h : handler)
    (s s' : S) (t t' : trace) signer pages rnd min_blocks r :
  run h (submit_pages_batch signer pages rnd min_blocks) s t = (Ok r, s', t') ->
  batch_spec pages.*1 r t' /\
  (all_successful r = true -> forall p, p ∈ pages.*1 -> p ∈ pages_stored t').
Proof.
  intros Hrun.
  pose proof (wp_run _ _ _ _ _ h (post_submit_pages_batch signer pages rnd min_blocks s t)) as H.
  rewrite Hrun in H. split; [done|]. destruct H as (_ & _ & Hcov & Hst).
  unfold all_successful. destruct (failed_pages r) eqn:Hf; [|done]. intros _ p Hp.
  destruct (Hcov p Hp) as [Hc|]; [by apply not_elem_of_nil in Hc|by apply Hst].
Qed.

Lemma submit_pages_batch_result_witness :
  exists r t', run (node_handler (lossy_node (fun id _ => id =? 1)))
      (submit_pages_batch 1 [(0, 11); (1, 12)] 1 10) tt [] = (Ok r, tt, t') /\
    failed_pages r = [1] /\ batch_spec [0; 1] r t'.
Proof.
  do 2 eexists. split; [vm_compute; reflexivity|]. split; [done|].
  apply (submit_pages_batch_result (node_handler (lossy_node (fun id _ => id =? 1)))
    tt tt [] _ 1 [(0, 11); (1, 12)] 1 10 _ ltac:(vm_compute; reflexivity)).
Defined.

(** a batch sends its pages in order, each with the solution of that page
    and with consecutive nonces; a failure stops it after a prefix, and a batch
    loop that returns has sent all of them exactly once. *)
Theorem batch_loop_nonces_consecutive `{T : MinerConfig} {S : Type} (h : handler)
    (s : S) (t : trace) pages nonce :
  let '(o, _, t') := run h (submit_batch_loop pages nonce) s t in
  exists k : nat, (sent_txs t').*1 = (sent_txs t).*1 ++ take k (page_txs pages nonce) /\
    match o with Ok _ => (length pages <= k)%nat | _ => True end.
Proof.
  pose proof (wp_run _ _ _ _ _ h (wp_submit_batch_loop_sends pages nonce s t)) as H.
  destruct (run h _ s t) as [[o s'] t']. destruct H as (k & Hk & Ho). exists k.
  split; [done|]. by rewrite length_page_txs in Ho.
Qed.

(** the submission counters tell the truth about [submit]: a call that
    returns recorded exactly one start and then one success; any other call
    recorded nothing, or the start only. *)
Theorem submit_metrics `{T : MinerConfig} {S : Type} (h : handler) (s : S) (t : trace)
    signer sol n rnd min_blocks :
  let '(o, _, t') := run h (submit signer sol n rnd min_blocks) s t in
  exists new, metrics t' = metrics t ++ new /\
    match o with
    | Ok _ => new = [on_submission_started; on_submission_success]
    | _ => new = [] \/ new = [on_submission_started]
    end.
Proof.
  pose proof (wp_run _ _ _ _ _ h (wp_submit_records signer sol n rnd min_blocks s t)) as H.
  destruct (run h _ s t) as [[o s'] t']. destruct H as (new & Hnew & Ho). exists new.
  split; [done|]. destruct o; [done|..]; destruct Ho as [[k Hk] Hne]; specialize (Hne Logic.I);
    destruct new as [|m1 [|m2 [|]]]; naive_solver.
Qed.

(** registering the score sends at most ten transactions, all of them the
    same registration with the mortality of the phase that was validated, and
    nothing else. *)
Theorem register_loop_at_most_ten `{T : MinerConfig} {S : Type} (h : handler) (s : S) (t : trace)
    sc blocks_remaining :
  let '(_, _, t') := run h (register_loop 10 sc blocks_remaining) s t in
  exists nonces : list Z, (length nonces <= 10)%nat /\
    sent_txs t' = sent_txs t ++
      ((fun nonce => (register sc, nonce, Some (u32_add blocks_remaining 1))) <$> nonces).
Proof.
  pose proof (wp_run _ _ _ _ _ h (wp_register_loop_sends 10 sc blocks_remaining s t)) as H.
  by destruct (run h _ s t) as [[o s'] t'].
Qed.

(** Taking distinct failed pages out of the solution yields their content. *)
Lemma take_pages_content `{T : MinerConfig} (pages : list Solution) (failed : list Z) :
  NoDup failed -> failed ⊆ seqZ 0 (Z.of_nat (length pages)) ->
  exists l, take_pages pages failed = Some l /\ l.*1 = failed /\
    forall p sol, (p, sol) ∈ l -> pages !! Z.to_nat p = Some sol.
Proof.
  intros Hnd. revert pages. induction Hnd as [|p failed Hp Hnd IH]; intros pages Hin.
  { exists []. split_and!; [done..|]. intros p sol H. by apply not_elem_of_nil in H. }
  assert (forall q, q ∈ p :: failed -> 0 <= q < Z.of_nat (length pages)) as Hrange.
  { intros q Hq. apply Hin in Hq. apply elem_of_seqZ in Hq. lia. }
  destruct (lookup_lt_is_Some_2 pages (Z.to_nat p)) as [sol Hsol].
  { pose proof (Hrange p ltac:(by left)). lia. }
  destruct (IH (<[Z.to_nat p:=solution_default]> pages)) as (l & Hl & Hfst & Horig).
  { rewrite length_insert. intros q Hq. apply Hin. by right. }
  exists ((p, sol) :: l). cbn. rewrite Hsol, Hl. split_and!; [done|csimpl; by rewrite Hfst|].
  intros q sq [[= -> ->]|Hq]%elem_of_cons; [done|].
  rewrite <- (Horig q sq Hq), list_lookup_insert_ne; [done|].
  assert (q ∈ failed) by (rewrite <- Hfst; apply list_elem_of_fmap; by exists (q, sq)).
  pose proof (Hrange q ltac:(by right)). pose proof (Hrange p ltac:(by left)).
  intros Heq. by assert (p = q) as -> by lia.
Qed.

(** The pages that are sent again carry the solutions of the first attempt:
    taking distinct failed pages out of the solution yields each of them with
    its original content. *)
Theorem take_pages_original `{T : MinerConfig} (pages : list Solution) (failed : list Z) :
  NoDup failed -> failed ⊆ seqZ 0 (Z.of_nat (length pages)) ->
  exists l, take_pages pages failed = Some l /\ l.*1 = failed /\
    forall p sol, (p, sol) ∈ l -> pages !! Z.to_nat p = Some sol.
Proof. apply take_pages_content. Qed.

Lemma take_pages_original_witness :
  let pages : list (@Solution num_config) := [11; 12; 13] in
  exists l, take_pages pages [2; 0] = Some l /\ l.*1 = [2; 0] /\
    forall p sol, (p, sol) ∈ l -> pages !! Z.to_nat p = Some sol.
Proof.
  intros pages. apply (take_pages_original pages [2; 0]).
  - apply (bool_decide_unpack _). vm_compute. exact Logic.I.
  - apply (bool_decide_unpack _). vm_compute. exact Logic.I.
Defined.

(** In chunks, [submit] can report success for an incomplete submission:
    when the first of two chunks fails and its retry succeeds, the pages of the
    second chunk are never sent, and the success is recorded all the same. *)
Theorem chunked_submit_skips_pages :
  exists (nd : Node) (t' : trace),
    run (node_handler nd) (submit 1 mined4 2 1 10) tt [] = (Ok tt, tt, t') /\
    last (metrics t') = Some on_submission_success /\
    sent_count 2 t' = 0%nat /\ sent_count 3 t' = 0%nat /\
    (2 ∉ pages_stored t') /\ (3 ∉ pages_stored t').
Proof.
  exists (lossy_node (fun id t => bool_decide (id = 1 /\ sent_count 1 t = 1%nat))).
  eexists. split; [vm_compute; reflexivity|].
  split_and!; try (vm_compute; reflexivity);
    apply (bool_decide_unpack _); vm_compute; exact Logic.I.
Qed.
