(* ===== verification/SnapshotFetch.v ===== *)
(** * Fetching the snapshot and mining

    The part of [src/dynamic/multi_block.rs] that reads the paged snapshot,
    keeps the cache of [Types] up to date by hash, and mines a solution from
    it.  The cache lives in the state of the caller; [HasSnapshot] is what the
    fetching code needs to know of that state. *)

From S2P Require Import Prelude Errors Chain Metrics Types Effects Traces ChainAccess Scenario.
Local Open Scope Z_scope.

(** A state that holds a [&mut Snapshot]. *)
Class HasSnapshot (S : Type) : Type := {
  snapshot_of : S -> Snapshot;
  with_snapshot : Snapshot -> S -> S;
  snapshot_of_with x s : snapshot_of (with_snapshot x s) = x;
}.

#[export] Instance Snapshot_HasSnapshot : HasSnapshot Snapshot.
Proof. by refine {| snapshot_of := fun s => s; with_snapshot := fun x _ => x |}. Defined.

Section fetch.
Context `{T : MinerConfig} {S : Type} `{!HasSnapshot S}.

(** A dynamic storage value: absent is [EmptySnapshot], undecodable a codec
    error. *)
Definition decode_fetched {A} (r : Fetched A) : M S A :=
  match r with
  | Some (ok v) => mret v
  | Some (err e) => throw (Error.Codec e)
  | None => throw Error.EmptySnapshot
  end.

(** [target_snapshot] *)
Definition target_snapshot (page round : Z) (storage : AtBlock) : M S TargetSnapshotPage :=
  r ← query (TryFetchTargetSnapshot storage round page);
  decode_fetched r.

(** [paged_voter_snapshot] *)
Definition paged_voter_snapshot (page round : Z) (storage : AtBlock) : M S VoterSnapshotPage :=
  r ← query (TryFetchVoterSnapshot storage round page);
  decode_fetched r.

(** [paged_voter_snapshot_hash] *)
Definition paged_voter_snapshot_hash (page round : Z) (storage : AtBlock) : M S Hash :=
  r ← query (TryFetchVoterSnapshotHash storage round page);
  decode_fetched r.

(** [target_snapshot_hash] *)
Definition target_snapshot_hash (page round : Z) (storage : AtBlock) : M S Hash :=
  r ← query (TryFetchTargetSnapshotHash storage round page);
  decode_fetched r.

Definition get_snapshot : M S Snapshot := s ← get_state; mret (snapshot_of s).

Definition put_snapshot (x : Snapshot) : M S unit :=
  s ← get_state; put_state (with_snapshot x s).

(** [check_and_update_voter_snapshot] *)
Definition check_and_update_voter_snapshot (page round : Z) (storage : AtBlock) : M S unit :=
  snapshot_hash ← paged_voter_snapshot_hash page round storage;
  snapshot ← get_snapshot;
  if needs_voter_page snapshot page snapshot_hash then
    voter_snapshot ← paged_voter_snapshot page round storage;
    snapshot ← get_snapshot;
    match set_voter_page snapshot page voter_snapshot snapshot_hash with
    | Some snapshot => put_snapshot snapshot
    | None => panic "Page exceeds the maximum number of pages"
    end
  else mret tt.

(** [check_and_update_target_snapshot] *)
Definition check_and_update_target_snapshot (page round : Z) (storage : AtBlock) : M S unit :=
  snapshot_hash ← target_snapshot_hash page round storage;
  snapshot ← get_snapshot;
  if needs_target_snapshot snapshot snapshot_hash then
    t ← target_snapshot page round storage;
    snapshot ← get_snapshot;
    put_snapshot (set_target_snapshot snapshot t snapshot_hash)
  else mret tt.

(** [fetch_missing_snapshots_lossy] *)
Definition fetch_missing_snapshots_lossy (storage : AtBlock) (round : Z) : M S unit :=
  snapshot ← get_snapshot;
  let n_pages := n_pages snapshot in
  for_each (seqZ 0 n_pages) (fun page =>
    r ← catch (check_and_update_voter_snapshot page round storage);
    match r with
    | ok _ => mret tt
    | err Error.EmptySnapshot => mret tt
    | err e => throw e
    end);;
  catch (check_and_update_target_snapshot (u32_sub n_pages 1) round storage);;
  mret tt.

(** [fetch_missing_snapshots] *)
Definition fetch_missing_snapshots (storage : AtBlock) (round : Z) : M S unit :=
  snapshot ← get_snapshot;
  let n_pages := n_pages snapshot in
  for_each (seqZ 0 n_pages) (fun page => check_and_update_voter_snapshot page round storage);;
  check_and_update_target_snapshot (u32_sub n_pages 1) round storage.

(** The loop of [try_fetch_snapshot] over the voter pages. *)
Fixpoint fetch_voter_pages (pages : list Z) (round : Z) (storage : AtBlock)
    : M S (list VoterSnapshotPage) :=
  match pages with
  | [] => mret []
  | page :: pages =>
      voter_page ← paged_voter_snapshot page round storage;
      rest ← fetch_voter_pages pages round storage;
      mret (voter_page :: rest)
  end.

(** [try_fetch_snapshot] *)
Definition try_fetch_snapshot (n_pages round : Z) (storage : AtBlock)
    : M S (TargetSnapshotPage * list VoterSnapshotPage) :=
  chain_pages ← ask PagesGet;
  if negb (n_pages =? chain_pages)
  then throw (Error.Other ("n_pages must be equal to " +:+ pretty chain_pages))
  else
    t ← target_snapshot (u32_sub n_pages 1) round storage;
    voter_snapshot_paged ← fetch_voter_pages (seqZ 0 n_pages) round storage;
    bound ← ask PagesGet;
    mret (t, take (Z.to_nat bound) voter_snapshot_paged).

(** [mine_solution]: the miner and the feasibility check run in a blocking
    thread; both are code of polkadot-sdk. *)
Definition mine_solution (target_snapshot : TargetSnapshotPage)
    (voter_snapshot_paged : list VoterSnapshotPage)
    (n_pages round desired_targets block_number : Z) (do_reduce : bool)
    : M S PagedRawSolution :=
  bound ← ask PagesGet;
  let voter_pages := take (Z.to_nat bound) voter_snapshot_paged in
  let input := {|
    mi_desired_targets := desired_targets;
    mi_all_targets := target_snapshot;
    mi_voter_pages := voter_pages;
    mi_pages := n_pages;
    mi_do_reduce := do_reduce;
    mi_round := round;
  |} in
  r ← ask (MineSolution input);
  match r with
  | err e => throw (Error.Other e)
  | ok (err e) => throw (Error.Other e)
  | ok (ok paged_raw_solution) =>
      r ← ask (CheckFeasibility paged_raw_solution input);
      match r with
      | ok _ => mret paged_raw_solution
      | err e => throw (Error.Feasibility e)
      end
  end.

End fetch.
