(* ===== verification/SnapshotSpec.v ===== *)
(** * Properties of snapshot fetching

    Whatever the node answers, and wherever a timeout interrupts the fetch, the
    cache holds only pages read from the chain together with their hash; a
    fetch that returns leaves a complete snapshot. *)

From S2P Require Import Prelude Errors Chain Metrics Types Effects Traces ChainAccess Scenario SnapshotFetch.
Local Open Scope Z_scope.

Section spec.
Context `{T : MinerConfig} {S : Type} `{!HasSnapshot S}.

Lemma wp_get_snapshot I (Q : outcome Snapshot -> S -> trace -> Prop) s t :
  Q (Ok (snapshot_of s)) s t -> wp I get_snapshot Q s t.
Proof. done. Qed.

Lemma wp_put_snapshot I x (Q : outcome unit -> S -> trace -> Prop) s t :
  I (with_snapshot x s) t -> Q (Ok tt) (with_snapshot x s) t -> wp I (put_snapshot x) Q s t.
Proof. intros HI HQ. exact HQ. Qed.

(** ** Invariants of the cache *)

(** The two reads that precede a new entry. *)
Definition voter_read (t : trace) (p : Z) (v : VoterSnapshotPage) (h : Hash) : Prop :=
  exists b r new old, t = new ++
    Event (TryFetchVoterSnapshot b r p) (ok (Some (ok v))) ::
    Event (TryFetchVoterSnapshotHash b r p) (ok (Some (ok h))) :: old.

Definition target_read (t : trace) (v : TargetSnapshotPage) (h : Hash) : Prop :=
  exists b r p new old, t = new ++
    Event (TryFetchTargetSnapshot b r p) (ok (Some (ok v))) ::
    Event (TryFetchTargetSnapshotHash b r p) (ok (Some (ok h))) :: old.

(** An invariant of the state that the cache updates of the fetch keep. *)
Class CacheInvariant (I : S -> trace -> Prop) : Prop := {
  cache_quiet :: Quiet I;
  cache_set_voter s t p v h x : I s t -> 0 <= p -> voter_read t p v h ->
    set_voter_page (snapshot_of s) p v h = Some x -> I (with_snapshot x s) t;
  cache_set_target s t v h : I s t -> target_read t v h ->
    I (with_snapshot (set_target_snapshot (snapshot_of s) v h) s) t;
}.

Section keeps.
Context (I : S -> trace -> Prop) `{!CacheInvariant I}.

Lemma keeps_check_voter page rnd b :
  0 <= page -> keeps I (check_and_update_voter_snapshot page rnd b) anything.
Proof.
  intros Hp s t HI. unfold check_and_update_voter_snapshot, paged_voter_snapshot_hash,
    paged_voter_snapshot, decode_fetched.
  apply wp_bind. wp_quiet; [|done]. destruct a as [[h|e]|]; wp_pure; try done.
  apply wp_bind, wp_get_snapshot. cbn [bind_post].
  destruct (needs_voter_page _ _ _); [|done].
  apply wp_bind. wp_quiet; [|done]. destruct a as [[v|e]|]; wp_pure; try done.
  apply wp_bind, wp_get_snapshot. cbn [bind_post].
  destruct (set_voter_page _ _ _ _) as [x|] eqn:Hx; [|done].
  assert (I (with_snapshot x s) (Event (TryFetchVoterSnapshot b rnd page) (ok (Some (ok v))) ::
      Event (TryFetchVoterSnapshotHash b rnd page) (ok (Some (ok h))) :: t)) as HI'.
  { eapply cache_set_voter; [done..| |exact Hx]. by exists b, rnd, [], t. }
  by apply wp_put_snapshot.
Qed.

Lemma keeps_check_target page rnd b :
  keeps I (check_and_update_target_snapshot page rnd b) anything.
Proof.
  intros s t HI. unfold check_and_update_target_snapshot, target_snapshot_hash,
    target_snapshot, decode_fetched.
  apply wp_bind. wp_quiet; [|done]. destruct a as [[h|e]|]; wp_pure; try done.
  apply wp_bind, wp_get_snapshot. cbn [bind_post].
  destruct (needs_target_snapshot _ _); [|done].
  apply wp_bind. wp_quiet; [|done]. destruct a as [[v|e]|]; wp_pure; try done.
  apply wp_bind, wp_get_snapshot. cbn [bind_post].
  assert (forall t', t' = Event (TryFetchTargetSnapshot b rnd page) (ok (Some (ok v))) ::
      Event (TryFetchTargetSnapshotHash b rnd page) (ok (Some (ok h))) :: t -> I s t' ->
      I (with_snapshot (set_target_snapshot (snapshot_of s) v h) s) t') as HI'.
  { intros t' -> HIt. apply cache_set_target; [done|]. by exists b, rnd, page, [], t. }
  apply wp_put_snapshot; [by apply HI'|]. split; [by apply HI'|done].
Qed.

(** A loop whose body keeps the invariant. *)
Lemma keeps_for_each {A} (xs : list A) (body : A -> M S unit) :
  (forall x, x ∈ xs -> keeps I (body x) anything) -> keeps I (for_each xs body) anything.
Proof.
  induction xs as [|x xs IH]; intros Hb; cbn [for_each]; [by apply keeps_ret|].
  eapply (keeps_bind _ _ _ anything); [apply Hb; by left|intros _].
  apply IH. intros y Hy. apply Hb. by right.
Qed.

Lemma keeps_get_snapshot : keeps I get_snapshot anything.
Proof. intros s t HI. by apply wp_get_snapshot. Qed.

Lemma keeps_fetch_missing_snapshots b rnd : keeps I (fetch_missing_snapshots b rnd) anything.
Proof.
  unfold fetch_missing_snapshots.
  eapply (keeps_bind _ _ _ anything); [apply keeps_get_snapshot|intros x].
  eapply (keeps_bind _ _ _ anything); [apply keeps_for_each|intros _; apply keeps_check_target].
  intros p Hp%elem_of_seqZ. apply keeps_check_voter. lia.
Qed.

Lemma keeps_fetch_missing_snapshots_lossy b rnd :
  keeps I (fetch_missing_snapshots_lossy b rnd) anything.
Proof.
  unfold fetch_missing_snapshots_lossy.
  eapply (keeps_bind _ _ _ anything); [apply keeps_get_snapshot|intros x].
  eapply (keeps_bind _ _ _ anything); [apply keeps_for_each|intros _].
  - intros p Hp%elem_of_seqZ.
    eapply (keeps_bind _ _ _ anything); [|intros r; keeps_quiet].
    eapply keeps_weaken; [apply keeps_catch, keeps_check_voter; lia|done].
  - eapply (keeps_bind _ _ _ anything); [|intros r; keeps_quiet].
    eapply keeps_weaken; [apply keeps_catch, keeps_check_target|done].
Qed.

End keeps.

(** The cache only holds what was read from the chain, hash and page in the
    same block and round, at pages of the snapshot. *)
Definition cache_provenance (n : Z) (s : S) (t : trace) : Prop :=
  snapshot_wf (snapshot_of s) /\ n_pages (snapshot_of s) = n /\
  (forall p v h, voter (snapshot_of s) !! p = Some (v, h) -> voter_read t p v h) /\
  (forall v h, target (snapshot_of s) = Some (v, h) -> target_read t v h).

Lemma voter_read_cons e t p v h : voter_read t p v h -> voter_read (e :: t) p v h.
Proof. intros (b & r & new & old & ->). by exists b, r, (e :: new), old. Qed.

Lemma target_read_cons e t v h : target_read t v h -> target_read (e :: t) v h.
Proof. intros (b & r & p & new & old & ->). by exists b, r, p, (e :: new), old. Qed.

#[global] Instance cache_provenance_invariant n : CacheInvariant (cache_provenance n).
Proof.
  split.
  - intros R o _ s t r (Hwf & Hn & Hv & Ht). split_and!; [done..| |].
    + intros p v h Hp. apply voter_read_cons. auto.
    + intros v h Hp. apply target_read_cons. auto.
  - intros s t p v h x (Hwf & Hn & Hv & Ht) Hp Hr Hx. unfold cache_provenance.
    rewrite !snapshot_of_with. split_and!.
    + by eapply set_voter_page_wf.
    + unfold set_voter_page in Hx. case_match; [|done]. by injection Hx as <-.
    + unfold set_voter_page in Hx. case_match; [|done]. injection Hx as <-. cbn.
      intros q w k [[-> [= -> ->]]|[_ Hq]]%lookup_insert_Some; [done|auto].
    + unfold set_voter_page in Hx. case_match; [|done]. by injection Hx as <-.
  - intros s t v h (Hwf & Hn & Hv & Ht) Hr. unfold cache_provenance.
    rewrite !snapshot_of_with. split_and!; [by apply set_target_snapshot_wf|done|done|].
    by intros v' h' [= <- <-].
Qed.

(** ** A fetch that returns *)

(** The chain's hash of a page was read and is the one in the cache. *)
Definition page_current (b : AtBlock) (rnd : Z) (s : S) (t : trace) (p : Z) : Prop :=
  exists v h, voter (snapshot_of s) !! p = Some (v, h) /\
    Event (TryFetchVoterSnapshotHash b rnd p) (ok (Some (ok h))) ∈ t.

Definition target_current (b : AtBlock) (rnd p : Z) (s : S) (t : trace) : Prop :=
  exists v h, target (snapshot_of s) = Some (v, h) /\
    Event (TryFetchTargetSnapshotHash b rnd p) (ok (Some (ok h))) ∈ t.

(** One page: on success it is current and nothing else changed; otherwise
    the state is as before, and a page of the snapshot does not panic. *)
Lemma wp_check_voter page rnd b s t :
  page < n_pages (snapshot_of s) ->
  wp Itrue (check_and_update_voter_snapshot page rnd b) (fun o s' t' =>
    match o with
    | Ok _ => page_current b rnd s' t' page /\ t `suffix_of` t' /\
        n_pages (snapshot_of s') = n_pages (snapshot_of s) /\
        (forall p, p <> page -> voter (snapshot_of s') !! p = voter (snapshot_of s) !! p)
    | Err _ => s' = s
    | _ => False
    end) s t.
Proof.
  intros Hp. unfold check_and_update_voter_snapshot, paged_voter_snapshot_hash,
    paged_voter_snapshot, decode_fetched, page_current.
  assert (Itrue s t) by done.
  apply wp_bind. wp_quiet; [|done]. destruct a as [[h|e]|]; wp_pure; try done.
  apply wp_bind, wp_get_snapshot. cbn [bind_post].
  destruct (needs_voter_page (snapshot_of s) page h) eqn:Hneed.
  2:{ unfold needs_voter_page in Hneed. destruct (voter _ !! page) as [[v h']|] eqn:Hv; [|done].
      apply negb_false_iff, Z.eqb_eq in Hneed as ->.
      apply wp_ret. split_and!; [|by eexists [_]|done|done].
      exists v, h. split; [done|by left]. }
  apply wp_bind. wp_quiet; [|done]. destruct a as [[v|e]|]; wp_pure; try done.
  apply wp_bind, wp_get_snapshot. cbn [bind_post].
  unfold set_voter_page. destruct (Z.ltb_spec page (n_pages (snapshot_of s))); [|lia].
  apply wp_put_snapshot; [done|]. rewrite snapshot_of_with. cbn. split_and!.
  - exists v, h. split; [by rewrite lookup_insert_eq|]. right. by left.
  - by eexists [_; _].
  - done.
  - intros p Hne. by rewrite lookup_insert_ne.
Qed.

Lemma wp_check_target page rnd b s t :
  wp Itrue (check_and_update_target_snapshot page rnd b) (fun o s' t' =>
    match o with
    | Ok _ => target_current b rnd page s' t' /\ t `suffix_of` t' /\
        n_pages (snapshot_of s') = n_pages (snapshot_of s) /\
        voter (snapshot_of s') = voter (snapshot_of s)
    | Err _ => s' = s
    | _ => False
    end) s t.
Proof.
  unfold check_and_update_target_snapshot, target_snapshot_hash,
    target_snapshot, decode_fetched, target_current.
  assert (Itrue s t) by done.
  apply wp_bind. wp_quiet; [|done]. destruct a as [[h|e]|]; wp_pure; try done.
  apply wp_bind, wp_get_snapshot. cbn [bind_post].
  destruct (needs_target_snapshot (snapshot_of s) h) eqn:Hneed.
  2:{ unfold needs_target_snapshot in Hneed. destruct (target _) as [[v h']|] eqn:Hv; [|done].
      apply negb_false_iff, Z.eqb_eq in Hneed as ->.
      apply wp_ret. split_and!; [|by eexists [_]|done|done].
      exists v, h. split; [done|by left]. }
  apply wp_bind. wp_quiet; [|done]. destruct a as [[v|e]|]; wp_pure; try done.
  apply wp_bind, wp_get_snapshot. cbn [bind_post].
  apply wp_put_snapshot; [done|]. rewrite snapshot_of_with. cbn. split_and!.
  - exists v, h. split; [done|]. right. by left.
  - by eexists [_; _].
  - done.
  - done.
Qed.

Lemma page_current_mono b rnd s s' t t' p :
  page_current b rnd s t p -> t `suffix_of` t' ->
  voter (snapshot_of s') !! p = voter (snapshot_of s) !! p -> page_current b rnd s' t' p.
Proof.
  intros (v & h & Hv & He) [new ->] Heq. exists v, h. rewrite Heq. split; [done|].
  apply elem_of_app. by right.
Qed.

(** The pages done so far, in a loop over the pages. *)
Definition pages_done (b : AtBlock) (rnd n : Z) (ps : list Z) (s : S) (t : trace) : Prop :=
  n_pages (snapshot_of s) = n /\ Forall (page_current b rnd s t) ps.

Lemma wp_fetch_missing b rnd s t :
  wp Itrue (fetch_missing_snapshots b rnd) (fun o s' t' =>
    match o with
    | Ok _ => n_pages (snapshot_of s') = n_pages (snapshot_of s) /\
        (forall p, 0 <= p < n_pages (snapshot_of s') -> page_current b rnd s' t' p) /\
        target_current b rnd (u32_sub (n_pages (snapshot_of s)) 1) s' t'
    | Err _ => True
    | _ => False
    end) s t.
Proof.
  unfold fetch_missing_snapshots. apply wp_bind, wp_get_snapshot. cbn [bind_post].
  set (n := n_pages (snapshot_of s)). apply wp_bind.
  apply (wp_for_each _ _ _ (pages_done b rnd n)); [|cbn [bind_post]|by split].
  - intros dn x rest s1 t1 Hseq [Hn Hdone].
    assert (x ∈ seqZ 0 n) as [_ Hx]%elem_of_seqZ by (rewrite Hseq; set_solver).
    eapply wp_mono; [done| |apply wp_check_voter; lia].
    intros [u|e|msg|] s2 t2; try done. intros (Hcur & Hsuf & Hn2 & Hoth). split; [congruence|].
    apply Forall_app. split; [|by repeat constructor].
    apply Forall_forall. intros p Hp.
    destruct (decide (p = x)) as [->|]; [done|].
    eapply page_current_mono; [|done|by apply Hoth]. by eapply Forall_forall in Hdone.
  - intros s1 t1 [Hn Hdone]. eapply wp_mono; [done| |apply wp_check_target].
    intros [u|e|msg|] s2 t2; try done. intros (Hcur & Hsuf & Hn2 & Hoth).
    split_and!; [congruence| |done].
    intros p Hp. eapply page_current_mono; [|done|by rewrite Hoth].
    eapply Forall_forall; [exact Hdone|]. apply elem_of_seqZ. lia.
Qed.

End spec.

(** C30: whatever the node answers and wherever a timeout cuts it off, fetching
    missing snapshots leaves in the cache only pages of the snapshot, each read
    from the chain right after the hash it is stored under, in the same block
    and round. *)
Theorem fetch_provenance `{T : MinerConfig} (h : handler) secs (lossy : bool) (s : Snapshot) storage rnd :
  snapshot_wf s -> voter s = ∅ -> target s = None ->
  let '(_, s', t') := run h (timeout secs
      (if lossy then fetch_missing_snapshots_lossy storage rnd
       else fetch_missing_snapshots storage rnd)) s [] in
  cache_provenance (n_pages s) s' t'.
Proof.
  intros Hwf Hv Ht.
  assert (cache_provenance (n_pages s) s []) as H0.
  { split_and!; [done..| |]; cbn; [rewrite Hv|rewrite Ht; done].
    intros p v k. by rewrite lookup_empty. }
  set (m := if lossy then _ else _).
  assert (keeps (cache_provenance (n_pages s)) m anything) as Hm.
  { unfold m. destruct lossy.
    - by apply keeps_fetch_missing_snapshots_lossy, _.
    - by apply keeps_fetch_missing_snapshots, _. }
  pose proof (keeps_run _ _ _ h s [] (keeps_timeout _ secs _ _ Hm) H0) as H.
  destruct (run h _ s []) as [[o s'] t']. apply H.
Qed.

(** The timer fires after three reads. *)
Lemma fetch_provenance_witness :
  let '(_, s', t') := run (node_handler (with_fires (fun _ t => (3 <? length t)%nat) good_node))
    (timeout 5 (fetch_missing_snapshots block0 1)) (snapshot_new 4) [] in
  cache_provenance 4 s' t'.
Proof.
  apply (fetch_provenance _ 5 false (snapshot_new 4) block0 1); [apply snapshot_new_wf|done|done].
Defined.

(** C29: when [fetch_missing_snapshots] returns [Ok], the target and every voter
    page are cached under the hash the chain reported during this call, so the
    [get] that follows cannot panic; it never panics itself. *)
Theorem fetch_missing_snapshots_complete `{T : MinerConfig} {S : Type} `{!HasSnapshot S}
    (h : handler) (s : S) (t : trace) storage rnd :
  match run h (fetch_missing_snapshots storage rnd) s t with
  | (Ok _, s', t') =>
      snapshot_complete (snapshot_of s') /\ is_Some (snapshot_get (snapshot_of s')) /\
      (forall p, 0 <= p < n_pages (snapshot_of s) -> page_current storage rnd s' t' p) /\
      target_current storage rnd (u32_sub (n_pages (snapshot_of s)) 1) s' t'
  | (Err _, _, _) => True
  | _ => False
  end.
Proof.
  pose proof (wp_run _ _ _ _ _ h (wp_fetch_missing storage rnd s t)) as H.
  destruct (run h _ s t) as [[[u|e|msg|] s'] t']; try done.
  destruct H as (Hn & Hall & Ht). split_and!; [| |by rewrite <- Hn|done].
  - intros p Hp. destruct (Hall p Hp) as (v & k & Hv & _). by exists (v, k).
  - destruct Ht as (v & k & Hv & _). unfold snapshot_get. rewrite Hv. by eexists.
Qed.
