(* ===== verification/Miner.v ===== *)
(** * The miner task

    [process_block] and [miner_task] of [src/commands/multi_block/monitor.rs]:
    what the miner does for one block, and the loop that owns the snapshot, the
    solution mined for the round and the last round it was outcompeted in. *)

From S2P Require Import Prelude RustStr Errors Strategy Chain Metrics Types Effects Traces ChainAccess Submission SnapshotFetch.
Local Open Scope Z_scope.

(** [BALANCE_FETCH_TIMEOUT_SECS] and the other constants of [process_block]
    and [mine_and_validate]. *)
Definition BALANCE_FETCH_TIMEOUT_SECS : Z := 60.
Definition CHECK_EXISTING_SUBMISSION_TIMEOUT_SECS : Z := 300.
Definition PHASE_CHECK_TIMEOUT_SECS : Z := 60.
Definition BAIL_TIMEOUT_SECS : Z := 120.
Definition MISSING_PAGES_TIMEOUT_SECS : Z := 1800.
Definition SCORE_CHECK_TIMEOUT_SECS : Z := 60.
Definition SUBMIT_TIMEOUT_SECS : Z := 1800.
Definition MINING_TIMEOUT_SECS : Z := 600.

Section miner.
Context `{T : MinerConfig} `{SO : ScoreOrder}.

(** [ProcessConfig] *)
Record ProcessConfig : Type := {
  submission_strategy : SubmissionStrategy;
  do_reduce : bool;
  chunk_size : nat;
  min_signed_phase_blocks : Z;
  shady : bool;
}.

(** What [miner_task] owns. *)
Record MinerState : Type := {
  ms_snapshot : Snapshot;
  cached_solution : option PagedRawSolution;
  last_outcompeted_round : option Z;
}.

#[export] Instance MinerState_HasSnapshot : HasSnapshot MinerState.
Proof.
  by refine {| snapshot_of := ms_snapshot;
    with_snapshot := fun x s => {| ms_snapshot := x; cached_solution := cached_solution s;
      last_outcompeted_round := last_outcompeted_round s |} |}.
Defined.

Definition set_cached_solution (c : option PagedRawSolution) : M MinerState unit :=
  s ← get_state;
  put_state {| ms_snapshot := ms_snapshot s; cached_solution := c;
               last_outcompeted_round := last_outcompeted_round s |}.

Definition set_last_outcompeted_round (r : option Z) : M MinerState unit :=
  s ← get_state;
  put_state {| ms_snapshot := ms_snapshot s; cached_solution := cached_solution s;
               last_outcompeted_round := r |}.

(** The idiom of [process_block]: run [body] under a timeout, count a firing
    timer in [on_timeout] and return [e]. *)
Definition with_timeout {S A} (secs : Z) (body : M S A) (on_timeout : Metric) (e : Error.t) : M S A :=
  r ← timeout secs body;
  match r with
  | Some (ok a) => mret a
  | Some (err e) => throw e
  | None => metric on_timeout;; throw e
  end.

(** ** Reading the competition *)

(** [fetch_minimum_score] *)
Definition fetch_minimum_score {S} (at_block : AtBlock) : M S (option ElectionScore) :=
  query (TryFetchMinimumScore at_block).

(** [score_better] *)
Definition score_better {S} (at_block : AtBlock) (score : ElectionScore) (round : Z)
    (submission_strategy : SubmissionStrategy) : M S bool :=
  scores ← query (FetchSortedScores at_block round);
  if existsb (fun x => negb (score_passes_strategy score x.2 submission_strategy)) scores
  then mret false
  else mret true.

(** The pages whose flag is set. *)
Definition submitted_flags (pages : list bool) : gset Z :=
  list_to_set (omap (fun x => if x.2 : bool then Some x.1 else None)
    (zip (seqZ 0 (Z.of_nat (length pages))) pages)).

(** [get_submission] *)
Definition get_submission {S} (at_block : AtBlock) (round : Z) (who : AccountId) (n_pages : Z)
    : M S CurrentSubmission :=
  maybe_submission ← query (TryFetchSubmission at_block round who);
  match maybe_submission with
  | None => mret NotStarted
  | Some submission =>
      let pages := submitted_flags (sm_pages submission) in
      if Z.of_nat (size pages) =? n_pages
      then mret (Done (claimed_score submission))
      else mret (Incomplete {| is_score := claimed_score submission; is_pages := pages;
                               is_n_pages := n_pages |})
  end.

(** [has_submitted] *)
Definition has_submitted {S} (at_block : AtBlock) (round : Z) (who : AccountId) (n_pages : Z)
    : M S bool :=
  c ← get_submission at_block round who n_pages;
  match c with
  | Done _ => mret true
  | _ => mret false
  end.

(** ** Mining *)

(** [mine_and_validate] *)
Definition mine_and_validate (at_block : AtBlock)
    (round n_pages desired_targets block_number : Z) (do_reduce : bool)
    : M MinerState PagedRawSolution :=
  fetch_missing_snapshots at_block round;;
  snapshot ← get_snapshot;
  match snapshot_get snapshot with
  | None => panic "Target snapshot not fetched"
  | Some (target_snapshot, voter_snapshot) =>
      r ← timeout MINING_TIMEOUT_SECS
            (mine_solution target_snapshot voter_snapshot n_pages round desired_targets
               block_number do_reduce);
      match r with
      | Some (ok paged_raw_solution) =>
          metric observe_mined_solution_duration;;
          if negb (round =? prs_round paged_raw_solution)
          then throw (Error.WrongRound (prs_round paged_raw_solution) round)
          else
            let solution_page_count :=
              Z.of_nat (length (solution_pages paged_raw_solution)) mod 2 ^ 32 in
            max_pages ← ask PagesGet;
            if max_pages <? solution_page_count
            then throw (Error.WrongPageCount solution_page_count max_pages)
            else
              winners ← ask (WinnerCount paged_raw_solution);
              let solution_winner_count := winners mod 2 ^ 32 in
              if negb (desired_targets =? solution_winner_count)
              then throw (Error.SolutionValidation desired_targets solution_winner_count)
              else mret paged_raw_solution
      | Some (err e) => throw e
      | None =>
          metric on_mining_timeout;;
          throw (Error.Timeout (TimeoutError.Mining MINING_TIMEOUT_SECS))
      end
  end.

(** ** Shady mode *)

Definition malicious_score : ElectionScore :=
  {| minimal_stake := u128_max; sum_stake := u128_max; sum_stake_squared := u128_max |}.

(** The registration loop of [execute_shady_behavior]. *)
Fixpoint shady_register_loop {S} (tries : nat) (blocks_remaining : Z) : M S TxProgress :=
  match tries with
  | 0%nat => panic "unreachable"
  | Datatypes.S tries =>
      nonce ← account_nonce;
      t ← register_score malicious_score;
      r ← catch (submit_inner t nonce blocks_remaining);
      match r with
      | ok tx => mret tx
      | err (Error.Subxt ((TransactionProgressError | TransactionStatusError) as e)) =>
          if decide (tries = 0%nat) then throw (Error.Subxt e)
          else ask (Sleep 6000);; shady_register_loop tries blocks_remaining
      | err e => throw e
      end
  end.

(** [execute_shady_behavior] *)
Definition execute_shady_behavior {S} (phase : Phase) : M S unit :=
  match phase with
  | Signed blocks_remaining =>
      tx_status ← shady_register_loop 10 blocks_remaining;
      tx ← wait_tx_in_finalized_block tx_status;
      events ← query (WaitForSuccess tx);
      if negb (has_registered events)
      then throw (Error.MissingTxEvent "Register malicious score")
      else metric (set_score malicious_score)
  | _ => throw (Error.Other "Not in SignedPhase for shady behavior")
  end.

(** [should_bypass_competitive_check] *)
Definition should_bypass_competitive_check (shady : bool) : bool := shady.

(** ** [process_block] *)

Section process.
Context (signer : AccountId) (config : ProcessConfig).

(** The balance of the account; [None] when the fetch timed out. *)
Definition fetch_balance (at_block : AtBlock) : M MinerState (option AccountInfo) :=
  r ← timeout BALANCE_FETCH_TIMEOUT_SECS
        (result ← query (TryFetchAccount at_block signer);
         metric observe_balance_fetch_duration;;
         mret result);
  match r with
  | Some (ok (Some info)) => mret (Some info)
  | Some (ok None) => throw Error.AccountDoesNotExists
  | Some (err e) => throw e
  | None => metric on_balance_fetch_timeout;; mret None
  end.

(** Whether all pages were submitted for the round already. *)
Definition check_already_submitted (round n_pages : Z) : M MinerState bool :=
  with_timeout CHECK_EXISTING_SUBMISSION_TIMEOUT_SECS
    (at_block_head ← storage_at_head;
     result ← has_submitted at_block_head round signer n_pages;
     metric observe_check_existing_submission_duration;;
     mret result)
    on_check_existing_submission_timeout
    (Error.Timeout (TimeoutError.CheckExistingSubmission CHECK_EXISTING_SUBMISSION_TIMEOUT_SECS)).

(** The solution of the round: the cached one, or a fresh one that is cached. *)
Definition solution_of_round (state : BlockDetails) : M MinerState PagedRawSolution :=
  s ← get_state;
  (if decide (prs_round <$> cached_solution s = Some (round state)) then mret tt
   else
     solution ← mine_and_validate (at_block state) (round state) (bd_n_pages state)
                  (desired_targets state) (block_number state) (do_reduce config);
     set_cached_solution (Some solution));;
  s ← get_state;
  match cached_solution s with
  | Some paged_raw_solution => mret paged_raw_solution
  | None => panic "cache populated for the current round above; qed"
  end.

(** The submission at the finalized head, with the block it was read at. *)
Definition fetch_existing_submission (round n_pages : Z)
    : M MinerState (AtBlock * CurrentSubmission) :=
  with_timeout CHECK_EXISTING_SUBMISSION_TIMEOUT_SECS
    (storage_head ← storage_at_head;
     existing_submission ← get_submission storage_head round signer n_pages;
     metric observe_check_existing_submission_duration;;
     mret (storage_head, existing_submission))
    on_check_existing_submission_timeout
    (Error.Timeout (TimeoutError.CheckExistingSubmission CHECK_EXISTING_SUBMISSION_TIMEOUT_SECS)).

(** Bail out of the existing submission while the signed phase lasts; [false]
    when it is over. *)
Definition revert_submission : M MinerState bool :=
  still_signed ← with_timeout PHASE_CHECK_TIMEOUT_SECS
    (result ← signed_phase;
     metric observe_phase_check_duration;;
     mret result)
    on_phase_check_timeout
    (Error.Timeout (TimeoutError.PhaseCheck PHASE_CHECK_TIMEOUT_SECS));
  if negb still_signed then mret false
  else
    with_timeout BAIL_TIMEOUT_SECS
      (bail;;
       metric observe_bail_duration)
      on_bail_timeout
      (Error.Timeout (TimeoutError.Bail BAIL_TIMEOUT_SECS));;
    mret true.

(** The missing pages with their solutions; [None] is an index out of bounds. *)
Definition collect_missing (sub : IncompleteSubmission) (pages : list Solution)
    : option (list (Z * Solution)) :=
  mapM (fun page => (fun sol => (page, sol)) <$> pages !! Z.to_nat page) (get_missing_pages sub).

(** Complete a submission with the same score. *)
Definition submit_missing_pages (sub : IncompleteSubmission) (sol : PagedRawSolution) (round : Z)
    : M MinerState unit :=
  match collect_missing sub (solution_pages sol) with
  | None => panic "index out of bounds"
  | Some missing_pages =>
      with_timeout MISSING_PAGES_TIMEOUT_SECS
        (submit_pages signer missing_pages (chunk_size config) round (min_signed_phase_blocks config);;
         metric observe_missing_pages_duration)
        on_missing_pages_timeout
        (Error.Timeout (TimeoutError.MissingPages MISSING_PAGES_TIMEOUT_SECS));;
      metric on_submission_success
  end.

(** What to do with the existing submission: [true] to go on with submitting
    the new solution, [false] when the block is done. *)
Definition handle_existing (existing : CurrentSubmission) (sol : PagedRawSolution) (round : Z)
    : M MinerState bool :=
  match existing with
  | Done sc =>
      if negb (score_passes_strategy (score sol) sc (submission_strategy config))
      then mret false
      else revert_submission
  | Incomplete s =>
      if decide (is_score s = score sol) then submit_missing_pages s sol round;; mret false
      else revert_submission
  | NotStarted => mret true
  end.

(** Whether the score is competitive; a skipped round is counted once. *)
Definition check_competitive (storage_head : AtBlock) (sol : PagedRawSolution) (round : Z)
    : M MinerState bool :=
  if negb (should_bypass_competitive_check (shady config)) then
    is_competitive ← with_timeout SCORE_CHECK_TIMEOUT_SECS
      (result ← score_better storage_head (score sol) round (submission_strategy config);
       metric observe_score_check_duration;;
       mret result)
      on_score_check_timeout
      (Error.Timeout (TimeoutError.ScoreCheck SCORE_CHECK_TIMEOUT_SECS));
    if negb is_competitive then
      s ← get_state;
      (if decide (last_outcompeted_round s = Some round) then mret tt
       else
         set_last_outcompeted_round (Some round);;
         metric on_submission_skipped_not_competitive);;
      mret false
    else mret true
  else mret true.

(** The submission itself. *)
Definition submit_solution (sol : PagedRawSolution) (round : Z) : M MinerState unit :=
  metric (set_score (score sol));;
  with_timeout SUBMIT_TIMEOUT_SECS
    (submit signer sol (chunk_size config) round (min_signed_phase_blocks config))
    on_submit_timeout
    (Error.Timeout (TimeoutError.Submit SUBMIT_TIMEOUT_SECS));;
  metric observe_submit_and_watch_duration.

(** From the minimum score on: everything that can submit. *)
Definition submit_if_better (state : BlockDetails) (sol : PagedRawSolution) : M MinerState unit :=
  minimum ← fetch_minimum_score (at_block state);
  if negb (meets_minimum_score (score sol) minimum) then
    match minimum with
    | Some minimum => throw (Error.ScoreBelowMinimum (score sol) minimum)
    | None => panic "score fails the check only when a floor is set; qed"
    end
  else
    '(storage_head, existing) ← fetch_existing_submission (round state) (bd_n_pages state);
    go_on ← handle_existing existing sol (round state);
    if negb go_on then mret tt
    else
      competitive ← check_competitive storage_head sol (round state);
      if negb competitive then mret tt
      else submit_solution sol (round state).

(** The signed phase. *)
Definition process_signed (state : BlockDetails) : M MinerState unit :=
  already_submitted ← check_already_submitted (round state) (bd_n_pages state);
  if already_submitted : bool then mret tt
  else
    sol ← solution_of_round state;
    if shady config then execute_shady_behavior (phase state)
    else submit_if_better state sol.

(** [process_block] *)
Definition process_block (state : BlockDetails) : M MinerState unit :=
  account_info ← fetch_balance (at_block state);
  match account_info with
  | None => mret tt
  | Some info =>
      metric (set_balance (ai_free info));;
      match phase state with
      | Snapshot_ _ => fetch_missing_snapshots_lossy (at_block state) (round state)
      | Signed blocks_remaining =>
          if blocks_remaining <=? min_signed_phase_blocks config then mret tt
          else process_signed state
      | _ => mret tt
      end
  end.

(** ** [miner_task] *)

(** One message of the channel. *)
Definition miner_step (message : MinerMessage) : M MinerState unit :=
  match message with
  | ProcessBlock state =>
      r ← catch (process_block state);
      match r with
      | ok _ => mret tt
      | err e => if is_critical_miner_error e then throw e else mret tt
      end
  | ClearSnapshots =>
      s ← get_snapshot;
      put_snapshot (snapshot_clear s);;
      set_cached_solution None
  end.

(** The receive loop over the messages that arrive before the channel closes. *)
Definition miner_loop (messages : list MinerMessage) : M MinerState unit :=
  for_each messages miner_step;;
  throw (Error.TaskFailure TaskFailureError.Miner).

End process.

(** The state [miner_task] starts with. *)
Definition miner_init (pages : Z) : MinerState :=
  {| ms_snapshot := snapshot_new pages; cached_solution := None; last_outcompeted_round := None |}.

(** What it does before it receives a message. *)
Definition miner_start : M MinerState unit :=
  pages ← ask PagesGet;
  put_state (miner_init pages).

End miner.
