(* ===== verification/SubmissionSends.v ===== *)
(** * Invariants of the submission code

    The transactions [submit] and its parts send, for an arbitrary invariant:
    a client that shows that its invariant allows the registration of the
    score, the pages of the solution and, where a submission has been read, a
    bail, knows that the whole submission keeps it. *)

From S2P Require Import Prelude Errors Chain Metrics Types Effects Traces ChainAccess Scenario Submission SubmissionSpec.
Local Open Scope Z_scope.

(** What a client promises about its invariant [I]: the calls in [allowed] may
    be sent, metrics may be recorded (all but the one a submission never uses), and a bail may be sent once [B] holds,
    which reading a submission of the account establishes. *)
Class SendInvariant `{T : MinerConfig} {S} (I : S -> trace -> Prop) (allowed : Call -> Prop)
    (B : trace -> Prop) (rnd : Z) (signer : AccountId) : Prop := {
  send_quiet :: Quiet I;
  send_metric m r s t : m <> on_submission_skipped_not_competitive ->
    I s t -> I s (Event (MetricOp m) r :: t);
  send_allowed c nonce mortality r s t :
    I s t -> allowed c -> I s (Event (SubmitAndWatch c nonce mortality) r :: t);
  send_bail nonce mortality r s t :
    I s t -> B t -> I s (Event (SubmitAndWatch bail_call nonce mortality) r :: t);
  bail_cons e t : B t -> B (e :: t);
  bail_read b md s t : I s t -> B (Event (TryFetchSubmission b rnd signer) (ok (Some md)) :: t);
}.

Section sends.
Context `{T : MinerConfig} {S : Type} (I : S -> trace -> Prop) (allowed : Call -> Prop)
  (B : trace -> Prop) (rnd : Z) (signer : AccountId) `{!SendInvariant I allowed B rnd signer}.

Lemma metric_allowed m :
  m <> on_submission_skipped_not_competitive -> keeps I (metric m) anything.
Proof. intros Hm. apply keeps_ask; [|done]. intros s t r HI. by apply send_metric. Qed.

Lemma sign_and_submit_allowed c nonce mortality :
  allowed c -> keeps I (sign_and_submit c nonce mortality) anything.
Proof.
  intros Hc. unfold sign_and_submit.
  eapply (keeps_bind _ _ _ anything); [keeps_quiet|intros _].
  apply keeps_query; [|done]. intros s t r HI. by apply send_allowed.
Qed.

Lemma submit_inner_allowed t0 nonce n :
  allowed (tx t0) -> keeps I (submit_inner t0 nonce n) anything.
Proof.
  intros Hc. unfold submit_inner.
  eapply (keeps_bind _ _ _ anything); [keeps_quiet|intros _]. by apply sign_and_submit_allowed.
Qed.

Lemma wp_bail_allowed s t :
  I s t -> B t -> wp I bail (fun o s' t' => I s' t') s t.
Proof.
  intros HI HB. unfold bail, sign_and_submit, wait_tx_in_finalized_block.
  wp_quiet; [|done]. wp_quiet; [|done]. wp_quiet; [|done].
  intros r. assert (I s (Event (SubmitAndWatch bail_call a0 None) r ::
    Event (CreateSigned bail_call a0 None) (ok a1) :: Event AccountNonce (ok a0) ::
    Event AtCurrentBlock (ok a) :: t)) as HI'.
  { apply send_bail; [done|]. by do 3 apply bail_cons. }
  split; [done|]. destruct r; [|done]. apply wp_ret. cbn [bind_post]. by wp_quiet.
Qed.

Lemma validate_allowed p min_blocks :
  keeps I (validate_signed_phase_or_bail p signer rnd min_blocks) anything.
Proof.
  unfold validate_signed_phase_or_bail. destruct p as [|n|pg|txt]; try apply keeps_throw.
  destruct (n <=? min_blocks); [|keeps_quiet].
  eapply (keeps_bind _ _ _ anything); [by apply keeps_storage_at_head, _|intros b].
  intros s t HI. wp_quiet; [|done].
  destruct a as [md|]; [destruct (forallb id (sm_pages md))|]; cbn [negb];
    apply wp_bind; wp_pure; try done.
  eapply wp_mono; [done| |apply wp_bail_allowed; [done|by eapply bail_read]].
  by intros [[]|e|msg|] s' t' HI'; cbn [bind_post].
Qed.

Lemma then_validate_allowed {A} min_blocks (m : M S A) R :
  keeps I m R ->
  keeps I (current_phase ← current_phase_at_head;
           validate_signed_phase_or_bail current_phase signer rnd min_blocks;; m) R.
Proof.
  intros Hm. eapply (keeps_bind _ _ _ anything);
    [eapply keeps_weaken; [by apply keeps_current_phase, _|done]|intros p].
  by eapply (keeps_bind _ _ _ anything); [apply validate_allowed|].
Qed.

(** ** Pages *)
Definition pages_allowed (pages : list (Z * Solution)) : Prop :=
  forall p x, (p, x) ∈ pages -> allowed (submit_page_call p (Some x)).

Lemma batch_loop_allowed pages : pages_allowed pages -> forall nonce,
  keeps I (submit_batch_loop pages nonce) anything.
Proof.
  intros Hp. induction pages as [|[page x] rest IH]; intros nonce; cbn [submit_batch_loop]; [keeps_quiet|].
  eapply (keeps_bind _ _ _ anything); [eapply keeps_weaken; [by apply keeps_current_phase, _|done]|intros p].
  unfold get_signed_phase_blocks_remaining.
  eapply (keeps_bind _ _ _ anything); [keeps_quiet|intros n].
  eapply keeps_bind_post; [by apply keeps_submit_page, _|intros tr s t HI Htr].
  apply keeps_elim; [|done].
  eapply (keeps_bind _ _ _ anything); [apply submit_inner_allowed|intros st].
  { rewrite Htr. apply Hp. by left. }
  eapply (keeps_bind _ _ _ anything); [apply IH|intros; keeps_quiet].
  intros q y Hy. apply Hp. by right.
Qed.

Lemma process_txs_allowed n : forall txs failed submitted,
  keeps I (process_txs n txs failed submitted) anything.
Proof.
  induction n as [|n IH]; intros txs failed submitted; cbn [process_txs]; [keeps_quiet|].
  unfold wait_tx_in_finalized_block. repeat (apply IH || keeps_step quiet).
Qed.

Lemma batch_allowed pages min_blocks :
  pages_allowed pages -> keeps I (submit_pages_batch signer pages rnd min_blocks) anything.
Proof.
  intros Hp. apply then_validate_allowed. unfold hash_set_iter.
  eapply (keeps_bind _ _ _ anything); [by apply keeps_account_nonce, _|intros nonce].
  eapply (keeps_bind _ _ _ anything); [by apply batch_loop_allowed|intros txs].
  eapply (keeps_bind _ _ _ anything); [apply process_txs_allowed|intros [failed submitted]].
  keeps_quiet.
Qed.

Lemma submit_chunks_allowed total min_blocks : forall todo submitted,
  (forall chunk, chunk ∈ todo -> pages_allowed chunk) ->
  keeps I (submit_chunks signer todo total rnd min_blocks submitted) anything.
Proof.
  induction todo as [|chunk todo IH]; intros submitted Hp; cbn [submit_chunks]; [keeps_quiet|].
  apply then_validate_allowed.
  eapply (keeps_bind _ _ _ anything); [apply batch_allowed, Hp; by left|intros result].
  destruct (negb _); [keeps_quiet|]. case_decide; [keeps_quiet|].
  apply IH. intros c Hc. apply Hp. by right.
Qed.

(** The pages of a chunk are pages of the whole. *)
Lemma chunks_allowed n pages chunk :
  (0 < n)%nat -> pages_allowed pages -> chunk ∈ chunks n pages -> pages_allowed chunk.
Proof.
  intros Hn Hp Hc p x Hx. apply Hp. rewrite <- (chunks_concat n pages) by done.
  apply list_elem_of_In, in_concat. exists chunk. by split; apply list_elem_of_In.
Qed.

Lemma submit_pages_allowed pages n min_blocks :
  pages_allowed pages -> keeps I (submit_pages signer pages n rnd min_blocks) anything.
Proof.
  intros Hp. unfold submit_pages, inner_submit_pages_concurrent, inner_submit_pages_chunked.
  case_decide; [|apply submit_chunks_allowed; intros c Hc; by eapply (chunks_allowed n); [lia|..]].
  eapply (keeps_bind _ _ _ anything); [by apply batch_allowed|intros result]. keeps_quiet.
Qed.

(** ** The whole submission *)

Context (sol : PagedRawSolution).
Context (allowed_register : allowed (register (score sol))).
Context (allowed_pages : forall p x, solution_pages sol !! Z.to_nat p = Some x ->
  allowed (submit_page_call p (Some x))).

Lemma register_loop_allowed tries n :
  keeps I (register_loop tries (score sol) n) anything.
Proof.
  induction tries as [|tries IH]; cbn [register_loop]; [keeps_quiet|].
  eapply (keeps_bind _ _ _ anything); [by apply keeps_account_nonce, _|intros nonce].
  unfold register_score, to_scale_value.
  eapply (keeps_bind_post _ _ _ (fun tr _ _ => tx tr = register (score sol))).
  { eapply (keeps_bind _ _ _ anything); [keeps_quiet|intros _]. by apply keeps_ret. }
  intros tr s t HI Htr. apply keeps_elim; [|done].
  eapply (keeps_bind _ _ _ anything); [|intros r; repeat (apply IH || keeps_step quiet)].
  eapply keeps_weaken; [apply keeps_catch, submit_inner_allowed; by rewrite Htr|done].
Qed.

Lemma register_phase_allowed min_blocks :
  keeps I (register_phase signer (score sol) rnd min_blocks) anything.
Proof.
  apply (keeps_bind _ _ _ anything); [eapply keeps_weaken; [by apply keeps_current_phase, _|done]|intros p].
  eapply (keeps_bind _ _ _ anything); [apply validate_allowed|intros _].
  unfold get_signed_phase_blocks_remaining, wait_tx_in_finalized_block.
  eapply (keeps_bind _ _ _ anything); [keeps_quiet|intros n].
  eapply (keeps_bind _ _ _ anything); [apply register_loop_allowed|intros st].
  do 2 (eapply (keeps_bind _ _ _ anything); [keeps_quiet|intros]).
  destruct (negb _); [keeps_quiet|by apply metric_allowed].
Qed.

Lemma enumerate_allowed : pages_allowed (enumerate_pages (solution_pages sol)).
Proof.
  intros p x [i Hi]%list_elem_of_lookup. unfold enumerate_pages in Hi.
  apply lookup_zip_Some in Hi as [Hp Hx]. apply allowed_pages.
  apply lookup_seqZ in Hp as [-> _]. by rewrite Z.add_0_l, Nat2Z.id.
Qed.

Lemma retry_allowed failed n min_blocks :
  NoDup failed -> failed ⊆ seqZ 0 (Z.of_nat (length (solution_pages sol))) ->
  keeps I (retry_pages signer (solution_pages sol) failed n rnd min_blocks) anything.
Proof.
  intros Hnd Hin. apply then_validate_allowed.
  destruct (take_pages_content (solution_pages sol) failed Hnd Hin) as (l & -> & _ & Horig).
  eapply (keeps_bind _ _ _ anything); [apply submit_pages_allowed|intros [|q qs]].
  - intros p x Hx. by apply allowed_pages, Horig.
  - by apply metric_allowed.
  - apply then_validate_allowed. keeps_quiet.
Qed.

(** The submission keeps the invariant of the client. *)
Lemma submit_allowed n min_blocks :
  keeps I (submit signer sol n rnd min_blocks) anything.
Proof.
  eapply (keeps_bind _ _ _ anything); [apply register_phase_allowed|intros _].
  eapply (keeps_bind_post _ _ _ (fun failed _ _ => NoDup failed /\
    failed ⊆ seqZ 0 (Z.of_nat (length (solution_pages sol))))).
  - apply then_validate_allowed. intros s t HI.
    eapply wp_mono; [| |apply wp_and; [apply submit_pages_allowed, HI; apply enumerate_allowed|
      apply post_submit_pages]]; [by intros ?? []|].
    intros [failed|e|msg|] s' t' [[HI' _] Hpost]; try done.
    destruct Hpost as (Hnd & Hin & _). by rewrite enumerate_pages_fst in Hin.
  - intros [|q qs] s t HI [Hnd Hin]; apply keeps_elim; [by apply metric_allowed|done| |done].
    by apply retry_allowed.
Qed.

End sends.
