(* ===== verification/MinerSafety.v ===== *)
(** * What the miner submits

    Every transaction [process_block] sends carries a solution that was mined and
    validated for the round, whose score clears the minimum score and beats the
    competition as the strategy demands, or completes a submission of ours with
    that score; a bail follows a submission that was read.  In shady mode the only
    transaction is the registration of the malicious score. *)

From S2P Require Import Prelude RustStr Errors Strategy Chain Metrics Types Effects Traces ChainAccess Scenario Submission SubmissionSpec SnapshotFetch SnapshotSpec SubmissionSends Miner.
Local Open Scope Z_scope.

Section validated.
Context `{T : MinerConfig}.

(** A solution was mined for round [rnd], passed the feasibility check and the
    checks of [mine_and_validate]. *)
Definition validated (t : trace) (rnd : Z) (sol : PagedRawSolution) : Prop :=
  prs_round sol = rnd /\
  exists input max_pages winners,
    Event (MineSolution input) (ok (ok sol)) ∈ t /\
    Event (CheckFeasibility sol input) (ok tt) ∈ t /\
    Event PagesGet max_pages ∈ t /\
    Event (WinnerCount sol) winners ∈ t /\
    mi_round input = rnd /\
    mi_desired_targets input = winners mod 2 ^ 32 /\
    Z.of_nat (length (solution_pages sol)) mod 2 ^ 32 <= max_pages.

Lemma validated_cons e t rnd sol : validated t rnd sol -> validated (e :: t) rnd sol.
Proof.
  intros (Hr & input & mp & w & H1 & H2 & H3 & H4 & H5). split; [done|].
  exists input, mp, w. split_and!; try (by right); naive_solver.
Qed.

(** An event happened since the trace was [t0]. *)
Definition since (t0 t : trace) (e : event) : Prop :=
  exists new, t = new ++ t0 /\ e ∈ new.

Lemma since_cons t0 t e e' : since t0 t e -> since t0 (e' :: t) e.
Proof. intros (new & -> & He). exists (e' :: new). split; [done|by right]. Qed.

Lemma since_here t0 t e : t0 `suffix_of` t -> since t0 (e :: t) e.
Proof. intros [new ->]. exists (e :: new). split; [done|by left]. Qed.

End validated.

(** A timeout of [process_block] keeps an invariant that metrics keep. *)
Lemma keeps_with_timeout `{T : MinerConfig} {S A} (I : S -> trace -> Prop) secs (body : M S A) m e R :
  (forall m', neutral I (MetricOp m')) ->
  keeps I body R -> keeps I (with_timeout secs body m e) R.
Proof.
  intros HM Hb. unfold with_timeout.
  eapply keeps_bind_post; [by apply keeps_timeout|].
  intros [[a|e']|] s t HI HR; [by apply wp_ret|by apply wp_throw|].
  apply keeps_elim; [|done]. repeat (keeps_step ltac:(apply HM)).
Qed.

(** A monotone fact about the trace framed around a program. *)
Lemma keeps_frame `{T : MinerConfig} {S A} (I : S -> trace -> Prop) (F : trace -> Prop) (m : M S A) R :
  (forall e t, F t -> F (e :: t)) -> keeps I m R ->
  keeps (fun s t => I s t /\ F t) m R.
Proof.
  intros HF Hm s t [HI Ht]. eapply wp_mono; [| |exact (wp_frame I F m _ HF s t Ht (Hm s t HI))]; [done|].
  intros o s' t' [[HI' HR] HF']. done.
Qed.

Section safety.
Context `{T : MinerConfig} `{SO : ScoreOrder}.
Context (t0 : trace) (signer : AccountId) (config : ProcessConfig) (state : BlockDetails).

(** The score cleared the minimum score read for this block. *)
Definition above_minimum (t : trace) (sc : ElectionScore) : Prop :=
  exists minimum,
    since t0 t (Event (TryFetchMinimumScore (at_block state)) (ok minimum)) /\
    meets_minimum_score sc minimum = true.

(** The score passes the strategy against every score that was read. *)
Definition beats_competition (t : trace) (sc : ElectionScore) : Prop :=
  exists head scores,
    since t0 t (Event (FetchSortedScores head (round state)) (ok scores)) /\
    Forall (fun x => score_passes_strategy sc x.2 (submission_strategy config) = true) scores.

(** A submission of the account was read. *)
Definition submission_seen (t : trace) : Prop :=
  exists b md, since t0 t (Event (TryFetchSubmission b (round state) signer) (ok (Some md))).

(** A submission of the account that claims the score and lacks the page. *)
Definition lacks_page (t : trace) (sc : ElectionScore) (p : Z) : Prop :=
  exists b md, since t0 t (Event (TryFetchSubmission b (round state) signer) (ok (Some md))) /\
    claimed_score md = sc /\ p ∉ submitted_flags (sm_pages md).

(** What justifies a call: a score is registered for a validated solution above
    the minimum that beats the competition; so is a page sent, or else it
    completes a submission of the account with that score. *)
Definition call_ok (c : Call) (past : trace) : Prop :=
  match c with
  | register sc =>
      exists sol, validated past (round state) sol /\ score sol = sc /\
        above_minimum past sc /\ beats_competition past sc
  | submit_page_call p x =>
      exists sol y, x = Some y /\ validated past (round state) sol /\
        solution_pages sol !! Z.to_nat p = Some y /\ above_minimum past (score sol) /\
        (beats_competition past (score sol) \/ lacks_page past (score sol) p)
  | bail_call => submission_seen past
  | _ => False
  end.

(** In shady mode: the malicious score, in a signed phase with blocks to spare,
    for as long as the phase lasts, once a solution was mined. *)
Definition shady_call_ok (c : Call) (mortality : option Z) (past : trace) : Prop :=
  c = register malicious_score /\
  exists sol n, validated past (round state) sol /\ phase state = Signed n /\
    min_signed_phase_blocks config < n /\ mortality = Some (u32_add n 1).

(** What justifies a transaction. *)
Definition tx_ok (e : event) (past : trace) : Prop :=
  match sent_tx e with
  | None => True
  | Some (c, _, mortality) => if shady config then shady_call_ok c mortality past else call_ok c past
  end.

(** Every transaction since [t0] is justified, and the cached solution was
    validated for its round. *)
Definition miner_safe (s : MinerState) (t : trace) : Prop :=
  t0 `suffix_of` t /\
  guarded (fun e past => t0 `suffix_of` past -> tx_ok e past) t /\
  (forall sol, cached_solution s = Some sol -> validated t (prs_round sol) sol).

Lemma miner_safe_cons e s t :
  miner_safe s t -> (t0 `suffix_of` t -> tx_ok e t) -> miner_safe s (e :: t).
Proof.
  intros (Hsuf & Hg & Hc) He. split_and!; [by apply suffix_cons_r|done|].
  intros sol Hsol. by apply validated_cons, Hc.
Qed.

#[global] Instance Quiet_miner_safe : Quiet miner_safe.
Proof. intros R o Ho s t r H. apply miner_safe_cons; [done|]. by destruct o. Qed.

Lemma miner_safe_metric m r s t : miner_safe s t -> miner_safe s (Event (MetricOp m) r :: t).
Proof. intros H. by apply miner_safe_cons. Qed.

(** The cache of pages is not part of the invariant. *)
#[global] Instance CacheInvariant_miner_safe : CacheInvariant miner_safe.
Proof. split; [apply _|done|done]. Qed.

Ltac harmless := first [quiet | intros ? ? ? ?; by apply miner_safe_metric].
Ltac keeps_harmless := repeat (keeps_step harmless).

(** ** Mining *)

Lemma keeps_mine_solution ts vs np rnd dt bn red :
  keeps miner_safe (mine_solution ts vs np rnd dt bn red) (fun sol _ t =>
    exists input, Event (MineSolution input) (ok (ok sol)) ∈ t /\
      Event (CheckFeasibility sol input) (ok tt) ∈ t /\
      mi_round input = rnd /\ mi_desired_targets input = dt).
Proof.
  intros s t HI. unfold mine_solution. wp_quiet. apply wp_bind.
  set (input := Build_MineInput _ _ _ _ _ _). intros r0.
  assert (miner_safe s (Event (MineSolution input) r0 :: Event PagesGet r :: t)) as HI0
    by by apply miner_safe_cons.
  split; [done|]. apply wp_ret. cbn [bind_post].
  destruct r0 as [[sol|e]|e]; wp_pure; try done.
  wp_quiet. destruct r0 as [[]|e]; wp_pure; [|done]. split; [done|].
  eexists. split_and!; [right; by left|by left|done..].
Qed.

Lemma keeps_mine_and_validate rnd np dt bn red b :
  keeps miner_safe (mine_and_validate b rnd np dt bn red) (fun sol _ t => validated t rnd sol).
Proof.
  unfold mine_and_validate.
  eapply (keeps_bind _ _ _ anything); [by apply keeps_fetch_missing_snapshots, _|intros _].
  eapply (keeps_bind _ _ _ anything); [by apply keeps_get_snapshot|intros x].
  destruct (snapshot_get x) as [[ts vs]|]; [|keeps_harmless].
  eapply keeps_bind_post; [apply keeps_timeout, keeps_mine_solution|].
  intros [[sol|e]|] s t HI Hsol; [|by apply wp_throw|apply keeps_elim; [keeps_harmless|done]].
  destruct Hsol as (input & H1 & H2 & H3 & H4).
  apply wp_bind, wp_metric; [by apply miner_safe_metric|]. cbn [bind_post].
  apply (miner_safe_metric observe_mined_solution_duration tt) in HI.
  destruct (Z.eqb_spec rnd (prs_round sol)) as [Hrnd|]; cbn [negb]; [|by apply wp_throw].
  wp_quiet. destruct (Z.ltb_spec r (Z.of_nat (length (solution_pages sol)) mod 2 ^ 32));
    [by apply wp_throw|].
  wp_quiet. destruct (Z.eqb_spec dt (r0 mod 2 ^ 32)); cbn [negb]; [|by apply wp_throw].
  apply wp_ret. split; [done|]. split; [done|]. exists input, r, r0.
  split_and!; [by do 3 right|by do 3 right|right; by left|by left|done|congruence|done].
Qed.

(** The solution of the round is cached, and validated for it. *)
Lemma keeps_solution_of_round :
  keeps miner_safe (solution_of_round config state) (fun sol s t =>
    cached_solution s = Some sol /\ validated t (round state) sol).
Proof.
  unfold solution_of_round, set_cached_solution. intros s t HI.
  apply wp_bind, wp_get. cbn [bind_post]. apply wp_bind.
  case_decide as Hr.
  - apply wp_ret. cbn [bind_post]. apply wp_bind, wp_get. cbn [bind_post].
    destruct (cached_solution s) as [sol|] eqn:Hc; [|done]. injection Hr as Hr.
    apply wp_ret. split_and!; [done..|]. rewrite <- Hr. by apply HI.
  - apply wp_bind. eapply wp_mono; [done| |by apply keeps_mine_and_validate].
    intros [sol|e|msg|] s1 t1 [HI1 Hv]; try done. cbn [bind_post].
    apply wp_bind, wp_get. cbn [bind_post].
    assert (miner_safe {| ms_snapshot := ms_snapshot s1; cached_solution := Some sol;
      last_outcompeted_round := last_outcompeted_round s1 |} t1) as HI2.
    { destruct HI1 as (Hsuf & Hg & Hc). split_and!; [done..|]. cbn. intros sol' [= <-].
      destruct Hv as [Hr' Hv]. by rewrite Hr'. }
    apply wp_put. cbn [bind_post]. apply wp_bind, wp_get. cbn [bind_post].
    by apply wp_ret.
Qed.

(** ** Shady mode *)

Lemma keeps_shady n sol : shady config = true -> phase state = Signed n -> min_signed_phase_blocks config < n ->
  keeps (fun s t => miner_safe s t /\ validated t (round state) sol)
    (execute_shady_behavior (phase state)) anything.
Proof.
  intros Hsh Hph Hn. set (I := fun s t => miner_safe s t /\ validated t (round state) sol).
  assert (Quiet I) as HQ by (apply Quiet_and; [apply _|intros; by apply validated_cons]).
  assert (forall m, neutral I (MetricOp m)) as HM.
  { intros m s t r [HI HF]. split; [by apply miner_safe_metric|by apply validated_cons]. }
  assert (forall nonce, neutral I (SubmitAndWatch (register malicious_score) nonce (Some (u32_add n 1)))) as HS.
  { intros nonce s t r [HI HF]. split; [|by apply validated_cons]. apply miner_safe_cons; [done|]. intros _.
    unfold tx_ok. cbn. rewrite Hsh. split; [done|]. by exists sol, n. }
  assert (forall tries, keeps I (shady_register_loop tries n) anything) as Hloop.
  { induction tries as [|tries IH]; cbn [shady_register_loop]; [keeps_quiet|].
    eapply (keeps_bind _ _ _ anything); [unfold account_nonce; keeps_quiet|intros nonce].
    eapply (keeps_bind_post _ _ _ (fun x _ _ => tx x = register malicious_score)).
    { unfold register_score, to_scale_value. eapply (keeps_bind _ _ _ anything); [keeps_quiet|intros _].
      by apply keeps_ret. }
    intros x s t HI Hx. apply keeps_elim; [|done]. unfold submit_inner, sign_and_submit. rewrite Hx.
    repeat (keeps_step ltac:(first [quiet | apply HS]) || apply IH). }
  rewrite Hph. unfold execute_shady_behavior, wait_tx_in_finalized_block.
  eapply (keeps_bind _ _ _ anything); [apply Hloop|intros].
  repeat (keeps_step ltac:(first [quiet | apply HM])).
Qed.

(** ** Facts that hold while the solution is submitted *)
Section honest.
Context (honest : shady config = false).

Definition submitting (sol : PagedRawSolution) (t : trace) : Prop :=
  validated t (round state) sol /\ above_minimum t (score sol).

Definition competing (sol : PagedRawSolution) (t : trace) : Prop :=
  submitting sol t /\ beats_competition t (score sol).

Lemma submitting_cons sol e t : submitting sol t -> submitting sol (e :: t).
Proof.
  intros [Hv (mn & Hs & Hm)]. split; [by apply validated_cons|].
  exists mn. split; [by apply since_cons|done].
Qed.

Lemma competing_cons sol e t : competing sol t -> competing sol (e :: t).
Proof.
  intros [Hs (hd & scs & Hsc & Hp)]. split; [by apply submitting_cons|].
  exists hd, scs. split; [by apply since_cons|done].
Qed.

Lemma submission_seen_cons e t : submission_seen t -> submission_seen (e :: t).
Proof. intros (b & md & H). exists b, md. by apply since_cons. Qed.

(** The calls that carry a page of the solution. *)
Definition page_call (sol : PagedRawSolution) (c : Call) : Prop :=
  exists p x, c = submit_page_call p (Some x) /\ solution_pages sol !! Z.to_nat p = Some x.

Lemma honest_call e c nonce m t : sent_tx e = Some (c, nonce, m) -> call_ok c t -> tx_ok e t.
Proof using honest. intros He Hc. unfold tx_ok. by rewrite He, honest. Qed.

(** The submission that is being completed was read. *)
Definition reads (sub : IncompleteSubmission) (t : trace) : Prop :=
  exists b md, since t0 t (Event (TryFetchSubmission b (round state) signer) (ok (Some md))) /\
    is_score sub = claimed_score md /\ is_pages sub = submitted_flags (sm_pages md).

Lemma reads_cons sub e t : reads sub t -> reads sub (e :: t).
Proof. intros (b & md & H & E). exists b, md. split; [by apply since_cons|done]. Qed.

Definition completing (sub : IncompleteSubmission) (sol : PagedRawSolution) (t : trace) : Prop :=
  submitting sol t /\ is_score sub = score sol /\ reads sub t.

Lemma completing_cons sub sol e t : completing sub sol t -> completing sub sol (e :: t).
Proof. intros (Hs & E & Hr). split_and!; [by apply submitting_cons|done|by apply reads_cons]. Qed.

(** The calls that carry a page the submission lacks. *)
Definition missing_call (sub : IncompleteSubmission) (sol : PagedRawSolution) (c : Call) : Prop :=
  exists p x, c = submit_page_call p (Some x) /\ solution_pages sol !! Z.to_nat p = Some x /\ p ∉ is_pages sub.

(** The missing pages may be sent while a submission is being completed. *)
Lemma SendInvariant_pages sub sol :
  SendInvariant (fun s t => miner_safe s t /\ completing sub sol t)
    (missing_call sub sol) submission_seen (round state) signer.
Proof using honest.
  split.
  - apply Quiet_and; [apply _|]. intros. by apply completing_cons.
  - intros m r s t _ [HI HF]. split; [by apply miner_safe_metric|by apply completing_cons].
  - intros c nonce m r s t [HI HF] (p & x & -> & Hx & Hp). split; [|by apply completing_cons].
    apply miner_safe_cons; [done|]. intros _. eapply honest_call; [done|].
    destruct HF as ([Hv Hm] & E & b & md & Hr & Es & Ep). exists sol, x. split_and!; [done..|].
    right. exists b, md. split_and!; [done|congruence|by rewrite <- Ep].
  - intros nonce m r s t [HI HF] HB. split; [|by apply completing_cons].
    apply miner_safe_cons; [done|]. intros _. by eapply honest_call.
  - apply submission_seen_cons.
  - intros b md s t [HI _]. exists b, md. apply since_here, HI.
Qed.

(** So may the registration, once the score has beaten the competition. *)
Lemma SendInvariant_submit sol :
  SendInvariant (fun s t => miner_safe s t /\ competing sol t)
    (fun c => c = register (score sol) \/ page_call sol c) submission_seen (round state) signer.
Proof using honest.
  split.
  - apply Quiet_and; [apply _|]. intros. by apply competing_cons.
  - intros m r s t _ [HI HF]. split; [by apply miner_safe_metric|by apply competing_cons].
  - intros c nonce m r s t [HI HF] Hc. split; [|by apply competing_cons].
    apply miner_safe_cons; [done|]. intros _. eapply honest_call; [done|]. destruct HF as [[Hv Hm] Hb].
    destruct Hc as [->|(p & x & -> & Hx)]; cbn; eauto 12.
  - intros nonce m r s t [HI HF] HB. split; [|by apply competing_cons].
    apply miner_safe_cons; [done|]. intros _. by eapply honest_call.
  - apply submission_seen_cons.
  - intros b md s t [HI _]. exists b, md. apply since_here, HI.
Qed.

(** A bail may be sent where a submission was read. *)
Definition seen_safe (s : MinerState) (t : trace) : Prop := miner_safe s t /\ submission_seen t.

#[local] Instance SendInvariant_bail :
  SendInvariant seen_safe (fun _ => False) submission_seen (round state) signer.
Proof using honest.
  split; [|..|apply submission_seen_cons|].
  - apply Quiet_and; [apply _|apply submission_seen_cons].
  - intros m r s t _ [HI HF]. split; [by apply miner_safe_metric|by apply submission_seen_cons].
  - done.
  - intros nonce m r s t [HI HF] HB. split; [|by apply submission_seen_cons].
    apply miner_safe_cons; [done|]. intros _. by eapply honest_call.
  - intros b md s t [HI _]. exists b, md. apply since_here, HI.
Qed.

Lemma seen_safe_metric m : neutral seen_safe (MetricOp m).
Proof. intros s t r [HI HF]. split; [by apply miner_safe_metric|by apply submission_seen_cons]. Qed.

Lemma keeps_revert : keeps seen_safe revert_submission anything.
Proof using honest.
  unfold revert_submission.
  eapply (keeps_bind _ _ _ anything).
  { apply keeps_with_timeout; [apply seen_safe_metric|].
    eapply (keeps_bind _ _ _ anything); [by apply keeps_signed_phase, _|intros b].
    repeat (keeps_step ltac:(apply seen_safe_metric)). }
  intros still. destruct (negb still); [keeps_quiet|].
  eapply (keeps_bind _ _ _ anything); [|intros; keeps_quiet].
  apply keeps_with_timeout; [apply seen_safe_metric|].
  eapply (keeps_bind _ _ _ anything); [|intros; apply keeps_ask; [apply seen_safe_metric|done]].
  intros s t HI. eapply wp_mono; [done| |apply (wp_bail_allowed seen_safe _ _ (round state) signer s t HI)].
  - intros o s' t' HI'. by destruct o.
  - apply HI.
Qed.

(** ** The steps of the signed phase *)

Lemma miner_safe_neutral_metric m : neutral miner_safe (MetricOp m).
Proof. intros s t r H. by apply miner_safe_metric. Qed.

(** The submission that was read: any, or one to complete. *)
Definition existing_seen (c : CurrentSubmission) (t : trace) : Prop :=
  (c <> NotStarted -> submission_seen t) /\ (forall sub, c = Incomplete sub -> reads sub t).

Lemma existing_seen_cons c e t : existing_seen c t -> existing_seen c (e :: t).
Proof.
  intros [H1 H2]. split; [intros Hc; by apply submission_seen_cons, H1|].
  intros sub Hc. by apply reads_cons, H2.
Qed.

Lemma keeps_get_submission b np :
  keeps miner_safe (get_submission b (round state) signer np) (fun c _ t => existing_seen c t).
Proof.
  intros s t HI. unfold get_submission. wp_quiet; [|done].
  destruct a as [md|]; [|by apply wp_ret].
  assert (since t0 (Event (TryFetchSubmission b (round state) signer) (ok (Some md)) :: t)
    (Event (TryFetchSubmission b (round state) signer) (ok (Some md)))) as Hs by apply since_here, HI.
  destruct (_ =? np); apply wp_ret; (split; [done|]); (split; [by exists b, md|]); [done|].
  intros sub [= <-]. by exists b, md.
Qed.

Lemma keeps_fetch_existing np :
  keeps miner_safe (fetch_existing_submission signer (round state) np)
    (fun r _ t => existing_seen r.2 t).
Proof.
  apply keeps_with_timeout; [apply miner_safe_neutral_metric|].
  eapply (keeps_bind _ _ _ anything); [by apply keeps_storage_at_head, _|intros head].
  eapply keeps_bind_post; [apply keeps_get_submission|intros c s t HI Hc].
  apply wp_bind, wp_metric; [by apply miner_safe_metric|]. apply wp_ret.
  split; [by apply miner_safe_metric|]. by apply existing_seen_cons.
Qed.

Lemma keeps_already_submitted np :
  keeps miner_safe (check_already_submitted signer (round state) np) anything.
Proof.
  apply keeps_with_timeout; [apply miner_safe_neutral_metric|].
  eapply (keeps_bind _ _ _ anything); [by apply keeps_storage_at_head, _|intros head].
  unfold has_submitted, get_submission. keeps_harmless.
Qed.

Lemma keeps_missing_pages sub sol :
  keeps (fun s t => miner_safe s t /\ completing sub sol t)
    (submit_missing_pages signer config sub sol (round state)) anything.
Proof using honest.
  unfold submit_missing_pages, collect_missing.
  destruct (mapM _ _) as [missing|] eqn:Hm; [|apply keeps_panic].
  set (I := fun s t => miner_safe s t /\ completing sub sol t).
  assert (forall m, neutral I (MetricOp m)) as HM.
  { intros m s t r [HI HF]. split; [by apply miner_safe_metric|by apply completing_cons]. }
  eapply (keeps_bind _ _ _ anything); [|intros _; by apply keeps_ask].
  apply keeps_with_timeout; [done|].
  eapply (keeps_bind _ _ _ anything); [|intros _; by apply keeps_ask].
  eapply submit_pages_allowed; [apply SendInvariant_pages|]. intros p x Hx.
  apply mapM_Some in Hm. exists p, x. split; [done|].
  apply list_elem_of_lookup in Hx as [i Hi].
  destruct (Forall2_lookup_r _ _ _ _ _ Hm Hi) as (q & Hmiss & Hq).
  destruct (_ !! Z.to_nat q) eqn:E; [|done]. injection Hq as -> ->. split; [done|].
  apply list_elem_of_lookup_2, list_elem_of_filter in Hmiss. by destruct Hmiss.
Qed.

Lemma wp_handle_existing existing sol s t :
  miner_safe s t -> submitting sol t -> existing_seen existing t ->
  wp miner_safe (handle_existing signer config existing sol (round state))
    (fun _ s' t' => miner_safe s' t' /\ submitting sol t') s t.
Proof using honest.
  intros HI HF [Hseen Hread].
  assert (submission_seen t -> wp miner_safe revert_submission
    (fun _ s' t' => miner_safe s' t' /\ submitting sol t') s t) as Hrev.
  { intros Hs. eapply wp_mono; [| |apply (wp_frame seen_safe (submitting sol));
      [apply submitting_cons|done|apply keeps_revert; by split]]; [by intros ?? [[? _] _]|].
    by intros o s' t' [[[HI' _] _] HF']. }
  destruct existing as [sc|sub|]; cbn [handle_existing].
  - destruct (negb _); [by apply wp_ret|]. by apply Hrev, Hseen.
  - case_decide; [|by apply Hrev, Hseen].
    apply wp_bind. eapply wp_mono; [| |apply (keeps_missing_pages sub sol)]; [by intros ?? []| |].
    + by intros [u|e|msg|] s' t' [[HI' [HF' _]] _]; cbn [bind_post]; [apply wp_ret|..].
    + split; [done|]. split_and!; [done..|by apply Hread].
  - by apply wp_ret.
Qed.

Lemma keeps_score_better head sc :
  keeps miner_safe (score_better head sc (round state) (submission_strategy config))
    (fun b _ t => b = true -> beats_competition t sc).
Proof.
  intros s t HI. unfold score_better. wp_quiet; [|done].
  destruct (existsb _ a) eqn:Hex; apply wp_ret; (split; [done|]); [done|]. intros _.
  exists head, a. split; [apply since_here, HI|]. apply Forall_forall. intros x Hx.
  destruct (score_passes_strategy sc x.2 _) eqn:Hp; [done|].
  assert (existsb (fun x => negb (score_passes_strategy sc x.2 (submission_strategy config))) a = true);
    [|congruence].
  apply existsb_exists. exists x. split; [by apply list_elem_of_In|]. by rewrite Hp.
Qed.

Lemma beats_cons e t sc : beats_competition t sc -> beats_competition (e :: t) sc.
Proof. intros (hd & scs & Hsc & Hp). exists hd, scs. split; [by apply since_cons|done]. Qed.

Lemma keeps_check_competitive head sol :
  keeps miner_safe (check_competitive config head sol (round state))
    (fun b _ t => b = true -> beats_competition t (score sol)).
Proof using honest.
  unfold check_competitive, should_bypass_competitive_check. rewrite honest. cbn [negb].
  eapply keeps_bind_post.
  { apply keeps_with_timeout; [apply miner_safe_neutral_metric|].
    eapply (keeps_bind_post _ _ _ _ (fun b _ t => b = true -> beats_competition t (score sol)));
      [apply keeps_score_better|intros b s t HI Hb].
    apply wp_bind, wp_metric; [by apply miner_safe_metric|]. apply wp_ret.
    split; [by apply miner_safe_metric|]. intros Ht. by apply beats_cons, Hb. }
  intros b s t HI Hb. cbv beta in Hb. destruct b; cbn [negb]; [by apply wp_ret|].
  apply wp_bind, wp_get. cbn [bind_post]. unfold set_last_outcompeted_round.
  apply wp_bind. case_decide; [by apply wp_ret|].
  apply wp_bind, wp_bind, wp_get. cbn [bind_post]. apply wp_put. cbn [bind_post].
  apply wp_metric; [by apply miner_safe_metric|]. cbn [bind_post]. apply wp_ret.
  split; [by apply miner_safe_metric|done].
Qed.

Lemma keeps_submit_solution sol :
  keeps (fun s t => miner_safe s t /\ competing sol t)
    (submit_solution signer config sol (round state)) anything.
Proof using honest.
  unfold submit_solution.
  set (I := fun s t => miner_safe s t /\ competing sol t).
  assert (forall m, neutral I (MetricOp m)) as HM.
  { intros m s t r [HI HF]. split; [by apply miner_safe_metric|by apply competing_cons]. }
  eapply (keeps_bind _ _ _ anything); [by apply keeps_ask|intros _].
  eapply (keeps_bind _ _ _ anything); [|intros _; by apply keeps_ask].
  apply keeps_with_timeout; [done|].
  eapply submit_allowed; [apply SendInvariant_submit|by left|].
  intros p x Hx. right. by exists p, x.
Qed.

Lemma keeps_submit_if_better sol s t :
  miner_safe s t -> validated t (round state) sol ->
  wp miner_safe (submit_if_better signer config state sol) (fun _ s' t' => miner_safe s' t') s t.
Proof using honest.
  intros HI Hv. unfold submit_if_better, fetch_minimum_score.
  apply wp_bind. wp_quiet; [|done].
  destruct (meets_minimum_score (score sol) a) eqn:Hm; cbn [negb]; [|by destruct a].
  match goal with |- wp _ _ _ _ ?t1 => assert (submitting sol t1) as HF end.
  { split; [by apply validated_cons|]. exists a. split; [apply since_here, HI|done]. }
  apply wp_bind. eapply wp_mono; [| |apply (keeps_frame _ (submitting sol) _ _
    (submitting_cons sol) (keeps_fetch_existing (bd_n_pages state))); by split]; [by intros ?? []|].
  intros [[head existing]|e|msg|] s1 t1 [[HI1 HF1] Hseen]; cbn [bind_post]; try done.
  apply wp_bind. eapply wp_mono; [done| |by apply wp_handle_existing].
  intros [go|e|msg|] s2 t2 [HI2 HF2]; cbn [bind_post]; try done.
  destruct go; cbn [negb]; [|by apply wp_ret].
  apply wp_bind. eapply wp_mono; [| |apply (keeps_frame _ (submitting sol) _ _
    (submitting_cons sol) (keeps_check_competitive head sol)); by split]; [by intros ?? []|].
  intros [comp|e|msg|] s3 t3 [[HI3 HF3] Hb]; cbn [bind_post]; try done.
  destruct comp; cbn [negb]; [|by apply wp_ret].
  eapply wp_mono; [| |apply (keeps_submit_solution sol)]; [by intros ?? []|by intros ??? [[]]|].
  split; [done|]. split; [done|]. by apply Hb.
Qed.

End honest.

Lemma keeps_process_block : keeps miner_safe (process_block signer config state) anything.
Proof.
  unfold process_block, fetch_balance.
  eapply (keeps_bind _ _ _ anything); [keeps_harmless|intros [info|]; [|keeps_harmless]].
  eapply (keeps_bind _ _ _ anything); [keeps_harmless|intros _].
  destruct (phase state) as [|n|pg|txt] eqn:Hphase; try (by keeps_harmless).
  2:{ apply keeps_fetch_missing_snapshots_lossy, _. }
  destruct (Z.leb_spec n (min_signed_phase_blocks config)) as [|Hn]; [keeps_harmless|]. unfold process_signed.
  eapply (keeps_bind _ _ _ anything); [apply keeps_already_submitted|intros [|]; [keeps_harmless|]].
  eapply keeps_bind_post; [apply keeps_solution_of_round|intros sol s t HI [_ Hv]].
  destruct (shady config) eqn:Hsh.
  - eapply wp_mono; [| |apply (keeps_shady n sol Hsh Hphase Hn); by split]; [by intros ?? []|].
    by intros o s' t' [[HI' _] HR].
  - eapply wp_mono; [done| |by apply keeps_submit_if_better]. intros o s' t' HI'. by destruct o.
Qed.

End safety.

(** A trace is justified since itself. *)
Lemma guarded_since `{T : MinerConfig} (t0 : trace) (J : event -> trace -> Prop) :
  guarded (fun e past => t0 `suffix_of` past -> J e past) t0.
Proof.
  apply guarded_lookup. intros new e past -> [k Hk]. apply (f_equal length) in Hk.
  rewrite !length_app in Hk. cbn in Hk. lia.
Qed.

(** The cached solution was validated for its round. *)
Definition cache_validated `{T : MinerConfig} (s : MinerState) (t : trace) : Prop :=
  forall sol, cached_solution s = Some sol -> validated t (prs_round sol) sol.

(** Whatever the node answers and whichever timeout fires, every transaction of a
    block is justified, and the cached solution stays a validated one. *)
Theorem process_block_transactions_justified `{T : MinerConfig} `{SO : ScoreOrder}
    (h : handler) signer config state (s : MinerState) (t : trace) :
  cache_validated s t ->
  let '(_, s', t') := run h (process_block signer config state) s t in
  cache_validated s' t' /\
  forall new e past, t' = new ++ e :: past -> t `suffix_of` past ->
    tx_ok t signer config state e past.
Proof.
  intros Hc.
  pose proof (keeps_run _ _ _ h s t (keeps_process_block t signer config state)) as H.
  destruct (run h _ s t) as [[o s'] t'].
  destruct H as [(Hsuf & Hg & Hc') _].
  { split_and!; [done|apply guarded_since|done]. }
  split; [done|]. intros new e past Heq. by eapply guarded_lookup in Hg.
Qed.

(** A block of the signed phase on the well-behaved node. *)
Definition config0 : @ProcessConfig stake_order :=
  @Build_ProcessConfig stake_order (@IfLeading stake_order) true 0 10 false.

Definition state0 : BlockDetails :=
  {| at_block := block0; phase := Signed 50; bd_n_pages := 4; round := 1;
     desired_targets := 2; block_number := 100 |}.

Lemma process_block_transactions_justified_witness :
  let '(o, s', t') := run (node_handler good_node) (process_block 1 config0 state0)
      (miner_init 4) [] in
  o = Ok tt /\ length (sent_txs t') = 5%nat /\ cached_solution s' = Some mined4 /\
  cache_validated s' t'.
Proof.
  pose proof (process_block_transactions_justified (node_handler good_node) 1 config0 state0
    (miner_init 4) [] ltac:(discriminate)) as H.
  destruct (run _ _ _ _) as [[o s'] t'] eqn:Hrun. vm_compute in Hrun. injection Hrun as <- <- <-.
  split_and!; [reflexivity|vm_compute; reflexivity|reflexivity|exact (proj1 H)].
Defined.
