(* ===== verification/MinerSpec.v ===== *)
(** * Properties of the miner task

    The whole life of [miner_task]: what it sends over any sequence of
    messages, that it mines once per round, counts a lost round once, sends
    nothing outside the signed phase, and stops only on a critical error or a
    closed channel. *)

From S2P Require Import Prelude RustStr Errors Strategy Chain Metrics Types Effects Traces ChainAccess Scenario Submission SubmissionSpec SnapshotFetch SnapshotSpec SubmissionSends Miner MinerSafety.
Local Open Scope Z_scope.

(** ** All transactions of the task *)
Section loop.
Context `{T : MinerConfig} `{SO : ScoreOrder} (signer : AccountId) (config : ProcessConfig).

(** Justified by one of the blocks the task was given. *)
Definition tx_ok_some (messages : list MinerMessage) (e : event) (past : trace) : Prop :=
  exists state t0, ProcessBlock state ∈ messages /\ t0 `suffix_of` past /\
    tx_ok t0 signer config state e past.

Definition loop_inv (messages : list MinerMessage) (s : MinerState) (t : trace) : Prop :=
  cache_validated s t /\
  guarded (fun e past => sent_tx e = None \/ tx_ok_some messages e past) t.

Lemma suffix_cases {A} (t0 t new past : list A) (e : A) :
  t0 `suffix_of` t -> t = new ++ e :: past ->
  t0 `suffix_of` past \/ exists new', t0 = new' ++ e :: past.
Proof.
  intros [k ->]. revert k. induction new as [|x new IH]; intros k Heq.
  - destruct k as [|y k]; [right; by exists []|left]. cbn in Heq. injection Heq as _ <-. by exists k.
  - destruct k as [|y k]; cbn in Heq.
    + right. by exists (x :: new).
    + injection Heq as _ Heq. by apply (IH k).
Qed.

(** A step that is safe since [t0] extends a safe history. *)
Lemma miner_safe_loop messages state t0 s t :
  ProcessBlock state ∈ messages ->
  guarded (fun e past => sent_tx e = None \/ tx_ok_some messages e past) t0 ->
  miner_safe t0 signer config state s t -> loop_inv messages s t.
Proof.
  intros Hin Hg0 (Hsuf & Hg & Hc). split; [done|]. apply guarded_lookup. intros new e past Heq.
  destruct (suffix_cases _ _ _ _ _ Hsuf Heq) as [Hs|[new' Hs]].
  - right. exists state, t0. split_and!; [done..|]. eapply guarded_lookup in Hg; [|done]. by apply Hg.
  - by eapply guarded_lookup in Hg0.
Qed.

Lemma loop_inv_put messages s t c :
  loop_inv messages s t -> loop_inv messages {| ms_snapshot := c; cached_solution := cached_solution s;
    last_outcompeted_round := last_outcompeted_round s |} t.
Proof. done. Qed.

Lemma keeps_miner_step messages m :
  m ∈ messages ->
  keeps (loop_inv messages) (miner_step signer config m) anything.
Proof.
  intros Hm. destruct m as [state|]; intros s t [Hc Hg]; cbn [miner_step].
  - apply wp_bind, wp_catch.
    eapply wp_mono; [| |apply (keeps_process_block t signer config state)].
    + intros s' t'. by apply miner_safe_loop.
    + intros o s' t' [HI _]. apply (miner_safe_loop messages state t s' t' Hm Hg) in HI.
      destruct o as [u|e|msg|]; cbn [bind_post]; try done. by destruct (is_critical_miner_error e).
    + split_and!; [done|apply guarded_since|done].
  - apply wp_bind, wp_get_snapshot. cbn [bind_post]. apply wp_bind, wp_put_snapshot; [done|].
    cbn [bind_post]. unfold set_cached_solution. apply wp_bind, wp_get. cbn [bind_post].
    by apply wp_put.
Qed.

Lemma keeps_miner_loop messages :
  keeps (loop_inv messages) (miner_loop signer config messages) anything.
Proof.
  unfold miner_loop.
  eapply (keeps_bind _ _ _ anything); [|intros _; apply keeps_throw].
  apply keeps_for_each. intros m Hm. by apply keeps_miner_step.
Qed.

End loop.

(** C3: over its whole life, whatever messages arrive, the miner task sends only
    transactions justified by a block it was given.  Outside shady mode these are:
    the registration of a score, of a solution validated for the round of that
    block, above the minimum and beating the competition as read while
    processing it; a page of such a solution, which beats the competition or
    else completes a submission of the account, read while processing the
    block, that claims this score and lacks this page; and a bail of a
    submission it has read.  In shady mode it sends nothing but registrations of
    the malicious score, in a signed phase with more than the minimum of blocks
    left, after a solution was validated for the round. *)
Theorem miner_task_transactions_justified `{T : MinerConfig} `{SO : ScoreOrder}
    (h : handler) signer config messages pages :
  let t' := (run h (miner_loop signer config messages) (miner_init pages) []).2 in
  forall new e past, t' = new ++ e :: past ->
    sent_tx e = None \/ tx_ok_some signer config messages e past.
Proof.
  pose proof (keeps_run _ _ _ h (miner_init pages) [] (keeps_miner_loop signer config messages)) as H.
  destruct (run h _ _ _) as [[o s'] t']. destruct H as [[_ Hg] _]; [done|].
  intros t new e past Heq. by eapply guarded_lookup in Hg.
Qed.

(** Two blocks of the same round: the second one reuses the solution. *)
Lemma miner_task_transactions_justified_witness :
  let t' := (run (node_handler good_node) (miner_loop 1 config0 [ProcessBlock state0; ProcessBlock state0])
      (miner_init 4) []).2 in
  length (sent_txs t') = 10%nat /\
  forall new e past, t' = new ++ e :: past ->
    sent_tx e = None \/ tx_ok_some 1 config0 [ProcessBlock state0; ProcessBlock state0] e past.
Proof.
  split; [vm_compute; reflexivity|].
  exact (miner_task_transactions_justified (node_handler good_node) 1 config0
    [ProcessBlock state0; ProcessBlock state0] 4).
Defined.

(** ** Invariants of a block

    A client whose invariant allows every transaction and metric only has to
    look at the solution of the round. *)
Section block.
Context `{T : MinerConfig} `{SO : ScoreOrder} (signer : AccountId) (config : ProcessConfig)
  (state : BlockDetails).
Context (I : MinerState -> trace -> Prop)
  `{!SendInvariant I (fun _ => True) (fun _ => True) (round state) signer} `{!CacheInvariant I}.
Context (outcompeted_ok : forall s t,
  let s' := {| ms_snapshot := ms_snapshot s; cached_solution := cached_solution s;
               last_outcompeted_round := Some (round state) |} in
  I s t -> last_outcompeted_round s <> Some (round state) ->
  I s' t /\ I s' (Event (MetricOp on_submission_skipped_not_competitive) tt :: t)).

Lemma free_metric m : m <> on_submission_skipped_not_competitive -> neutral I (MetricOp m).
Proof. intros Hm s t r HI. by apply send_metric. Qed.

Ltac free := first [quiet | by apply free_metric].
Ltac keeps_free := repeat (keeps_step free).

Lemma free_submit_inner t0 nonce n : keeps I (submit_inner t0 nonce n) anything.
Proof. by apply (submit_inner_allowed I (fun _ => True) (fun _ => True) (round state) signer). Qed.

Lemma free_shady p : keeps I (execute_shady_behavior p) anything.
Proof.
  unfold execute_shady_behavior. destruct p as [|n|pg|txt]; try apply keeps_throw.
  eapply (keeps_bind _ _ _ anything).
  - generalize 10%nat. intros tries. induction tries as [|tries IH]; cbn [shady_register_loop]; [keeps_free|].
    unfold account_nonce, register_score, to_scale_value.
    repeat (apply IH || apply free_submit_inner || keeps_step free).
  - intros st. unfold wait_tx_in_finalized_block. keeps_free.
Qed.

Lemma free_bail : keeps I bail anything.
Proof.
  intros s t HI. eapply wp_mono; [done| |apply (wp_bail_allowed I (fun _ => True) (fun _ => True)
    (round state) signer s t HI Logic.I)].
  intros o s' t' HI'. by destruct o.
Qed.

Lemma free_revert : keeps I revert_submission anything.
Proof.
  unfold revert_submission, with_timeout.
  repeat (apply free_bail || (by apply keeps_signed_phase, _) || keeps_step free).
Qed.

Lemma free_submit_pages pages n :
  keeps I (submit_pages signer pages n (round state) (min_signed_phase_blocks config)) anything.
Proof. by apply (submit_pages_allowed I (fun _ => True) (fun _ => True)). Qed.

Lemma free_submit_solution sol : keeps I (submit_solution signer config sol (round state)) anything.
Proof.
  unfold submit_solution, with_timeout.
  repeat ((by apply (submit_allowed I (fun _ => True) (fun _ => True))) || keeps_step free).
Qed.

Lemma free_check_competitive head sol :
  keeps I (check_competitive config head sol (round state)) anything.
Proof.
  unfold check_competitive. destruct (negb (should_bypass_competitive_check _)); [|keeps_free].
  unfold with_timeout, score_better.
  eapply (keeps_bind _ _ _ anything); [keeps_free|intros b]. destruct (negb b); [|keeps_free].
  intros s t HI. apply wp_bind, wp_get. cbn [bind_post]. apply wp_bind.
  case_decide; [by apply wp_ret|]. unfold set_last_outcompeted_round.
  apply wp_bind, wp_bind, wp_get. cbn [bind_post].
  destruct (outcompeted_ok s t HI) as [HI1 HI2]; [done|].
  apply wp_put. cbn [bind_post]. apply wp_metric; [done|]. by apply wp_ret.
Qed.

Lemma free_handle_existing existing sol :
  keeps I (handle_existing signer config existing sol (round state)) anything.
Proof.
  unfold handle_existing, submit_missing_pages, with_timeout.
  repeat (apply free_revert || apply free_submit_pages || keeps_step free).
Qed.

(** A block keeps the invariant if choosing its solution does. *)
Lemma free_process_block :
  keeps I (solution_of_round config state) anything ->
  keeps I (process_block signer config state) anything.
Proof.
  intros Hsol. unfold process_block, fetch_balance, process_signed, submit_if_better,
    check_already_submitted, fetch_existing_submission, with_timeout, has_submitted,
    get_submission, fetch_minimum_score.
  repeat (apply free_shady || apply free_handle_existing || apply free_check_competitive
    || apply free_submit_solution || exact Hsol || (by apply keeps_storage_at_head, _)
    || (by apply keeps_fetch_missing_snapshots_lossy) || keeps_step free).
Qed.

(** Choosing the solution keeps an invariant that ignores the solver and the
    cached solution. *)
Lemma free_solution_of_round :
  (forall input, neutral I (MineSolution input)) ->
  (forall s t c, I s t -> I {| ms_snapshot := ms_snapshot s; cached_solution := c;
     last_outcompeted_round := last_outcompeted_round s |} t) ->
  keeps I (solution_of_round config state) anything.
Proof.
  intros Hmine Hcache s t HI. unfold solution_of_round, set_cached_solution.
  apply wp_bind, wp_get. cbn [bind_post].
  eapply (wp_mono I I _ _ _ s t); [done| |apply (keeps_elim I _ anything)]; [done| |done].
  eapply (keeps_bind _ _ _ anything).
  - case_decide; [keeps_free|]. eapply (keeps_bind _ _ _ anything).
    + unfold mine_and_validate, mine_solution.
      repeat ((by apply keeps_fetch_missing_snapshots) || (by apply keeps_get_snapshot)
        || keeps_step ltac:(first [apply Hmine | free])).
    + intros sol s1 t1 HI1. apply wp_bind, wp_get. cbn [bind_post].
      apply wp_put. split; [by apply Hcache|done].
  - intros _ s1 t1 HI1. apply wp_bind, wp_get. cbn [bind_post].
    destruct (cached_solution s1); [by apply wp_ret|by apply wp_panic].
Qed.

End block.

(** ** Mining once per round *)
Section mining.
Context `{T : MinerConfig} `{SO : ScoreOrder} (signer : AccountId) (config : ProcessConfig).

(** The solution of round [r] is cached and the solver has run [L]. *)
Definition cached_for (r : Z) (L : list MineInput) (s : MinerState) (t : trace) : Prop :=
  prs_round <$> cached_solution s = Some r /\ mined t = L.

#[global] Instance SendInvariant_cached r L rnd :
  SendInvariant (cached_for r L) (fun _ => True) (fun _ => True) rnd signer.
Proof.
  split; try done.
  intros R o Ho s t x [Hc Hm]. split; [done|]. by destruct o.
Qed.

#[global] Instance CacheInvariant_cached r L : CacheInvariant (cached_for r L).
Proof. split; [|done|done]. intros R o Ho s t x [Hc Hm]. split; [done|]. by destruct o. Qed.

Lemma keeps_cached_block L state :
  keeps (cached_for (round state) L) (process_block signer config state) anything.
Proof.
  apply free_process_block; [apply _|apply _|done|].
  intros s t [Hc Hm]. unfold solution_of_round.
  apply wp_bind, wp_get. cbn [bind_post]. rewrite decide_True by done.
  apply wp_bind, wp_ret. cbn [bind_post]. apply wp_bind, wp_get. cbn [bind_post].
  destruct (cached_solution s) as [sol|] eqn:Hs; [|done]. apply wp_ret.
  split; [|done]. split; [by rewrite Hs|done].
Qed.

Lemma keeps_cached_loop r L messages :
  (forall m, m ∈ messages -> exists state, m = ProcessBlock state /\ round state = r) ->
  keeps (cached_for r L) (miner_loop signer config messages) anything.
Proof.
  intros Hall. eapply (keeps_bind _ _ _ anything); [|intros _; apply keeps_throw].
  apply keeps_for_each. intros m Hm. destruct (Hall m Hm) as (state & -> & <-).
  cbn [miner_step]. eapply (keeps_bind _ _ _ anything).
  - eapply keeps_weaken; [apply keeps_catch, keeps_cached_block|done].
  - intros [u|e]; [by apply keeps_ret|].
    destruct (is_critical_miner_error e); [apply keeps_throw|by apply keeps_ret].
Qed.

End mining.

(** C20: once the solution of a round is cached, no block of that round runs the
    solver again, whatever fails or times out in between, until the snapshots
    are cleared. *)
Theorem mines_once_per_round `{T : MinerConfig} `{SO : ScoreOrder} (h : handler)
    signer config messages r sol (s : MinerState) (t : trace) :
  cached_solution s = Some sol -> prs_round sol = r ->
  (forall m, m ∈ messages -> exists state, m = ProcessBlock state /\ round state = r) ->
  mined (run h (miner_loop signer config messages) s t).2 = mined t.
Proof.
  intros Hs Hr Hall.
  pose proof (keeps_run _ _ _ h s t (keeps_cached_loop signer config r (mined t) messages Hall)) as H.
  destruct (run h _ s t) as [[o s'] t']. apply H. split; [|done]. rewrite Hs. cbn. by rewrite Hr.
Qed.

Lemma mines_once_per_round_witness :
  let s := {| ms_snapshot := snapshot_new 4; cached_solution := Some mined4;
              last_outcompeted_round := None |} in
  mined (run (node_handler good_node) (miner_loop 1 config0 [ProcessBlock state0; ProcessBlock state0]) s []).2
    = [].
Proof.
  apply (mines_once_per_round (node_handler good_node) 1 config0
    [ProcessBlock state0; ProcessBlock state0] 1 mined4); [reflexivity|reflexivity|].
  intros m Hm. exists state0. split; [|reflexivity].
  apply elem_of_cons in Hm as [->|Hm]; [reflexivity|].
  apply elem_of_cons in Hm as [->|Hm]; [reflexivity|]. by apply not_elem_of_nil in Hm.
Defined.

(** ** Counting lost rounds *)
Section outcompeted.
Context `{T : MinerConfig} `{SO : ScoreOrder} (signer : AccountId) (config : ProcessConfig).

(** How often the skipped-submission counter was increased. *)
Definition skips (t : trace) : Z :=
  Z.of_nat (length (filter (.= on_submission_skipped_not_competitive) (metrics t))).

Lemma skips_cons e t : skips (e :: t) =
  skips t + if decide (metric_of e = Some on_submission_skipped_not_competitive) then 1 else 0.
Proof.
  unfold skips. rewrite metrics_cons, filter_app, length_app, Nat2Z.inj_add. f_equal.
  destruct (metric_of e) as [m|]; [|done]. change (option_list (Some m)) with [m].
  destruct (decide (m = on_submission_skipped_not_competitive)) as [->|Hm]; [done|].
  rewrite filter_cons_False by done. by rewrite decide_False by congruence.
Qed.

Lemma skips_suffix t t' : t `suffix_of` t' -> skips t <= skips t'.
Proof.
  intros [new ->]. induction new as [|e new IH]; cbn; [lia|]. rewrite skips_cons. case_decide; lia.
Qed.

(** In round [r] the counter has been increased at most once since [k], and
    only if the round is the last one counted. *)
Definition skipped_once (r : Z) (k : Z) (s : MinerState) (t : trace) : Prop :=
  skips t <= k + if decide (last_outcompeted_round s = Some r) then 1 else 0.

Lemma skipped_once_quiet r k R (o : op R) s t x :
  metric_of (Event o x) <> Some on_submission_skipped_not_competitive ->
  skipped_once r k s t -> skipped_once r k s (Event o x :: t).
Proof.
  intros Ho H. unfold skipped_once in *. rewrite skips_cons.
  rewrite (decide_False (P := metric_of _ = _)) by done. lia.
Qed.

#[global] Instance CacheInvariant_skipped r k : CacheInvariant (skipped_once r k).
Proof. split; [|done|done]. intros R o Ho s t x H. apply skipped_once_quiet; [|done]. by destruct o. Qed.

#[global] Instance SendInvariant_skipped r k rnd :
  SendInvariant (skipped_once r k) (fun _ => True) (fun _ => True) rnd signer.
Proof.
  split; try done.
  - apply _.
  - intros m x s t Hm H. apply skipped_once_quiet; [|done]. cbn. congruence.
Qed.

Lemma keeps_skipped_block k state :
  keeps (skipped_once (round state) k) (process_block signer config state) anything.
Proof.
  apply free_process_block; [apply _|apply _| |].
  - intros s t s' HI Hne. unfold skipped_once in *. cbn.
    rewrite decide_False in HI by done. rewrite skips_cons. cbn.
    rewrite !decide_True by done. lia.
  - apply (free_solution_of_round signer); [apply _|apply _| |done].
    intros input s t x H. by apply skipped_once_quiet.
Qed.

Lemma keeps_skipped_loop r k messages :
  (forall m, m ∈ messages -> exists state, m = ProcessBlock state /\ round state = r) ->
  keeps (skipped_once r k) (miner_loop signer config messages) anything.
Proof.
  intros Hall. eapply (keeps_bind _ _ _ anything); [|intros _; apply keeps_throw].
  apply keeps_for_each. intros m Hm. destruct (Hall m Hm) as (state & -> & <-).
  cbn [miner_step]. eapply (keeps_bind _ _ _ anything).
  - eapply keeps_weaken; [apply keeps_catch, keeps_skipped_block|done].
  - intros [u|e]; [by apply keeps_ret|].
    destruct (is_critical_miner_error e); [apply keeps_throw|by apply keeps_ret].
Qed.

End outcompeted.

(** however many blocks of a round find the miner outcompeted, the counter
    of skipped submissions is increased at most once for the round, and not at
    all when the round was the last one counted. *)
Theorem outcompeted_round_counted_once `{T : MinerConfig} `{SO : ScoreOrder} (h : handler)
    signer config messages r (s : MinerState) (t : trace) :
  (forall m, m ∈ messages -> exists state, m = ProcessBlock state /\ round state = r) ->
  let t' := (run h (miner_loop signer config messages) s t).2 in
  skips t' <= skips t + 1 /\
  (last_outcompeted_round s = Some r -> skips t' = skips t).
Proof.
  intros Hall t'.
  assert (forall k, skipped_once r k s t -> skips t' <= k + 1) as Hk.
  { intros k Hk.
    pose proof (keeps_run _ _ _ h s t (keeps_skipped_loop signer config r k messages Hall) Hk) as H.
    unfold t'. destruct (run h _ s t) as [[o s'] t'']. destruct H as [H _]. cbn.
    unfold skipped_once in H. case_decide; lia. }
  assert (skips t <= skips t') as Hmono.
  { apply skips_suffix. destruct (run_extends h (miner_loop signer config messages) s t) as [new Hn].
    by exists new. }
  split.
  - apply Hk. unfold skipped_once. case_decide; lia.
  - intros Hl. enough (skips t' <= skips t - 1 + 1) by lia. apply Hk.
    unfold skipped_once. rewrite decide_True by done. lia.
Qed.

(** A node with a better score: three blocks, one skipped round. *)
Definition outcompeting_node : Node :=
  with_scores [(2, {| minimal_stake := 99; sum_stake := 0; sum_stake_squared := 0 |})] good_node.

Lemma outcompeted_round_counted_once_witness :
  let t' := (run (node_handler outcompeting_node)
      (miner_loop 1 config0 [ProcessBlock state0; ProcessBlock state0; ProcessBlock state0])
      (miner_init 4) []).2 in
  skips t' = 1 /\ skips t' <= skips [] + 1.
Proof.
  split; [vm_compute; reflexivity|].
  apply (outcompeted_round_counted_once (node_handler outcompeting_node) 1 config0
    [ProcessBlock state0; ProcessBlock state0; ProcessBlock state0] 1 (miner_init 4) []).
  intros m Hm. exists state0. split; [|reflexivity].
  apply elem_of_cons in Hm as [->|Hm]; [reflexivity|].
  apply elem_of_cons in Hm as [->|Hm]; [reflexivity|].
  apply elem_of_cons in Hm as [->|Hm]; [reflexivity|]. by apply not_elem_of_nil in Hm.
Defined.

(** ** Blocks that do nothing *)

(** Nothing was sent, mined or forgotten. *)
Definition untouched `{T : MinerConfig} (s0 : MinerState) (t0 : trace) (s : MinerState) (t : trace) : Prop :=
  sent_txs t = sent_txs t0 /\ mined t = mined t0 /\
  cached_solution s = cached_solution s0 /\
  last_outcompeted_round s = last_outcompeted_round s0.

Lemma untouched_cons `{T : MinerConfig} s0 t0 s t e :
  sent_tx e = None -> mine_event e = None -> untouched s0 t0 s t -> untouched s0 t0 s (e :: t).
Proof.
  intros He Hm (H1 & H2 & H3 & H4). split_and!; try done.
  - by rewrite sent_txs_cons, He, app_nil_r.
  - unfold mined. cbn. by rewrite Hm.
Qed.

#[global] Instance CacheInvariant_untouched `{T : MinerConfig} s0 t0 : CacheInvariant (untouched s0 t0).
Proof.
  split; [|done|done]. intros R o Ho s t x H. apply untouched_cons; [by destruct o|by destruct o|done].
Qed.

Lemma keeps_idle_block `{T : MinerConfig} `{SO : ScoreOrder} signer config state s0 t0 :
  (forall n, phase state = Signed n -> n <= min_signed_phase_blocks config) ->
  keeps (untouched s0 t0) (process_block signer config state) anything.
Proof.
  intros Hphase. unfold process_block, fetch_balance.
  destruct (phase state) as [|n|pg|txt];
    try (pose proof (Hphase n eq_refl) as Hn; apply Z.leb_le in Hn; rewrite Hn);
    repeat ((by apply keeps_fetch_missing_snapshots_lossy, _)
      || keeps_step ltac:(first [quiet | by (intros ? ? ? ?; apply untouched_cons)])).
Qed.

(** outside the signed phase, and when at most [min_signed_phase_blocks]
    blocks of it are left, a block makes the miner send nothing and run no
    solver, and neither the cached solution nor the last lost round change. *)
Theorem idle_outside_signed_phase `{T : MinerConfig} `{SO : ScoreOrder} (h : handler)
    signer config state (s : MinerState) (t : trace) :
  (forall n, phase state = Signed n -> n <= min_signed_phase_blocks config) ->
  let '(_, s', t') := run h (process_block signer config state) s t in
  sent_txs t' = sent_txs t /\ mined t' = mined t /\
  cached_solution s' = cached_solution s /\
  last_outcompeted_round s' = last_outcompeted_round s.
Proof.
  intros Hphase.
  pose proof (keeps_run _ _ _ h s t (keeps_idle_block signer config state s t Hphase)) as H.
  destruct (run h _ s t) as [[o s'] t']. by apply H.
Qed.

Lemma idle_outside_signed_phase_witness :
  let state := {| at_block := block0; phase := Signed 10; bd_n_pages := 4; round := 1;
                  desired_targets := 2; block_number := 100 |} in
  let '(_, s', t') := run (node_handler good_node) (process_block 1 config0 state) (miner_init 4) [] in
  sent_txs t' = sent_txs [] /\ mined t' = mined [] /\
  cached_solution s' = cached_solution (miner_init 4) /\
  last_outcompeted_round s' = last_outcompeted_round (miner_init 4).
Proof.
  intros state. apply (idle_outside_signed_phase (node_handler good_node) 1 config0 state (miner_init 4) []).
  intros n [= <-]. reflexivity.
Defined.

(** ** The end of the task *)

Lemma wp_miner_loop_end `{T : MinerConfig} `{SO : ScoreOrder} signer config messages s t :
  wp Itrue (miner_loop signer config messages) (fun o _ _ =>
    match o with
    | Ok _ => False
    | Err e => is_critical_miner_error e = true
    | _ => True
    end) s t.
Proof.
  apply wp_bind. apply (wp_for_each _ _ _ (fun _ _ _ => True)); [|done|done].
  intros dn m rest s1 t1 _ _. destruct m as [state|]; cbn [miner_step].
  - apply wp_bind, wp_catch.
    eapply (wp_mono Itrue Itrue _ (fun _ _ _ => True)); [done| |].
    + intros [u|e|msg|] s2 t2 _; cbn [bind_post]; try done.
      destruct (is_critical_miner_error e) eqn:He; [by apply wp_throw|by apply wp_ret].
    + apply wp_true.
  - by apply wp_bind, wp_get_snapshot.
Qed.

(** the miner task never returns successfully, and it returns an error only
    when the error is critical or the channel was closed: a failing block is
    otherwise skipped and the next message is processed. *)
Theorem miner_task_exits_only_on_critical `{T : MinerConfig} `{SO : ScoreOrder} (h : handler)
    signer config messages (s : MinerState) (t : trace) :
  match (run h (miner_loop signer config messages) s t).1.1 with
  | Ok _ => False
  | Err e => is_critical_miner_error e = true
  | _ => True
  end.
Proof.
  pose proof (wp_run _ _ _ _ _ h (wp_miner_loop_end signer config messages s t)) as H.
  by destruct (run h _ s t) as [[o s'] t'].
Qed.

(** ** Missing pages *)

(** A submission of which pages 1 and 2 are missing, on a node that drops them. *)
Definition half_submitted_node : Node :=
  with_submission (Some {| claimed_score := score0; sm_pages := [true; false; false; true] |})
    (lossy_node (fun id _ => bool_decide (id = 1 \/ id = 2))).

(** Completing an interrupted submission ignores which pages failed: with
    every missing page dropped, the block is processed without error and a
    successful submission is counted although no page was stored. *)
Theorem missing_pages_failure_counted_as_success :
  exists s' t', run (node_handler half_submitted_node) (process_block 1 config0 state0)
      (miner_init 4) [] = (Ok tt, s', t') /\
    last (metrics t') = Some on_submission_success /\
    map (fun x => x.1.1) (sent_txs t') = [submit_page_call 1 (Some 12); submit_page_call 2 (Some 13)] /\
    pages_stored t' = ∅.
Proof.
  do 2 eexists. split; [vm_compute; reflexivity|].
  split_and!; vm_compute; reflexivity.
Qed.
