(* ===== verification/MinerPanics.v ===== *)
(** * Why a block panics

    The panics of [process_block], with what the node had answered and the state
    of the miner where they happen. *)

From S2P Require Import Prelude RustStr Errors Strategy Chain Metrics Types Effects Traces ChainAccess Scenario Submission SubmissionSpec SnapshotFetch SnapshotSpec SubmissionSends Miner MinerSafety MinerSpec.
Local Open Scope Z_scope.

Section panics.
Context `{T : MinerConfig} `{SO : ScoreOrder}.

(** Where [m] panics, the message, the state and the trace satisfy [P]. *)
Definition panics {S A} (P : string -> S -> trace -> Prop) : outcome A -> S -> trace -> Prop :=
  fun o s t => match o with Panic msg => P msg s t | _ => True end.

Definition panics_only {S A} (P : string -> S -> trace -> Prop) (m : M S A) : Prop :=
  forall s t, wp Itrue m (panics P) s t.

Lemma po_bind {S A B} P (m : M S A) (f : A -> M S B) :
  panics_only P m -> (forall a, panics_only P (f a)) -> panics_only P (mbind f m).
Proof.
  intros Hm Hf s t. apply wp_bind. eapply wp_mono; [done| |apply Hm].
  intros [a|e|msg|] s' t' H; cbn [bind_post]; try done. apply Hf.
Qed.

Lemma po_ret {S A} P (a : A) : panics_only P (mret a : M S A).
Proof. by intros s t. Qed.

Lemma po_throw {S A} P e : panics_only P (throw e : M S A).
Proof. by intros s t. Qed.

Lemma po_ask {S R} P (o : op R) : panics_only P (ask o : M S R).
Proof. intros s t r. by split. Qed.

Lemma po_query {S R} P (o : op (Result R SubxtError)) : panics_only P (query o : M S R).
Proof. intros s t r. split; [done|]. by destruct r. Qed.

Lemma po_catch {S A} (P : string -> S -> trace -> Prop) (m : M S A) : panics_only P m -> panics_only P (catch m).
Proof.
  intros Hm s t. apply wp_catch. eapply wp_mono; [done| |apply Hm]. by intros [].
Qed.

Lemma po_timeout {S A} P secs (m : M S A) : panics_only P m -> panics_only P (timeout secs m).
Proof.
  intros Hm s t. apply wp_timeout; [|done]. eapply wp_mono; [done| |apply Hm]. by intros [].
Qed.

Lemma po_get {S} P : panics_only P (get_state : M S S).
Proof. by intros s t. Qed.

Lemma po_put {S} P (s' : S) : panics_only P (put_state s').
Proof. by intros s t. Qed.

(** ** Why a block panics *)
Context (t0 : trace) (signer : AccountId) (state : BlockDetails).

(** The phase read last is no longer the signed phase. *)
Definition phase_ended (msg : string) (s : MinerState) (t : trace) : Prop :=
  msg = phase_panic /\ not_signed_read t.

(** Nothing was sent since [t0], the cached solution is one of the round, and a
    submission of the account with its score was read that lacks a page the
    solution does not have. *)
Definition page_unmatched (msg : string) (s : MinerState) (t : trace) : Prop :=
  msg = "index out of bounds" /\ sent_txs t = sent_txs t0 /\
  exists sol b md p, cached_solution s = Some sol /\ prs_round sol = round state /\
    Event (TryFetchSubmission b (round state) signer) (ok (Some md)) ∈ t /\
    claimed_score md = score sol /\ 0 <= p < bd_n_pages state /\
    p ∉ submitted_flags (sm_pages md) /\ solution_pages sol !! Z.to_nat p = None.

Definition block_panics (msg : string) (s : MinerState) (t : trace) : Prop :=
  phase_ended msg s t \/ page_unmatched msg s t.

(** A postcondition of the submission code that bounds its panics. *)
Lemma po_post {A} (m : M MinerState A) R : (forall s t, wp Itrue m (post R) s t) -> panics_only block_panics m.
Proof.
  intros Hm s t. eapply wp_mono; [done| |apply Hm]. intros [a|e|msg|] s' t' H; try done. by left.
Qed.

Ltac po_step :=
  lazymatch goal with
  | |- panics_only _ (mret _) => apply po_ret
  | |- panics_only _ (throw _) => apply po_throw
  | |- panics_only _ (mbind _ _) => apply po_bind; [|intros ?]
  | |- panics_only _ (ask _) => apply po_ask
  | |- panics_only _ (metric _) => apply po_ask
  | |- panics_only _ (query _) => apply po_query
  | |- panics_only _ (catch _) => apply po_catch
  | |- panics_only _ (timeout _ _) => apply po_timeout
  | |- panics_only _ get_state => apply po_get
  | |- panics_only _ (put_state _) => apply po_put
  | |- panics_only _ (of_result ?r) => destruct r; unfold of_result
  | |- panics_only _ (match ?x with _ => _ end) => destruct x
  end.

Lemma po_mine b rnd np dt bn red : panics_only block_panics (mine_and_validate b rnd np dt bn red).
Proof.
  intros s t. unfold mine_and_validate. apply wp_bind.
  eapply wp_mono; [done| |apply wp_fetch_missing].
  intros [u|e|msg|] s1 t1 H1; cbn [bind_post]; try done.
  destruct H1 as (_ & _ & (v & k & Hv & _)).
  apply wp_bind, wp_get_snapshot. cbn [bind_post]. unfold snapshot_get. rewrite Hv.
  match goal with |- wp _ ?m _ _ _ => enough (panics_only block_panics m) by auto end.
  unfold mine_solution. repeat po_step.
Qed.

Lemma po_solution config : panics_only block_panics (solution_of_round config state).
Proof.
  intros s t. unfold solution_of_round, set_cached_solution. apply wp_bind, wp_get. cbn [bind_post].
  apply wp_bind. case_decide as Hc.
  - apply wp_ret. cbn [bind_post]. apply wp_bind, wp_get. cbn [bind_post].
    by destruct (cached_solution s).
  - apply wp_bind. eapply wp_mono; [done| |apply po_mine].
    intros [sol|e|msg|] s1 t1 H1; cbn [bind_post]; try done.
Qed.

Lemma po_lossy b rnd : panics_only block_panics
  (fetch_missing_snapshots_lossy b rnd : M MinerState unit).
Proof.
  intros s t. unfold fetch_missing_snapshots_lossy. apply wp_bind, wp_get_snapshot. cbn [bind_post].
  set (n := n_pages (snapshot_of s)). apply wp_bind.
  apply (wp_for_each _ _ _ (fun _ s' _ => n_pages (snapshot_of s') = n)); [| |done].
  - intros dn p rest s1 t1 Hseq Hn.
    assert (p ∈ seqZ 0 n) as [_ Hp]%elem_of_seqZ by (rewrite Hseq; set_solver).
    apply wp_bind, wp_catch. eapply wp_mono; [done| |apply wp_check_voter; lia].
    intros [u|e|msg|] s2 t2 H2; cbn [bind_post]; try done.
    + destruct H2 as (_ & _ & Hn2 & _). apply wp_ret. congruence.
    + subst s2. by destruct e.
  - intros s1 t1 Hn. cbn [bind_post]. apply wp_bind, wp_catch.
    eapply wp_mono; [done| |apply wp_check_target].
    by intros [u|e|msg|] s2 t2 H2.
Qed.

Lemma po_bail : panics_only block_panics (bail : M MinerState unit).
Proof. unfold bail, sign_and_submit, wait_tx_in_finalized_block. repeat po_step. Qed.

Lemma po_with_timeout {A} secs (body : M MinerState A) m e :
  panics_only block_panics body -> panics_only block_panics (with_timeout secs body m e).
Proof. intros Hb. unfold with_timeout. repeat (exact Hb || po_step). Qed.

Lemma po_shady_loop n : panics_only block_panics (shady_register_loop 10 n : M MinerState TxProgress).
Proof.
  assert (forall tries, tries <> 0%nat ->
    panics_only block_panics (shady_register_loop tries n : M MinerState TxProgress)) as H by
    (induction tries as [|tries IH]; intros Ht; cbn [shady_register_loop]; [done|];
     unfold account_nonce, register_score, to_scale_value, submit_inner, sign_and_submit;
     repeat ((by apply IH) || po_step)).
  by apply H.
Qed.

Ltac po_leaf :=
  lazymatch goal with
  | |- panics_only _ (fetch_missing_snapshots_lossy _ _) => apply po_lossy
  | |- panics_only _ (solution_of_round _ _) => apply po_solution
  | |- panics_only _ bail => apply po_bail
  | |- panics_only _ (shady_register_loop _ _) => apply po_shady_loop
  | |- panics_only _ (with_timeout _ _ _ _) => apply po_with_timeout
  | |- panics_only _ (submit _ _ _ _ _) =>
      eapply po_post; intros; apply post_submit
  | |- panics_only _ (submit_pages _ _ _ _ _) =>
      eapply po_post; intros; apply post_submit_pages
  | |- _ => po_step
  end.

Ltac po_auto := repeat po_leaf.

(** ** While nothing is sent *)

Definition idle (s : MinerState) (t : trace) : Prop := sent_txs t = sent_txs t0.

Definition idle_with (sol : PagedRawSolution) (s : MinerState) (t : trace) : Prop :=
  idle s t /\ cached_solution s = Some sol.

Lemma idle_cons {R} (o : op R) r s t :
  sent_tx (Event o r) = None -> idle s t -> idle s (Event o r :: t).
Proof. unfold idle. intros Ho Hi. rewrite sent_txs_cons, Ho. cbn. by rewrite app_nil_r. Qed.

#[local] Instance Quiet_idle : Quiet idle.
Proof. intros R o Ho s t r Hi. apply idle_cons; [by destruct o|done]. Qed.

#[local] Instance Quiet_idle_with sol : Quiet (idle_with sol).
Proof. intros R o Ho s t r [Hi Hc]. split; [|done]. apply idle_cons; [by destruct o|done]. Qed.

#[local] Instance CacheInvariant_idle : CacheInvariant idle.
Proof. by split; [apply _|..]. Qed.

Lemma idle_metric m : neutral idle (MetricOp m).
Proof. intros s t r Hi. by apply idle_cons. Qed.

Lemma idle_with_metric sol m : neutral (idle_with sol) (MetricOp m).
Proof. intros s t r [Hi Hc]. split; [|done]. by apply idle_cons. Qed.

Ltac idles := first [quiet | apply idle_metric | apply idle_with_metric].
Ltac keeps_idle := repeat (keeps_step idles).

(** First a part that sends nothing and panics only so. *)
Lemma po_idle_bind {A B} (I : MinerState -> trace -> Prop) (m : M MinerState A) (f : A -> M MinerState B) R s t :
  keeps I m R -> panics_only block_panics m -> I s t ->
  (forall a s' t', I s' t' -> R a s' t' -> wp Itrue (f a) (panics block_panics) s' t') ->
  wp Itrue (mbind f m) (panics block_panics) s t.
Proof.
  intros Hk Hp Hi Hf. apply wp_bind.
  eapply wp_mono; [| |exact (wp_and _ _ _ _ _ s t (Hk s t Hi) (Hp s t))]; [done|].
  intros [a|e|msg|] s' t' [[HI HR] HP]; cbn [bind_post]; try done. by apply Hf.
Qed.

Lemma keeps_idle_mine b rnd np dt bn red :
  keeps idle (mine_and_validate b rnd np dt bn red) (fun sol _ _ => prs_round sol = rnd).
Proof.
  unfold mine_and_validate.
  eapply (keeps_bind _ _ _ anything); [by apply keeps_fetch_missing_snapshots, _|intros _].
  eapply (keeps_bind _ _ _ anything); [by apply keeps_get_snapshot|intros x].
  destruct (snapshot_get x) as [[ts vs]|]; [|apply keeps_panic].
  eapply (keeps_bind _ _ _ anything).
  { unfold mine_solution. repeat (keeps_step ltac:(first [idles | intros ? ? ? ?; by apply idle_cons])). }
  intros [[sol|e]|]; [|apply keeps_throw|eapply (keeps_bind _ _ _ anything); [keeps_idle|intros; apply keeps_throw]].
  eapply (keeps_bind _ _ _ anything); [keeps_idle|intros _].
  destruct (Z.eqb_spec rnd (prs_round sol)) as [Hrnd|]; cbn [negb]; [|apply keeps_throw].
  eapply (keeps_bind _ _ _ anything); [keeps_idle|intros n]. destruct (_ <? _); [apply keeps_throw|].
  eapply (keeps_bind _ _ _ anything); [keeps_idle|intros w]. destruct (negb _); [apply keeps_throw|].
  by apply keeps_ret.
Qed.

Lemma keeps_idle_solution config :
  keeps idle (solution_of_round config state)
    (fun sol s _ => cached_solution s = Some sol /\ prs_round sol = round state).
Proof.
  intros s t Hi. unfold solution_of_round, set_cached_solution.
  apply wp_bind, wp_get. cbn [bind_post]. apply wp_bind. case_decide as Hr.
  - apply wp_ret. cbn [bind_post]. apply wp_bind, wp_get. cbn [bind_post].
    destruct (cached_solution s) as [sol|] eqn:Hc; [|done]. injection Hr as Hr. by apply wp_ret.
  - apply wp_bind. eapply wp_mono; [done| |by apply keeps_idle_mine].
    by intros [sol|e|msg|] s1 t1 [Hi1 Hv].
Qed.

(** The submission read: if it is incomplete, it is the one on the chain. *)
Definition read_incomplete (c : CurrentSubmission) (t : trace) : Prop :=
  forall sub, c = Incomplete sub -> exists b md,
    Event (TryFetchSubmission b (round state) signer) (ok (Some md)) ∈ t /\
    sub = {| is_score := claimed_score md; is_pages := submitted_flags (sm_pages md);
             is_n_pages := bd_n_pages state |}.

Lemma keeps_idle_existing sol :
  keeps (idle_with sol) (fetch_existing_submission signer (round state) (bd_n_pages state))
    (fun r _ t => read_incomplete r.2 t).
Proof.
  apply keeps_with_timeout; [apply idle_with_metric|].
  eapply (keeps_bind _ _ _ anything); [by apply keeps_storage_at_head, _|intros head].
  eapply (keeps_bind_post _ _ _ (fun c _ t => read_incomplete c t)).
  - intros s t Hi. unfold get_submission. wp_quiet; [|done].
    destruct a as [md|]; [|by apply wp_ret].
    destruct (_ =? _); apply wp_ret; (split; [done|]); intros sub [= <-]. exists head, md. split; [by left|done].
  - intros c s t Hi Hc. apply wp_bind, wp_metric; [by apply idle_with_metric|]. apply wp_ret.
    split; [by apply idle_with_metric|]. intros sub Hsub. destruct (Hc sub Hsub) as (b & md & He & E).
    exists b, md. split; [by right|done].
Qed.

Lemma mapM_None_elem {A B} (f : A -> option B) l : mapM f l = None -> exists x, x ∈ l /\ f x = None.
Proof.
  induction l as [|x l IH]; cbn; [done|]. destruct (f x) as [y|] eqn:E; cbn.
  - destruct (mapM f l); cbn; [done|]. intros _. destruct (IH eq_refl) as (z & Hz & Hf). exists z. split; [by right|done].
  - intros _. exists x. split; [by left|done].
Qed.

(** Completing a submission: the panic of a page that is not there. *)
Lemma wp_panics_missing config sub sol s t :
  idle_with sol s t -> prs_round sol = round state -> is_score sub = score sol -> read_incomplete (Incomplete sub) t ->
  wp Itrue (submit_missing_pages signer config sub sol (round state)) (panics block_panics) s t.
Proof.
  intros [Hi Hc] Hr Hs Hread. unfold submit_missing_pages.
  destruct (collect_missing sub (solution_pages sol)) as [missing|] eqn:Hm.
  - match goal with |- wp _ ?m _ _ _ => enough (panics_only block_panics m) by auto end. po_auto.
  - destruct (Hread sub eq_refl) as (b & md & He & ->). cbn in Hs.
    apply mapM_None_elem in Hm as (p & [Hp Hin%elem_of_seqZ]%list_elem_of_filter & Hf). cbn in Hp, Hin.
    right. split; [done|]. split; [exact Hi|]. exists sol, b, md, p. split_and!; try done; try lia.
    by apply fmap_None in Hf.
Qed.

Lemma wp_panics_submit_if_better config sol s t :
  idle_with sol s t -> prs_round sol = round state ->
  wp Itrue (submit_if_better signer config state sol) (panics block_panics) s t.
Proof.
  intros Hi Hr. unfold submit_if_better, fetch_minimum_score.
  eapply (po_idle_bind (idle_with sol) _ _ anything); [keeps_idle|po_auto|done|]. intros minimum s1 t1 Hi1 _.
  destruct (meets_minimum_score (score sol) minimum) eqn:Hm; cbn [negb]; [|by destruct minimum].
  eapply (po_idle_bind (idle_with sol)); [apply keeps_idle_existing| |done|].
  { unfold fetch_existing_submission, get_submission, storage_at_head, get_latest_finalized_head, storage_at. po_auto. }
  intros [head existing] s2 t2 Hi2 Hread. cbn [snd] in Hread. apply wp_bind.
  assert (wp Itrue (handle_existing signer config existing sol (round state)) (panics block_panics) s2 t2) as Hex.
  { destruct existing as [sc|sub|]; cbn [handle_existing].
    - match goal with |- wp _ ?m _ _ _ => enough (panics_only block_panics m) by auto end.
      unfold revert_submission, signed_phase, storage_at_head, get_latest_finalized_head, storage_at. po_auto.
    - case_decide as Hs.
      + apply wp_bind. eapply wp_mono; [done| |by apply (wp_panics_missing config sub sol)].
        by intros [u|e|msg|] s3 t3 H3; cbn [bind_post]; [apply wp_ret|..].
      + match goal with |- wp _ ?m _ _ _ => enough (panics_only block_panics m) by auto end.
        unfold revert_submission, signed_phase, storage_at_head, get_latest_finalized_head, storage_at. po_auto.
    - by apply wp_ret. }
  eapply wp_mono; [done| |exact Hex]. intros [go|e|msg|] s3 t3 H3; cbn [bind_post]; try done.
  match goal with |- wp _ ?m _ _ _ => enough (panics_only block_panics m) by auto end.
  unfold check_competitive, submit_solution, score_better, set_last_outcompeted_round. po_auto.
Qed.

Lemma wp_panics_process_block config s t : idle s t ->
  wp Itrue (process_block signer config state) (panics block_panics) s t.
Proof.
  intros Hi. unfold process_block.
  eapply (po_idle_bind idle _ _ anything); [unfold fetch_balance; keeps_idle|unfold fetch_balance; po_auto|done|].
  intros [info|] s1 t1 Hi1 _; [|by apply wp_ret].
  eapply (po_idle_bind idle _ _ anything); [keeps_idle|po_auto|done|]. intros _ s2 t2 Hi2 _.
  destruct (phase state) as [|n|pg|txt] eqn:Hph; try (by apply wp_ret); [|by apply po_lossy].
  destruct (_ <=? _); [by apply wp_ret|]. unfold process_signed.
  eapply (po_idle_bind idle _ _ anything); [| |done|].
  { apply keeps_with_timeout; [apply idle_metric|].
    eapply (keeps_bind _ _ _ anything); [by apply keeps_storage_at_head, _|intros head].
    unfold has_submitted, get_submission. keeps_idle. }
  { unfold check_already_submitted, has_submitted, get_submission, storage_at_head, get_latest_finalized_head, storage_at.
    po_auto. }
  intros [|] s3 t3 Hi3 _; [by apply wp_ret|].
  eapply po_idle_bind; [apply keeps_idle_solution|po_auto|done|]. intros sol s4 t4 Hi4 [Hc Hr].
  destruct (shady config); [|by apply wp_panics_submit_if_better].
  match goal with |- wp _ ?m _ _ _ => enough (panics_only block_panics m) by auto end.
  unfold execute_shady_behavior, wait_tx_in_finalized_block. po_auto.
Qed.

End panics.

(** C22: The panics of a block and their causes.  A block panics only with the
    message of [get_signed_phase_blocks_remaining], when the phase read last is
    not the signed phase; or with an index out of bounds before it has sent
    anything, when the submission of the account that was read claims the score
    of the cached solution of the round and lacks a page that this solution does
    not have.  The [expect]s on the fetched snapshot, the cached solution and the
    minimum score, the page bound of the cache, the failed pages that are sent
    again and the retry loops never panic. *)
Theorem process_block_panics `{T : MinerConfig} `{SO : ScoreOrder} (h : handler)
    signer config state (s : MinerState) (t : trace) :
  let '(o, s', t') := run h (process_block signer config state) s t in
  forall msg, o = Panic msg ->
    (msg = phase_panic /\ not_signed_read t') \/
    (msg = "index out of bounds" /\ sent_txs t' = sent_txs t /\
     exists sol b md p, cached_solution s' = Some sol /\ prs_round sol = round state /\
       Event (TryFetchSubmission b (round state) signer) (ok (Some md)) ∈ t' /\
       claimed_score md = score sol /\ 0 <= p < bd_n_pages state /\
       p ∉ submitted_flags (sm_pages md) /\ solution_pages sol !! Z.to_nat p = None).
Proof.
  pose proof (wp_run _ _ _ _ _ h (wp_panics_process_block t signer state config s t eq_refl)) as H.
  destruct (run h _ s t) as [[o s'] t']. intros msg ->. exact H.
Qed.

(** Both happen: the phase ends after a batch was validated, and a submission of
    six pages is completed with a solution of four. *)
Lemma process_block_panics_witness :
  (exists s' t', run (node_handler ending_node) (process_block 1 config0 state0) (miner_init 4) []
     = (Panic phase_panic, s', t') /\ not_signed_read t') /\
  (exists s' t', run (node_handler (with_submission
       (Some {| claimed_score := score0; sm_pages := [true; true; true; true; false; false] |}) good_node))
       (process_block 1 config0 {| at_block := block0; phase := Signed 50; bd_n_pages := 6; round := 1;
          desired_targets := 2; block_number := 100 |}) (miner_init 4) []
     = (Panic "index out of bounds", s', t') /\ sent_txs t' = []).
Proof.
  split.
  - pose proof (process_block_panics (node_handler ending_node) 1 config0 state0 (miner_init 4) []) as H.
    destruct (run _ _ _ _) as [[o s'] t'] eqn:Hrun. vm_compute in Hrun.
    injection Hrun as <- <- <-. do 2 eexists. split; [reflexivity|].
    destruct (H _ eq_refl) as [[_ Hp]|[Hmsg _]]; [exact Hp|discriminate].
  - do 2 eexists. split; [vm_compute; reflexivity|vm_compute; reflexivity].
Defined.
