(* ===== verification/Delivery.v ===== *)
(** * What a cooperative node receives

    Total correctness of the path that matters most: on a node that answers,
    includes transactions and stays in the signed phase, [submit] of
    [src/dynamic/multi_block.rs] returns [Ok] after sending the registration and
    every page exactly once, in order, whatever the chunk size; and
    [process_block] of [src/commands/multi_block/monitor.rs] mines the solution of
    the round, if it has none, and submits it so.

    [delivers h s m L Q]: from state [s], against [h], the call returns a value;
    it sends exactly the calls [L], and value and final state satisfy [Q]. *)

From S2P Require Import Prelude RustStr Errors Strategy Chain Metrics Types Effects Calls Traces ChainAccess Scenario Submission SubmissionSpec SnapshotFetch SnapshotSpec Miner.
Local Open Scope Z_scope.

Section judgement.
Context `{T : MinerConfig} {S : Type} (h : handler).

(** The calls of the transactions of a trace, oldest first. *)
Definition calls (t : trace) : list Call := (sent_txs t).*1.*1.

Definition delivers {A} (s : S) (m : M S A) (L : list Call) (Q : A -> S -> Prop) : Prop :=
  forall t, exists a s' t', run h m s t = (Ok a, s', t') /\ calls t' = calls t ++ L /\ Q a s'.

(** Operations that send nothing. *)
Definition sends_nothing {R} (o : op R) : bool :=
  match o with SubmitAndWatch _ _ _ => false | _ => true end.

Lemma calls_cons {R} (o : op R) r t : sends_nothing o = true -> calls (Event o r :: t) = calls t.
Proof. intros Ho. unfold calls. rewrite sent_txs_cons. destruct o; try done; cbn; by rewrite app_nil_r. Qed.

Lemma delivers_ret {A} s (a : A) Q : Q a s -> delivers s (mret a) [] Q.
Proof. intros HQ t. exists a, s, t. by rewrite app_nil_r. Qed.

Lemma delivers_bind {A B} s (m : M S A) (f : A -> M S B) L1 L2 P Q :
  delivers s m L1 P -> (forall a s', P a s' -> delivers s' (f a) L2 Q) ->
  delivers s (mbind f m) (L1 ++ L2) Q.
Proof.
  intros Hm Hf t. destruct (Hm t) as (a & s' & t' & Hr & Hc & HP).
  destruct (Hf a s' HP t') as (b & s'' & t'' & Hr' & Hc' & HQ).
  exists b, s'', t''. split; [rewrite run_mbind, Hr; exact Hr'|]. split; [|done].
  by rewrite Hc', Hc, <- app_assoc.
Qed.

(** First a call that sends nothing, or last one that does not. *)
Lemma delivers_then {A B} s (m : M S A) (f : A -> M S B) L P Q :
  delivers s m [] P -> (forall a s', P a s' -> delivers s' (f a) L Q) -> delivers s (mbind f m) L Q.
Proof. apply delivers_bind. Qed.

Lemma delivers_last {A B} s (m : M S A) (f : A -> M S B) L P Q :
  delivers s m L P -> (forall a s', P a s' -> delivers s' (f a) [] Q) -> delivers s (mbind f m) L Q.
Proof. intros Hm Hf. rewrite <- (app_nil_r L). by eapply delivers_bind. Qed.

Lemma delivers_weaken {A} s (m : M S A) L (P Q : A -> S -> Prop) :
  delivers s m L P -> (forall a s', P a s' -> Q a s') -> delivers s m L Q.
Proof. intros Hm HPQ t. destruct (Hm t) as (a & s' & t' & Hr & Hc & HP). eauto 8. Qed.

Lemma delivers_ask {R} s (o : op R) Q :
  sends_nothing o = true -> (forall t, Q (answer h _ o t) s) -> delivers s (ask o) [] Q.
Proof.
  intros Ho HQ t. exists (answer h _ o t), s, (Event o (answer h _ o t) :: t).
  rewrite app_nil_r. split; [done|]. split; [by apply calls_cons|done].
Qed.

Lemma delivers_metric s m (Q : unit -> S -> Prop) : Q tt s -> delivers s (metric m) [] Q.
Proof. intros HQ. apply delivers_ask; [done|]. intros t. by destruct (answer h _ _ t). Qed.

(** The same before a call. *)
Lemma delivers_metric_then {A} s m (k : M S A) L Q : delivers s k L Q -> delivers s (metric m;; k) L Q.
Proof.
  intros Hk. eapply delivers_then; [by apply (delivers_metric _ _ (fun _ s' => s' = s))|]. by intros _ s' ->.
Qed.

Lemma delivers_query {R} s (o : op (Result R SubxtError)) (P : R -> Prop) :
  sends_nothing o = true -> (forall t, exists r, answer h _ o t = ok r /\ P r) ->
  delivers s (query o) [] (fun r s' => s' = s /\ P r).
Proof.
  intros Ho HP t. destruct (HP t) as (r & Hr & HPr). exists r, s, (Event o (ok r) :: t).
  rewrite app_nil_r. split; [cbn; by rewrite Hr|]. split; [by apply calls_cons|done].
Qed.

Lemma delivers_submit s c nonce mortality (P : TxProgress -> Prop) :
  (forall t, exists p, answer h _ (SubmitAndWatch c nonce mortality) t = ok p /\ P p) ->
  delivers s (query (SubmitAndWatch c nonce mortality)) [c] (fun p s' => s' = s /\ P p).
Proof.
  intros HP t. destruct (HP t) as (p & Hp & HPp).
  exists p, s, (Event (SubmitAndWatch c nonce mortality) (ok p) :: t).
  split; [cbn; by rewrite Hp|]. split; [|done].
  unfold calls. rewrite sent_txs_cons. cbn. by rewrite !fmap_app.
Qed.

Lemma delivers_get s (Q : S -> S -> Prop) : Q s s -> delivers s get_state [] Q.
Proof. intros HQ t. exists s, s, t. by rewrite app_nil_r. Qed.

Lemma delivers_get_then {A} s (f : S -> M S A) L Q : delivers s (f s) L Q -> delivers s (mbind f get_state) L Q.
Proof.
  intros Hf. eapply delivers_then; [by apply (delivers_get _ (fun x s' => x = s /\ s' = s))|]. by intros x s' [-> ->].
Qed.

Lemma delivers_put s s' (Q : unit -> S -> Prop) : Q tt s' -> delivers s (put_state s') [] Q.
Proof. intros HQ t. exists tt, s', t. by rewrite app_nil_r. Qed.

Lemma delivers_catch {A} s (m : M S A) L Q :
  delivers s m L Q -> delivers s (catch m) L (fun r s' => exists a, r = ok a /\ Q a s').
Proof.
  intros Hm t. destruct (Hm t) as (a & s' & t' & Hr & Hc & HQ). exists (ok a), s', t'.
  split; [unfold catch; by rewrite run_pbind, Hr|eauto].
Qed.

Lemma delivers_for_each {A} (body : A -> M S unit) (J : list A -> S -> Prop) xs : forall s,
  J xs s -> (forall x rest s, J (x :: rest) s -> delivers s (body x) [] (fun _ s' => J rest s')) ->
  delivers s (for_each xs body) [] (fun _ s' => J [] s').
Proof.
  induction xs as [|x xs IH]; intros s HJ Hb; [by apply delivers_ret|].
  eapply delivers_then; [by apply Hb|]. intros [] s' HJ'. by apply IH.
Qed.

Context (no_timers : forall secs t, fires h secs t = false).

Lemma delivers_timeout {A} s secs (m : M S A) L Q :
  delivers s m L Q -> delivers s (timeout secs m) L (fun r s' => exists a, r = Some (ok a) /\ Q a s').
Proof using no_timers.
  intros Hm t. destruct (Hm t) as (a & s' & t' & Hr & Hc & HQ). exists (Some (ok a)), s', t'.
  split; [unfold timeout; by rewrite run_pbind, run_cancellable, Hr|eauto].
Qed.

Lemma delivers_with_timeout {A} s secs (m : M S A) on_timeout e L Q :
  delivers s m L Q -> delivers s (with_timeout secs m on_timeout e) L Q.
Proof using no_timers.
  intros Hm. unfold with_timeout. eapply delivers_last; [by apply delivers_timeout|].
  intros r s' (a & -> & HQ). by apply delivers_ret.
Qed.

End judgement.

#[global] Arguments delivers : simpl never.

(** ** Nodes that answer

    A node that answers every read, stays in the signed phase with more than
    [min_blocks] blocks left, and lets transactions be signed; no timer fires. *)
Class Answering `{T : MinerConfig} (h : handler) (min_blocks : Z) : Prop := {
  co_timers secs t : fires h secs t = false;
  co_current t : exists b, answer h _ AtCurrentBlock t = ok b;
  co_block hash t : exists b, answer h _ (AtBlockHash hash) t = ok b;
  co_phase b t : exists n, answer h _ (TryFetchCurrentPhase b) t = ok (Some (Signed n)) /\ min_blocks < n;
  co_nonce t : exists n, answer h _ AccountNonce t = ok n;
  co_encodes t : answer h _ ToScaleValue t = ok tt;
  co_signs c nonce mortality t : answer h _ (CreateSigned c nonce mortality) t = ok tt;
}.

Section reads.
Context `{T : MinerConfig} {S : Type} (h : handler) (min_blocks : Z) `{C : !Answering h min_blocks}.

(** The state is left alone, and the value satisfies [P]. *)
Definition same {A} (s : S) (P : A -> Prop) : A -> S -> Prop := fun a s' => s' = s /\ P a.

Lemma delivers_read {R} s (o : op (Result R SubxtError)) :
  sends_nothing o = true -> (forall t, exists r, answer h _ o t = ok r) ->
  delivers h s (query o) [] (same s (fun _ => True)).
Proof.
  intros Ho Hr. apply delivers_query; [done|]. intros t. destruct (Hr t) as [r E]. by exists r.
Qed.

Lemma delivers_current_then {A} s (f : AtBlock -> M S A) L Q :
  (forall b, delivers h s (f b) L Q) -> delivers h s (mbind f (query AtCurrentBlock)) L Q.
Proof using C.
  intros Hf. eapply delivers_then; [apply delivers_read; [done|apply co_current]|]. by intros b s' [-> _].
Qed.

Lemma delivers_storage_at_head s : delivers h s storage_at_head [] (same s (fun _ => True)).
Proof using C.
  unfold storage_at_head, get_latest_finalized_head, storage_at.
  apply (delivers_then _ _ _ _ _ (same s (fun _ => True))).
  - apply delivers_current_then. intros b. by apply delivers_ret.
  - intros b s' [-> _]. apply delivers_read; [done|intros t; apply co_block].
Qed.

Lemma delivers_phase s : delivers h s current_phase_at_head []
  (same s (fun p => exists n, p = Signed n /\ min_blocks < n)).
Proof using C.
  unfold current_phase_at_head. eapply delivers_then; [apply delivers_storage_at_head|].
  intros b s' [-> _]. eapply delivers_then.
  - apply (delivers_query _ _ _ (fun p => exists n, p = Some (Signed n) /\ min_blocks < n)); [done|].
    intros t. destruct (co_phase b t) as (n & Hn & Hlt). exists (Some (Signed n)). eauto.
  - intros p s' (-> & n & -> & Hlt). apply delivers_ret. split; [done|]. by exists n.
Qed.

Lemma delivers_validate s n signer rnd (Q : unit -> S -> Prop) : min_blocks < n -> Q tt s ->
  delivers h s (validate_signed_phase_or_bail (Signed n) signer rnd min_blocks) [] Q.
Proof.
  intros Hn HQ. cbn. destruct (Z.leb_spec n min_blocks); [lia|]. by apply delivers_ret.
Qed.

(** Reading the phase and checking it, as before every step of [submit]. *)
Lemma delivers_validated {A} s signer rnd (m : Phase -> M S A) L Q :
  (forall n, delivers h s (m (Signed n)) L Q) ->
  delivers h s (current_phase ← current_phase_at_head;
    validate_signed_phase_or_bail current_phase signer rnd min_blocks;; m current_phase) L Q.
Proof using C.
  intros Hm. eapply delivers_then; [apply delivers_phase|]. intros p s' (-> & n & -> & Hlt).
  eapply delivers_then; [by apply (delivers_validate _ _ _ _ (fun _ s' => s' = s))|].
  by intros _ s' ->.
Qed.

Lemma delivers_account_nonce s : delivers h s account_nonce [] (same s (fun _ => True)).
Proof using C.
  unfold account_nonce. apply delivers_current_then. intros b. apply delivers_read; [done|apply co_nonce].
Qed.

Lemma delivers_scale_then {A} s (k : M S A) L Q : delivers h s k L Q -> delivers h s (to_scale_value;; k) L Q.
Proof using C.
  intros Hk. apply (delivers_then _ _ _ _ _ (fun _ s' => s' = s)); [|by intros _ s' ->].
  eapply delivers_then; [apply (delivers_ask _ _ _ (fun r s' => r = ok tt /\ s' = s)); [done|]|].
  - intros t. split; [apply co_encodes|done].
  - intros r s' [-> ->]. by apply delivers_ret.
Qed.

Lemma delivers_register_score s sc : delivers h s (register_score sc) []
  (same s (.= {| kind := RegisterScore; tx := register sc |})).
Proof using C. apply delivers_scale_then. by apply delivers_ret. Qed.

Lemma delivers_submit_page s page sol : delivers h s (submit_page page sol) []
  (same s (.= {| kind := SubmitPage page; tx := submit_page_call page sol |})).
Proof using C. do 2 apply delivers_scale_then. by apply delivers_ret. Qed.

(** The calls of pages. *)
Definition page_calls (pages : list (Z * Solution)) : list Call :=
  (fun x => submit_page_call x.1 (Some x.2)) <$> pages.

End reads.

(** ** Cooperative nodes

    A node that moreover includes every transaction with the events the pallet
    emits for it: [Registered] for a score, and [Stored] for a page, of that page
    only.  It may choose handles, blocks, the order in which transactions complete
    and the other events from the whole history. *)
Class Cooperative `{T : MinerConfig} (h : handler) (min_blocks : Z) : Type := {
  co_answers :: Answering h min_blocks;
  carries : TxProgress -> Call -> Prop;
  includes : TxInBlock -> Call -> Prop;
  co_accepts c nonce mortality t :
    exists p, answer h _ (SubmitAndWatch c nonce mortality) t = ok p /\ carries p c;
  co_finalizes p c t : carries p c -> exists x, answer h _ (WaitForFinalized p) t = ok x /\ includes x c;
  co_registers x sc t : includes x (register sc) ->
    exists evs, answer h _ (WaitForSuccess x) t = ok evs /\ ok Registered ∈ evs;
  co_stores x page sol t : includes x (submit_page_call page sol) ->
    exists evs, answer h _ (WaitForSuccess x) t = ok evs /\
      Forall (fun e => is_ok e = true) evs /\ stored_event_pages evs = {[page]};
}.

Section submits.
Context `{T : MinerConfig} {S : Type} (h : handler) (min_blocks : Z) `{C : !Cooperative h min_blocks}.

Lemma delivers_submit_inner (s : S) t nonce n :
  delivers h s (submit_inner t nonce n) [tx t] (same (S := S) s (fun p => carries p (tx t))).
Proof using C.
  unfold submit_inner, sign_and_submit.
  apply (delivers_current_then h min_blocks). intros b.
  eapply delivers_then; [apply delivers_read; [done|]|].
  { intros t'. exists tt. apply co_signs. }
  intros [] s' [-> _]. apply delivers_submit. intros t'. apply co_accepts.
Qed.

Lemma delivers_wait (s : S) p c : carries p c ->
  delivers h s (wait_tx_in_finalized_block p) [] (same (S := S) s (fun x => includes x c)).
Proof using C. intros Hp. apply delivers_query; [done|]. intros t. by apply co_finalizes. Qed.

(** A transaction under way for each page, in order. *)
Definition under_way (pages : list (Z * Solution)) (txs : list (Z * TxProgress)) : Prop :=
  Forall2 (fun x y => y.1 = x.1 /\ carries y.2 (submit_page_call x.1 (Some x.2))) pages txs.

Lemma delivers_batch_loop pages : forall (s : S) nonce,
  delivers h s (submit_batch_loop pages nonce) (page_calls pages) (same s (under_way pages)).
Proof using C.
  induction pages as [|[page sol] pages IH]; intros s nonce.
  { apply delivers_ret. split; [done|constructor]. }
  cbn [submit_batch_loop]. eapply delivers_then; [apply (delivers_phase h min_blocks)|].
  intros p s' (-> & n & -> & _). cbn [get_signed_phase_blocks_remaining].
  eapply delivers_then; [by apply (delivers_ret _ _ n (fun a s' => s' = s))|]. intros n' s' ->.
  eapply delivers_then; [apply (delivers_submit_page h min_blocks)|]. intros t s' [-> ->].
  change (page_calls ((page, sol) :: pages)) with ([submit_page_call page (Some sol)] ++ page_calls pages).
  eapply delivers_bind; [apply delivers_submit_inner|]. cbn [tx]. intros p s' [-> Hp].
  eapply delivers_last; [apply IH|]. intros txs s' [-> Htxs]. apply delivers_ret.
  split; [done|]. by constructor.
Qed.

Lemma stored_pages_total evs : forall acc, Forall (fun e => is_ok e = true) evs ->
  stored_pages evs acc = ok (stored_event_pages evs ∪ acc).
Proof.
  induction evs as [|[e|e] evs IH]; intros acc Hall; inversion_clear Hall; try done.
  - cbn. f_equal. set_solver.
  - unfold stored_event_pages in *. destruct e; cbn; rewrite IH by done; f_equal; set_solver.
Qed.

(** The transactions of pages complete in any order. *)
Lemma delivers_process_txs n : forall (s : S) pages (txs : list (Z * TxProgress)) failed submitted,
  length txs = n ->
  Forall (fun y => exists sol, carries y.2 (submit_page_call y.1 sol)) txs ->
  list_to_set txs.*1 ∪ submitted = pages ->
  delivers h s (process_txs n txs failed submitted) [] (same s (.= (failed, pages))).
Proof using C.
  induction n as [|n IH]; intros s pages txs failed submitted Hn Htxs Hpages.
  { destruct txs; [|done]. apply delivers_ret. split; [done|]. f_equal. set_solver. }
  cbn [process_txs].
  eapply delivers_then; [apply (delivers_ask _ _ _ (fun _ s' => s' = s)); done|]. intros i s' ->.
  destruct (txs !! (i mod length txs)%nat) as [[page p]|] eqn:Hi.
  2: { apply lookup_ge_None in Hi. assert (length txs <> 0)%nat as Hl by lia.
       pose proof (Nat.mod_upper_bound i _ Hl). lia. }
  pose proof Hi as Hdel. apply delete_Permutation in Hdel.
  set (rest := delete (i mod length txs)%nat txs) in *. clearbody rest.
  assert (list_to_set txs.*1 = {[page]} ∪ list_to_set (C := gset Z) rest.*1) as Hset
    by (rewrite Hdel; done).
  assert (length rest = n) as Hrest by (apply Permutation_length in Hdel; cbn in Hdel; lia).
  rewrite Hdel in Htxs. apply Forall_cons in Htxs as [[sol Hp] Htxs].
  eapply delivers_then; [apply delivers_catch, delivers_wait, Hp|]. intros r s' (x & -> & -> & Hx).
  eapply delivers_then.
  - apply (delivers_query _ _ _ (fun evs => Forall (fun e => is_ok e = true) evs /\ stored_event_pages evs = {[page]}));
      [done|]. intros t. exact (co_stores x page sol t Hx).
  - intros evs s' (-> & Hok & Hev). rewrite stored_pages_total, Hev by done. cbn [of_result].
    eapply delivers_then; [by apply (delivers_ret _ _ _ (same s (.= {[page]} ∪ submitted)))|].
    intros X s' [-> ->]. apply IH; [done..|]. rewrite <- Hpages, Hset. clear; set_solver.
Qed.

Lemma delivers_batch (s : S) signer pages rnd :
  delivers h s (submit_pages_batch signer pages rnd min_blocks) (page_calls pages)
    (same s (.= {| failed_pages := []; submitted_pages := list_to_set pages.*1 |})).
Proof using C.
  unfold submit_pages_batch. apply (delivers_validated h min_blocks _ _ _ (fun _ => _)). intros _.
  eapply delivers_then; [apply (delivers_account_nonce h min_blocks)|]. intros nonce s' [-> _].
  eapply delivers_last; [apply delivers_batch_loop|]. intros txs s' [-> Htxs].
  assert (txs.*1 = pages.*1) as Hfst.
  { clear -Htxs. induction Htxs as [|x y ?? [Hy _]]; [done|]. cbn. by rewrite Hy, IHHtxs. }
  eapply delivers_then; [apply (delivers_process_txs _ s (list_to_set pages.*1)); [done| |]|].
  - clear -Htxs. induction Htxs as [|x y ?? [Hy Hc]]; constructor; [|done]. rewrite Hy. eauto.
  - by rewrite Hfst, union_empty_r_L.
  - intros [failed submitted] s' [-> [= -> ->]].
    rewrite difference_diag_L, union_empty_r_L. unfold hash_set_iter.
    eapply delivers_then; [|intros l s' H; apply delivers_ret, H].
    eapply delivers_then; [apply (delivers_ask _ _ _ (fun _ s' => s' = s)); done|]. intros l s' ->.
    apply delivers_ret. split; [done|]. f_equal.
    destruct (decide _) as [Hl|]; [|apply elements_empty]. rewrite elements_empty in Hl.
    by apply Permutation_nil_r.
Qed.

(** The chunks: the pages of all of them are stored only at the end. *)
Lemma delivers_chunks signer rnd total : forall todo (s : S) done,
  NoDup (done ++ (concat todo).*1) -> length (done ++ (concat todo).*1) = total ->
  delivers h s (submit_chunks signer todo total rnd min_blocks (list_to_set done))
    (page_calls (concat todo)) (same s (.= [])).
Proof using C.
  induction todo as [|chunk todo IH]; intros s done Hnd Hlen; [by apply delivers_ret|].
  cbn [submit_chunks]. apply (delivers_validated h min_blocks _ _ _ (fun _ => _)). intros _.
  cbn [concat] in *. unfold page_calls. rewrite !fmap_app in *. rewrite app_assoc in *.
  eapply delivers_bind; [apply delivers_batch|]. intros r s' [-> ->]. cbn.
  rewrite <- list_to_set_app_L. destruct (decide _) as [Hsize|_]; [|by apply IH].
  rewrite size_list_to_set in Hsize by (by apply NoDup_app in Hnd as [? _]).
  rewrite length_app, Hsize in Hlen.
  assert (concat todo = []) as ->.
  { apply length_zero_iff_nil. rewrite length_fmap in Hlen. lia. }
  by apply delivers_ret.
Qed.

Lemma delivers_submit_pages (s : S) signer pages n rnd : NoDup pages.*1 ->
  delivers h s (submit_pages signer pages n rnd min_blocks) (page_calls pages) (same s (.= [])).
Proof using C.
  intros Hnd. unfold submit_pages, inner_submit_pages_concurrent, inner_submit_pages_chunked.
  destruct (decide (n = 0%nat)) as [->|Hn].
  - eapply delivers_last; [apply delivers_batch|]. intros r s' [-> ->]. by apply delivers_ret.
  - assert (0 < n)%nat as Hpos by lia. pose proof (chunks_concat n pages Hpos) as Hc.
    pose proof (delivers_chunks signer rnd (length pages) (chunks n pages) s []) as H. cbn in H.
    rewrite !Hc, length_fmap in H. by apply H.
Qed.

Lemma delivers_register_loop (s : S) tries sc n : tries <> 0%nat ->
  delivers h s (register_loop tries sc n) [register sc] (same s (fun p => carries p (register sc))).
Proof using C.
  intros Ht. destruct tries as [|tries]; [done|]. cbn [register_loop].
  eapply delivers_then; [apply (delivers_account_nonce h min_blocks)|]. intros nonce s' [-> _].
  eapply delivers_then; [apply (delivers_register_score h min_blocks)|]. intros t s' [-> ->].
  eapply delivers_last; [apply delivers_catch, delivers_submit_inner|].
  intros r s' (p & -> & -> & Hp). by apply delivers_ret.
Qed.

Lemma delivers_register_phase (s : S) signer sc rnd :
  delivers h s (register_phase signer sc rnd min_blocks) [register sc] (same s (fun _ => True)).
Proof using C.
  unfold register_phase. apply (delivers_validated h min_blocks _ _ _ (fun current_phase => _)). intros n.
  cbn [get_signed_phase_blocks_remaining].
  eapply delivers_then; [by apply (delivers_ret _ _ n (fun a s' => s' = s))|]. intros n' s' ->.
  eapply delivers_last; [by apply delivers_register_loop|]. intros p s' [-> Hp].
  eapply delivers_then; [apply delivers_wait, Hp|]. intros x s' [-> Hx].
  eapply delivers_then; [apply (delivers_query _ _ _ (fun evs => ok Registered ∈ evs)); [done|]|].
  { intros t. exact (co_registers x sc t Hx). }
  intros evs s' [-> Hev].
  assert (has_registered evs = true) as ->.
  { apply existsb_exists. exists (ok Registered). split; [by apply list_elem_of_In|done]. }
  by apply delivers_metric.
Qed.

(** The calls of a solution: the score, then the pages. *)
Definition solution_calls (sol : PagedRawSolution) : list Call :=
  register (score sol) :: page_calls (enumerate_pages (solution_pages sol)).

Lemma delivers_submit_solution (s : S) signer sol n rnd :
  delivers h s (submit signer sol n rnd min_blocks) (solution_calls sol) (same s (fun _ => True)).
Proof using C.
  unfold submit, solution_calls. rewrite <- (app_nil_l (page_calls _)), app_comm_cons.
  eapply delivers_bind; [apply delivers_register_phase|]. intros _ s' [-> _].
  eapply delivers_last.
  - unfold first_pages. apply (delivers_validated h min_blocks _ _ _ (fun _ => _)). intros _.
    apply delivers_submit_pages. rewrite enumerate_pages_fst. apply NoDup_seqZ.
  - intros failed s' [-> ->]. by apply delivers_metric.
Qed.

End submits.

(** ** The block *)

(** What a block of the signed phase needs beside that: the account and the
    snapshot of the round on the chain, no submission of ours, no competition
    that the score does not pass, and a solver that finds [sol] in any data. *)
Class ServesRound `{T : MinerConfig} `{SO : ScoreOrder} (h : handler) (signer : AccountId)
    (config : ProcessConfig) (state : BlockDetails) (sol : PagedRawSolution) : Type := {
  sr_account t : exists info, answer h _ (TryFetchAccount (at_block state) signer) t = ok (Some info);
  sr_no_submission b t : answer h _ (TryFetchSubmission b (round state) signer) t = ok None;
  sr_minimum t : exists minimum, answer h _ (TryFetchMinimumScore (at_block state)) t = ok minimum /\
    meets_minimum_score (score sol) minimum = true;
  sr_scores b t : exists scores, answer h _ (FetchSortedScores b (round state)) t = ok scores /\
    Forall (fun x => score_passes_strategy (score sol) x.2 (submission_strategy config) = true) scores;
  sr_voter_hash page t :
    exists k, answer h _ (TryFetchVoterSnapshotHash (at_block state) (round state) page) t = ok (Some (ok k));
  sr_voters page t :
    exists v, answer h _ (TryFetchVoterSnapshot (at_block state) (round state) page) t = ok (Some (ok v));
  sr_target_hash page t :
    exists k, answer h _ (TryFetchTargetSnapshotHash (at_block state) (round state) page) t = ok (Some (ok k));
  sr_targets page t :
    exists v, answer h _ (TryFetchTargetSnapshot (at_block state) (round state) page) t = ok (Some (ok v));
  sr_solves input t : mi_round input = round state -> answer h _ (MineSolution input) t = ok (ok sol);
  sr_feasible input t : answer h _ (CheckFeasibility sol input) t = ok tt;
  sr_round : prs_round sol = round state;
  sr_pages t : Z.of_nat (length (solution_pages sol)) mod 2 ^ 32 <= answer h _ PagesGet t;
  sr_winners t : answer h _ (WinnerCount sol) t mod 2 ^ 32 = desired_targets state;
}.

Section block.
Context `{T : MinerConfig} `{SO : ScoreOrder} (h : handler) (signer : AccountId) (config : ProcessConfig)
  (state : BlockDetails) (sol : PagedRawSolution).
Context `{C : !Cooperative h (min_signed_phase_blocks config)} `{R : !ServesRound h signer config state sol}.

(** A dynamic storage value that is there. *)
Lemma delivers_fetched {A} s (o : op (Result (Fetched A) SubxtError)) :
  sends_nothing o = true -> (forall t, exists v, answer h _ o t = ok (Some (ok v))) ->
  delivers h s (r ← query o; decode_fetched r) [] (same (S := MinerState) s (fun _ => True)).
Proof.
  intros Ho Hv. eapply delivers_then.
  - apply (delivers_query _ _ _ (fun r => exists v, r = Some (ok v))); [done|].
    intros t. destruct (Hv t) as [v E]. eauto.
  - intros r s' (-> & v & ->). by apply delivers_ret.
Qed.

Lemma delivers_get_snapshot s : delivers h s get_snapshot [] (same s (.= ms_snapshot s)).
Proof. intros t. exists (ms_snapshot s), s, t. by rewrite app_nil_r. Qed.

Lemma delivers_get_snapshot_then {A} s (f : Snapshot -> M MinerState A) L Q :
  delivers h s (f (ms_snapshot s)) L Q -> delivers h s (mbind f get_snapshot) L Q.
Proof. intros Hf. eapply delivers_then; [apply delivers_get_snapshot|]. by intros x s' [-> ->]. Qed.

Lemma delivers_put_snapshot s x (Q : unit -> MinerState -> Prop) :
  Q tt (with_snapshot x s) -> delivers h s (put_snapshot x) [] Q.
Proof. intros HQ t. exists tt, (with_snapshot x s), t. by rewrite app_nil_r. Qed.

Lemma delivers_check_voter s page : page < n_pages (ms_snapshot s) ->
  delivers h s (check_and_update_voter_snapshot page (round state) (at_block state)) []
    (fun _ s' => n_pages (ms_snapshot s') = n_pages (ms_snapshot s)).
Proof using R.
  intros Hp. unfold check_and_update_voter_snapshot.
  eapply delivers_then; [apply delivers_fetched; [done|apply sr_voter_hash]|]. intros k s' [-> _].
  apply delivers_get_snapshot_then.
  destruct (needs_voter_page _ _ _); [|by apply delivers_ret].
  eapply delivers_then; [apply delivers_fetched; [done|apply sr_voters]|]. intros v s' [-> _].
  apply delivers_get_snapshot_then.
  unfold set_voter_page. destruct (Z.ltb_spec page (n_pages (ms_snapshot s))); [|lia].
  by apply delivers_put_snapshot.
Qed.

Lemma delivers_check_target s page :
  delivers h s (check_and_update_target_snapshot page (round state) (at_block state)) []
    (fun _ s' => is_Some (target (ms_snapshot s'))).
Proof using R.
  unfold check_and_update_target_snapshot.
  eapply delivers_then; [apply delivers_fetched; [done|apply sr_target_hash]|]. intros k s' [-> _].
  apply delivers_get_snapshot_then.
  unfold needs_target_snapshot. destruct (target (ms_snapshot s)) as [[v k']|] eqn:Ht.
  1: destruct (negb _); [|apply delivers_ret; by eexists].
  all: eapply delivers_then; [apply delivers_fetched; [done|apply sr_targets]|]; intros v' s' [-> _];
    apply delivers_get_snapshot_then;
    apply delivers_put_snapshot; by eexists.
Qed.

Lemma delivers_fetch_missing s :
  delivers h s (fetch_missing_snapshots (at_block state) (round state)) []
    (fun _ s' => is_Some (snapshot_get (ms_snapshot s'))).
Proof using R.
  unfold fetch_missing_snapshots.
  apply delivers_get_snapshot_then.
  eapply delivers_then.
  - apply (delivers_for_each _ _ (fun rest s' => Forall (fun p => p < n_pages (ms_snapshot s')) rest)).
    + apply Forall_forall. intros p Hp%elem_of_seqZ. lia.
    + intros p rest s0 [Hp Hrest]%Forall_cons.
      eapply delivers_weaken; [by apply delivers_check_voter|]. intros _ s1 ->. done.
  - intros _ s0 _. eapply delivers_weaken; [apply delivers_check_target|].
    intros _ s1 [[v k] Hv]. unfold snapshot_get. rewrite Hv. by eexists.
Qed.

Lemma delivers_pages_get (s : MinerState) : delivers h s (ask PagesGet) []
  (same s (fun n => Z.of_nat (length (solution_pages sol)) mod 2 ^ 32 <= n)).
Proof using R. apply delivers_ask; [done|]. intros t. split; [done|apply sr_pages]. Qed.

Lemma delivers_mine_solution (s : MinerState) targets voters n_pages desired number reduce :
  delivers h s (mine_solution targets voters n_pages (round state) desired number reduce) []
    (same s (.= sol)).
Proof using R.
  unfold mine_solution. eapply delivers_then; [apply delivers_pages_get|]. intros n s' [-> _].
  set (input := Build_MineInput _ _ _ _ _ _).
  eapply delivers_then; [apply (delivers_ask _ _ _ (same s (.= ok (ok sol)))); [done|]|].
  { intros t. split; [done|]. by apply sr_solves. }
  intros r s' [-> ->]. eapply delivers_then; [apply (delivers_ask _ _ _ (same s (.= ok tt))); [done|]|].
  { intros t. split; [done|]. apply sr_feasible. }
  intros r s' [-> ->]. by apply delivers_ret.
Qed.

Lemma delivers_mine_and_validate s :
  delivers h s (mine_and_validate (at_block state) (round state) (bd_n_pages state)
    (desired_targets state) (block_number state) (do_reduce config)) [] (fun x _ => x = sol).
Proof using C R.
  unfold mine_and_validate. eapply delivers_then; [apply delivers_fetch_missing|]. intros _ s1 [[v k] Hget].
  apply delivers_get_snapshot_then. rewrite Hget.
  eapply delivers_then; [apply delivers_timeout; [apply co_timers|apply delivers_mine_solution]|].
  intros r s' (x & -> & -> & ->).
  apply delivers_metric_then.
  rewrite sr_round, Z.eqb_refl. cbn [negb].
  eapply delivers_then; [apply delivers_pages_get|]. intros n s' [-> Hn].
  destruct (Z.ltb_spec n (Z.of_nat (length (solution_pages sol)) mod 2 ^ 32)); [lia|].
  eapply delivers_then; [apply (delivers_ask _ _ _ (same s1 (fun w => w mod 2 ^ 32 = desired_targets state))); [done|]|].
  { intros t. split; [done|]. apply sr_winners. }
  intros w s' [-> ->]. rewrite Z.eqb_refl. by apply delivers_ret.
Qed.

Definition caches (s : MinerState) : Prop := cached_solution s = Some sol.

Lemma delivers_solution_of_round s :
  (forall c, cached_solution s = Some c -> prs_round c = round state -> c = sol) ->
  delivers h s (solution_of_round config state) [] (fun x s' => x = sol /\ caches s').
Proof using C R.
  intros Hcache. unfold solution_of_round.
  apply delivers_get_then.
  apply (delivers_then _ _ _ _ _ (fun _ => caches)).
  - destruct (decide _) as [Hr|_].
    + apply delivers_ret. unfold caches. destruct (cached_solution s) as [c|]; [|done].
      cbn in Hr. by rewrite (Hcache c) by congruence.
    + eapply delivers_then; [apply delivers_mine_and_validate|]. intros x s1 ->.
      apply delivers_get_then. by apply delivers_put.
  - intros _ s1 Hs1. apply delivers_get_then. unfold caches in Hs1. rewrite Hs1. by apply delivers_ret.
Qed.

(** The submission of the round: there is none. *)
Lemma delivers_get_submission (s : MinerState) b n :
  delivers h s (get_submission b (round state) signer n) [] (same s (.= NotStarted)).
Proof using R.
  unfold get_submission. eapply delivers_then; [apply (delivers_query _ _ _ (.= None)); [done|]|].
  { intros t. exists None. split; [apply sr_no_submission|done]. }
  intros x s' [-> ->]. by apply delivers_ret.
Qed.

Lemma delivers_check_already s :
  delivers h s (check_already_submitted signer (round state) (bd_n_pages state)) [] (same s (.= false)).
Proof using C R.
  unfold check_already_submitted. apply delivers_with_timeout; [apply co_timers|].
  eapply delivers_then; [apply (delivers_storage_at_head h (min_signed_phase_blocks config))|]. intros b s' [-> _].
  apply (delivers_then _ _ _ _ _ (same s (.= false))).
  - unfold has_submitted. eapply delivers_then; [apply delivers_get_submission|].
    intros x s' [-> ->]. by apply delivers_ret.
  - intros x s' [-> ->]. apply delivers_metric_then. by apply delivers_ret.
Qed.

Lemma delivers_fetch_existing s :
  delivers h s (fetch_existing_submission signer (round state) (bd_n_pages state)) []
    (same s (fun x => x.2 = NotStarted)).
Proof using C R.
  unfold fetch_existing_submission. apply delivers_with_timeout; [apply co_timers|].
  eapply delivers_then; [apply (delivers_storage_at_head h (min_signed_phase_blocks config))|]. intros b s' [-> _].
  eapply delivers_then; [apply delivers_get_submission|]. intros x s' [-> ->].
  apply delivers_metric_then. by apply delivers_ret.
Qed.

Lemma delivers_competitive s b :
  delivers h s (check_competitive config b sol (round state)) [] (same s (.= true)).
Proof using C R.
  unfold check_competitive. destruct (negb _); [|by apply delivers_ret].
  eapply delivers_then; [apply (delivers_with_timeout _ (co_timers (h := h)) _ _ _ _ _ _ (same s (.= true)))|].
  - apply (delivers_then _ _ _ _ _ (same s (.= true))).
    + unfold score_better. eapply delivers_then; [apply delivers_query; [done|apply sr_scores]|].
      intros scores s' [-> Hall].
      assert (existsb (fun x => negb (score_passes_strategy (score sol) x.2 (submission_strategy config))) scores
              = false) as ->; [|by apply delivers_ret].
      clear -Hall. induction Hall as [|x l Hx]; [done|]. cbn. by rewrite Hx.
    + intros x s' [-> ->]. apply delivers_metric_then. by apply delivers_ret.
  - intros x s' [-> ->]. by apply delivers_ret.
Qed.

Lemma delivers_submit_if_better s :
  delivers h s (submit_if_better signer config state sol) (solution_calls sol) (fun _ s' => s' = s).
Proof using C R.
  unfold submit_if_better, fetch_minimum_score.
  eapply delivers_then; [apply delivers_query; [done|apply sr_minimum]|]. intros minimum s' [-> ->]. cbn [negb].
  eapply delivers_then; [apply delivers_fetch_existing|]. intros [b x] s' [-> Hx]. cbn in Hx. subst x.
  eapply delivers_then; [by apply (delivers_ret _ _ _ (same s (.= true)))|]. intros x s' [-> ->]. cbn [negb].
  eapply delivers_then; [apply delivers_competitive|]. intros x s' [-> ->]. cbn [negb].
  unfold submit_solution. apply delivers_metric_then. eapply delivers_last.
  - apply delivers_with_timeout; [apply co_timers|]. by eapply delivers_submit_solution.
  - intros _ s' [-> _]. by apply delivers_metric.
Qed.

Lemma delivers_process_signed s : shady config = false ->
  (forall c, cached_solution s = Some c -> prs_round c = round state -> c = sol) ->
  delivers h s (process_signed signer config state) (solution_calls sol) (fun _ => caches).
Proof using C R.
  intros Hshady Hcache. unfold process_signed. rewrite Hshady.
  eapply delivers_then; [apply delivers_check_already|]. intros x s' [-> ->].
  eapply delivers_then; [by apply delivers_solution_of_round|]. intros x s1 [-> Hs1].
  eapply delivers_weaken; [apply delivers_submit_if_better|]. by intros _ s' ->.
Qed.

Lemma delivers_process_block s n : phase state = Signed n -> min_signed_phase_blocks config < n ->
  shady config = false ->
  (forall c, cached_solution s = Some c -> prs_round c = round state -> c = sol) ->
  delivers h s (process_block signer config state) (solution_calls sol) (fun _ => caches).
Proof using C R.
  intros Hphase Hn Hshady Hcache. unfold process_block.
  apply (delivers_then _ _ _ _ _ (same s (fun x => is_Some x))).
  - unfold fetch_balance.
    eapply delivers_then; [apply (delivers_timeout _ (co_timers (h := h)) _ _ _ _ (same s is_Some))|].
    + eapply delivers_then; [apply (delivers_query _ _ _ is_Some); [done|]|].
      { intros t. destruct (sr_account t) as [info E]. eexists. split; [exact E|by eexists]. }
      intros x s' [-> Hx]. apply delivers_metric_then. by apply delivers_ret.
    + intros r s' (x & -> & -> & info & ->). by apply delivers_ret.
  - intros x s' [-> [info ->]].
    apply delivers_metric_then.
    rewrite Hphase. destruct (Z.leb_spec n (min_signed_phase_blocks config)); [lia|].
    by apply delivers_process_signed.
Qed.

End block.

(** C5: The miner does submit, when it is not configured to be shady.  On a node
    that answers, stays in the signed phase with blocks to spare and includes
    transactions with their events, with an account, a snapshot, no submission of
    ours and no better competitor, and with a solver that finds a solution:
    processing a block of the signed phase with more than
    [min_signed_phase_blocks] left returns [Ok], from any state of the miner
    whose cache has no other solution for the round; the solution is mined if it
    was not cached, it is cached afterwards, and the transactions sent are exactly
    its registration and then each of its pages, once and in order, whatever the
    chunk size and whatever the order in which the transactions complete. *)
Theorem process_block_submits `{T : MinerConfig} `{SO : ScoreOrder} (h : handler) (signer : AccountId)
    (config : ProcessConfig) (state : BlockDetails) (sol : PagedRawSolution) (n : Z)
    (s : MinerState) (t : trace)
    `{!Cooperative h (min_signed_phase_blocks config)} `{!ServesRound h signer config state sol} :
  phase state = Signed n -> min_signed_phase_blocks config < n -> shady config = false ->
  (forall c, cached_solution s = Some c -> prs_round c = round state -> c = sol) ->
  exists s' t', run h (process_block signer config state) s t = (Ok tt, s', t') /\
    calls t' = calls t ++ register (score sol) ::
      ((fun x => submit_page_call x.1 (Some x.2)) <$> enumerate_pages (solution_pages sol)) /\
    cached_solution s' = Some sol.
Proof.
  intros Hp Hn Hsh Hc.
  destruct (delivers_process_block h signer config state sol s n Hp Hn Hsh Hc t) as ([] & s' & t' & H).
  by exists s', t'.
Qed.

(** ** An example *)
#[local] Existing Instance stake_order.

(** Handles that tell what they are for. *)
Definition handle (c : Call) : Z :=
  match c with register _ => 0 | submit_page_call page _ => 3 * page + 1 | _ => 2 end.

Definition handle_events (p : Z) : list (Result RtEvent SubxtError) :=
  if p mod 3 =? 0 then [ok OtherEvent; ok Registered]
  else if p mod 3 =? 1 then [ok (Stored 1 1 (p / 3)); ok OtherEvent]
  else [].

(** The node of the examples, with such handles; transactions complete in the
    order of their number in the history. *)
Definition including_node : handler := {|
  answer := fun R o t =>
    match o in op R return R with
    | SubmitAndWatch c _ _ => ok (handle c)
    | WaitForSuccess x => ok (handle_events (tx_block_hash x))
    | NextReady _ => length t
    | o => node_answer good_node o t
    end;
  fires := fun _ _ => false;
|}.

#[export] Instance including_cooperative : Cooperative including_node 10.
Proof.
  assert (Answering including_node 10) as Ha.
  { split; intros; cbn; eauto. exists 50. split; [reflexivity|lia]. }
  refine {| carries := fun p c => p = handle c; includes := fun x c => tx_block_hash x = handle c |};
    intros; cbn in *; eauto; subst.
  - eexists. split; [reflexivity|]. rewrite H. cbn. right. left.
  - eexists. split; [reflexivity|]. rewrite H. unfold handle, handle_events.
    rewrite Z.mul_comm, Z.add_comm, Z_mod_plus_full, Z_div_plus_full by lia. cbn.
    split; [by repeat constructor|]. unfold stored_event_pages. cbn. set_solver.
Defined.

Definition signed_block : BlockDetails := {|
  at_block := block0; phase := Signed 50; bd_n_pages := 4; round := 1; desired_targets := 2; block_number := 100 |}.

Definition in_twos : ProcessConfig := {|
  submission_strategy := IfLeading; do_reduce := true; chunk_size := 2; min_signed_phase_blocks := 10; shady := false |}.

#[local] Instance including_serves : ServesRound including_node 1 in_twos signed_block mined4.
Proof.
  split; intros; cbn; eauto; try (eexists; split; reflexivity); try (eexists; split; [reflexivity|constructor]);
    try reflexivity.
Qed.

Lemma process_block_submits_witness :
  exists s' t', run including_node (process_block 1 in_twos signed_block) (miner_init 4) [] = (Ok tt, s', t') /\
    calls t' = [register score0; submit_page_call 0 (Some 11); submit_page_call 1 (Some 12);
                submit_page_call 2 (Some 13); submit_page_call 3 (Some 14)].
Proof.
  destruct (process_block_submits including_node 1 in_twos signed_block mined4 50 (miner_init 4) []) as (s' & t' & Hr & Hc & _);
    [reflexivity|reflexivity|reflexivity|discriminate|].
  exists s', t'. split; [exact Hr|exact Hc].
Defined.
