(* ===== verification/Retries.v ===== *)
(** * Lost transactions are sent again

    Total correctness of the retry of [submit] in [src/dynamic/multi_block.rs],
    without chunks: on a node that may lose the transaction of a page the first
    time it is sent, but not the second time, [submit] returns [Ok] after sending
    the registration, every page, and exactly the lost pages once more.

    [sends h C s m Q]: from state [s] and a history with the calls [C], the call
    returns a value; value, final state and the calls it sent satisfy [Q]. *)

From S2P Require Import Prelude Errors Strategy Chain Metrics Types Effects Calls Traces ChainAccess Scenario Submission SubmissionSpec SnapshotFetch Miner Delivery.
Local Open Scope Z_scope.

Section judgement.
Context `{T : MinerConfig} {S : Type} (h : handler).

Definition sends {A} (C : list Call) (s : S) (m : M S A) (Q : A -> S -> list Call -> Prop) : Prop :=
  forall t, calls t = C -> exists a s' t' L, run h m s t = (Ok a, s', t') /\ calls t' = C ++ L /\ Q a s' L.

Lemma sends_ret {A} C s (a : A) (Q : A -> S -> list Call -> Prop) : Q a s [] -> sends C s (mret a) Q.
Proof. intros HQ t Ht. exists a, s, t, []. by rewrite app_nil_r. Qed.

Lemma sends_bind {A B} C s (m : M S A) (f : A -> M S B) P (Q : B -> S -> list Call -> Prop) :
  sends C s m P ->
  (forall a s' L, P a s' L -> sends (C ++ L) s' (f a) (fun b s'' L' => Q b s'' (L ++ L'))) ->
  sends C s (mbind f m) Q.
Proof.
  intros Hm Hf t Ht. destruct (Hm t Ht) as (a & s' & t' & L & Hr & Hc & HP).
  destruct (Hf a s' L HP t' Hc) as (b & s'' & t'' & L' & Hr' & Hc' & HQ).
  exists b, s'', t'', (L ++ L'). split; [rewrite run_mbind, Hr; exact Hr'|]. split; [|done].
  by rewrite Hc', app_assoc.
Qed.

Lemma sends_weaken {A} C s (m : M S A) (P Q : A -> S -> list Call -> Prop) :
  sends C s m P -> (forall a s' L, P a s' L -> Q a s' L) -> sends C s m Q.
Proof. intros Hm HPQ t Ht. destruct (Hm t Ht) as (a & s' & t' & L & Hr & Hc & HP). eauto 10. Qed.

(** What is sent whatever the history. *)
Lemma sends_delivers {A} C s (m : M S A) L (P : A -> S -> Prop) :
  delivers h s m L P -> sends C s m (fun a s' L' => L' = L /\ P a s').
Proof.
  intros Hm t Ht. destruct (Hm t) as (a & s' & t' & Hr & Hc & HP). exists a, s', t', L.
  split; [done|]. by rewrite Hc, Ht.
Qed.

Lemma sends_catch {A} C s (m : M S A) (Q : A -> S -> list Call -> Prop) :
  sends C s m Q -> sends C s (catch m) (fun r s' L => exists a, r = ok a /\ Q a s' L).
Proof.
  intros Hm t Ht. destruct (Hm t Ht) as (a & s' & t' & L & Hr & Hc & HQ). exists (ok a), s', t', L.
  split; [unfold catch; by rewrite run_pbind, Hr|eauto].
Qed.

(** First a call that sends nothing. *)
Lemma sends_then {A B} C s (m : M S A) (f : A -> M S B) P Q :
  delivers h s m [] P -> (forall a s', P a s' -> sends C s' (f a) Q) -> sends C s (mbind f m) Q.
Proof.
  intros Hm Hf. eapply sends_bind; [by apply sends_delivers|]. intros a s' L [-> HP].
  rewrite app_nil_r. by apply Hf.
Qed.

End judgement.

#[global] Arguments sends : simpl never.

(** ** Nodes that lose transactions

    [loses C c]: after the calls [C], the transaction of [c] is lost.  What was
    sent before is not lost again, and registrations are not lost. *)
Class Flaky `{T : MinerConfig} (h : handler) (min_blocks : Z) : Type := {
  fl_answers :: Answering h min_blocks;
  loses : list Call -> Call -> bool;
  loses_once C c : c ∈ C -> loses C c = false;
  keeps_registration C sc : loses C (register sc) = false;
  carried : TxProgress -> Call -> Prop;
  lost : TxProgress -> bool;
  included : TxInBlock -> Call -> Prop;
  fl_accepts c nonce mortality t :
    exists p, answer h _ (SubmitAndWatch c nonce mortality) t = ok p /\ carried p c /\ lost p = loses (calls t) c;
  fl_finalizes p c t : carried p c ->
    if lost p then exists e, answer h _ (WaitForFinalized p) t = err e
    else exists x, answer h _ (WaitForFinalized p) t = ok x /\ included x c;
  fl_registers x sc t : included x (register sc) ->
    exists evs, answer h _ (WaitForSuccess x) t = ok evs /\ ok Registered ∈ evs;
  fl_stores x page sol t : included x (submit_page_call page sol) ->
    exists evs, answer h _ (WaitForSuccess x) t = ok evs /\
      Forall (fun e => is_ok e = true) evs /\ stored_event_pages evs = {[page]};
}.

Section retries.
Context `{T : MinerConfig} {S : Type} (h : handler) (min_blocks : Z) `{F : !Flaky h min_blocks}.

(** The call of a page, and the pages whose transaction is lost when they are
    sent in this order. *)
Definition page_call (x : Z * Solution) : Call := submit_page_call x.1 (Some x.2).

Fixpoint first_lost (C : list Call) (pages : list (Z * Solution)) : list (Z * Solution) :=
  match pages with
  | [] => []
  | x :: rest => (if loses C (page_call x) then [x] else []) ++ first_lost (C ++ [page_call x]) rest
  end.

(** Reading the phase and checking it. *)
Lemma sends_validated {A} C (s : S) signer rnd (m : Phase -> M S A) Q :
  (forall n, sends h C s (m (Signed n)) Q) ->
  sends h C s (current_phase ← current_phase_at_head;
    validate_signed_phase_or_bail current_phase signer rnd min_blocks;; m current_phase) Q.
Proof using F.
  intros Hm. eapply sends_then; [apply (delivers_phase h min_blocks)|]. intros p s' (-> & n & -> & Hlt).
  eapply sends_then; [by apply (delivers_validate h min_blocks _ _ _ _ (fun _ s' => s' = s))|].
  by intros _ s' ->.
Qed.

Lemma sends_submit_inner C (s : S) t nonce n :
  sends h C s (submit_inner t nonce n)
    (fun p s' L => s' = s /\ L = [tx t] /\ carried p (tx t) /\ lost p = loses C (tx t)).
Proof using F.
  unfold submit_inner, sign_and_submit.
  eapply sends_then; [apply delivers_read; [done|apply co_current]|]. intros b s' [-> _].
  eapply sends_then; [apply delivers_read; [done|intros t'; exists tt; apply co_signs]|]. intros [] s' [-> _].
  intros t' Ht. destruct (fl_accepts (tx t) nonce (Some (u32_add n 1)) t') as (p & Hp & Hc & Hl).
  exists p, s, (Event (SubmitAndWatch (tx t) nonce (Some (u32_add n 1))) (ok p) :: t'), [tx t].
  split; [cbn; by rewrite Hp|]. split; [|by rewrite Hl, Ht].
  rewrite <- Ht. unfold calls. rewrite sent_txs_cons. cbn. by rewrite !fmap_app.
Qed.

(** A transaction under way for each page, and which of them are lost. *)
Definition under_way' (C : list Call) (pages : list (Z * Solution)) (txs : list (Z * TxProgress)) : Prop :=
  Forall2 (fun x y => y.1 = x.1 /\ carried y.2 (page_call x)) pages txs /\
  (filter (fun y => lost y.2 = true) txs).*1 = (first_lost C pages).*1.

Lemma sends_batch_loop pages : forall C (s : S) nonce,
  sends h C s (submit_batch_loop pages nonce)
    (fun txs s' L => s' = s /\ L = page_call <$> pages /\ under_way' C pages txs).
Proof using F.
  induction pages as [|x pages IH]; intros C s nonce.
  { apply sends_ret. split; [done|]. split; [done|]. split; constructor. }
  destruct x as [page sol]. cbn [submit_batch_loop].
  eapply sends_then; [apply (delivers_phase h min_blocks)|].
  intros p s' (-> & n & -> & _). cbn [get_signed_phase_blocks_remaining].
  eapply sends_then; [by apply (delivers_ret _ _ n (fun a s' => s' = s))|]. intros n' s' ->.
  eapply sends_then; [apply (delivers_submit_page h min_blocks)|]. intros t s' [-> ->].
  eapply sends_bind; [apply sends_submit_inner|]. cbn [tx]. intros p s' L (-> & -> & Hp & Hl).
  eapply sends_bind; [apply IH|]. intros txs s' L (-> & -> & H2 & Hf). apply sends_ret.
  split; [done|]. split; [by rewrite app_nil_r|]. split; [by constructor|].
  cbn [first_lost]. change (submit_page_call page (Some sol)) with (page_call (page, sol)) in *.
  rewrite !fmap_app, <- Hf, <- Hl. clear. rewrite filter_cons. cbn [snd].
  destruct (lost p); by case_decide.
Qed.

Lemma delivers_wait_lost (s : S) p c : carried p c ->
  delivers h s (catch (wait_tx_in_finalized_block p)) []
    (same s (fun r => if lost p then exists e, r = err e else exists x, r = ok x /\ included x c)).
Proof using F.
  intros Hp t. pose proof (fl_finalizes p c t Hp) as H. unfold catch, wait_tx_in_finalized_block.
  destruct (lost p).
  - destruct H as [e He]. eexists _, s, _. rewrite app_nil_r. split; [cbn; by rewrite He|].
    split; [by apply calls_cons|]. split; [done|]. by eexists.
  - destruct H as (x & Hx & Hi). eexists _, s, _. rewrite app_nil_r. split; [cbn; by rewrite Hx|].
    split; [by apply calls_cons|]. split; [done|]. by eexists.
Qed.

(** The pages whose transaction is lost, or not. *)
Definition lost_pages (txs : list (Z * TxProgress)) : gset Z :=
  list_to_set (filter (fun y => lost y.2 = true) txs).*1.
Definition kept_pages (txs : list (Z * TxProgress)) : gset Z :=
  list_to_set (filter (fun y => lost y.2 = false) txs).*1.

Lemma lost_pages_perm txs txs' : txs ≡ₚ txs' -> lost_pages txs = lost_pages txs'.
Proof. intros E. unfold lost_pages. apply list_to_set_perm_L. by rewrite E. Qed.

Lemma kept_pages_perm txs txs' : txs ≡ₚ txs' -> kept_pages txs = kept_pages txs'.
Proof. intros E. unfold kept_pages. apply list_to_set_perm_L. by rewrite E. Qed.

Lemma lost_pages_cons page p txs :
  lost_pages ((page, p) :: txs) = if lost p then {[page]} ∪ lost_pages txs else lost_pages txs.
Proof. unfold lost_pages. rewrite filter_cons. cbn [snd]. destruct (lost p); by case_decide. Qed.

Lemma kept_pages_cons page p txs :
  kept_pages ((page, p) :: txs) = if lost p then kept_pages txs else {[page]} ∪ kept_pages txs.
Proof. unfold kept_pages. rewrite filter_cons. cbn [snd]. destruct (lost p); by case_decide. Qed.

Lemma all_pages txs : list_to_set txs.*1 = lost_pages txs ∪ kept_pages txs.
Proof.
  induction txs as [|[page p] txs IH]; [done|]. rewrite lost_pages_cons, kept_pages_cons. cbn. rewrite IH.
  destruct (lost p); set_solver.
Qed.

(** The transactions complete in any order; the lost ones fail. *)
Lemma delivers_process_lost n : forall (s : S) (txs : list (Z * TxProgress)) failed submitted,
  length txs = n ->
  Forall (fun y => exists sol, carried y.2 (submit_page_call y.1 sol)) txs ->
  delivers h s (process_txs n txs failed submitted) []
    (same s (.= (lost_pages txs ∪ failed, kept_pages txs ∪ submitted))).
Proof using F.
  induction n as [|n IH]; intros s txs failed submitted Hn Htxs.
  { destruct txs; [|done]. apply delivers_ret. split; [done|]. f_equal; set_solver. }
  cbn [process_txs].
  eapply delivers_then; [apply (delivers_ask _ _ _ (fun _ s' => s' = s)); done|]. intros i s' ->.
  destruct (txs !! (i mod length txs)%nat) as [[page p]|] eqn:Hi.
  2: { apply lookup_ge_None in Hi. assert (length txs <> 0)%nat as Hl by lia.
       pose proof (Nat.mod_upper_bound i _ Hl). lia. }
  apply delete_Permutation in Hi.
  rewrite (lost_pages_perm _ _ Hi), (kept_pages_perm _ _ Hi), lost_pages_cons, kept_pages_cons.
  set (rest := delete (i mod length txs)%nat txs) in *. clearbody rest.
  assert (length rest = n) as Hrest by (apply Permutation_length in Hi; cbn in Hi; lia).
  rewrite Hi in Htxs. apply Forall_cons in Htxs as [[sol Hp] Htxs].
  eapply delivers_then; [apply (delivers_wait_lost s _ _ Hp)|]. cbn [fst snd]. intros r s' [-> Hr].
  destruct (lost p).
  - destruct Hr as [e ->]. eapply delivers_weaken; [by apply IH|]. intros a s' [-> ->].
    split; [done|]. f_equal; set_solver.
  - destruct Hr as (x & -> & Hx). eapply delivers_then.
    + apply (delivers_query _ _ _ (fun evs => Forall (fun e => is_ok e = true) evs /\ stored_event_pages evs = {[page]}));
        [done|]. intros t. exact (fl_stores x page sol t Hx).
    + intros evs s' (-> & Hok & Hev). rewrite stored_pages_total, Hev by done. cbn [of_result].
      eapply delivers_then; [by apply (delivers_ret _ _ _ (same s (.= {[page]} ∪ submitted)))|].
      intros X s' [-> ->]. eapply delivers_weaken; [by apply IH|]. intros a s' [-> ->].
      split; [done|]. f_equal; set_solver.
Qed.

Lemma delivers_hash_set_iter (s : S) X :
  delivers h s (hash_set_iter X) [] (same s (fun l => l ≡ₚ elements X)).
Proof.
  unfold hash_set_iter. eapply delivers_then; [apply (delivers_ask _ _ _ (fun _ s' => s' = s)); done|].
  intros l s' ->. apply delivers_ret. split; [done|]. by case_decide.
Qed.

(** A batch: every page is sent, and the lost ones are reported. *)
Lemma sends_batch C (s : S) signer pages rnd : NoDup pages.*1 ->
  sends h C s (submit_pages_batch signer pages rnd min_blocks)
    (fun r s' L => s' = s /\ L = page_call <$> pages /\ failed_pages r ≡ₚ (first_lost C pages).*1).
Proof using F.
  intros Hnd. unfold submit_pages_batch.
  apply (sends_validated _ _ _ _ (fun _ => _)). intros _.
  eapply sends_then; [apply (delivers_account_nonce h min_blocks)|]. intros nonce s' [-> _].
  eapply sends_bind; [apply sends_batch_loop|]. intros txs s' L (-> & -> & H2 & Hlost).
  assert (txs.*1 = pages.*1) as Hfst.
  { clear -H2. induction H2 as [|x y ?? [Hy _]]; [done|]. cbn. by rewrite Hy, IHForall2. }
  eapply sends_then; [apply delivers_process_lost; [done|]|].
  { clear -H2. induction H2 as [|x y ?? [Hy Hc]]; constructor; [|done]. rewrite Hy. eauto. }
  intros a s' [-> ->]. rewrite !union_empty_r_L, <- Hfst, all_pages.
  assert (lost_pages txs ∪ ((lost_pages txs ∪ kept_pages txs) ∖ kept_pages txs) = lost_pages txs) as ->
    by (clear; set_solver).
  eapply sends_then; [apply delivers_hash_set_iter|]. intros l s' [-> Hl]. apply sends_ret.
  split; [done|]. split; [by rewrite app_nil_r|]. cbn. rewrite Hl, <- Hlost.
  apply elements_list_to_set. rewrite <- Hfst in Hnd. clear -Hnd.
  eapply sublist_NoDup; [exact Hnd|]. apply fmap_sublist, sublist_filter.
Qed.

Lemma sends_pages C (s : S) signer pages rnd : NoDup pages.*1 ->
  sends h C s (submit_pages signer pages 0 rnd min_blocks)
    (fun failed s' L => s' = s /\ L = page_call <$> pages /\ failed ≡ₚ (first_lost C pages).*1).
Proof using F.
  intros Hnd. unfold submit_pages, inner_submit_pages_concurrent.
  destruct (decide (0 = 0)%nat); [|done].
  eapply sends_bind; [by apply sends_batch|]. intros r s' L (-> & -> & Hr).
  unfold all_successful. destruct (failed_pages r) eqn:E; cbn; apply sends_ret;
    rewrite app_nil_r; (split; [done|split; [done|]]); by rewrite ?E.
Qed.

(** What was sent once is not lost the second time. *)
Lemma first_lost_again l : forall C, Forall (fun x => page_call x ∈ C) l -> first_lost C l = [].
Proof.
  induction l as [|x l IH]; intros C Hl; [done|]. apply Forall_cons in Hl as [Hx Hl]. cbn.
  rewrite loses_once by done. cbn. apply IH. eapply Forall_impl; [exact Hl|]. intros y Hy. set_solver.
Qed.

Lemma first_lost_sublist pages : forall C, first_lost C pages `sublist_of` pages.
Proof.
  induction pages as [|x pages IH]; intros C; [done|]. cbn.
  destruct (loses C (page_call x)); cbn; [apply sublist_skip|apply sublist_cons]; apply IH.
Qed.

(** The content of a page of the solution. *)
Lemma enumerate_pages_lookup (pages : list Solution) p sol :
  (p, sol) ∈ enumerate_pages pages <-> 0 <= p /\ pages !! Z.to_nat p = Some sol.
Proof.
  unfold enumerate_pages. rewrite list_elem_of_lookup. setoid_rewrite lookup_zip_Some. split.
  - intros (i & Hi & Hp). apply lookup_seqZ in Hi as [-> Hi]. split; [lia|].
    by replace (Z.to_nat (0 + Z.of_nat i)) with i by lia.
  - intros [H0 Hp]. exists (Z.to_nat p). split; [|done]. apply lookup_seqZ. apply lookup_lt_Some in Hp. lia.
Qed.

(** Lists of pages of the solution with the same numbers are the same. *)
Lemma same_pages (pages : list Solution) l l' :
  (forall x, x ∈ l -> x ∈ enumerate_pages pages) -> (forall x, x ∈ l' -> x ∈ enumerate_pages pages) ->
  l.*1 ≡ₚ l'.*1 -> l ≡ₚ l'.
Proof.
  set (f := fun p => (p, default solution_default (pages !! Z.to_nat p))).
  assert (forall k, (forall x, x ∈ k -> x ∈ enumerate_pages pages) -> k = f <$> k.*1) as Hk.
  { induction k as [|[p sol] k IH]; intros Hin; [done|]. cbn. rewrite <- IH by set_solver.
    destruct (proj1 (enumerate_pages_lookup pages p sol)) as [_ E]; [apply Hin; set_solver|].
    unfold f. by rewrite E. }
  intros Hl Hl' Hp. rewrite (Hk l Hl), (Hk l' Hl'). by rewrite Hp.
Qed.

Lemma sends_register_phase C (s : S) signer sc rnd :
  sends h C s (register_phase signer sc rnd min_blocks) (fun _ s' L => s' = s /\ L = [register sc]).
Proof using F.
  unfold register_phase. apply (sends_validated _ _ _ _ (fun current_phase => _)). intros n.
  cbn [get_signed_phase_blocks_remaining].
  eapply sends_then; [by apply (delivers_ret _ _ n (fun a s' => s' = s))|]. intros n' s' ->.
  eapply (sends_bind _ _ _ _ _ (fun p s' L => s' = s /\ L = [register sc] /\ carried p (register sc) /\ lost p = false)).
  - cbn [register_loop]. eapply sends_then; [apply (delivers_account_nonce h min_blocks)|]. intros nonce s' [-> _].
    eapply sends_then; [apply (delivers_register_score h min_blocks)|]. intros t s' [-> ->].
    eapply sends_bind; [apply sends_catch, sends_submit_inner|]. cbn [tx].
    intros r s' L (p & -> & -> & -> & Hp & Hl). apply sends_ret. rewrite keeps_registration in Hl.
    by rewrite app_nil_r.
  - intros p s' L (-> & -> & Hp & Hl).
    eapply sends_then; [apply (delivers_query _ _ _ (fun x => included x (register sc))); [done|]|].
    { intros t. pose proof (fl_finalizes p _ t Hp) as Hf. by rewrite Hl in Hf. }
    intros x s' [-> Hx].
    eapply sends_then; [apply (delivers_query _ _ _ (fun evs => ok Registered ∈ evs)); [done|]|].
    { intros t. exact (fl_registers x sc t Hx). }
    intros evs s' [-> Hev].
    assert (has_registered evs = true) as ->.
    { apply existsb_exists. exists (ok Registered). split; [by apply list_elem_of_In|done]. }
    eapply sends_weaken; [by apply sends_delivers, (delivers_metric _ _ _ (fun _ s' => s' = s))|].
    intros _ s' L [-> ->]. by rewrite app_nil_r.
Qed.

(** The failed pages, sent again after all pages were sent once. *)
Lemma sends_retry C (s : S) signer (pages : list Solution) failed rnd :
  NoDup failed -> failed ⊆ seqZ 0 (Z.of_nat (length pages)) ->
  Forall (fun x => page_call x ∈ C) (enumerate_pages pages) ->
  sends h C s (retry_pages signer pages failed 0 rnd min_blocks)
    (fun _ s' L => s' = s /\ exists l, L = page_call <$> l /\ l.*1 = failed /\
      forall x, x ∈ l -> x ∈ enumerate_pages pages).
Proof using F.
  intros Hnd Hin HC. unfold retry_pages.
  apply (sends_validated _ _ _ _ (fun _ => _)). intros _.
  destruct (take_pages_content pages failed Hnd Hin) as (l & -> & Hl & Horig).
  assert (forall x, x ∈ l -> x ∈ enumerate_pages pages) as Hpages.
  { intros [p sol] Hx. apply enumerate_pages_lookup. split; [|by apply Horig].
    assert (p ∈ failed) as Hp by (rewrite <- Hl; apply list_elem_of_fmap; by exists (p, sol)).
    apply Hin, elem_of_seqZ in Hp. lia. }
  eapply sends_bind; [apply sends_pages; by rewrite Hl|]. intros r s' L (-> & -> & Hr).
  rewrite first_lost_again in Hr.
  2: { apply Forall_forall. intros x Hx. rewrite Forall_forall in HC. by apply HC, Hpages. }
  apply Permutation_nil_r in Hr as ->.
  eapply sends_weaken; [by apply sends_delivers, (delivers_metric _ _ _ (fun _ s' => s' = s))|].
  intros _ s' L [-> ->]. split; [done|]. exists l. by rewrite app_nil_r.
Qed.

Lemma sends_submit C (s : S) signer sol rnd :
  let all := enumerate_pages (solution_pages sol) in
  sends h C s (submit signer sol 0 rnd min_blocks)
    (fun _ s' L => s' = s /\ exists again, L = register (score sol) :: (page_call <$> all) ++ (page_call <$> again) /\
       again ≡ₚ first_lost (C ++ [register (score sol)]) all).
Proof using F.
  intros all. unfold submit. eapply sends_bind; [apply sends_register_phase|]. intros _ s' L [-> ->].
  set (C1 := C ++ [_]). assert (NoDup all.*1) as Hnd by (unfold all; rewrite enumerate_pages_fst; apply NoDup_seqZ).
  pose proof (first_lost_sublist all C1) as Hsub.
  eapply (sends_bind _ _ _ _ _ (fun failed s' L => s' = s /\ L = page_call <$> all /\ failed ≡ₚ (first_lost C1 all).*1)).
  - unfold first_pages. apply (sends_validated _ _ _ _ (fun _ => _)). intros _. by apply sends_pages.
  - intros failed s' L (-> & -> & Hf). destruct failed as [|p failed].
    + eapply sends_weaken; [by apply sends_delivers, (delivers_metric _ _ _ (fun _ s' => s' = s))|].
      intros _ s' L [-> ->]. split; [done|]. exists []. split; [done|].
      symmetry in Hf. apply Permutation_nil_r, fmap_nil_inv in Hf. by rewrite Hf.
    + set (failed' := p :: failed) in *. clearbody failed'.
      eapply sends_weaken; [apply sends_retry|].
      * rewrite Hf. eapply sublist_NoDup; [exact Hnd|]. by apply fmap_sublist.
      * intros q Hq. rewrite Hf in Hq. rewrite <- enumerate_pages_fst. fold all.
        eapply elem_of_sublist; [|by apply fmap_sublist]. done.
      * apply Forall_forall. intros x Hx. apply elem_of_app. right. apply list_elem_of_fmap. by exists x.
      * intros _ s' L (-> & l & -> & Hl & Hin). split; [done|]. exists l. split; [done|].
        apply (same_pages (solution_pages sol)); [done| |by rewrite Hl].
        intros x Hx. by eapply elem_of_sublist.
Qed.

End retries.

(** C11: Lost transactions are sent again.  On a node that answers, stays in the
    signed phase and may lose the transaction of any page the first time it is
    sent, but not the second time, [submit] without chunks returns [Ok] and leaves
    the state alone: it sends the registration, then every page once and in order,
    and then exactly the pages whose transaction was lost, with their original
    content, each once more. *)
Theorem submit_retries_lost_pages `{T : MinerConfig} {S : Type} (h : handler) (min_blocks : Z)
    `{F : !Flaky h min_blocks} (signer : AccountId) (sol : PagedRawSolution) (rnd : Z) (s : S) (t : trace) :
  let all := enumerate_pages (solution_pages sol) in
  exists t' again, run h (submit signer sol 0 rnd min_blocks) s t = (Ok tt, s, t') /\
    calls t' = calls t ++ register (score sol) :: (page_call <$> all) ++ (page_call <$> again) /\
    again ≡ₚ first_lost h min_blocks (calls t ++ [register (score sol)]) all.
Proof.
  intros all. destruct (sends_submit h min_blocks (calls t) s signer sol rnd t eq_refl)
    as ([] & s' & t' & L & Hr & Hc & -> & again & -> & Ha). by exists t', again.
Qed.

(** ** An example: a node that loses the odd pages at first *)

Definition is_page (page : Z) (c : Call) : bool :=
  match c with submit_page_call q _ => q =? page | _ => false end.

Definition odd_loses (C : list Call) (c : Call) : bool :=
  match c with submit_page_call page _ => Z.odd page && negb (existsb (is_page page) C) | _ => false end.

Definition losing_node : handler := {|
  answer := fun R o t =>
    match o in op R return R with
    | SubmitAndWatch c _ _ => ok (2 * handle c + Z.b2z (odd_loses (calls t) c))
    | WaitForFinalized p =>
        if Z.odd p then err TransactionStatusError
        else ok {| tx_block_hash := p / 2; tx_extrinsic_hash := 0 |}
    | o => answer including_node _ o t
    end;
  fires := fun _ _ => false;
|}.

#[local] Instance losing_flaky : Flaky losing_node 10.
Proof.
  assert (Answering losing_node 10) as Ha.
  { split; intros; cbn; eauto. exists 50. split; [reflexivity|lia]. }
  refine {| loses := odd_loses; lost := Z.odd; carried := fun p c => exists b, p = 2 * handle c + Z.b2z b;
            included := fun x c => tx_block_hash x = handle c |}.
  - intros C [| page sol | | |] Hc; try done. cbn. replace (existsb _ C) with true; [by rewrite andb_false_r|].
    symmetry. apply existsb_exists. exists (submit_page_call page sol).
    split; [by apply list_elem_of_In|]. apply Z.eqb_refl.
  - done.
  - intros c nonce mortality t. eexists. split; [reflexivity|]. split; [by eexists|].
    rewrite Z.add_comm, Z.odd_add_mul_2. by destruct (odd_loses _ _).
  - intros p c t [b ->]. cbn [answer losing_node]. rewrite Z.add_comm, Z.odd_add_mul_2. destruct b; cbn [Z.b2z Z.odd].
    + by eexists.
    + eexists. split; [reflexivity|]. cbn [tx_block_hash]. rewrite Z.add_0_l, Z.mul_comm. by apply Z_div_mult.
  - intros x sc t Hx. exact (co_registers (Cooperative := including_cooperative) x sc t Hx).
  - intros x page sol t Hx. exact (co_stores (Cooperative := including_cooperative) x page sol t Hx).
Defined.

Lemma submit_retries_lost_pages_witness :
  exists t' again, run losing_node (submit 1 mined4 0 1 10) tt [] = (Ok tt, tt, t') /\
    calls t' = [register score0; submit_page_call 0 (Some 11); submit_page_call 1 (Some 12);
                submit_page_call 2 (Some 13); submit_page_call 3 (Some 14)] ++ (page_call <$> again) /\
    again ≡ₚ [(1, 12); (3, 14)].
Proof. exact (submit_retries_lost_pages losing_node 10 1 mined4 1 tt []). Defined.
