(* ===== verification/Listener.v ===== *)
(** * The listener task

    [listener_task] of [src/commands/multi_block/monitor.rs] and what it calls:
    following the finalized blocks, detecting round increments and phase
    changes, handing blocks to the miner, and recreating the subscription. *)

From S2P Require Import Prelude Errors Chain Metrics Types Effects Traces ChainAccess.
Local Open Scope Z_scope.

Definition BLOCK_SUBSCRIPTION_TIMEOUT_SECS : Z := 60.
Definition BLOCK_PROCESSING_TIMEOUT_SECS : Z := 90.
Definition MAX_SUBSCRIPTION_RECREATION_ATTEMPTS : Z := 3.

(** [ListenerState], less the time of the last block, which nothing reads. *)
Record ListenerState : Type := {
  prev_round : option Z;
  prev_phase : option Phase;
  subscription_recreation_attempts : Z;
}.

Definition listener_init : ListenerState :=
  {| prev_round := None; prev_phase := None; subscription_recreation_attempts := 0 |}.

(** [ListenerAction] *)
Inductive ListenerAction : Type :=
| Continue
| SubscriptionRecreated
| BlockProcessingTimeout.

Section listener.
Context `{T : MinerConfig}.

Definition set_prev_round (r : Z) : M ListenerState unit :=
  s ← get_state;
  put_state {| prev_round := Some r; prev_phase := prev_phase s;
               subscription_recreation_attempts := subscription_recreation_attempts s |}.

Definition set_prev_phase (p : Phase) : M ListenerState unit :=
  s ← get_state;
  put_state {| prev_round := prev_round s; prev_phase := Some p;
               subscription_recreation_attempts := subscription_recreation_attempts s |}.

Definition set_attempts (n : Z) : M ListenerState unit :=
  s ← get_state;
  put_state {| prev_round := prev_round s; prev_phase := prev_phase s;
               subscription_recreation_attempts := n |}.

(** [recreate_subscription_with_failover]; the new stream replaces the old one
    in the environment. *)
Definition recreate_subscription_with_failover : M ListenerState unit :=
  r ← ask StreamBlocks;
  match r with
  | ok _ => mret tt
  | err e =>
      r ← ask Reconnect;
      match r with
      | err _ => throw (Error.Subxt e)
      | ok _ =>
          r ← ask StreamBlocks;
          match r with
          | ok _ => mret tt
          | err e2 => throw (Error.Subxt e2)
          end
      end
  end.

(** [get_block_state] *)
Definition get_block_state (block_hash : Hash) : M ListenerState (AtBlock * Phase * Z) :=
  at_block ← storage_at (Some block_hash);
  metric observe_storage_query_duration;;
  phase ← query (FetchCurrentPhase at_block);
  metric observe_storage_query_duration;;
  current_round ← query (FetchRound at_block);
  metric observe_storage_query_duration;;
  mret (at_block, phase, current_round).

(** [on_round_increment] *)
Definition on_round_increment (last_round current_round : Z) (phase : Phase) : M ListenerState unit :=
  r ← ask (ClearTrySend (ClearOldRoundsTick current_round));
  (match r with
   | Sent => mret tt
   | Full => mret tt
   | Closed => throw (Error.ChannelFailure ChannelFailureError.ClearOldRounds)
   end);;
  if is_off phase then
    r ← ask (MinerSend ClearSnapshots);
    match r with
    | ok _ => mret tt
    | err e => throw (Error.Other ("Failed to send clear snapshots signal: " +:+ e))
    end
  else mret tt.

(** [BlockDetails::new] *)
Definition block_details_new (at_ : Header) (phase : Phase) (block_hash : Hash) (round : Z)
    : M ListenerState BlockDetails :=
  at_block ← storage_at (Some block_hash);
  desired_targets ← query (TryFetchDesiredTargets at_block round);
  n_pages ← ask PagesGet;
  mret {| at_block := at_block; phase := phase; bd_n_pages := n_pages; round := round;
          desired_targets := default 0 desired_targets; block_number := number at_ mod 2 ^ 32 |}.

(** Sending a phase change to the era pruning task. *)
Definition send_era (m : EraPruningMessage) : M ListenerState unit :=
  r ← ask (EraSend m);
  match r with
  | ok _ => mret tt
  | err _ => throw (Error.ChannelFailure ChannelFailureError.EraPruning)
  end.

(** Handing the block to the miner; a busy miner skips it. *)
Definition send_block (state : BlockDetails) : M ListenerState ListenerAction :=
  r ← ask (MinerTrySend (ProcessBlock state));
  match r with
  | Sent => metric set_last_block_processing_time;; mret Continue
  | Full => mret Continue
  | Closed => throw (Error.ChannelFailure ChannelFailureError.Miner)
  end.

(** The miner's part of [process_block_internal]. *)
Definition mining_work (at_ : Header) (phase : Phase) (block_hash : Hash) (current_round : Z)
    : M ListenerState ListenerAction :=
  state ← block_details_new at_ phase block_hash current_round;
  metric observe_block_details_duration;;
  send_block state.

(** What happens after the round: the phase is recorded and acted upon. *)
Definition phase_work (at_ : Header) (phase : Phase) (block_hash : Hash) (current_round : Z)
    : M ListenerState ListenerAction :=
  s ← get_state;
  let last_phase := prev_phase s in
  set_prev_phase phase;;
  match phase with
  | Off =>
      (match last_phase with
       | Some last_phase => if negb (is_off last_phase) then send_era EnterOffPhase else mret tt
       | None => send_era EnterOffPhase
       end);;
      ask (EraTrySend (NewBlock (number at_ mod 2 ^ 32)));;
      metric set_last_block_processing_time;;
      mret Continue
  | Signed _ | Snapshot_ _ =>
      (match last_phase with
       | Some last_phase => if is_off last_phase then send_era ExitOffPhase else mret tt
       | None => mret tt
       end);;
      mining_work at_ phase block_hash current_round
  | _ =>
      metric set_last_block_processing_time;;
      mret Continue
  end.

(** [process_block_internal] *)
Definition process_block_internal (at_ : Header) (block_hash : Hash) : M ListenerState ListenerAction :=
  '(_, phase, current_round) ← get_block_state block_hash;
  metric observe_block_state_duration;;
  s ← get_state;
  let last_round := prev_round s in
  set_prev_round current_round;;
  (match last_round with
   | Some last_round =>
       if last_round <? current_round
       then on_round_increment last_round current_round phase
       else mret tt
   | None => mret tt
   end);;
  phase_work at_ phase block_hash current_round.

(** A stalled or ended subscription: give up after too many attempts,
    otherwise recreate it and return [action]. *)
Definition recreate_or_give_up (action : ListenerAction) : M ListenerState ListenerAction :=
  s ← get_state;
  let attempts := u32_add (subscription_recreation_attempts s) 1 in
  set_attempts attempts;;
  if MAX_SUBSCRIPTION_RECREATION_ATTEMPTS <? attempts
  then throw (Error.SubscriptionRecreationLimitExceeded MAX_SUBSCRIPTION_RECREATION_ATTEMPTS)
  else
    recreate_subscription_with_failover;;
    mret action.

(** [process_listener_iteration] *)
Definition process_listener_iteration : M ListenerState ListenerAction :=
  next ← timeout BLOCK_SUBSCRIPTION_TIMEOUT_SECS (ask SubscriptionNext);
  match next with
  | Some (ok (Some (ok (at_, block_hash)))) =>
      set_attempts 0;;
      r ← timeout BLOCK_PROCESSING_TIMEOUT_SECS (process_block_internal at_ block_hash);
      match r with
      | Some (ok action) => mret action
      | Some (err e) => throw e
      | None =>
          metric on_block_processing_stall;;
          recreate_or_give_up BlockProcessingTimeout
      end
  | Some (ok (Some (err e))) =>
      b ← ask (IsDisconnectedWillReconnect e);
      if b : bool then mret Continue else throw (Error.Subxt e)
  | Some (ok None) =>
      metric on_listener_subscription_stall;;
      recreate_or_give_up SubscriptionRecreated
  | Some (err e) => throw e
  | None =>
      metric on_listener_subscription_stall;;
      recreate_or_give_up SubscriptionRecreated
  end.

(** The first [n] iterations of the loop of [listener_task]. *)
Fixpoint listener_loop (n : nat) : M ListenerState unit :=
  match n with
  | 0%nat => mret tt
  | S n =>
      r ← catch process_listener_iteration;
      match r with
      | ok _ => listener_loop n
      | err e =>
          if is_critical_listener_error e then throw e
          else ask (Sleep 100);; listener_loop n
      end
  end.

(** [listener_task], observed for [n] iterations. *)
Definition listener_task (n : nat) : M ListenerState unit :=
  query StreamBlocks;;
  listener_loop n.

End listener.
