(* ===== verification/ListenerSpec.v ===== *)
(** * Properties of the listener

    The messages one block makes the listener send, as a function of what it
    remembers and what it reads; the protocol it follows towards the other
    tasks over its whole life; and when it gives up. *)

From S2P Require Import Prelude Errors Chain Metrics Types Effects Traces Observe Scenario ChainAccess Listener.
Local Open Scope Z_scope.

(** ** Messages *)
Inductive Message : Type :=
| ToMiner (m : MinerMessage)
| ToClearOldRounds (m : ClearOldRoundsMessage)
| ToEraPruning (m : EraPruningMessage).

Section messages.
Context `{T : MinerConfig}.

(** The message an event tries to send; whether it is delivered is up to the
    channel. *)
Definition msg_of (e : event) : option Message :=
  match e with
  | Event o _ =>
      match o with
      | MinerTrySend m | MinerSend m => Some (ToMiner m)
      | ClearTrySend m => Some (ToClearOldRounds m)
      | EraSend m | EraTrySend m => Some (ToEraPruning m)
      | _ => None
      end
  end.

Definition messages : trace -> list Message := observed msg_of.

(** ** The abstract listener *)

(** What a round increment sends. *)
Definition round_messages (last_round : option Z) (phase : Phase) (current_round : Z) : list Message :=
  match last_round with
  | Some last_round =>
      if last_round <? current_round
      then ToClearOldRounds (ClearOldRoundsTick current_round) ::
           (if is_off phase then [ToMiner ClearSnapshots] else [])
      else []
  | None => []
  end.

(** The last phase was [Off]. *)
Definition was_off (last_phase : option Phase) : bool :=
  match last_phase with Some p => is_off p | None => false end.

(** What the phase sends. *)
Definition phase_messages (last_phase : option Phase) (phase : Phase) (number : Z)
    (state : BlockDetails) : list Message :=
  match phase with
  | Off =>
      (if negb (was_off last_phase) then [ToEraPruning EnterOffPhase] else []) ++
      [ToEraPruning (NewBlock number)]
  | Signed _ | Snapshot_ _ =>
      (if was_off last_phase then [ToEraPruning ExitOffPhase] else []) ++
      [ToMiner (ProcessBlock state)]
  | _ => []
  end.

Lemma is_off_true p : is_off p = true <-> p = Off.
Proof. by destruct p. Qed.

Ltac no_message := intros ? ? ? H; exact H.
Ltac silent := repeat (keeps_step no_message).

(** The messages [full] after [L], a prefix of them if the program fails. *)
Definition emits {A} (L full : list Message) : outcome A -> ListenerState -> trace -> Prop :=
  yields msg_of False L full.

Ltac emits_end := first [apply wp_ret | apply wp_throw]; apply yields_fail; [intros []|].

Lemma wp_send_era m s t :
  wp Itrue (send_era m) (emits (messages t) [ToEraPruning m]) s t.
Proof.
  apply observes_ask; [done..|]. intros r t' Ht'. destruct r; by emits_end.
Qed.

Lemma wp_send_block state s t :
  wp Itrue (send_block state) (emits (messages t) [ToMiner (ProcessBlock state)]) s t.
Proof.
  apply observes_ask; [done..|]. intros r t' Ht'. destruct r; [|by emits_end..].
  apply wp_bind, wp_metric; [done|]. emits_end.
  by rewrite observed_cons, app_nil_r.
Qed.

Lemma wp_on_round_increment last cur p s t :
  last < cur ->
  wp Itrue (on_round_increment last cur p) (emits (messages t) (round_messages (Some last) p cur)) s t.
Proof.
  intros Hlt. unfold on_round_increment, round_messages. destruct (Z.ltb_spec last cur); [|lia].
  apply observes_ask; [done..|]. intros r t' Ht'.
  apply (observes_bind _ _ _ _ _ _ anything); [done|done|silent|]. intros _ s1 t1 H1 _.
  destruct (is_off p); [|by emits_end].
  apply observes_ask; [done..|]. intros r2 t2 H2. destruct r2; by emits_end.
Qed.

(** The details of a block are those read for it. *)
Definition details_of (at_ : Header) (p : Phase) (rnd : Z) (bd : BlockDetails) : Prop :=
  phase bd = p /\ round bd = rnd /\ block_number bd = number at_ mod 2 ^ 32.

Lemma keeps_block_details L at_ p hash rnd :
  keeps (unobserved msg_of L) (block_details_new at_ p hash rnd) (fun bd _ _ => details_of at_ p rnd bd).
Proof.
  unfold block_details_new, storage_at.
  do 3 (eapply (keeps_bind _ _ _ anything); [silent|intros ?]). by apply keeps_ret.
Qed.

Lemma details_exist at_ p rnd : exists bd, details_of at_ p rnd bd.
Proof.
  by eexists {| at_block := {| ab_hash := 0; ab_number := 0; ab_spec_version := 0 |}; phase := p;
    bd_n_pages := 0; round := rnd; desired_targets := 0; block_number := number at_ mod 2 ^ 32 |}.
Qed.

(** The state is not written any more. *)
Definition state_is (s0 : ListenerState) (s : ListenerState) (_ : trace) : Prop := s = s0.

(** The phase part after the phase was recorded. *)
Definition phase_rest (last_phase : option Phase) (at_ : Header) (phase : Phase) (block_hash : Hash)
    (current_round : Z) : M ListenerState ListenerAction :=
  match phase with
  | Off =>
      (match last_phase with
       | Some last_phase => if negb (is_off last_phase) then send_era EnterOffPhase else mret tt
       | None => send_era EnterOffPhase
       end);;
      ask (EraTrySend (NewBlock (number at_ mod 2 ^ 32)));;
      metric set_last_block_processing_time;;
      mret Continue
  | Signed _ | Snapshot_ _ =>
      (match last_phase with
       | Some last_phase => if is_off last_phase then send_era ExitOffPhase else mret tt
       | None => mret tt
       end);;
      mining_work at_ phase block_hash current_round
  | _ =>
      metric set_last_block_processing_time;;
      mret Continue
  end.

Lemma state_phase_rest s0 lp at_ p hash rnd :
  keeps (state_is s0) (phase_rest lp at_ p hash rnd) anything.
Proof.
  unfold phase_rest, mining_work, block_details_new, send_block, send_era, storage_at. silent.
Qed.

Lemma wp_mining_work at_ p hash rnd s t :
  wp Itrue (mining_work at_ p hash rnd) (fun o s' t' => exists bd, details_of at_ p rnd bd /\
    emits (messages t) [ToMiner (ProcessBlock bd)] o s' t') s t.
Proof.
  destruct (details_exist at_ p rnd) as [bd0 Hbd0]. unfold mining_work.
  eapply (wp_keeps_bind (unobserved msg_of (messages t)));
    [apply keeps_block_details|done| |].
  2:{ intros o s' t' HI Ho. exists bd0. split; [done|]. by apply yields_nothing. }
  intros bd s1 t1 H1 Hbd. apply wp_bind, wp_metric; [done|]. cbn [bind_post].
  eapply wp_mono; [done| |apply wp_send_block].
  intros o s2 t2 H2. exists bd. split; [done|]. unfold messages in *.
  by rewrite observed_cons, app_nil_r, H1 in H2.
Qed.

(** A phase change, then what follows it. *)
Lemma wp_era_then {A} (b : bool) m (k : M ListenerState A) (Q : list Message -> outcome A -> ListenerState -> trace -> Prop) s t :
  (forall s' t', messages t' = messages t ++ (if b then [ToEraPruning m] else []) ->
     wp Itrue k (Q (if b then [ToEraPruning m] else [])) s' t') ->
  (forall o s' t' new, (forall a, o <> Ok a) -> messages t' = messages t ++ new ->
     new `prefix_of` (if b then [ToEraPruning m] else []) ->
     Q (if b then [ToEraPruning m] else []) o s' t') ->
  wp Itrue ((if b then send_era m else mret tt);; k) (Q (if b then [ToEraPruning m] else [])) s t.
Proof.
  intros Hk Hstop. apply wp_bind. destruct b.
  - eapply wp_mono; [done| |apply wp_send_era]. intros o s' t' (new & Ht & Ho).
    destruct o as [a|e|msg|]; cbn [bind_post]; [by subst; apply Hk|..];
      (destruct Ho; by eapply Hstop).
  - apply wp_ret. cbn [bind_post]. apply Hk. by rewrite app_nil_r.
Qed.

Lemma emits_app {A} L pre rest (o : outcome A) (s : ListenerState) t :
  emits (L ++ pre) rest o s t -> emits L (pre ++ rest) o s t.
Proof.
  intros (new & Ht & Ho). exists (pre ++ new). rewrite Ht, <- app_assoc. split; [done|].
  destruct o; [by subst|..]; (destruct Ho as [[q ->] _]; split; [by exists q; rewrite app_assoc|by intros []]).
Qed.

Lemma emits_stop {A} L new pre rest (o : outcome A) (s : ListenerState) t :
  (forall a, o <> Ok a) -> messages t = L ++ new -> new `prefix_of` pre ->
  emits L (pre ++ rest) o s t.
Proof.
  intros Ho Ht [q ->]. apply (yields_early _ _ _ new); [done|done| |intros []].
  exists (q ++ rest). by rewrite app_assoc.
Qed.

Lemma wp_phase_rest lp at_ p hash rnd s t :
  wp Itrue (phase_rest lp at_ p hash rnd) (fun o s' t' => exists bd, details_of at_ p rnd bd /\
    emits (messages t) (phase_messages lp p (number at_ mod 2 ^ 32) bd) o s' t') s t.
Proof.
  destruct (details_exist at_ p rnd) as [bd0 Hbd0].
  assert (forall m, (match lp with
      | Some l => if negb (is_off l) then send_era m else mret tt
      | None => send_era m
      end : M ListenerState unit) = if negb (was_off lp) then send_era m else mret tt) as Henter.
  { intros m. by destruct lp as [[]|]. }
  assert (forall m, (match lp with
      | Some l => if is_off l then send_era m else mret tt
      | None => mret tt
      end : M ListenerState unit) = if was_off lp then send_era m else mret tt) as Hexit.
  { intros m. by destruct lp as [[]|]. }
  assert (forall n, p = Signed n \/ p = Snapshot_ n ->
    wp Itrue (phase_rest lp at_ p hash rnd) (fun o s' t' => exists bd, details_of at_ p rnd bd /\
      emits (messages t) (phase_messages lp p (number at_ mod 2 ^ 32) bd) o s' t') s t) as Hmine.
  { intros n Hn. replace (phase_rest lp at_ p hash rnd) with
      ((if was_off lp then send_era ExitOffPhase else mret tt);; mining_work at_ p hash rnd)
      by (rewrite <- Hexit; by destruct Hn as [->| ->]).
    apply (wp_era_then _ _ _ (fun pre o s' t' => exists bd, details_of at_ p rnd bd /\
      emits (messages t) (phase_messages lp p (number at_ mod 2 ^ 32) bd) o s' t')).
    - intros s1 t1 H1. eapply wp_mono; [done| |apply wp_mining_work].
      intros o s2 t2 (bd & Hbd & H2). exists bd. split; [done|]. rewrite H1 in H2.
      apply emits_app in H2. by destruct Hn as [->| ->].
    - intros o s1 t1 new Ho H1 Hpre. exists bd0. split; [done|].
      by destruct Hn as [->| ->]; eapply emits_stop. }
  destruct p as [|n|n|txt]; [|by apply (Hmine n); left|by apply (Hmine n); right|].
  - cbn [phase_rest]. rewrite Henter.
    apply (wp_era_then _ _ _ (fun pre o s' t' => exists bd, details_of at_ Off rnd bd /\
      emits (messages t) (phase_messages lp Off (number at_ mod 2 ^ 32) bd) o s' t')).
    + intros s1 t1 H1. apply wp_bind. intros r. split; [done|]. apply wp_ret. cbn [bind_post].
      apply wp_bind, wp_metric; [done|]. apply wp_ret. exists bd0. split; [done|]. cbn [phase_messages].
      apply emits_app. rewrite <- H1. exists [ToEraPruning (NewBlock (number at_ mod 2 ^ 32))].
      split; [|done]. unfold messages. by rewrite !observed_cons, app_nil_r.
    + intros o s1 t1 new Ho H1 Hpre. exists bd0. split; [done|]. by eapply emits_stop.
  - cbn [phase_rest]. apply wp_bind, wp_metric; [done|]. apply wp_ret. exists bd0. split; [done|].
    exists []. split; [|done]. unfold messages. by rewrite observed_cons.
Qed.

(** The reads of a block: same block for the phase and the round. *)
Definition block_read (t : trace) (p : Phase) (rnd : Z) : Prop :=
  exists b, Event (FetchCurrentPhase b) (ok p) ∈ t /\ Event (FetchRound b) (ok rnd) ∈ t.

Definition still (s0 : ListenerState) (L : list Message) (s : ListenerState) (t : trace) : Prop :=
  s = s0 /\ messages t = L.

Lemma still_op s0 L R (o : op R) s t r :
  msg_of (Event o r) = None -> still s0 L s t -> still s0 L s (Event o r :: t).
Proof. intros Ho [-> <-]. split; [done|]. unfold messages. by rewrite observed_cons, Ho, app_nil_r. Qed.

Lemma keeps_block_state s0 L hash :
  keeps (still s0 L) (get_block_state hash) (fun r _ t => block_read t r.1.2 r.2).
Proof.
  unfold get_block_state, storage_at.
  eapply (keeps_bind _ _ _ anything); [apply keeps_query; [|done]; intros ???; by apply still_op|intros b].
  eapply (keeps_bind _ _ _ anything); [apply keeps_ask; [|done]; intros ???; by apply still_op|intros _].
  eapply (keeps_bind_post _ _ _ (fun p _ t => Event (FetchCurrentPhase b) (ok p) ∈ t));
    [apply keeps_query; [intros ???; by apply still_op|intros; by left]|].
  intros p s t HI Hp. apply wp_bind, wp_metric; [by apply still_op|]. cbn [bind_post].
  apply wp_bind. intros [rnd|e]; (split; [by repeat apply still_op|]);
    [|split; [by repeat apply still_op|done]].
  cbn [bind_post]. apply wp_bind, wp_metric; [by repeat apply still_op|]. apply wp_ret.
  split; [by repeat apply still_op|]. exists b. split; [by do 3 right|right; by left].
Qed.

(** What one block does: the messages the abstract listener sends, in order,
    and the round and phase it remembers. *)
Definition block_spec (at_ : Header) (s : ListenerState) (L : list Message)
    (o : outcome ListenerAction) (s' : ListenerState) (t' : trace) : Prop :=
  exists p rnd bd, details_of at_ p rnd bd /\
    emits L (round_messages (prev_round s) p rnd ++
             phase_messages (prev_phase s) p (number at_ mod 2 ^ 32) bd) o s' t' /\
    (forall a, o = Ok a -> block_read t' p rnd /\
       s' = {| prev_round := Some rnd; prev_phase := Some p;
               subscription_recreation_attempts := subscription_recreation_attempts s |}).

Lemma block_read_suffix t t' p rnd : t `suffix_of` t' -> block_read t p rnd -> block_read t' p rnd.
Proof. intros [new ->] (b & H1 & H2). exists b. split; apply elem_of_app; by right. Qed.

(** The round part writes no state. *)
Definition round_work (last_round : option Z) (current_round : Z) (phase : Phase) : M ListenerState unit :=
  match last_round with
  | Some last_round =>
      if last_round <? current_round
      then on_round_increment last_round current_round phase
      else mret tt
  | None => mret tt
  end.

Lemma wp_round_work lr rnd p s t :
  wp Itrue (round_work lr rnd p) (fun o s' t' =>
    emits (messages t) (round_messages lr p rnd) o s' t' /\ s' = s) s t.
Proof.
  eapply wp_mono; [| |apply (wp_and Itrue (state_is s) _
    (emits (messages t) (round_messages lr p rnd)) (fun _ s' _ => s' = s))]; [done|done| |].
  - unfold round_work, round_messages. destruct lr as [l|]; [|by emits_end].
    destruct (Z.ltb_spec l rnd); [|by emits_end].
    eapply wp_mono; [done| |by apply wp_on_round_increment].
    intros o s' t'. unfold round_messages. destruct (Z.ltb_spec l rnd); [done|lia].
  - eapply wp_mono; [done| |apply (keeps_elim (state_is s) _ anything); [|done]].
    + by intros o s' t' [? _].
    + unfold round_work, on_round_increment. silent.
Qed.

Lemma wp_phase_work at_ p hash rnd s t :
  wp Itrue (phase_work at_ p hash rnd) (fun o s' t' =>
    (exists bd, details_of at_ p rnd bd /\
       emits (messages t) (phase_messages (prev_phase s) p (number at_ mod 2 ^ 32) bd) o s' t') /\
    s' = {| prev_round := prev_round s; prev_phase := Some p;
            subscription_recreation_attempts := subscription_recreation_attempts s |}) s t.
Proof.
  unfold phase_work, set_prev_phase. apply wp_bind, wp_get. cbn [bind_post].
  apply wp_bind, wp_bind, wp_get. cbn [bind_post]. apply wp_put. cbn [bind_post].
  set (s2 := {| prev_round := _ |}).
  eapply wp_mono; [| |apply (wp_and Itrue (state_is s2) (phase_rest (prev_phase s) at_ p hash rnd))];
    [done| |apply wp_phase_rest|by apply (keeps_elim (state_is s2) _ anything); [apply state_phase_rest|]].
  intros o s' t' [H1 [H2 _]]. done.
Qed.

Lemma wp_process_block_internal at_ hash s t :
  wp Itrue (process_block_internal at_ hash) (block_spec at_ s (messages t)) s t.
Proof.
  destruct (details_exist at_ Off 0) as [bd0 Hbd0]. unfold process_block_internal.
  eapply (wp_keeps_bind (still s (messages t))); [apply keeps_block_state|by split| |].
  2:{ intros o s' t' [-> HL] Ho. exists Off, 0, bd0. split_and!; [done| |by intros a ->; destruct (Ho a)].
      by apply yields_nothing. }
  intros [[b p] rnd] s1 t1 [-> HL] Hread. cbn [fst snd] in Hread.
  destruct (details_exist at_ p rnd) as [bd1 Hbd1].
  apply wp_bind, wp_metric; [done|]. cbn [bind_post]. apply wp_bind, wp_get. cbn [bind_post].
  unfold set_prev_round. apply wp_bind, wp_bind, wp_get. cbn [bind_post].
  apply wp_put. cbn [bind_post]. set (s2 := {| prev_round := Some rnd |}).
  set (t2 := _ :: t1). assert (messages t2 = messages t) as HL2.
  { unfold t2, messages. by rewrite observed_cons, app_nil_r. }
  apply wp_bind.
  eapply wp_mono; [done| |apply wp_suffix, (wp_round_work (prev_round s) rnd p)].
  intros o s3 t3 [[Hem ->] Hsuf]. rewrite HL2 in Hem.
  destruct o as [u|e|msg|]; cbn [bind_post].
  2-4: exists p, rnd, bd1; (split_and!; [done| |done]);
    destruct Hem as (new & Ht & [Hpre _]); by eapply emits_stop.
  eapply wp_mono; [done| |apply wp_suffix, wp_phase_work].
  intros o s4 t4 [[(bd & Hbd & Hph) ->] Hsuf4]. exists p, rnd, bd. split_and!; [done| |].
  - destruct Hem as (new & Ht & ->). change (observed msg_of t3) with (messages t3) in Ht.
    rewrite Ht in Hph. by apply emits_app.
  - intros a _. split; [|done]. eapply block_read_suffix; [|exact Hread].
    do 2 (etrans; [|eassumption]). by exists [Event (MetricOp observe_block_state_duration) tt].
Qed.

End messages.

(** C17: one block, as the abstract listener: the messages it sends are those of
    a round increment followed by those of the phase, in this order, for the
    phase and round read at that block and the ones remembered before; a
    failure or a channel error stops it after a prefix of them; and a block that
    is processed leaves its round and phase remembered. *)
Theorem process_block_internal_messages `{T : MinerConfig} (h : handler) at_ hash
    (s : ListenerState) (t : trace) :
  let '(o, s', t') := run h (process_block_internal at_ hash) s t in
  exists p rnd bd, details_of at_ p rnd bd /\
    let all := round_messages (prev_round s) p rnd ++
               phase_messages (prev_phase s) p (number at_ mod 2 ^ 32) bd in
    match o with
    | Ok _ => messages t' = messages t ++ all /\ block_read t' p rnd /\
        prev_round s' = Some rnd /\ prev_phase s' = Some p
    | _ => exists sent, messages t' = messages t ++ sent /\ sent `prefix_of` all
    end.
Proof.
  pose proof (wp_run _ _ _ _ _ h (wp_process_block_internal at_ hash s t)) as H.
  destruct (run h _ s t) as [[o s'] t']. destruct H as (p & rnd & bd & Hbd & (new & Ht & Ho) & Hs).
  exists p, rnd, bd. split; [done|]. destruct o as [a|e|msg|]; cbv zeta.
  - subst new. destruct (Hs a eq_refl) as [Hr ->]. done.
  - exists new. by destruct Ho.
  - exists new. by destruct Ho.
  - exists new. by destruct Ho.
Qed.

(** ** Invariants of the loop

    What the loop adds around a block (the subscription, the attempts counter,
    the timeouts) keeps an invariant that only looks at messages and rounds. *)
Definition is_outer `{T : MinerConfig} {R} (o : op R) : bool :=
  match o with
  | SubscriptionNext | StreamBlocks | Reconnect | IsDisconnectedWillReconnect _
  | Sleep _ | MetricOp _ => true
  | _ => false
  end.

Section loop.
Context `{T : MinerConfig} (I : ListenerState -> trace -> Prop).
Context (outer_neutral : forall R (o : op R), is_outer o = true -> neutral I o).
Context (attempts_ok : forall s t n, I s t ->
  I {| prev_round := prev_round s; prev_phase := prev_phase s;
       subscription_recreation_attempts := n |} t).
Context (block_ok : forall at_ hash, keeps I (process_block_internal at_ hash) anything).

Ltac outer := by apply outer_neutral.

Lemma keeps_set_attempts n : keeps I (set_attempts n) anything.
Proof.
  intros s t HI. apply wp_bind, wp_get. cbn [bind_post].
  apply wp_put. split; [by apply attempts_ok|done].
Qed.

Lemma keeps_get_state : keeps I get_state anything.
Proof. by intros s t HI. Qed.

Lemma keeps_recreate action : keeps I (recreate_or_give_up action) anything.
Proof.
  unfold recreate_or_give_up, recreate_subscription_with_failover.
  repeat (apply keeps_get_state || apply keeps_set_attempts || keeps_step outer).
Qed.

Lemma keeps_iteration : keeps I process_listener_iteration anything.
Proof.
  unfold process_listener_iteration.
  repeat (apply keeps_recreate || apply keeps_set_attempts || apply block_ok || keeps_step outer).
Qed.

Lemma keeps_listener_task n : keeps I (listener_task n) anything.
Proof.
  unfold listener_task. eapply (keeps_bind _ _ _ anything); [keeps_step outer|intros _].
  induction n as [|n IH]; cbn [listener_loop]; [by apply keeps_ret|].
  eapply (keeps_bind _ _ _ anything).
  - eapply keeps_weaken; [apply keeps_catch, keeps_iteration|done].
  - intros [a|e]; [apply IH|]. destruct (is_critical_listener_error e); [apply keeps_throw|].
    eapply (keeps_bind _ _ _ anything); [keeps_step outer|intros _; apply IH].
Qed.

End loop.

(** ** Entering and leaving the Off phase *)
Section era.
Context `{T : MinerConfig}.

(** The phase changes sent to the era pruning task. *)
Definition ctrl_of (e : event) : option EraPruningMessage :=
  match msg_of e with
  | Some (ToEraPruning ((EnterOffPhase | ExitOffPhase) as m)) => Some m
  | _ => None
  end.

Definition last_ctrl (t : trace) : option EraPruningMessage := head (omap ctrl_of t).

(** While the remembered phase is [Off], the last change sent was [Enter]; and
    every [Exit] followed an [Enter]. *)
Definition era_inv (s : ListenerState) (t : trace) : Prop :=
  (prev_phase s = Some Off -> last_ctrl t = Some EnterOffPhase) /\
  guarded (fun e past => ctrl_of e = Some ExitOffPhase -> last_ctrl past = Some EnterOffPhase) t.

Lemma era_inv_neutral {R} (o : op R) :
  (forall r, ctrl_of (Event o r) = None) -> neutral era_inv o.
Proof.
  intros Ho s t r [H1 H2]. split.
  - intros Hp. unfold last_ctrl. csimpl. rewrite Ho. by apply H1.
  - split; [|done]. by rewrite Ho.
Qed.

Ltac era := apply era_inv_neutral; done.

(** Sending a phase change that establishes the invariant. *)
Lemma wp_send_era_then {A} (m : EraPruningMessage) (k : M ListenerState A) s t :
  (forall r, era_inv s (Event (EraSend m) r :: t)) -> keeps era_inv k anything ->
  wp era_inv (send_era m;; k) (fun o s' t' => era_inv s' t' /\ match o with Ok a => anything a s' t' | _ => True end) s t.
Proof.
  intros Hm Hk. apply wp_bind, wp_bind. intros r. split; [done|]. apply wp_ret. cbn [bind_post].
  destruct r; [apply wp_ret; by apply Hk|by apply wp_throw].
Qed.

Lemma keeps_era_mining at_ p hash rnd : keeps era_inv (mining_work at_ p hash rnd) anything.
Proof. unfold mining_work, block_details_new, send_block, storage_at. repeat (keeps_step era). Qed.

Lemma keeps_era_phase at_ p hash rnd : keeps era_inv (phase_work at_ p hash rnd) anything.
Proof.
  intros s t [H1 H2]. unfold phase_work, set_prev_phase.
  apply wp_bind, wp_get. cbn [bind_post]. apply wp_bind, wp_bind, wp_get. cbn [bind_post].
  apply wp_put. cbn [bind_post].
  assert (forall m, m = EnterOffPhase \/ m = ExitOffPhase /\ prev_phase s = Some Off /\ p <> Off ->
    forall r, era_inv {| prev_round := prev_round s; prev_phase := Some p;
      subscription_recreation_attempts := subscription_recreation_attempts s |}
      (Event (EraSend m) r :: t)) as Hsend.
  { intros m [->|(-> & Hp & Hne)] r; (split; [by cbn; intros [= ->]|split; [|done]]); [done|].
    intros _. by apply H1. }
  destruct p as [|n|n|txt].
  - destruct (prev_phase s) as [lp|] eqn:Hlp; [destruct (is_off lp) eqn:Hoff|]; cbn [negb].
    2,3: apply wp_send_era_then; [intros r; apply Hsend; by left|repeat (keeps_step era)].
    apply is_off_true in Hoff as ->.
    apply (keeps_elim era_inv _ anything); [repeat (keeps_step era)|]. split; [by intros _; apply H1|done].
  - destruct (prev_phase s) as [lp|] eqn:Hlp; [destruct (is_off lp) eqn:Hoff|].
    + apply is_off_true in Hoff as ->. apply wp_send_era_then; [|apply keeps_era_mining].
      intros r. apply Hsend. by right.
    + apply wp_bind, wp_ret. by apply keeps_era_mining.
    + apply wp_bind, wp_ret. by apply keeps_era_mining.
  - destruct (prev_phase s) as [lp|] eqn:Hlp; [destruct (is_off lp) eqn:Hoff|].
    + apply is_off_true in Hoff as ->. apply wp_send_era_then; [|apply keeps_era_mining].
      intros r. apply Hsend. by right.
    + apply wp_bind, wp_ret. by apply keeps_era_mining.
    + apply wp_bind, wp_ret. by apply keeps_era_mining.
  - apply (keeps_elim era_inv _ anything); [repeat (keeps_step era)|]. by split.
Qed.

Lemma keeps_era_block at_ hash : keeps era_inv (process_block_internal at_ hash) anything.
Proof.
  unfold process_block_internal.
  eapply (keeps_bind _ _ _ anything).
  { unfold get_block_state, storage_at. repeat (keeps_step era). }
  intros [[b p] rnd]. eapply (keeps_bind _ _ _ anything); [repeat (keeps_step era)|intros _].
  intros s t HI. apply wp_bind, wp_get. cbn [bind_post].
  unfold set_prev_round. apply wp_bind, wp_bind, wp_get. cbn [bind_post].
  apply wp_put. cbn [bind_post].
  apply (keeps_elim era_inv _ anything); [|done]. eapply (keeps_bind _ _ _ anything).
  - unfold on_round_increment. repeat (keeps_step era).
  - intros _. apply keeps_era_phase.
Qed.

End era.

(** over the whole life of the listener, wherever timeouts interrupt it, it
    never tells the era pruning task to stop unless the last thing it told it
    was to start. *)
Theorem exit_off_follows_enter_off `{T : MinerConfig} (h : handler) n :
  let t' := (run h (listener_task n) listener_init []).2 in
  forall new e past, t' = new ++ e :: past ->
    ctrl_of e = Some ExitOffPhase -> last_ctrl past = Some EnterOffPhase.
Proof.
  assert (keeps era_inv (listener_task n) anything) as Hk.
  { apply keeps_listener_task; [|by intros|apply keeps_era_block].
    intros R o Ho. apply era_inv_neutral. by destruct o. }
  pose proof (keeps_run _ _ _ h listener_init [] Hk) as H.
  destruct (run h _ _ _) as [[o s'] t']. destruct H as [[_ Hg] _]; [done|].
  intros t new e past Heq. by eapply guarded_lookup in Hg.
Qed.

(** A node that leaves the Off phase after the first block. *)
Definition leaving_off_node : Node :=
  with_phase (fun t => match last_ctrl t with Some _ => Signed 50 | None => Off end) good_node.

Lemma exit_off_follows_enter_off_witness :
  let t' := (run (node_handler leaving_off_node) (listener_task 2) listener_init []).2 in
  exists past, drop 6 t' = Event (EraSend ExitOffPhase) (ok tt) :: past /\
    last_ctrl past = Some EnterOffPhase.
Proof.
  intros t'. exists (drop 7 t'). split; [vm_compute; reflexivity|].
  apply (exit_off_follows_enter_off (node_handler leaving_off_node) 2 (take 6 t')
    (Event (EraSend ExitOffPhase) (ok tt)) (drop 7 t')); vm_compute; reflexivity.
Defined.

(** ** Round increments *)
Section ticks.
Context `{T : MinerConfig}.

(** The rounds that were read and the rounds the clear-old-rounds task was
    told about, newest first. *)
Definition round_read (e : event) : option Z :=
  match e with
  | Event o r =>
      match o in op R return R -> option Z with
      | FetchRound _ => fun r => match r with ok x => Some x | err _ => None end
      | _ => fun _ => None
      end r
  end.

Definition tick_of (e : event) : option Z :=
  match msg_of e with
  | Some (ToClearOldRounds (ClearOldRoundsTick r)) => Some r
  | _ => None
  end.

Definition rounds_read (t : trace) : list Z := omap round_read t.
Definition ticks (t : trace) : list Z := omap tick_of t.

(** The rounds of the finalized chain do not decrease. *)
Definition rounds_monotone (t : trace) : Prop := StronglySorted (fun newer older => older <= newer) (rounds_read t).

Definition tick_inv (s : ListenerState) (t : trace) : Prop :=
  (forall p, prev_round s = Some p -> p ∈ rounds_read t) /\
  (rounds_monotone t ->
     (forall r, r ∈ ticks t -> exists p, prev_round s = Some p /\ r <= p) /\
     StronglySorted (fun newer older => older < newer) (ticks t)).

Lemma rounds_read_cons e t : rounds_read (e :: t) = option_list (round_read e) ++ rounds_read t.
Proof. unfold rounds_read. csimpl. by destruct (round_read e). Qed.

Lemma ticks_cons e t : ticks (e :: t) = option_list (tick_of e) ++ ticks t.
Proof. unfold ticks. csimpl. by destruct (tick_of e). Qed.

Lemma rounds_monotone_tail e t : rounds_monotone (e :: t) -> rounds_monotone t.
Proof.
  unfold rounds_monotone. rewrite rounds_read_cons. destruct (round_read e); cbn; [|done].
  by intros [? _]%StronglySorted_inv.
Qed.

Lemma tick_inv_neutral {R} (o : op R) :
  (forall r, tick_of (Event o r) = None) -> neutral tick_inv o.
Proof.
  intros Ho s t r [H1 H2]. split.
  - intros p Hp. rewrite rounds_read_cons. apply elem_of_app. right. by apply H1.
  - intros Hm%rounds_monotone_tail. rewrite ticks_cons, Ho. by apply H2.
Qed.

Ltac tick := apply tick_inv_neutral; done.

(** After the reads of a block, the newest round is the one returned. *)
Lemma wp_tick_block_state hash s t :
  tick_inv s t ->
  wp tick_inv (get_block_state hash) (fun o s' t' => tick_inv s' t' /\
    match o with
    | Ok r => s' = s /\ exists older, rounds_read t' = r.2 :: older /\
        forall p, prev_round s = Some p -> p ∈ older
    | _ => True
    end) s t.
Proof.
  intros HI. unfold get_block_state, storage_at.
  assert (forall R (o : op R) r t', (forall r, tick_of (Event o r) = None) -> tick_inv s t' ->
    tick_inv s (Event o r :: t')) as Hn by (intros; by apply tick_inv_neutral).
  apply wp_bind. intros [b|e]; (split; [by apply Hn|]); [|split; [by apply Hn|done]].
  apply wp_ret. cbn [bind_post]. apply wp_bind, wp_metric; [by repeat apply Hn|]. cbn [bind_post].
  apply wp_bind. intros [p|e]; (split; [by repeat apply Hn|]); [|split; [by repeat apply Hn|done]].
  apply wp_ret. cbn [bind_post]. apply wp_bind, wp_metric; [by repeat apply Hn|]. cbn [bind_post].
  apply wp_bind. intros [x|e]; (split; [by repeat apply Hn|]); [|split; [by repeat apply Hn|done]].
  apply wp_ret. cbn [bind_post]. apply wp_bind, wp_metric; [by repeat apply Hn|]. cbn [bind_post].
  apply wp_ret. split; [by repeat apply Hn|]. split; [done|].
  eexists. split; [by rewrite !rounds_read_cons|]. intros q Hq. by apply HI.
Qed.

(** Recording the round and telling the task about an increment. *)
Lemma wp_tick_round rnd older p s t :
  tick_inv s t -> rounds_read t = rnd :: older ->
  (forall q, prev_round s = Some q -> q ∈ older) ->
  wp tick_inv (round_work (prev_round s) rnd p) (fun _ s' t' => tick_inv s' t')
    {| prev_round := Some rnd; prev_phase := prev_phase s;
       subscription_recreation_attempts := subscription_recreation_attempts s |} t.
Proof.
  intros [H1 H2] Hr Hq. set (s2 := {| prev_round := Some rnd |}).
  assert (rounds_monotone t -> forall q, prev_round s = Some q -> q <= rnd) as Hle.
  { unfold rounds_monotone. rewrite Hr. intros [_ Hf]%StronglySorted_inv q Hs.
    eapply Forall_forall in Hf; [exact Hf|by apply Hq]. }
  assert (tick_inv s2 t) as HI2.
  { split; [cbn; intros q [= <-]; rewrite Hr; by left|]. intros Hm. destruct (H2 Hm) as [Ht Hs].
    split; [|done]. intros r Hrr. destruct (Ht r Hrr) as (q & Hq1 & Hq2).
    exists rnd. split; [done|]. specialize (Hle Hm q Hq1). lia. }
  unfold round_work. destruct (prev_round s) as [lr|] eqn:Hprev; [|by apply wp_ret].
  destruct (Z.ltb_spec lr rnd) as [Hlt|]; [|by apply wp_ret].
  unfold on_round_increment. apply wp_bind. intros r.
  assert (tick_inv s2 (Event (ClearTrySend (ClearOldRoundsTick rnd)) r :: t)) as HI3.
  { split; [apply HI2|]. intros Hm%rounds_monotone_tail. rewrite ticks_cons. cbn.
    destruct (H2 Hm) as [Ht Hs]. destruct HI2 as [_ HI2]. destruct (HI2 Hm) as [Ht2 _]. split.
    - intros r' [->|Hr']%elem_of_cons; [by exists rnd|by apply Ht2].
    - constructor; [done|]. apply Forall_forall. intros r' Hr'.
      destruct (Ht r' Hr') as (q & [= <-] & Hle'). lia. }
  split; [done|]. apply wp_ret. cbn [bind_post].
  eapply wp_mono; [done| |apply (keeps_elim tick_inv _ anything); [repeat (keeps_step tick)|exact HI3]].
  by intros o s' t' [? _].
Qed.

Lemma keeps_tick_block at_ hash : keeps tick_inv (process_block_internal at_ hash) anything.
Proof.
  intros s t HI. unfold process_block_internal. apply wp_bind.
  eapply wp_mono; [done| |by apply wp_tick_block_state].
  intros [[[b p] rnd]|e|msg|] s1 t1 [HI1 Hr]; cbn [bind_post]; try done.
  destruct Hr as (-> & older & Hr & Hq). cbn [snd] in Hr.
  apply wp_bind, wp_metric; [by apply tick_inv_neutral|]. cbn [bind_post].
  apply wp_bind, wp_get. cbn [bind_post]. unfold set_prev_round.
  apply wp_bind, wp_bind, wp_get. cbn [bind_post]. apply wp_put. cbn [bind_post].
  apply wp_bind. eapply wp_mono; [done| |eapply wp_tick_round; [by apply tick_inv_neutral|exact Hr|exact Hq]].
  intros [u|e|msg|] s2 t2 HI2; cbn [bind_post]; try done.
  unfold phase_work, set_prev_phase. apply wp_bind, wp_get. cbn [bind_post].
  apply wp_bind, wp_bind, wp_get. cbn [bind_post]. apply wp_put. cbn [bind_post].
  apply (keeps_elim tick_inv _ anything); [|done].
  unfold send_era, mining_work, block_details_new, send_block, storage_at. repeat (keeps_step tick).
Qed.

End ticks.

(** C24: As long as the finalized rounds do not decrease, the clear-old-rounds
    task is told about each round at most once, in increasing order, and never
    about a round after the one remembered. *)
Theorem clear_old_rounds_once_per_round `{T : MinerConfig} (h : handler) n :
  let '(_, s', t') := run h (listener_task n) listener_init [] in
  rounds_monotone t' ->
  StronglySorted (fun newer older => older < newer) (ticks t') /\ NoDup (ticks t') /\
  (forall r, r ∈ ticks t' -> exists p, prev_round s' = Some p /\ r <= p).
Proof.
  assert (keeps tick_inv (listener_task n) anything) as Hk.
  { apply keeps_listener_task; [|by intros|apply keeps_tick_block].
    intros R o Ho. apply tick_inv_neutral. by destruct o. }
  pose proof (keeps_run _ _ _ h listener_init [] Hk) as H.
  destruct (run h _ _ _) as [[o s'] t']. destruct H as [[_ Ht] _].
  { split; [done|]. intros _. split; [|constructor]. intros r Hr. by apply not_elem_of_nil in Hr. }
  intros Hm. destruct (Ht Hm) as [H1 H2]. split_and!; [done| |done].
  clear -H2. induction H2 as [|r l Hs IH Hf]; constructor; [|done].
  intros Hr. eapply Forall_forall in Hf; [|exact Hr]. lia.
Qed.

(** A node in the Off phase whose round grows with every block. *)
Definition rounds_node : Node :=
  with_phase (fun _ => Off) (with_round (fun t => 3 + Z.of_nat (length (rounds_read t))) good_node).

Lemma clear_old_rounds_once_per_round_witness :
  let t' := (run (node_handler rounds_node) (listener_task 3) listener_init []).2 in
  ticks t' = [5; 4] /\ NoDup (ticks t').
Proof.
  pose proof (clear_old_rounds_once_per_round (node_handler rounds_node) 3) as H.
  destruct (run _ _ _ _) as [[o s'] t'] eqn:Hrun. vm_compute in Hrun. injection Hrun as <- <- <-.
  split; [vm_compute; reflexivity|]. apply H.
  unfold rounds_monotone. vm_compute. repeat constructor; discriminate.
Defined.

(** ** Giving up *)
Section exit.
Context `{T : MinerConfig}.

(** A block was received. *)
Definition block_received (t : trace) : Prop :=
  exists b, Event SubscriptionNext (Some (ok b)) ∈ t.

Lemma block_received_suffix t t' : t `suffix_of` t' -> block_received t -> block_received t'.
Proof. intros [new ->] [b Hb]. exists b. apply elem_of_app. by right. Qed.

(** An iteration without a block fails only with errors that are not critical. *)
Definition exit_post {A} (o : outcome A) (_ : ListenerState) (t : trace) : Prop :=
  match o with Err e => is_critical_listener_error e = true -> block_received t | _ => True end.

Lemma wp_recreate_exit action s t : wp Itrue (recreate_or_give_up action) exit_post s t.
Proof.
  unfold recreate_or_give_up, set_attempts. apply wp_bind, wp_get. cbn [bind_post].
  apply wp_bind, wp_bind, wp_get. cbn [bind_post]. apply wp_put. cbn [bind_post].
  destruct (_ <? _); [by apply wp_throw|]. unfold recreate_subscription_with_failover.
  apply wp_bind, wp_bind. intros r. split; [done|]. apply wp_ret. cbn [bind_post].
  destruct r as [u|e]; [done|].
  apply wp_bind. intros r. split; [done|]. apply wp_ret. cbn [bind_post].
  destruct r as [u|e']; [|done].
  apply wp_bind. intros r. split; [done|]. apply wp_ret. cbn [bind_post]. by destruct r.
Qed.

Lemma wp_iteration_exit s t : wp Itrue process_listener_iteration exit_post s t.
Proof.
  unfold process_listener_iteration. apply wp_bind, wp_timeout.
  2:{ intros s1 t1 _. cbn [bind_post]. apply wp_bind, wp_metric; [done|]. apply wp_recreate_exit. }
  intros r. split; [done|]. apply wp_ret. cbn [bind_post].
  destruct r as [[[at_ hash]|e]|].
  - assert (block_received (Event SubscriptionNext (Some (ok (at_, hash))) :: t)) as Hr
      by (exists (at_, hash); by left).
    eapply wp_mono; [done| |apply wp_suffix, wp_true].
    intros o s' t' [_ Hsuf]. destruct o; cbn; try done. intros _. by eapply block_received_suffix.
  - apply wp_bind. intros b. split; [done|]. apply wp_ret. cbn [bind_post]. by destruct b.
  - apply wp_bind, wp_metric; [done|]. apply wp_recreate_exit.
Qed.

Lemma wp_loop_exit n : forall s t, wp Itrue (listener_loop n) (fun o _ t' =>
  match o with
  | Err e => is_critical_listener_error e = true /\ block_received t'
  | _ => True
  end) s t.
Proof.
  induction n as [|n IH]; intros s t; cbn [listener_loop]; [done|].
  apply wp_bind, wp_catch. eapply wp_mono; [done| |apply wp_iteration_exit].
  intros [a|e|msg|] s1 t1 H1; cbn [bind_post]; try done.
  cbn in H1. destruct (is_critical_listener_error e) eqn:He; [by apply wp_throw; auto|].
  apply wp_bind. intros r. split; [done|]. apply wp_ret. cbn [bind_post]. apply IH.
Qed.

(** The subscriptions that were opened. *)
Definition stream_of (e : event) : option unit :=
  match e with Event o _ => match o with StreamBlocks => Some tt | _ => None end end.

Definition streams (t : trace) : nat := length (omap stream_of t).

(** A stalled iteration beyond the limit: an error, and nothing is recreated. *)
Lemma run_stalled h s t :
  (forall t, answer h _ SubscriptionNext t = None) ->
  3 <= subscription_recreation_attempts s < u32_max ->
  exists t', run h (catch process_listener_iteration) s t =
    (Ok (err (Error.SubscriptionRecreationLimitExceeded 3)),
     {| prev_round := prev_round s; prev_phase := prev_phase s;
        subscription_recreation_attempts := subscription_recreation_attempts s + 1 |}, t') /\
    streams t' = streams t.
Proof.
  intros Hnone Ha. unfold u32_max in Ha.
  assert (u32_add (subscription_recreation_attempts s) 1 = subscription_recreation_attempts s + 1) as Hadd.
  { apply u32_add_small. unfold u32_max. lia. }
  exists (Event (MetricOp on_listener_subscription_stall) tt :: Event SubscriptionNext None :: t).
  split; [|done]. unfold process_listener_iteration, recreate_or_give_up, set_attempts, catch.
  cbn. rewrite Hnone. cbn.
  assert ((3 <? subscription_recreation_attempts s + 1) = true) as Hlt by (apply Z.ltb_lt; lia).
  destruct (fires h _ _); cbn; rewrite Hadd; unfold MAX_SUBSCRIPTION_RECREATION_ATTEMPTS; rewrite Hlt; cbn;
    by destruct (answer h () _ _).
Qed.

End exit.

(** the listener loop ends only with a critical error, and only after it has
    received a block: neither a lost subscription nor the limit of recreation
    attempts ends it. *)
Theorem listener_exits_only_on_critical `{T : MinerConfig} (h : handler) n
    (s : ListenerState) (t : trace) :
  match run h (listener_loop n) s t with
  | (Err e, _, t') => is_critical_listener_error e = true /\ block_received t'
  | _ => True
  end.
Proof.
  pose proof (wp_run _ _ _ _ _ h (wp_loop_exit n s t)) as H.
  destruct (run h _ s t) as [[o s'] t']. by destruct o.
Qed.

(** C25: Beyond the limit of recreation attempts a listener whose subscription
    has ended is stuck: as long as the subscription gives no block it neither
    exits, as the error message announces, nor subscribes again, however often it
    iterates (until the count of attempts, a [u32], overflows). *)
Theorem exhausted_listener_is_stuck `{T : MinerConfig} (h : handler) n : forall (s : ListenerState) (t : trace),
  (forall t, answer h _ SubscriptionNext t = None) ->
  3 <= subscription_recreation_attempts s ->
  subscription_recreation_attempts s + Z.of_nat n <= u32_max ->
  exists s' t', run h (listener_loop n) s t = (Ok tt, s', t') /\ streams t' = streams t /\
    subscription_recreation_attempts s' = subscription_recreation_attempts s + Z.of_nat n.
Proof.
  induction n as [|n IH]; intros s t Hnone H3 Hmax.
  { exists s, t. split_and!; [done..|lia]. }
  cbn [listener_loop]. destruct (run_stalled h s t Hnone ltac:(lia)) as (t1 & Hrun & Hst).
  rewrite run_mbind, Hrun. cbn.
  set (s1 := {| prev_round := prev_round s |}). set (t2 := _ :: t1).
  destruct (IH s1 t2 Hnone) as (s' & t' & Hr & Hs' & Ha); [cbn; lia|cbn; lia|].
  exists s', t'. split_and!; [exact Hr| |cbn in Ha; lia]. rewrite Hs', <- Hst. done.
Qed.

Lemma exhausted_listener_is_stuck_witness :
  let s := {| prev_round := None; prev_phase := None; subscription_recreation_attempts := 3 |} in
  exists s' t', run (node_handler (with_block (fun _ => None) good_node)) (listener_loop 1000) s [] = (Ok tt, s', t') /\
    streams t' = streams [] /\ subscription_recreation_attempts s' = 3 + Z.of_nat 1000.
Proof.
  apply (exhausted_listener_is_stuck (node_handler (with_block (fun _ => None) good_node)) 1000
    {| prev_round := None; prev_phase := None; subscription_recreation_attempts := 3 |} []);
    [reflexivity|cbn; lia|vm_compute; discriminate].
Defined.
