(* ===== verification/Janitor.v ===== *)
(** * Cleaning up after elections

    The two housekeeping tasks of [src/commands/multi_block/monitor.rs]:
    recovering the deposits of old submissions ([clear_old_rounds_task]) and
    pruning old eras during the Off phase ([lazy_era_pruning_task]). *)

From S2P Require Import Prelude Errors Chain Metrics Types Effects Traces ChainAccess.
Local Open Scope Z_scope.

Definition CLEAR_OLD_ROUNDS_SCAN_ROUNDS : Z := 5.
Definition ERA_PRUNING_TIMEOUT_SECS : Z := 30.

Section janitor.
Context `{T : MinerConfig}.

(** Signing a call without mortality and waiting until it is finalized. *)
Definition submit_and_finalize {S} (c : Call) : M S TxInBlock :=
  query AtCurrentBlock;;
  nonce ← query AccountNonce;
  tx_progress ← sign_and_submit c nonce None;
  wait_tx_in_finalized_block tx_progress.

(** ** Old submissions *)

(** [clear_old_round_data] *)
Definition clear_old_round_data {S} (round witness_pages : Z) : M S unit :=
  submit_and_finalize (clear_old_round_data_call round witness_pages);;
  mret tt.

(** The first round to scan. *)
Definition start_round (last_scanned_round : option Z) (current_round : Z) : Z :=
  match last_scanned_round with
  | Some last =>
      Z.max (u32_add last 1) (u32_saturating_sub current_round CLEAR_OLD_ROUNDS_SCAN_ROUNDS)
  | None => u32_saturating_sub current_round CLEAR_OLD_ROUNDS_SCAN_ROUNDS
  end.

(** The number of submitted pages. *)
Definition witness_pages (md : SubmissionMetadata) : Z :=
  Z.of_nat (length (filter (fun b : bool => b = true) (sm_pages md))) mod 2 ^ 32.

(** The loop over the rounds; returns the cleaned and the found submissions. *)
Fixpoint cleanup_rounds {S} (signer : AccountId) (at_block : AtBlock) (rounds : list Z)
    (cleaned_count found_count : Z) : M S (Z * Z) :=
  match rounds with
  | [] => mret (cleaned_count, found_count)
  | old_round :: rounds =>
      maybe_submission ← query (TryFetchSubmission at_block old_round signer);
      match maybe_submission with
      | None => cleanup_rounds signer at_block rounds cleaned_count found_count
      | Some submission =>
          let found_count := u32_add found_count 1 in
          if witness_pages submission =? 0
          then cleanup_rounds signer at_block rounds cleaned_count found_count
          else
            r ← catch (clear_old_round_data old_round (witness_pages submission));
            match r with
            | ok _ => cleanup_rounds signer at_block rounds (u32_add cleaned_count 1) found_count
            | err _ => cleanup_rounds signer at_block rounds cleaned_count found_count
            end
      end
  end.

(** [run_clear_old_rounds_cleanup]; the state is [last_scanned_round]. *)
Definition run_clear_old_rounds_cleanup (signer : AccountId) (current_round : Z)
    : M (option Z) Z :=
  at_block ← storage_at_head;
  last_scanned_round ← get_state;
  let start := start_round last_scanned_round current_round in
  if current_round =? 0 then mret 0
  else if current_round <=? start then mret 0
  else
    '(cleaned_count, found_count) ←
      cleanup_rounds signer at_block (seqZ start (current_round - start)) 0 0;
    metric (set_clear_old_rounds_old_submissions_found found_count);;
    put_state (Some (u32_saturating_sub current_round 1));;
    mret cleaned_count.

(** One message of [clear_old_rounds_task]. *)
Definition clear_step (signer : AccountId) (message : ClearOldRoundsMessage) : M (option Z) unit :=
  match message with
  | ClearOldRoundsTick current_round =>
      result ← catch (run_clear_old_rounds_cleanup signer current_round);
      metric observe_clear_old_rounds_cleanup_duration;;
      match result with
      | ok cleaned_count => metric (on_clear_old_rounds_cleanup_success cleaned_count)
      | err e =>
          metric on_clear_old_rounds_cleanup_failure;;
          if is_critical_miner_error e then throw e else mret tt
      end
  end.

(** [clear_old_rounds_task] over the messages that arrive. *)
Definition clear_old_rounds_task (signer : AccountId) (messages : list ClearOldRoundsMessage)
    : M (option Z) unit :=
  for_each messages (clear_step signer);;
  throw (Error.TaskFailure TaskFailureError.ClearOldRounds).

(** ** Old eras *)

(** The era at the end of a storage key: a little-endian [u32]. *)
Definition era_of_key (key_bytes : list Z) : option Z :=
  if (4 <=? length key_bytes)%nat then
    match drop (length key_bytes - 4) key_bytes with
    | [b0; b1; b2; b3] => Some (b0 + 2 ^ 8 * b1 + 2 ^ 16 * b2 + 2 ^ 24 * b3)
    | _ => None
    end
  else None.

(** [try_fold] over the entries: the first error ends it. *)
Fixpoint collect_eras (entries : list (Result (list Z) SubxtError)) (acc : list Z)
    : Result (list Z) SubxtError :=
  match entries with
  | [] => ok acc
  | err e :: _ => err e
  | ok key_bytes :: rest =>
      collect_eras rest (acc ++ option_list (era_of_key key_bytes))
  end.

(** [get_pruneable_era_index] *)
Definition get_pruneable_era_index {S} : M S (Z * option Z) :=
  at_block ← storage_at_head;
  r ← ask (IterEraPruningState at_block);
  match r with
  | err _ => mret (0, None)
  | ok entries =>
      match collect_eras entries [] with
      | err e => throw (Error.Subxt e)
      | ok era_indices =>
          let era_indices := merge_sort Z.le era_indices in
          mret (Z.of_nat (length era_indices) mod 2 ^ 32, head era_indices)
      end
  end.

(** [call_prune_era_step] *)
Definition call_prune_era_step {S} (era : Z) : M S unit :=
  submit_and_finalize (prune_era_step_call era);;
  metric on_era_pruning_submission_success.

(** One message of [lazy_era_pruning_task]; the state is [pruning_active]. *)
Definition era_step (message : EraPruningMessage) : M bool unit :=
  match message with
  | EnterOffPhase => put_state true
  | ExitOffPhase => put_state false
  | NewBlock block_number =>
      pruning_active ← get_state;
      if negb pruning_active then mret tt
      else
        r ← timeout ERA_PRUNING_TIMEOUT_SECS get_pruneable_era_index;
        match r with
        | Some (ok (era_count, Some oldest_era)) =>
            metric (set_era_pruning_storage_map_size era_count);;
            r ← catch (call_prune_era_step oldest_era);
            match r with
            | ok _ => mret tt
            | err _ => metric on_era_pruning_submission_failure
            end
        | Some (ok (era_count, None)) => metric (set_era_pruning_storage_map_size era_count)
        | Some (err _) => mret tt
        | None => metric on_era_pruning_timeout
        end
  end.

(** [lazy_era_pruning_task] over the messages that arrive. *)
Definition lazy_era_pruning_task (messages : list EraPruningMessage) : M bool unit :=
  for_each messages era_step;;
  throw (Error.TaskFailure TaskFailureError.EraPruning).

End janitor.
