(* ===== verification/JanitorSpec.v ===== *)
(** * Properties of the housekeeping tasks

    Which rounds a cleanup scans and which deposits it claims, that no round is
    scanned twice, and how era pruning is gated by the Off phase. *)

From S2P Require Import Prelude Errors Chain Metrics Types Effects Traces Observe Scenario ChainAccess Janitor.
Local Open Scope Z_scope.

(** ** Signed calls *)
Section calls.
Context `{T : MinerConfig}.

(** The operations of a signed call. *)
Definition tx_event (e : event) : bool :=
  match e with
  | Event o _ =>
      match o with
      | AtCurrentBlock | AccountNonce | CreateSigned _ _ _ | SubmitAndWatch _ _ _
      | WaitForFinalized _ => true
      | _ => false
      end
  end.

(** An operation of the signed call [c]. *)
Definition call_event (c : Call) (e : event) : Prop :=
  tx_event e = true /\ forall x, sent_tx e = Some x -> x.1.1 = c /\ x.2 = None.

(** What a signed call adds to a trace: at most one transaction, which carries
    the call and no mortality. *)
Record call_trace (c : Call) (t t' : trace) (n : nat) : Prop := {
  ct_new : exists new, t' = new ++ t /\ Forall (call_event c) new;
  ct_sent : exists sent, sent_txs t' = sent_txs t ++ sent /\ length sent = n /\ (n <= 1)%nat /\
    Forall (fun x => x.1.1 = c /\ x.2 = None) sent;
}.

Lemma call_trace_refl c t : call_trace c t t 0.
Proof. split; [by exists []|exists []; rewrite app_nil_r; auto]. Qed.

(** One more operation, which sends nothing. *)
Lemma call_trace_step c t t' n e :
  tx_event e = true -> sent_tx e = None -> call_trace c t t' n -> call_trace c t (e :: t') n.
Proof.
  intros He Hs [(new & -> & Hn) (sent & H1 & H2)]. split.
  - exists (e :: new). split; [done|]. constructor; [|done]. split; [done|]. by rewrite Hs.
  - exists sent. by rewrite sent_txs_cons, Hs, app_nil_r.
Qed.

Lemma call_trace_send c nonce r t t' :
  call_trace c t t' 0 -> call_trace c t (Event (SubmitAndWatch c nonce None) r :: t') 1.
Proof.
  intros [(new & -> & Hn) (sent & H1 & H2 & _)]. destruct sent; [|done]. split.
  - eexists (_ :: new). split; [done|]. constructor; [|done]. split; [done|]. by intros x [= <-].
  - exists [(c, nonce, None)]. rewrite app_nil_r in H1. rewrite sent_txs_cons, H1. cbn.
    split_and!; [done|done|lia|by repeat constructor].
Qed.

Lemma wp_submit_and_finalize {S} c (s : S) t :
  wp Itrue (submit_and_finalize c : M S TxInBlock) (fun o s' t' => s' = s /\
    match o with
    | Ok _ => call_trace c t t' 1
    | Err _ => exists n, call_trace c t t' n
    | _ => False
    end) s t.
Proof.
  pose proof (call_trace_refl c t) as H0.
  unfold submit_and_finalize, sign_and_submit, wait_tx_in_finalized_block.
  apply wp_bind. intros [b|e]; (split; [done|]); [|split; [done|]; exists 0%nat; by apply call_trace_step].
  apply wp_ret. cbn [bind_post]. apply wp_bind.
  intros [nonce|e]; (split; [done|]);
    [|split; [done|]; exists 0%nat; by repeat (apply call_trace_step; [done..|])].
  apply wp_ret. cbn [bind_post]. apply wp_bind, wp_bind.
  intros [u|e]; (split; [done|]);
    [|split; [done|]; exists 0%nat; by repeat (apply call_trace_step; [done..|])].
  apply wp_ret. cbn [bind_post].
  assert (call_trace c t (Event (CreateSigned c nonce None) (ok u) :: Event AccountNonce (ok nonce) ::
               Event AtCurrentBlock (ok b) :: t) 0) as H1 by (by repeat (apply call_trace_step; [done..|])).
  intros [p|e]; (split; [done|]).
  - apply wp_ret. cbn [bind_post]. intros [q|e]; (split; [done|]); (split; [done|]);
      [|exists 1%nat]; (apply call_trace_step; [done..|by apply call_trace_send]).
  - split; [done|]. exists 1%nat. by apply call_trace_send.
Qed.

End calls.

(** ** Scanning old rounds *)
Section cleanup.
Context `{T : MinerConfig}.

(** A successful read of a submission: the round, the account, the answer. *)
Definition scan_of (e : event) : option (Z * AccountId * option SubmissionMetadata) :=
  match e with
  | Event o r =>
      match o in op R return R -> option (Z * AccountId * option SubmissionMetadata) with
      | TryFetchSubmission _ round who => fun r =>
          match r with ok md => Some (round, who, md) | err _ => None end
      | _ => fun _ => None
      end r
  end.

Definition scans : trace -> list (Z * AccountId * option SubmissionMetadata) := observed scan_of.

(** The rounds that were scanned. *)
Definition scanned (t : trace) : list Z := (fun x => x.1.1) <$> scans t.

(** The deposit a scanned submission entitles the account to claim. *)
Definition claim_of (x : Z * AccountId * option SubmissionMetadata) : option Call :=
  match x with
  | (round, _, Some md) =>
      if witness_pages md =? 0 then None
      else Some (clear_old_round_data_call round (witness_pages md))
  | _ => None
  end.

(** The submissions among the scanned rounds. *)
Definition found (reads : list (Z * AccountId * option SubmissionMetadata)) : Z :=
  Z.of_nat (length (omap snd reads)).

(** What a part of the scan did: the reads, and the transactions for them. *)
Record scan_result (signer : AccountId) (t t' : trace)
    (reads : list (Z * AccountId * option SubmissionMetadata)) (sent : list (Call * Z * option Z))
    (ms : list Metric) : Prop := {
  sr_scans : scans t' = scans t ++ reads;
  sr_sent : sent_txs t' = sent_txs t ++ sent;
  sr_who : Forall (fun x => x.1.2 = signer) reads;
  sr_calls : sent.*1.*1 `sublist_of` omap claim_of reads;
  sr_mortality : Forall (fun x => x.2 = None) sent;
  sr_metrics : metrics t' = metrics t ++ ms;
}.

Lemma scan_result_nil signer t t' :
  scans t' = scans t -> sent_txs t' = sent_txs t -> metrics t' = metrics t ->
  scan_result signer t t' [] [] [].
Proof. intros H1 H2 H3. by split; rewrite ?app_nil_r. Qed.

Lemma scan_result_app signer t t1 t2 r1 s1 m1 r2 s2 m2 :
  scan_result signer t t1 r1 s1 m1 -> scan_result signer t1 t2 r2 s2 m2 ->
  scan_result signer t t2 (r1 ++ r2) (s1 ++ s2) (m1 ++ m2).
Proof.
  intros [A1 B1 C1 D1 E1 F1] [A2 B2 C2 D2 E2 F2]. split.
  - by rewrite A2, A1, app_assoc.
  - by rewrite B2, B1, app_assoc.
  - by apply Forall_app.
  - rewrite !fmap_app, omap_app. by apply sublist_app.
  - by apply Forall_app.
  - by rewrite F2, F1, app_assoc.
Qed.

(** One read. *)
Lemma scan_result_read signer b round md t :
  scan_result signer t (Event (TryFetchSubmission b round signer) (ok md) :: t) [(round, signer, md)] [] [].
Proof.
  split; [by unfold scans; rewrite observed_cons|by rewrite sent_txs_cons|by repeat constructor| |done|].
  - apply sublist_nil_l.
  - by rewrite metrics_cons.
Qed.

(** The outcome of the rest of a scan over [rounds]. *)
Definition scan_post (signer : AccountId) (rounds : list Z) (cleaned fnd : Z) (t : trace)
    : outcome (Z * Z) -> option Z -> trace -> Prop :=
  fun o s' t' => exists reads sent, scan_result signer t t' reads sent [] /\
    match o with
    | Ok (c, f) => (fun x => x.1.1) <$> reads = rounds /\ f = fnd + found reads /\
        cleaned <= c <= cleaned + Z.of_nat (length sent)
    | Err _ => ((fun x => x.1.1) <$> reads) `prefix_of` rounds
    | _ => False
    end.

Lemma scan_post_cons signer round rounds md cleaned fnd cleaned' fnd' t t1 sent o s' t' :
  scan_result signer t t1 [(round, signer, md)] sent [] ->
  fnd' = fnd + found [(round, signer, md)] ->
  cleaned <= cleaned' <= cleaned + Z.of_nat (length sent) ->
  scan_post signer rounds cleaned' fnd' t1 o s' t' ->
  scan_post signer (round :: rounds) cleaned fnd t o s' t'.
Proof.
  intros H1 -> Hc (reads & sent2 & H2 & Ho).
  exists ((round, signer, md) :: reads), (sent ++ sent2).
  split; [by apply (scan_result_app _ _ _ _ [_] _ [] _ _ [] H1)|].
  destruct o as [[c f]|e|msg|]; try done.
  - destruct Ho as (<- & -> & Hc2). split_and!; [done| |..].
    + unfold found. cbn. destruct md; cbn; lia.
    + lia.
    + rewrite length_app. lia.
  - cbn. by apply prefix_cons.
Qed.

Lemma call_trace_le c t t' n : call_trace c t t' n -> (n <= 1)%nat.
Proof. by intros [_ (sent & _ & _ & ? & _)]. Qed.

(** A signed call scans nothing and records nothing. *)
Lemma call_trace_scans c t t' n :
  call_trace c t t' n -> scans t' = scans t /\ metrics t' = metrics t.
Proof.
  intros [(new & -> & Hn) _]. induction Hn as [|e new [He _] _ [IH1 IH2]]; [done|].
  unfold scans in *. rewrite <- app_comm_cons, observed_cons, metrics_cons, IH1, IH2.
  destruct e as [R [] r]; try done; by rewrite !app_nil_r.
Qed.

Lemma call_scan_result signer b round md t t' n :
  witness_pages md <> 0 ->
  call_trace (clear_old_round_data_call round (witness_pages md))
    (Event (TryFetchSubmission b round signer) (ok (Some md)) :: t) t' n ->
  exists sent, scan_result signer t t' [(round, signer, Some md)] sent [] /\ length sent = n.
Proof.
  intros Hw Hc. pose proof (call_trace_scans _ _ _ _ Hc) as [Hs Hm].
  destruct Hc as [_ (sent & H1 & Hl & Hn & Hf)]. exists sent. split; [|done].
  rewrite sent_txs_cons, app_nil_r in H1. rewrite metrics_cons, app_nil_r in Hm. unfold scans in *. rewrite observed_cons in Hs.
  split; [done|done|by repeat constructor| |by eapply Forall_impl; [exact Hf|intros ? []]|by rewrite app_nil_r].
  cbn. destruct (Z.eqb_spec (witness_pages md) 0); [done|].
  destruct sent as [|[[c k] m] [|]]; cbn in *; [apply sublist_nil_l| |lia].
  by apply Forall_cons in Hf as [[<- _] _].
Qed.

(** Claiming the deposit of a submission that was just read. *)
Lemma wp_clear_old_round_data signer b round md s t :
  witness_pages md <> 0 ->
  wp Itrue (clear_old_round_data round (witness_pages md) : M (option Z) unit)
    (fun o s' t' => s' = s /\ exists sent,
       scan_result signer t t' [(round, signer, Some md)] sent [] /\
       match o with
       | Ok _ => length sent = 1%nat
       | Err _ => (length sent <= 1)%nat
       | _ => False
       end) s (Event (TryFetchSubmission b round signer) (ok (Some md)) :: t).
Proof.
  intros Hw. unfold clear_old_round_data. apply wp_bind.
  eapply wp_mono; [done| |apply wp_submit_and_finalize].
  intros [x|e|msg|] s' t' [-> Ho]; cbn [bind_post]; try done.
  - split; [done|]. eapply call_scan_result in Ho as (sent & Hr & Hl); [|done]. by exists sent.
  - destruct Ho as [n Ho]. split; [done|]. pose proof (call_trace_le _ _ _ _ Ho).
    eapply call_scan_result in Ho as (sent & Hr & Hl); [|done]. exists sent. split; [done|lia].
Qed.



Lemma wp_cleanup_rounds signer b rounds : forall cleaned fnd s t,
  0 <= cleaned -> cleaned + Z.of_nat (length rounds) <= u32_max ->
  0 <= fnd -> fnd + Z.of_nat (length rounds) <= u32_max ->
  wp Itrue (cleanup_rounds signer b rounds cleaned fnd : M (option Z) _)
    (fun o s' t' => s' = s /\ scan_post signer rounds cleaned fnd t o s' t') s t.
Proof.
  induction rounds as [|round rounds IH]; intros cleaned fnd s t Hc0 Hc Hf0 Hf; cbn [cleanup_rounds length] in *.
  { apply wp_ret. split; [done|]. exists [], []. split; [by apply scan_result_nil|].
    unfold found. cbn. split_and!; [done|lia..]. }
  apply wp_bind. intros [md|e]; (split; [done|]).
  2:{ split; [done|]. exists [], []. split; [|apply prefix_nil].
      apply scan_result_nil; [unfold scans; by rewrite observed_cons, app_nil_r|..].
      - by rewrite sent_txs_cons, app_nil_r.
      - by rewrite metrics_cons, app_nil_r. }
  apply wp_ret. cbn [bind_post].
  pose proof (scan_result_read signer b round md t) as Hread.
  destruct md as [md|].
  2:{ eapply wp_mono; [done| |apply IH; lia]. intros o s' t' [-> Ho]. split; [done|].
      eapply scan_post_cons; [exact Hread| | |exact Ho]; [unfold found; cbn; lia|cbn; lia]. }
  rewrite (u32_add_small fnd) by lia.
  destruct (Z.eqb_spec (witness_pages md) 0) as [Hw|Hw].
  { eapply wp_mono; [done| |apply IH; lia]. intros o s' t' [-> Ho]. split; [done|].
    eapply scan_post_cons; [exact Hread| | |exact Ho]; [unfold found; cbn; lia|cbn; lia]. }
  apply wp_bind, wp_catch. eapply wp_mono; [done| |by apply (wp_clear_old_round_data signer)].
  intros [u|e|msg|] s1 t1 (-> & sent & Hr & Hl); cbn [bind_post]; try done; cbn in Hl.
  - rewrite (u32_add_small cleaned) by lia.
    eapply wp_mono; [done| |apply IH; lia]. intros o s' t' [-> Ho]. split; [done|].
    eapply scan_post_cons; [exact Hr| | |exact Ho]; [unfold found; cbn; lia|lia].
  - eapply wp_mono; [done| |apply IH; lia]. intros o s' t' [-> Ho]. split; [done|].
    eapply scan_post_cons; [exact Hr| | |exact Ho]; [unfold found; cbn; lia|lia].
Qed.

(** The window of a cleanup. *)
Definition window (last_scanned_round : option Z) (current_round : Z) : list Z :=
  let start := start_round last_scanned_round current_round in
  seqZ start (current_round - start).

Lemma window_bounds last current r :
  0 <= current -> r ∈ window last current -> current - 5 <= r < current /\ 0 <= r.
Proof.
  unfold window, start_round, u32_saturating_sub, CLEAR_OLD_ROUNDS_SCAN_ROUNDS.
  intros H0 Hr%elem_of_seqZ. destruct last; lia.
Qed.

(** After a complete scan up to [last], the window starts above it. *)
Lemma window_above last current r :
  0 <= last < u32_max -> r ∈ window (Some last) current -> last < r.
Proof.
  unfold window, start_round. intros Hl Hr%elem_of_seqZ. rewrite u32_add_small in Hr by lia. lia.
Qed.

Lemma window_length last current :
  0 <= current -> (length (window last current) <= 5)%nat.
Proof.
  unfold window, start_round, u32_saturating_sub, CLEAR_OLD_ROUNDS_SCAN_ROUNDS.
  intros H0. rewrite length_seqZ. destruct last; lia.
Qed.

(** What one cleanup does; an empty window leaves everything as it is. *)
Definition cleanup_post (signer : AccountId) (current : Z) (s : option Z) (t : trace)
    : outcome Z -> option Z -> trace -> Prop :=
  fun o s' t' => exists reads sent ms, scan_result signer t t' reads sent ms /\
    match o with
    | Ok c =>
        (fun x => x.1.1) <$> reads = window s current /\ 0 <= c <= Z.of_nat (length sent) /\
        (if decide (window s current = []) then s' = s /\ ms = []
         else s' = Some (current - 1) /\
              ms = [set_clear_old_rounds_old_submissions_found (found reads)])
    | Err _ => ((fun x => x.1.1) <$> reads) `prefix_of` window s current /\ s' = s /\ ms = []
    | _ => False
    end.

(** Reading the head shows nothing, and fails only with an error. *)
Definition shows_nothing (t t' : trace) : Prop :=
  scans t' = scans t /\ sent_txs t' = sent_txs t /\ metrics t' = metrics t.

Lemma shows_nothing_step {R} (o : op R) r t t' :
  scan_of (Event o r) = None -> is_quiet o = true -> shows_nothing t t' ->
  shows_nothing t (Event o r :: t').
Proof.
  intros Hs Hq (H1 & H2 & H3). unfold shows_nothing, scans in *.
  rewrite observed_cons, sent_txs_cons, metrics_cons, Hs, H1, H2, H3.
  destruct o; try done; by rewrite !app_nil_r.
Qed.

Lemma wp_storage_at_head {S} (s : S) t :
  wp Itrue (storage_at_head : M S AtBlock) (fun o s' t' => s' = s /\ shows_nothing t t' /\
    match o with Ok _ | Err _ => True | _ => False end) s t.
Proof.
  assert (shows_nothing t t) as H0 by done.
  unfold storage_at_head, get_latest_finalized_head, storage_at. apply wp_bind, wp_bind.
  intros [b|e]; (split; [done|]); [|split_and!; [done|by apply shows_nothing_step|done]].
  apply wp_ret. cbn [bind_post]. apply wp_ret. cbn [bind_post].
  intros [b'|e]; (split; [done|]); (split_and!; [done|by repeat apply shows_nothing_step|done]).
Qed.

Lemma scan_result_quiet signer t t1 t' reads sent ms :
  shows_nothing t t1 -> scan_result signer t1 t' reads sent ms ->
  scan_result signer t t' reads sent ms.
Proof.
  intros (H1 & H2 & H3) H.
  apply (scan_result_app _ _ _ _ [] [] [] _ _ _ (scan_result_nil _ _ _ H1 H2 H3) H).
Qed.

Lemma scan_result_metric signer t t' reads sent m :
  scan_result signer t t' reads sent [] ->
  scan_result signer t (Event (MetricOp m) tt :: t') reads sent [m].
Proof.
  intros [A B C D E F]. split; [| |done..|].
  - unfold scans. by rewrite observed_cons, app_nil_r.
  - by rewrite sent_txs_cons, app_nil_r.
  - by rewrite metrics_cons, F, app_nil_r.
Qed.

(** The window is empty exactly when the code skips the scan. *)
Lemma window_empty s current :
  0 <= current -> window s current = [] <-> (current = 0 \/ current <= start_round s current).
Proof.
  intros H0. unfold window. split.
  - intros H%(f_equal length). rewrite length_seqZ in H. cbn in H. lia.
  - intros H. apply nil_length_inv. rewrite length_seqZ.
    unfold start_round, u32_saturating_sub in *. destruct s; lia.
Qed.

Lemma wp_cleanup signer current s t :
  is_u32 current ->
  wp Itrue (run_clear_old_rounds_cleanup signer current) (cleanup_post signer current s t) s t.
Proof.
  intros Hcur. unfold is_u32, u32_max in Hcur. unfold run_clear_old_rounds_cleanup.
  apply wp_bind. eapply wp_mono; [done| |apply wp_storage_at_head].
  intros [b|e|msg|] s1 t1 (-> & Ht1 & Ho); cbn [bind_post]; try done.
  2:{ exists [], [], []. split; [by apply scan_result_nil; apply Ht1|].
      split_and!; [apply prefix_nil|done..]. }
  apply wp_bind, wp_get. cbn [bind_post].
  pose proof (window_empty s current ltac:(lia)) as Hempty.
  assert (window s current = [] -> cleanup_post signer current s t (Ok 0) s t1) as Hskip.
  { intros Hw. exists [], [], []. split; [by apply scan_result_nil; apply Ht1|].
    rewrite Hw. split_and!; [done|done|done|by rewrite decide_True]. }
  destruct (Z.eqb_spec current 0); [apply wp_ret, Hskip, Hempty; by left|].
  destruct (Z.leb_spec current (start_round s current)); [apply wp_ret, Hskip, Hempty; by right|].
  apply wp_bind. fold (window s current). pose proof (window_length s current ltac:(lia)) as Hlen.
  eapply wp_mono; [done| |apply wp_cleanup_rounds; unfold u32_max; lia].
  intros [[c f]|e|msg|] s' t' (-> & reads & sent & Hr & Hpost); cbn [bind_post]; try done.
  2:{ eexists _, _, _. split; [eapply scan_result_quiet; [exact Ht1|exact Hr]|done]. }
  destruct Hpost as (Hreads & -> & Hc).
  apply wp_bind, wp_metric; [done|]. cbn [bind_post].
  apply wp_bind, wp_put. cbn [bind_post]. apply wp_ret.
  eexists _, _, _. split; [eapply scan_result_quiet; [exact Ht1|by apply scan_result_metric]|].
  split_and!; [done|lia..|]. rewrite decide_False by (rewrite Hempty; lia).
  split; [|done]. unfold u32_saturating_sub. f_equal. lia.
Qed.

(** *** The whole task *)

Definition tick_round (m : ClearOldRoundsMessage) : Z :=
  match m with ClearOldRoundsTick current_round => current_round end.

(** No cleanup has failed so far. *)
Definition no_failure (t : trace) : Prop := on_clear_old_rounds_cleanup_failure ∉ metrics t.

(** What holds between two messages, after the messages [seen]. *)
Record task_inv (signer : AccountId) (seen : list ClearOldRoundsMessage)
    (s : option Z) (t : trace) : Prop := {
  ti_calls : Forall (fun x => x.1.1 ∈ omap claim_of (scans t) /\ x.2 = None) (sent_txs t);
  ti_scans : Forall (fun x => x.1.2 = signer /\
    exists m, m ∈ seen /\ tick_round m - 5 <= x.1.1 < tick_round m) (scans t);
  ti_once : no_failure t -> NoDup (scanned t) /\ (forall r, r ∈ scanned t -> exists l, s = Some l /\ r <= l);
  ti_last : forall l, s = Some l -> 0 <= l < u32_max;
}.

(** The scan of one message extends what holds. *)
Lemma task_inv_calls signer t t' reads sent ms :
  scan_result signer t t' reads sent ms ->
  Forall (fun x => x.1.1 ∈ omap claim_of (scans t) /\ x.2 = None) (sent_txs t) ->
  Forall (fun x => x.1.1 ∈ omap claim_of (scans t') /\ x.2 = None) (sent_txs t').
Proof.
  intros [A B _ D E _] H. rewrite A, B, omap_app. apply Forall_app. split.
  - eapply Forall_impl; [exact H|]. intros x [Hx Hm]. split; [|done]. apply elem_of_app. by left.
  - apply Forall_forall. intros x Hx. split; [|by eapply Forall_forall in E].
    apply elem_of_app. right. eapply elem_of_sublist; [|exact D]. by apply list_elem_of_fmap_2, list_elem_of_fmap_2.
Qed.

Lemma task_inv_scans signer t t' reads sent ms seen m :
  scan_result signer t t' reads sent ms -> 0 <= tick_round m ->
  (forall x, x ∈ reads -> tick_round m - 5 <= x.1.1 < tick_round m) ->
  Forall (fun x => x.1.2 = signer /\
    exists m, m ∈ seen /\ tick_round m - 5 <= x.1.1 < tick_round m) (scans t) ->
  Forall (fun x => x.1.2 = signer /\
    exists m', m' ∈ seen ++ [m] /\ tick_round m' - 5 <= x.1.1 < tick_round m') (scans t').
Proof.
  intros [A _ C _ _ _] Hm Hr H. rewrite A. apply Forall_app. split.
  - eapply Forall_impl; [exact H|]. intros x (Hx & m' & Hm' & Hb). split; [done|].
    exists m'. split; [|done]. apply elem_of_app. by left.
  - apply Forall_forall. intros x Hx. split; [by eapply Forall_forall in C|].
    exists m. split; [apply elem_of_app; right; by left|by apply Hr].
Qed.

(** A window above everything that was scanned. *)
Lemma window_once s current old :
  0 <= current ->
  (forall l, s = Some l -> 0 <= l < u32_max) ->
  NoDup old -> (forall r, r ∈ old -> exists l, s = Some l /\ r <= l) ->
  NoDup (old ++ window s current).
Proof.
  intros Hc Hl Hnd Hold. apply NoDup_app. split_and!; [done| |apply NoDup_seqZ].
  intros r Hr Hw. destruct (Hold r Hr) as (l & -> & Hle).
  apply window_above in Hw; [lia|by apply Hl].
Qed.

Lemma no_failure_app t t' ms : metrics t' = metrics t ++ ms -> no_failure t' -> no_failure t.
Proof. unfold no_failure. intros -> H Ht. apply H, elem_of_app. by left. Qed.

(** A metric is harmless. *)
Lemma task_inv_metric signer seen s t m :
  task_inv signer seen s t -> task_inv signer seen s (Event (MetricOp m) tt :: t).
Proof.
  intros [A B C D].
  assert (scans (Event (MetricOp m) tt :: t) = scans t) as Hs
    by (unfold scans; by rewrite observed_cons, app_nil_r).
  split; [| | |done].
  - by rewrite Hs, sent_txs_cons, app_nil_r.
  - by rewrite Hs.
  - intros Hn. unfold scanned. rewrite Hs. apply C. eapply no_failure_app; [|exact Hn].
    by rewrite metrics_cons.
Qed.

(** After a complete scan the window is recorded. *)
Lemma task_inv_ok signer seen current s t s' t' reads sent ms :
  is_u32 current -> task_inv signer seen s t ->
  scan_result signer t t' reads sent ms -> (fun x => x.1.1) <$> reads = window s current ->
  (if decide (window s current = []) then s' = s else s' = Some (current - 1)) ->
  task_inv signer (seen ++ [ClearOldRoundsTick current]) s' t'.
Proof.
  intros [Hc0 Hcmax] [A B C D] Hr Hreads Hs'.
  assert (forall r, r ∈ window s current -> current - 5 <= r < current /\ 0 <= r) as Hw
    by (intros; by eapply window_bounds).
  split.
  - by eapply task_inv_calls.
  - eapply task_inv_scans; [exact Hr|done| |done]. intros x Hx. apply Hw. rewrite <- Hreads.
    by apply (list_elem_of_fmap_2 (fun x => x.1.1)).
  - intros Hn%(no_failure_app t _ ms); [|apply Hr]. destruct (C Hn) as [Hnd Hle].
    unfold scanned. rewrite (sr_scans _ _ _ _ _ _ Hr), fmap_app.
    replace ((fun x => x.1.1) <$> reads) with (window s current) by done. split.
    { by apply window_once. }
    case_decide as Hemp; [subst s'; rewrite Hemp, app_nil_r; apply Hle|]. subst s'.
    intros r [Hold|Hin]%elem_of_app; exists (current - 1); (split; [done|]).
    + destruct (Hle r Hold) as (l & -> & Hl). destruct (window (Some l) current) as [|r0 w] eqn:Heq; [done|].
      assert (r0 ∈ window (Some l) current) as Hr0 by (rewrite Heq; by left).
      pose proof (window_above _ _ _ (D l eq_refl) Hr0). rewrite Heq in Hr0. apply Hw in Hr0. lia.
    + apply Hw in Hin. lia.
  - case_decide as Hemp; subst s'; [apply D|]. intros l [= <-].
    destruct (window s current) as [|r0 w]; [done|].
    specialize (Hw r0 ltac:(by left)). unfold u32_max in *. lia.
Qed.

(** A failed scan leaves the state, and is recorded as a failure. *)
Lemma task_inv_err signer seen current s t t' reads sent :
  is_u32 current -> task_inv signer seen s t ->
  scan_result signer t t' reads sent [] ->
  ((fun x => x.1.1) <$> reads) `prefix_of` window s current ->
  let t1 := Event (MetricOp observe_clear_old_rounds_cleanup_duration) tt :: t' in
  task_inv signer (seen ++ [ClearOldRoundsTick current]) s
    (Event (MetricOp on_clear_old_rounds_cleanup_failure) tt :: t1).
Proof.
  intros [Hc0 Hcmax] [A B C D] Hr [q Hreads] t1.
  assert (scans (Event (MetricOp on_clear_old_rounds_cleanup_failure) tt :: t1) = scans t') as Hs
    by (unfold scans, t1; by rewrite !observed_cons, !app_nil_r).
  split.
  - rewrite Hs. unfold t1. rewrite !sent_txs_cons, !app_nil_r. by eapply task_inv_calls.
  - rewrite Hs. eapply task_inv_scans; [exact Hr|done| |done]. intros x Hx.
    apply (window_bounds s current); [done|]. rewrite Hreads. apply elem_of_app. left.
    by apply (list_elem_of_fmap_2 (fun x => x.1.1)).
  - intros Hn. destruct Hn. rewrite metrics_cons. apply elem_of_app. right. by left.
  - done.
Qed.

Lemma wp_clear_step signer seen m s t :
  is_u32 (tick_round m) -> task_inv signer seen s t ->
  wp Itrue (clear_step signer m) (fun o s' t' => task_inv signer (seen ++ [m]) s' t' /\
    match o with
    | Ok _ => True
    | Err e => is_critical_miner_error e = true
    | _ => False
    end) s t.
Proof.
  destruct m as [current]. cbn [tick_round clear_step]. intros Hcur HI.
  apply wp_bind, wp_catch. eapply wp_mono; [done| |by apply wp_cleanup].
  intros [c|e|msg|] s' t' (reads & sent & ms & Hr & Ho); cbn [bind_post]; try done;
    (apply wp_bind, wp_metric; [done|]); cbn [bind_post].
  - apply wp_metric; [done|]. split; [|done]. do 2 apply task_inv_metric.
    destruct Ho as (Hreads & _ & Hs'). eapply task_inv_ok; [done..|]. case_decide; tauto.
  - destruct Ho as (Hpre & -> & ->). apply wp_bind, wp_metric; [done|]. cbn [bind_post].
    destruct (is_critical_miner_error e) eqn:He; [apply wp_throw|apply wp_ret];
      (split; [by eapply task_inv_err|done]).
Qed.

Lemma wp_clear_task signer msgs :
  Forall (fun m => is_u32 (tick_round m)) msgs ->
  wp Itrue (clear_old_rounds_task signer msgs) (fun o s' t' =>
    exists e, o = Err e /\
      (e = Error.TaskFailure TaskFailureError.ClearOldRounds \/ is_critical_miner_error e = true) /\
      exists seen, seen `prefix_of` msgs /\ task_inv signer seen s' t') None [].
Proof.
  intros Hm. unfold clear_old_rounds_task. apply wp_bind.
  apply (wp_for_each Itrue msgs (clear_step signer) (task_inv signer)).
  - intros seen m rest s t -> HI. eapply wp_mono; [done| |apply wp_clear_step; [|exact HI]].
    + intros [u|e|msg|] s' t' [HI' Ho]; cbn [bind_post]; try done.
      exists e. split_and!; [done|by right|]. exists (seen ++ [m]). split; [|done].
      exists rest. by rewrite <- app_assoc.
    + apply Forall_app in Hm as [_ Hm]. by apply Forall_cons in Hm as [? _].
  - intros s t HI. cbn [bind_post]. apply wp_throw. eexists. split_and!; [done|by left|]. by exists msgs.
  - split; [constructor|constructor| |done]. intros _. split; [constructor|].
    intros r Hr. by apply not_elem_of_nil in Hr.
Qed.

End cleanup.

(** one cleanup.  It scans the submissions of its own account, in order,
    for the rounds after the last scanned one and at most five back; for every
    submission found with stored pages it sends at most one claim, carrying the
    number of stored pages and no mortality, and nothing else; when it returns,
    the whole window was scanned and recorded, the submissions found are
    reported, and it counts at most the transactions it sent; when it fails the
    last scanned round stays. *)
Theorem cleanup_functional `{T : MinerConfig} (h : handler) signer current (s : option Z) (t : trace) :
  is_u32 current ->
  let '(o, s', t') := run h (run_clear_old_rounds_cleanup signer current) s t in
  cleanup_post signer current s t o s' t'.
Proof. intros Hc. eapply wp_run. by apply wp_cleanup. Qed.

(** C18: the whole task, for any rounds it is told about.  It ends only when the
    channel closes or with a critical error; every transaction claims the
    deposit of a submission of its account it has read, in a round at most five
    before one it was told about; and as long as no cleanup failed no round is
    scanned, and so no deposit claimed, twice. *)
Theorem clear_old_rounds_task_safe `{T : MinerConfig} (h : handler) signer msgs :
  Forall (fun m => is_u32 (tick_round m)) msgs ->
  let '(o, _, t') := run h (clear_old_rounds_task signer msgs) None [] in
  (exists e, o = Err e /\
    (e = Error.TaskFailure TaskFailureError.ClearOldRounds \/ is_critical_miner_error e = true)) /\
  (forall c nonce mortality, (c, nonce, mortality) ∈ sent_txs t' ->
    c ∈ omap claim_of (scans t') /\ mortality = None) /\
  (forall round who md, (round, who, md) ∈ scans t' -> who = signer /\
    exists m, m ∈ msgs /\ tick_round m - 5 <= round < tick_round m) /\
  (on_clear_old_rounds_cleanup_failure ∉ metrics t' -> NoDup (scanned t')).
Proof.
  intros Hm. pose proof (wp_run _ _ _ _ _ h (wp_clear_task signer msgs Hm)) as H.
  destruct (run h _ _ _) as [[o s'] t']. destruct H as (e & -> & He & seen & Hpre & HI).
  split_and!.
  - by exists e.
  - intros c nonce mort Hx. by apply (proj1 (Forall_forall _ _) (ti_calls _ _ _ _ HI) _ Hx).
  - intros rnd who md Hx.
    destruct (proj1 (Forall_forall _ _) (ti_scans _ _ _ _ HI) _ Hx) as (Hw & m & Hin & Hb).
    split; [done|]. exists m. split; [|done]. destruct Hpre as [q ->]. apply elem_of_app. by left.
  - intros Hn. by apply (ti_once _ _ _ _ HI).
Qed.

(** A node that has a submission with two of four pages in every round. *)
Definition claim_node : Node :=
  with_submission (Some {| claimed_score := score0; sm_pages := [true; false; true; false] |}) good_node.

Lemma cleanup_functional_witness :
  let '(o, s', t') := run (node_handler claim_node) (run_clear_old_rounds_cleanup 3 7) (Some 4) [] in
  o = Ok 2 /\ scanned t' = [5; 6] /\ cleanup_post 3 7 (Some 4) [] o s' t'.
Proof.
  pose proof (cleanup_functional (node_handler claim_node) 3 7 (Some 4) [] ltac:(done)) as H.
  destruct (run _ _ _ _) as [[o s'] t'] eqn:Hrun. vm_compute in Hrun. injection Hrun as <- <- <-.
  split; [done|]. split; [vm_compute; reflexivity|exact H].
Defined.

Lemma clear_old_rounds_task_safe_witness :
  let t' := (run (node_handler claim_node) (clear_old_rounds_task 3 [ClearOldRoundsTick 2; ClearOldRoundsTick 4]) None []).2 in
  (fst <$> (fst <$> sent_txs t')) =
    [clear_old_round_data_call 0 2; clear_old_round_data_call 1 2;
     clear_old_round_data_call 2 2; clear_old_round_data_call 3 2] /\
  NoDup (scanned t').
Proof.
  pose proof (clear_old_rounds_task_safe (node_handler claim_node) 3
    [ClearOldRoundsTick 2; ClearOldRoundsTick 4] ltac:(by repeat constructor)) as H.
  destruct (run _ _ _ _) as [[o s'] t'] eqn:Hrun. vm_compute in Hrun. injection Hrun as <- <- <-.
  split; [vm_compute; reflexivity|]. apply H. vm_compute. intros Hin.
  repeat (apply list_elem_of_In in Hin; destruct Hin as [Hin|Hin]; [discriminate|apply list_elem_of_In in Hin]).
  by apply not_elem_of_nil in Hin.
Defined.

(** ** Era pruning *)
Section eras.
Context `{T : MinerConfig}.

(** The eras a storage iteration listed. *)
Definition eras_read (e : event) : option (list Z) :=
  match e with
  | Event o r =>
      match o in op R return R -> option (list Z) with
      | IterEraPruningState _ => fun r =>
          match r with
          | ok entries => match collect_eras entries [] with ok eras => Some eras | err _ => None end
          | err _ => None
          end
      | _ => fun _ => None
      end r
  end.

Definition last_eras (t : trace) : option (list Z) := head (omap eras_read t).

(** The oldest era of a list. *)
Definition is_oldest (era : Z) (eras : list Z) : Prop := era ∈ eras /\ Forall (Z.le era) eras.

Lemma head_merge_sort eras era :
  head (merge_sort Z.le eras) = Some era -> is_oldest era eras.
Proof.
  pose proof (merge_sort_Permutation Z.le eras) as Hp.
  pose proof (StronglySorted_merge_sort Z.le eras) as Hs.
  destruct (merge_sort Z.le eras) as [|x l]; [done|]. intros [= ->].
  apply StronglySorted_inv in Hs as [_ Hf]. split.
  - rewrite <- Hp. by left.
  - rewrite <- Hp. by constructor.
Qed.

(** A transaction prunes the oldest era of the last listing. *)
Definition prune_justified (e : event) (past : trace) : Prop :=
  match sent_tx e with
  | None => True
  | Some (c, _, mortality) => mortality = None /\
      exists eras era, last_eras past = Some eras /\ is_oldest era eras /\ c = prune_era_step_call era
  end.

(** The blocks a pruning session sees. *)
Fixpoint active_blocks (active : bool) (msgs : list EraPruningMessage) : nat :=
  match msgs with
  | [] => 0
  | EnterOffPhase :: msgs => active_blocks true msgs
  | ExitOffPhase :: msgs => active_blocks false msgs
  | NewBlock _ :: msgs => (if active then 1 else 0) + active_blocks active msgs
  end.

(** Nothing is sent while the eras are read. *)
Definition era_inv (s0 : bool) (n : nat) (s : bool) (t : trace) : Prop :=
  s = s0 /\ length (sent_txs t) = n /\ guarded prune_justified t.

Lemma era_inv_step {R} s0 n s t (o : op R) r :
  sent_tx (Event o r) = None -> era_inv s0 n s t -> era_inv s0 n s (Event o r :: t).
Proof.
  intros Ho (-> & Hl & Hg). split_and!; [done|by rewrite sent_txs_cons, Ho, app_nil_r|].
  split; [|done]. unfold prune_justified. by rewrite Ho.
Qed.

Ltac era_step_tac := repeat (apply era_inv_step; [done|]).

Lemma wp_pruneable s0 n s t :
  era_inv s0 n s t ->
  wp (era_inv s0 n) get_pruneable_era_index (fun o s' t' => era_inv s0 n s' t' /\
    match o with
    | Ok (count, oldest) => forall era, oldest = Some era ->
        exists eras, last_eras t' = Some eras /\ is_oldest era eras
    | Err _ => True
    | _ => False
    end) s t.
Proof.
  intros HI. unfold get_pruneable_era_index, storage_at_head, get_latest_finalized_head, storage_at.
  apply wp_bind, wp_bind, wp_bind.
  intros [b|e]; (split; [by apply era_inv_step|]); [|split; [by apply era_inv_step|done]].
  do 2 (apply wp_ret; cbn [bind_post]).
  intros [b'|e]; (split; [by era_step_tac|]); [|split; [by era_step_tac|done]].
  apply wp_ret. cbn [bind_post]. apply wp_bind. intros r.
  set (t1 := Event (IterEraPruningState b') r :: _).
  assert (era_inv s0 n s t1) as HI1 by (by era_step_tac).
  split; [done|]. apply wp_ret. cbn [bind_post].
  destruct r as [entries|e]; [|by apply wp_ret].
  destruct (collect_eras entries []) as [eras|e] eqn:Hc; [|by apply wp_throw].
  apply wp_ret. split; [done|]. intros era Hera%head_merge_sort. exists eras. split; [|done].
  unfold last_eras, t1. cbn. by rewrite Hc.
Qed.

(** A call that prunes the oldest era of the last listing is justified. *)
Lemma guarded_call eras era t new :
  last_eras t = Some eras -> is_oldest era eras -> guarded prune_justified t ->
  Forall (call_event (prune_era_step_call era)) new -> guarded prune_justified (new ++ t).
Proof.
  intros He Ho Hg Hn.
  enough (last_eras (new ++ t) = Some eras /\ guarded prune_justified (new ++ t)) by tauto.
  induction Hn as [|e new [Hev Hc] _ [IH1 IH2]]; [done|]. split; [|split; [|exact IH2]].
  - unfold last_eras in *. by destruct e as [R [] r].
  - unfold prune_justified. destruct (sent_tx e) as [[[c nonce] mort]|] eqn:Hse; [|done].
    destruct (Hc _ eq_refl) as [Hcall Hmort]. cbn in Hcall, Hmort. subst. eauto 6.
Qed.

Lemma era_inv_call s0 n t t' k eras era :
  era_inv s0 n s0 t -> last_eras t = Some eras -> is_oldest era eras ->
  call_trace (prune_era_step_call era) t t' k ->
  exists m, (n <= m <= n + 1)%nat /\ era_inv s0 m s0 t'.
Proof.
  intros (_ & Hl & Hg) He Ho [(new & -> & Hn) (sent & Hs & Hk & Hk1 & _)].
  exists (n + k)%nat. split; [lia|]. split_and!; [done|by rewrite Hs, length_app, Hl, Hk|].
  by eapply guarded_call.
Qed.

(** Pruning the oldest era of the last listing. *)
Lemma wp_call_prune s0 n s t eras era :
  era_inv s0 n s t -> last_eras t = Some eras -> is_oldest era eras ->
  wp Itrue (call_prune_era_step era) (fun o s' t' =>
    (exists m, (n <= m <= n + 1)%nat /\ era_inv s0 m s' t') /\
    match o with Ok _ | Err _ => True | _ => False end) s t.
Proof.
  intros HI He Ho. assert (s = s0) as -> by apply HI. unfold call_prune_era_step. apply wp_bind.
  eapply wp_mono; [done| |apply wp_submit_and_finalize].
  intros [x|e|msg|] s' t' [-> Hct]; cbn [bind_post]; try done.
  - apply wp_metric; [done|]. split; [|done].
    eapply era_inv_call in Hct as (m & Hm & HI'); [|done..]. exists m. split; [done|]. by apply era_inv_step.
  - destruct Hct as [k Hct]. split; [|done]. by eapply era_inv_call.
Qed.

(** A session starts and ends with the Off phase. *)
Definition era_next (active : bool) (m : EraPruningMessage) : bool :=
  match m with EnterOffPhase => true | ExitOffPhase => false | NewBlock _ => active end.

Lemma active_blocks_snoc msgs : forall a m,
  active_blocks a (msgs ++ [m]) = (active_blocks a msgs + active_blocks (foldl era_next a msgs) [m])%nat.
Proof.
  induction msgs as [|x msgs IH]; intros a m; [done|].
  destruct x; cbn; rewrite IH; destruct m; cbn; lia.
Qed.

(** One block of an active session. *)
Lemma wp_session_block block_number t n :
  era_inv true n true t ->
  wp Itrue (era_step (NewBlock block_number)) (fun o s' t' => o = Ok tt /\ s' = true /\
    exists k, era_inv true k true t' /\ (k <= n + 1)%nat) true t.
Proof.
  intros HI. cbn [era_step]. apply wp_bind, wp_get. cbn [bind_post negb].
  assert (forall k (s' : bool) t' m, era_inv true k s' t' -> (k <= n + 1)%nat ->
    wp Itrue (metric m) (fun o s' t' => o = Ok tt /\ s' = true /\
      exists k, era_inv true k true t' /\ (k <= n + 1)%nat) s' t') as Hmetric.
  { intros k s' t' m Hk Hle. assert (s' = true) as -> by apply Hk. apply wp_metric; [done|].
    split_and!; [done..|]. exists k. split; [by apply era_inv_step|done]. }
  apply wp_bind. eapply wp_mono; [intros; exact Logic.I|intros ? ? ? H; exact H|].
  apply (wp_timeout (era_inv true n)).
  2:{ intros s1 t1 H1. cbn [bind_post]. apply (Hmetric n); [exact H1|lia]. }
  eapply wp_mono; [done| |by apply wp_pruneable].
  intros [[count [era|]]|e|msg|] s1 t1 [H1 Hr]; cbn [bind_post]; try done.
  - destruct (Hr era eq_refl) as (eras & He & Ho). apply wp_bind, wp_metric; [done|]. cbn [bind_post].
    apply wp_bind, wp_catch.
    eapply wp_mono; [done| |eapply wp_call_prune; [by apply era_inv_step|exact He|exact Ho]].
    intros [u|e|msg|] s2 t2 [(k & Hk & H2) Ho2]; cbn [bind_post]; try done.
    + assert (s2 = true) as -> by apply H2. apply wp_ret. split_and!; [done..|]. exists k. split; [done|lia].
    + apply (Hmetric k); [exact H2|lia].
  - apply (Hmetric n); [exact H1|lia].
  - assert (s1 = true) as -> by apply H1. apply wp_ret. split_and!; [done..|]. exists n. split; [done|lia].
Qed.

Lemma wp_era_step m s t n :
  era_inv s n s t ->
  wp Itrue (era_step m) (fun o s' t' => o = Ok tt /\ s' = era_next s m /\
    exists k, era_inv s' k s' t' /\ (k <= n + active_blocks s [m])%nat) s t.
Proof.
  intros HI. destruct m; cbn [era_step].
  - apply wp_put. split_and!; [done..|]. exists n. split; [by destruct HI as (_ & ? & ?)|lia].
  - apply wp_put. split_and!; [done..|]. exists n. split; [by destruct HI as (_ & ? & ?)|lia].
  - destruct s.
    + eapply wp_mono; [done| |by apply wp_session_block].
      intros o s' t' (-> & -> & k & Hk & Hle). split_and!; [done..|]. exists k. split; [done|cbn; lia].
    + apply wp_bind, wp_get. cbn [bind_post negb]. apply wp_ret.
      split_and!; [done..|]. exists n. split; [done|lia].
Qed.

Lemma wp_era_task msgs :
  wp Itrue (lazy_era_pruning_task msgs) (fun o s' t' =>
    o = Err (Error.TaskFailure TaskFailureError.EraPruning) /\ s' = foldl era_next false msgs /\
    exists k, era_inv s' k s' t' /\ (k <= active_blocks false msgs)%nat) false [].
Proof.
  unfold lazy_era_pruning_task. apply wp_bind.
  apply (wp_for_each Itrue msgs era_step (fun seen s t => s = foldl era_next false seen /\
    exists k, era_inv s k s t /\ (k <= active_blocks false seen)%nat)).
  - intros seen m rest s t _ (-> & k & HI & Hk). eapply wp_mono; [done| |by apply wp_era_step].
    intros o s' t' (-> & -> & k' & HI' & Hk'). rewrite foldl_snoc. split; [done|].
    exists k'. split; [done|]. rewrite active_blocks_snoc. lia.
  - intros s t (-> & k & HI & Hk). cbn [bind_post]. apply wp_throw. split_and!; [done..|by exists k].
  - split; [done|]. by exists 0%nat.
Qed.

End eras.

(** C19: era pruning, for any messages.  The task ends only when its channel
    closes, whatever the node does; it sends at most one transaction per block
    seen between entering and leaving the Off phase and none outside; and every
    transaction prunes the oldest of the eras the storage listed last. *)
Theorem era_pruning_gated `{T : MinerConfig} (h : handler) msgs :
  let '(o, _, t') := run h (lazy_era_pruning_task msgs) false [] in
  o = Err (Error.TaskFailure TaskFailureError.EraPruning) /\
  (length (sent_txs t') <= active_blocks false msgs)%nat /\
  guarded prune_justified t'.
Proof.
  pose proof (wp_run _ _ _ _ _ h (wp_era_task msgs)) as H.
  destruct (run h _ _ _) as [[o s'] t']. destruct H as (-> & _ & k & (_ & <- & Hg) & Hk). done.
Qed.

(** On a node that lists eras 258 and 3, a block of the Off phase prunes era 3. *)
Example era_pruning_run :
  sent_txs (run (node_handler good_node)
    (lazy_era_pruning_task [NewBlock 1; EnterOffPhase; NewBlock 2; ExitOffPhase; NewBlock 3]) false []).2 =
  [(prune_era_step_call 3, 5, None)].
Proof. vm_compute. reflexivity. Qed.
