(* ===== verification/Client.v ===== *)
(** * The endpoint pool

    [src/client.rs]: parsing the list of endpoints, connecting to the first one
    that answers in round-robin order, and replacing the connection the tasks
    share when it is lost. *)

From Stdlib Require Import Ascii.
From S2P Require Import Prelude RustStr Errors Chain Metrics Types Effects Traces.
Local Open Scope Z_scope.

Definition CONNECTION_ATTEMPT_TIMEOUT_SECS : Z := 30.
Definition MAX_CONNECTION_ATTEMPTS : nat := 3.
Definition CONNECTION_RETRY_DELAY_SECS : Z := 5.

(** A connection is known by the endpoint and the backend it was made with. *)
Record ChainClient : Type := {
  cc_uri : string;
  cc_legacy : bool;
}.

(** [Client]: what the tasks share behind [Arc]. *)
Record Client : Type := {
  chain_api : ChainClient;
  endpoints : list string;
  current_endpoint_index : nat;
  reconnect_generation : Z;
}.

(** The endpoints of a comma-separated list. *)
Definition parse_endpoints (uris : string) : list string :=
  filter (fun s => s <> "") (trim <$> split ","%char uris).

Section client.
Context `{T : MinerConfig} {S : Type}.

(** [try_connect] *)
Definition try_connect (uri : string) (use_legacy : bool) : M S ChainClient :=
  r ← timeout CONNECTION_ATTEMPT_TIMEOUT_SECS
        (r ← ask (BuildRpc uri);
         (match r with
          | ok _ => mret tt
          | err e => throw (Error.Other ("Failed to connect: " +:+ e))
          end);;
         query (FromBackend uri use_legacy);;
         mret {| cc_uri := uri; cc_legacy := use_legacy |});
  match r with
  | Some result => of_result result
  | None =>
      metric on_connection_timeout;;
      throw (Error.Timeout (TimeoutError.InitialConnection CONNECTION_ATTEMPT_TIMEOUT_SECS 0
               (Z.of_nat MAX_CONNECTION_ATTEMPTS)))
  end.

(** The attempts on one endpoint, [attempts] of them; the last error otherwise. *)
Fixpoint try_endpoint (attempts : nat) (uri : string) (use_legacy : bool)
    (last_error : option Error.t) : M S (Result ChainClient (option Error.t)) :=
  match attempts with
  | 0%nat => mret (err last_error)
  | Datatypes.S attempts =>
      r ← catch (try_connect uri use_legacy);
      match r with
      | ok client => mret (ok client)
      | err e =>
          (if decide (attempts = 0%nat) then mret tt
           else ask (Sleep (CONNECTION_RETRY_DELAY_SECS * 1000)));;
          try_endpoint attempts uri use_legacy (Some e)
      end
  end.

(** The loop over the pool; the indices are those of a slice, so they do not
    overflow. *)
Fixpoint failover_loop (todo : list nat) (eps : list string) (start_index : nat)
    (use_legacy : bool) (max_attempts : nat) (last_error : option Error.t)
    : M S (ChainClient * nat) :=
  match todo with
  | [] => throw (default (Error.Other "No endpoints available") last_error)
  | i :: todo =>
      let idx := ((start_index + i) mod length eps)%nat in
      match eps !! idx with
      | None => panic "index out of bounds"
      | Some uri =>
          r ← try_endpoint max_attempts uri use_legacy last_error;
          match r with
          | ok client => mret (client, idx)
          | err last_error => failover_loop todo eps start_index use_legacy max_attempts last_error
          end
      end
  end.

(** With several endpoints each gets one attempt. *)
Definition max_attempts (total : nat) : nat :=
  if (1 <? total)%nat then 1%nat else MAX_CONNECTION_ATTEMPTS.

(** [connect_with_failover] *)
Definition connect_with_failover (eps : list string) (start_index : nat) (use_legacy : bool)
    : M S (ChainClient * nat) :=
  failover_loop (seq 0 (length eps)) eps start_index use_legacy (max_attempts (length eps)) None.

(** [Client::new] and [Client::new_with_legacy_backend] *)
Definition client_of (use_legacy : bool) (uris : string) : M S Client :=
  let eps := parse_endpoints uris in
  match eps with
  | [] => throw (Error.Other "No RPC endpoints provided")
  | _ =>
      '(chain_api, connected_index) ← connect_with_failover eps 0 use_legacy;
      mret {| chain_api := chain_api; endpoints := eps;
              current_endpoint_index := connected_index; reconnect_generation := 0 |}
  end.

Definition client_new : string -> M S Client := client_of false.
Definition client_new_with_legacy_backend : string -> M S Client := client_of true.

End client.

(** [current_endpoint]; [None] is an index out of bounds. *)
Definition current_endpoint (c : Client) : option string := endpoints c !! current_endpoint_index c.

(** ** [reconnect]

    Several tasks may reconnect at the same time: the relaxed loads of the
    generation and of the index are steps of their own, the rest happens while
    holding the write lock, one store at a time.  Steps interleave in program
    order: the reorderings a weak memory allows for relaxed atomics are not
    modelled. *)

(** Where a call of [reconnect] is. *)
Inductive ReconnectPc : Type :=
| Start
| GenerationLoaded (generation_before : Z)
| IndexLoaded (generation_before : Z) (current_idx : nat)
| NewConnection (generation_before : Z) (current_idx : nat) (new_client : ChainClient) (connected_idx : nat)
| WriteGuard (generation_before : Z) (current_idx : nat) (new_client : ChainClient) (connected_idx : nat)
| Agreed (generation_before : Z) (current_idx : nat) (new_client : ChainClient) (connected_idx : nat)
| ClientSet (connected_idx : nat)
| IndexSet (connected_idx : nat)
| Bumped
| Returned (r : Result unit Error.t).

(** The shared client, the holder of its write lock and how many readers hold
    the lock, the calls in progress, and the switches that were recorded. *)
Record Pool : Type := {
  pool_client : Client;
  writer : option nat;
  readers : nat;
  calls : list ReconnectPc;
  switches : nat;
}.

Definition usize_add (a b : Z) : Z := (a + b) mod 2 ^ 64.

Definition with_call (n : nat) (pc : ReconnectPc) (p : Pool) : Pool :=
  {| pool_client := pool_client p; writer := writer p; readers := readers p;
     calls := <[n := pc]> (calls p); switches := switches p |}.

Definition with_writer (w : option nat) (p : Pool) : Pool :=
  {| pool_client := pool_client p; writer := w; readers := readers p;
     calls := calls p; switches := switches p |}.

Definition with_client (c : Client) (p : Pool) : Pool :=
  {| pool_client := c; writer := writer p; readers := readers p;
     calls := calls p; switches := switches p |}.

Definition set_chain_api (x : ChainClient) (c : Client) : Client :=
  {| chain_api := x; endpoints := endpoints c;
     current_endpoint_index := current_endpoint_index c; reconnect_generation := reconnect_generation c |}.

Definition set_index (i : nat) (c : Client) : Client :=
  {| chain_api := chain_api c; endpoints := endpoints c;
     current_endpoint_index := i; reconnect_generation := reconnect_generation c |}.

Definition bump_generation (c : Client) : Client :=
  {| chain_api := chain_api c; endpoints := endpoints c;
     current_endpoint_index := current_endpoint_index c;
     reconnect_generation := usize_add (reconnect_generation c) 1 |}.

Section reconnect.
Context `{T : MinerConfig}.

(** The endpoint a search starts from. *)
Definition next_index (c : Client) (idx : nat) : nat := ((idx + 1) mod length (endpoints c))%nat.

(** One step of call [n]; an environment answers the connection attempts. *)
Inductive reconnect_step (n : nat) (p : Pool) : Pool -> Prop :=
| step_load_generation :
    calls p !! n = Some Start ->
    reconnect_step n p (with_call n (GenerationLoaded (reconnect_generation (pool_client p))) p)
| step_load_index g :
    calls p !! n = Some (GenerationLoaded g) ->
    reconnect_step n p (with_call n (IndexLoaded g (current_endpoint_index (pool_client p))) p)
| step_connect g idx (h : handler) t new_client connected_idx t' :
    calls p !! n = Some (IndexLoaded g idx) ->
    run h (connect_with_failover (endpoints (pool_client p)) (next_index (pool_client p) idx) false) tt t
      = (Ok (new_client, connected_idx), tt, t') ->
    reconnect_step n p (with_call n (NewConnection g idx new_client connected_idx) p)
| step_connect_fails g idx (h : handler) t e t' :
    calls p !! n = Some (IndexLoaded g idx) ->
    run h (connect_with_failover (endpoints (pool_client p)) (next_index (pool_client p) idx) false) tt t
      = (Err e, tt, t') ->
    reconnect_step n p (with_call n (Returned (err e)) p)
| step_lock g idx c i :
    calls p !! n = Some (NewConnection g idx c i) ->
    writer p = None -> readers p = 0%nat ->
    reconnect_step n p (with_writer (Some n) (with_call n (WriteGuard g idx c i) p))
| step_superseded g idx c i :
    calls p !! n = Some (WriteGuard g idx c i) ->
    reconnect_generation (pool_client p) <> g ->
    reconnect_step n p (with_writer None (with_call n (Returned (ok tt)) p))
| step_agreed g idx c i :
    calls p !! n = Some (WriteGuard g idx c i) ->
    reconnect_generation (pool_client p) = g ->
    reconnect_step n p (with_call n (Agreed g idx c i) p)
| step_set_client g idx c i :
    calls p !! n = Some (Agreed g idx c i) ->
    reconnect_step n p (with_client (set_chain_api c (pool_client p)) (with_call n (ClientSet i) p))
| step_set_index i :
    calls p !! n = Some (ClientSet i) ->
    reconnect_step n p (with_client (set_index i (pool_client p)) (with_call n (IndexSet i) p))
| step_bump i :
    calls p !! n = Some (IndexSet i) ->
    reconnect_step n p (with_client (bump_generation (pool_client p)) (with_call n Bumped p))
| step_record :
    calls p !! n = Some Bumped ->
    reconnect_step n p
      {| pool_client := pool_client p; writer := None; readers := readers p;
         calls := <[n := Returned (ok tt)]> (calls p); switches := switches p + 1 |}.

(** The tasks: new calls, their steps, and readers of the connection. *)
Inductive pool_step (p : Pool) : Pool -> Prop :=
| pool_call :
    pool_step p {| pool_client := pool_client p; writer := writer p; readers := readers p;
                   calls := calls p ++ [Start]; switches := switches p |}
| pool_reconnect n p' : reconnect_step n p p' -> pool_step p p'
| pool_read :
    writer p = None ->
    pool_step p {| pool_client := pool_client p; writer := writer p; readers := readers p + 1;
                   calls := calls p; switches := switches p |}
| pool_release n :
    readers p = Datatypes.S n ->
    pool_step p {| pool_client := pool_client p; writer := writer p; readers := n;
                   calls := calls p; switches := switches p |}.

(** The pool of a fresh client. *)
Definition pool_init (c : Client) : Pool :=
  {| pool_client := c; writer := None; readers := 0; calls := []; switches := 0 |}.

End reconnect.
