(* ===== verification/ClientSpec.v ===== *)
(** * Properties of the endpoint pool

    The order in which endpoints are tried, the round trip of the list of
    endpoints, and what concurrent reconnects may do to the shared client. *)

From Stdlib Require Import Ascii.
From S2P Require Import Prelude RustStr Errors Chain Metrics Types Effects Traces Observe Scenario Client.
Local Open Scope Z_scope.

(** ** Connecting *)
Section connecting.
Context `{T : MinerConfig} {S : Type}.

(** The endpoint an attempt goes to. *)
Definition attempt_of (e : event) : option string :=
  match e with Event o _ => match o with BuildRpc uri => Some uri | _ => None end end.

Definition attempts : trace -> list string := observed attempt_of.

(** The endpoints in round-robin order from [start]. *)
Definition rotation (eps : list string) (start : nat) : list string := drop start eps ++ take start eps.

(** Every endpoint [n] times. *)
Definition schedule (n : nat) (uris : list string) : list string := uris ≫= replicate n.

(** The attempts [done] were made. *)
Definition made (t t' : trace) (new : list string) : Prop := attempts t' = attempts t ++ new.

Lemma made_step {R} (o : op R) r t t' new :
  attempt_of (Event o r) = None -> made t t' new -> made t (Event o r :: t') new.
Proof. unfold made, attempts. intros Ho H. by rewrite observed_cons, Ho, app_nil_r. Qed.

Lemma wp_try_connect uri legacy (s : S) t :
  wp Itrue (try_connect uri legacy) (fun o s' t' => s' = s /\ made t t' [uri] /\
    match o with
    | Ok c => c = {| cc_uri := uri; cc_legacy := legacy |}
    | Err _ => True
    | _ => False
    end) s t.
Proof.
  unfold try_connect.
  set (I := fun (s' : S) t' => s' = s /\ made t t' [uri]).
  assert (forall R (o : op R) r t', attempt_of (Event o r) = None -> I s t' -> I s (Event o r :: t')) as Hn.
  { intros R o r t' Ho [_ H]. split; [done|by apply made_step]. }
  apply wp_bind. eapply (wp_mono I); [done|intros ? ? ? H; exact H|].
  apply wp_timeout.
  2:{ intros s1 t1 [-> H1]. cbn [bind_post]. apply wp_bind, wp_metric; [done|].
      apply wp_throw. split_and!; [done|by apply made_step|done]. }
  assert (forall r, I s (Event (BuildRpc uri) r :: t)) as H0.
  { intros r. split; [done|]. unfold made, attempts. by rewrite observed_cons. }
  apply wp_bind. intros r. split; [done|]. apply wp_ret. cbn [bind_post].
  destruct r as [u|e]; apply wp_bind; [apply wp_ret|apply wp_throw]; cbn [bind_post].
  2:{ apply wp_throw. by destruct (H0 (err e)). }
  apply wp_bind. intros r. split; [by apply Hn|].
  assert (I s (Event (FromBackend uri legacy) r :: Event (BuildRpc uri) (ok u) :: t)) as [_ H1] by (by apply Hn).
  destruct r as [u'|e]; cbn [bind_post]; [|by apply wp_throw].
  apply wp_ret. cbn [bind_post]. do 2 apply wp_ret. done.
Qed.

(** The attempts on one endpoint. *)
Lemma wp_try_endpoint n uri legacy : forall le (s : S) t,
  wp Itrue (try_endpoint n uri legacy le) (fun o s' t' => s' = s /\ exists k, made t t' (replicate k uri) /\
    match o with
    | Ok (ok c) => (1 <= k <= n)%nat /\ c = {| cc_uri := uri; cc_legacy := legacy |}
    | Ok (err _) => k = n
    | _ => False
    end) s t.
Proof.
  induction n as [|n IH]; intros le s t; cbn [try_endpoint].
  { apply wp_ret. split; [done|]. exists 0%nat. split; [|done]. unfold made. by rewrite app_nil_r. }
  apply wp_bind, wp_catch. eapply wp_mono; [done| |apply wp_try_connect].
  intros [c|e|msg|] s1 t1 (-> & H1 & Ho); cbn [bind_post]; try done.
  { apply wp_ret. split; [done|]. exists 1%nat. split; [done|]. split; [lia|done]. }
  assert (forall t2, made t t2 [uri] -> wp Itrue (try_endpoint n uri legacy (Some e))
    (fun o s' t' => s' = s /\ exists k, made t t' (replicate k uri) /\
      match o with
      | Ok (ok c) => (1 <= k <= Datatypes.S n)%nat /\ c = {| cc_uri := uri; cc_legacy := legacy |}
      | Ok (err _) => k = Datatypes.S n
      | _ => False
      end) s t2) as Hrest.
  { intros t2 H2. eapply wp_mono; [done| |apply IH]. intros o s' t' (-> & k & Hk & Ho').
    split; [done|]. exists (Datatypes.S k). split.
    - unfold made in *. by rewrite Hk, H2, <- app_assoc.
    - destruct o as [[c|le']| | |]; try done; [|by rewrite Ho']. destruct Ho'. split; [lia|done]. }
  apply wp_bind. destruct (decide (n = 0%nat)).
  - apply wp_ret. by apply Hrest.
  - intros r. split; [done|]. apply wp_ret. cbn [bind_post]. apply Hrest. by apply made_step.
Qed.

(** Searching a list of endpoints. *)
Definition search_post (eps uris : list string) (legacy : bool) (n : nat) (t : trace)
    : outcome (ChainClient * nat) -> S -> trace -> Prop :=
  fun o s' t' => exists done rest, schedule n uris = done ++ rest /\ made t t' done /\
    match o with
    | Ok (c, idx) => last done = Some (cc_uri c) /\ eps !! idx = Some (cc_uri c) /\ cc_legacy c = legacy
    | Err _ => rest = []
    | _ => False
    end.

Lemma wp_failover_loop eps start legacy n todo : forall uris le s t,
  Forall2 (fun i uri => eps !! ((start + i) mod length eps)%nat = Some uri) todo uris ->
  wp Itrue (failover_loop todo eps start legacy n le : M S _) (search_post eps uris legacy n t) s t.
Proof.
  induction todo as [|i todo IH]; intros uris le s t Hu; cbn [failover_loop].
  { apply Forall2_nil_inv_l in Hu as ->. apply wp_throw. exists [], []. split_and!; [done| |done].
    unfold made. by rewrite app_nil_r. }
  apply Forall2_cons_inv_l in Hu as (uri & uris' & Hi & Hu & ->). rewrite Hi.
  apply wp_bind. eapply wp_mono; [done| |apply wp_try_endpoint].
  intros [[c|le']|e|msg|] s1 t1 (-> & k & Hk & Ho); cbn [bind_post]; try done.
  - destruct Ho as [Hkn ->]. apply wp_ret.
    exists (replicate k uri), (replicate (n - k) uri ++ schedule n uris'). split_and!.
    + unfold schedule. csimpl. rewrite app_assoc, <- replicate_add. do 2 f_equal. lia.
    + done.
    + destruct k as [|k]; [lia|]. by rewrite replicate_S_end, last_snoc.
    + done.
    + done.
  - subst k. eapply wp_mono; [done| |by apply IH].
    intros o s' t' (d & rest & Hd & Hm & Ho). exists (replicate n uri ++ d), rest. split_and!.
    + unfold schedule in *. csimpl. by rewrite Hd, app_assoc.
    + unfold made in *. by rewrite Hm, Hk, app_assoc.
    + destruct o as [[c idx]| | |]; try done. destruct Ho as (Hl & ?).
      rewrite last_app, Hl. done.
Qed.

(** The indices of the loop are a rotation of the pool. *)
Lemma rotation_spec eps start :
  (start < length eps)%nat ->
  Forall2 (fun i uri => eps !! ((start + i) mod length eps)%nat = Some uri)
    (seq 0 (length eps)) (rotation eps start).
Proof.
  intros Hs. apply Forall2_same_length_lookup. unfold rotation. split.
  { rewrite length_seq, length_app, length_drop, length_take. lia. }
  intros i j uri [-> Hi]%lookup_seq Hl. rewrite Nat.add_0_l.
  apply lookup_app_Some in Hl as [Hl|[Hlen Hl]].
  - rewrite lookup_drop in Hl. rewrite Nat.mod_small; [done|]. by eapply lookup_lt_Some.
  - rewrite length_drop in Hlen, Hl. apply lookup_take_Some in Hl as [Hl Hlt].
    replace (start + i)%nat with ((i - (length eps - start)) + 1 * length eps)%nat by lia.
    rewrite Nat.Div0.mod_add, Nat.mod_small by lia. done.
Qed.

Lemma wp_connect eps start legacy s t :
  (start < length eps)%nat ->
  wp Itrue (connect_with_failover eps start legacy : M S _)
    (search_post eps (rotation eps start) legacy (max_attempts (length eps)) t) s t.
Proof. intros Hs. by apply wp_failover_loop, rotation_spec. Qed.

End connecting.

(** C37: connecting tries the endpoints in round-robin order from the given
    index, each as often as the pool allows; a connection is returned for the
    endpoint of the last attempt, with its index and the backend asked for; an
    error is returned only after every attempt at every endpoint was made; and
    neither the indexing nor anything else panics. *)
Theorem connect_with_failover_round_robin `{T : MinerConfig} (h : handler) eps start legacy (t : trace) :
  (start < length eps)%nat ->
  let '(o, _, t') := run h (connect_with_failover eps start legacy) tt t in
  exists done rest, schedule (max_attempts (length eps)) (rotation eps start) = done ++ rest /\
    attempts t' = attempts t ++ done /\
    match o with
    | Ok (c, idx) => last done = Some (cc_uri c) /\ eps !! idx = Some (cc_uri c) /\ cc_legacy c = legacy
    | Err _ => rest = []
    | _ => False
    end.
Proof. intros Hs. eapply wp_run. by apply wp_connect. Qed.

(** Of three endpoints the first and the last are down. *)
Lemma connect_with_failover_round_robin_witness :
  let eps := ["a"; "b"; "c"] in
  let '(o, _, t') := run (node_handler (with_reachable (String.eqb "b") good_node))
                       (connect_with_failover eps 2 false) tt [] in
  o = Ok ({| cc_uri := "b"; cc_legacy := false |}, 1%nat) /\ attempts t' = ["c"; "a"; "b"] /\
  exists done rest, schedule (max_attempts (length eps)) (rotation eps 2) = done ++ rest /\ attempts t' = done.
Proof.
  pose proof (connect_with_failover_round_robin (node_handler (with_reachable (String.eqb "b") good_node))
    ["a"; "b"; "c"] 2 false [] ltac:(cbn; lia)) as H.
  destruct (run _ _ _ _) as [[o s'] t'] eqn:Hrun. vm_compute in Hrun. injection Hrun as <- <- <-.
  split; [done|]. split; [vm_compute; reflexivity|].
  destruct H as (d & rest & H1 & H2 & _). by exists d, rest.
Defined.

(** ** The list of endpoints *)

(** An endpoint as the pool keeps it. *)
Definition clean_endpoint (uri : string) : Prop :=
  uri <> "" /\ trim uri = uri /\ has_char ","%char uri = false.

Lemma parse_endpoints_clean uris : Forall clean_endpoint (parse_endpoints uris).
Proof.
  apply Forall_forall. intros uri [Hne Hin]%list_elem_of_filter.
  apply list_elem_of_fmap in Hin as (x & -> & Hx). split_and!; [done|apply trim_idemp|].
  apply has_char_trim. pose proof (split_pieces ","%char uris) as Hp.
  by eapply Forall_forall in Hp.
Qed.

Lemma split_concat eps :
  eps <> [] -> Forall clean_endpoint eps -> split ","%char (String.concat "," eps) = eps.
Proof.
  induction eps as [|uri eps IH]; intros Hne Hc; [done|].
  apply Forall_cons in Hc as [(_ & _ & Hu) Hc]. destruct eps as [|uri' eps]; [by apply split_no_sep|].
  change (split ","%char (uri +:+ String ","%char (String.concat "," (uri' :: eps))) = uri :: uri' :: eps).
  by rewrite split_cons_sep, IH.
Qed.

(** the list of endpoints.  Whatever is written, the pool holds only
    non-empty endpoints without surrounding white space or commas; and the
    endpoints of such a pool, written with commas between them, parse back to
    the same pool, in the same order. *)
Theorem endpoints_roundtrip :
  (forall uris, Forall clean_endpoint (parse_endpoints uris)) /\
  (forall eps, Forall clean_endpoint eps -> parse_endpoints (String.concat "," eps) = eps).
Proof.
  split; [apply parse_endpoints_clean|]. intros eps Hc.
  destruct (decide (eps = [])) as [->|Hne]; [done|].
  unfold parse_endpoints. rewrite split_concat by done.
  induction Hc as [|uri eps (Hu & Ht & _) Hc IH]; [done|].
  change (filter (fun s => s <> "") (trim uri :: (trim <$> eps)) = uri :: eps).
  rewrite Ht, filter_cons_True by done. f_equal. destruct (decide (eps = [])) as [->|]; [done|by apply IH].
Qed.

Lemma endpoints_roundtrip_witness :
  parse_endpoints " wss://a , ,wss://b," = ["wss://a"; "wss://b"] /\
  parse_endpoints (String.concat "," ["wss://a"; "wss://b"]) = ["wss://a"; "wss://b"].
Proof.
  split; [vm_compute; reflexivity|]. apply endpoints_roundtrip.
  repeat (constructor; [split_and!; [discriminate|reflexivity|reflexivity]|]). constructor.
Defined.

(** ** Concurrent reconnects *)
Section reconnects.
Context `{T : MinerConfig}.

(** The call has loaded generation [g] and then index [idx]. *)
Definition loaded (pc : ReconnectPc) : option (Z * nat) :=
  match pc with
  | IndexLoaded g idx | NewConnection g idx _ _ | WriteGuard g idx _ _ | Agreed g idx _ _ => Some (g, idx)
  | _ => None
  end.

(** The generation a call has loaded. *)
Definition generation_of (pc : ReconnectPc) : option Z :=
  match pc with GenerationLoaded g => Some g | _ => fst <$> loaded pc end.

(** The connection a call is about to install. *)
Definition offered (pc : ReconnectPc) : option (ChainClient * nat) :=
  match pc with
  | NewConnection _ _ c i | WriteGuard _ _ c i | Agreed _ _ c i => Some (c, i)
  | _ => None
  end.

(** The call is inside the critical section. *)
Definition holding (pc : ReconnectPc) : bool :=
  match pc with
  | WriteGuard _ _ _ _ | Agreed _ _ _ _ | ClientSet _ | IndexSet _ | Bumped => true
  | _ => false
  end.

(** The switches that were made, counting one that is not recorded yet. *)
Definition commits (p : Pool) : Z :=
  Z.of_nat (switches p) +
  match writer p with Some n => match calls p !! n with Some Bumped => 1 | _ => 0 end | None => 0 end.

(** What the shared client looks like, given the call that holds the lock. *)
Definition client_ok (eps : list string) (holder : option ReconnectPc) (c : Client) : Prop :=
  endpoints c = eps /\ (current_endpoint_index c < length eps)%nat /\
  match holder with
  | Some (ClientSet i) => (i < length eps)%nat /\ eps !! i = Some (cc_uri (chain_api c))
  | Some (IndexSet i) => current_endpoint_index c = i /\ eps !! i = Some (cc_uri (chain_api c))
  | _ => eps !! current_endpoint_index c = Some (cc_uri (chain_api c))
  end.

Definition holder (p : Pool) : option ReconnectPc := writer p ≫= fun n => calls p !! n.

(** An index that goes with the current generation is the current index,
    unless the holder of the lock is between the two stores. *)
Definition fresh (p : Pool) (pc : ReconnectPc) : Prop :=
  forall g idx, loaded pc = Some (g, idx) -> g = reconnect_generation (pool_client p) ->
    idx = current_endpoint_index (pool_client p) \/ exists i, holder p = Some (IndexSet i).

Record pool_inv (eps : list string) (p : Pool) : Prop := {
  pi_client : client_ok eps (holder p) (pool_client p);
  pi_lock : forall n pc, calls p !! n = Some pc -> (holding pc = true <-> writer p = Some n);
  pi_writer : forall n, writer p = Some n -> is_Some (calls p !! n);
  pi_generation : reconnect_generation (pool_client p) = commits p;
  pi_old : forall n pc g, calls p !! n = Some pc -> generation_of pc = Some g ->
    g <= reconnect_generation (pool_client p);
  pi_fresh : forall n pc, calls p !! n = Some pc -> fresh p pc;
  pi_agreed : forall n g idx c i, calls p !! n = Some (Agreed g idx c i) ->
    g = reconnect_generation (pool_client p);
  pi_offered : forall n pc c i, calls p !! n = Some pc -> offered pc = Some (c, i) ->
    eps !! i = Some (cc_uri c);
}.

(** The pc of a call after a step of call [n]. *)
Lemma lookup_call n pc' p m pc :
  <[n := pc']> (calls p) !! m = Some pc -> (m = n /\ pc = pc') \/ (m <> n /\ calls p !! m = Some pc).
Proof. intros [(<- & <- & _)|[? ?]]%list_lookup_insert_Some; auto. Qed.

(** A call that is not between the stores of the critical section. *)
Definition quiet_pc (pc : ReconnectPc) : bool :=
  match pc with ClientSet _ | IndexSet _ | Bumped => false | _ => true end.

Lemma client_ok_quiet eps h c :
  match h with Some pc => quiet_pc pc = true | None => True end ->
  client_ok eps h c <-> client_ok eps None c.
Proof. by destruct h as [[]|]. Qed.

Lemma holder_call n pc' p :
  holder (with_call n pc' p) =
  if decide (writer p = Some n) then (fun _ => pc') <$> calls p !! n else holder p.
Proof.
  unfold holder. cbn. destruct (writer p) as [m|]; cbn; [|done].
  destruct (decide (Some m = Some n)) as [[= ->]|Hne].
  - destruct (calls p !! n) as [x|] eqn:Hn; cbn.
    + rewrite list_lookup_insert_eq; [done|by eapply lookup_lt_Some].
    + rewrite list_insert_ge; [done|by apply lookup_ge_None].
  - rewrite list_lookup_insert_ne; [done|congruence].
Qed.

(** A step of a call that changes neither the client nor the lock. *)
Lemma inv_call eps n pc pc' p :
  pool_inv eps p -> calls p !! n = Some pc ->
  holding pc' = holding pc -> quiet_pc pc = true -> quiet_pc pc' = true ->
  (forall g, generation_of pc' = Some g -> g <= reconnect_generation (pool_client p)) ->
  (forall g idx, loaded pc' = Some (g, idx) -> loaded pc = Some (g, idx) \/
     idx = current_endpoint_index (pool_client p)) ->
  (forall g idx c i, pc' = Agreed g idx c i -> g = reconnect_generation (pool_client p)) ->
  (forall c i, offered pc' = Some (c, i) -> eps !! i = Some (cc_uri c)) ->
  pool_inv eps (with_call n pc' p).
Proof.
  intros HI Hn Hh Hq Hq' Hg Hl Ha Ho. destruct HI as [A B C D E F G H].
  assert (forall i, holder p = Some (IndexSet i) -> holder (with_call n pc' p) = Some (IndexSet i)) as Hsame.
  { intros i Hi. rewrite holder_call. case_decide as Hw; [|done].
    unfold holder in Hi. rewrite Hw in Hi. cbn in Hi. rewrite Hn in Hi. by injection Hi as ->. }
  split.
  - rewrite holder_call, Hn. cbn. case_decide as Hw; [|done].
    unfold holder in A. rewrite Hw in A. cbn in A. rewrite Hn in A.
    by rewrite client_ok_quiet in A |- *.
  - intros m q [[-> ->]|[? Hm]]%lookup_call; cbn; [rewrite Hh; by apply B|by apply B].
  - intros m Hm. cbn in *. apply lookup_lt_is_Some. rewrite length_insert.
    apply lookup_lt_is_Some. by apply C.
  - cbn. rewrite D. unfold commits. cbn. destruct (writer p) as [m|] eqn:Hw; [|done]. f_equal.
    destruct (decide (m = n)) as [->|]; [|by rewrite list_lookup_insert_ne].
    rewrite list_lookup_insert_eq by (by eapply lookup_lt_Some). rewrite Hn. by destruct pc, pc'.
  - intros m q g [[-> ->]|[? Hm]]%lookup_call; cbn; [auto|by eapply E].
  - intros m q [[-> ->]|[? Hm]]%lookup_call g idx Hlo Hge; cbn in *.
    + destruct (Hl _ _ Hlo) as [Hlo'| ->]; [|by left].
      destruct (F _ _ Hn _ _ Hlo' Hge) as [|[i Hi]]; [by left|right; eauto].
    + destruct (F _ _ Hm _ _ Hlo Hge) as [|[i Hi]]; [by left|right; eauto].
  - intros m g idx c i [[-> <-]|[? Hm]]%lookup_call; cbn; eauto.
  - intros m q c i [[-> ->]|[? Hm]]%lookup_call; cbn; eauto.
Qed.

(** A step of the call that holds, takes or releases the lock. *)
Lemma inv_owner eps n pc pc' c' sw' p :
  pool_inv eps p -> calls p !! n = Some pc -> writer p = None \/ writer p = Some n ->
  let h' := if holding pc' then Some pc' else None in
  client_ok eps h' c' ->
  reconnect_generation c' = Z.of_nat sw' + (match pc' with Bumped => 1 | _ => 0 end) ->
  reconnect_generation (pool_client p) <= reconnect_generation c' ->
  (reconnect_generation c' = reconnect_generation (pool_client p) ->
     current_endpoint_index c' = current_endpoint_index (pool_client p) /\ (forall i, pc <> IndexSet i) \/
     exists i, pc' = IndexSet i) ->
  (forall x, generation_of pc' = Some x -> generation_of pc = Some x) ->
  (forall x, loaded pc' = Some x -> loaded pc = Some x) ->
  (forall x, offered pc' = Some x -> offered pc = Some x) ->
  (forall g idx c i, pc' <> Agreed g idx c i) ->
  pool_inv eps {| pool_client := c'; writer := if holding pc' then Some n else None;
                  readers := readers p; calls := <[n := pc']> (calls p); switches := sw' |}.
Proof.
  intros [A B C D E F G H] Hn Hw h' Hc Hgen Hle Hidx Hg Hl Ho Ha. set (p' := {| pool_client := c' |}).
  assert (forall m q, m <> n -> calls p !! m = Some q -> holding q = false) as Hothers.
  { intros m q Hne Hm. destruct (holding q) eqn:Hq; [|done]. apply (B _ _ Hm) in Hq.
    destruct Hw as [Hw|Hw]; rewrite Hw in Hq; congruence. }
  assert (<[n := pc']> (calls p) !! n = Some pc') as Hn'
    by (by apply list_lookup_insert_eq, lookup_lt_Some with pc).
  assert (holder p' = h') as Hh.
  { unfold holder, p', h'. cbn. by destruct (holding pc'). }
  assert (forall q, (exists m, calls p !! m = Some q) -> forall g idx, loaded q = Some (g, idx) ->
    g = reconnect_generation c' -> idx = current_endpoint_index c' \/ exists i, pc' = IndexSet i) as Hfresh.
  { intros q [m Hm] g idx Hlo ->.
    assert (reconnect_generation c' <= reconnect_generation (pool_client p)).
    { apply (E m q); [done|]. destruct q; cbn in *; congruence. }
    assert (reconnect_generation c' = reconnect_generation (pool_client p)) as Heq by lia.
    destruct (Hidx Heq) as [[-> Hpc]|?]; [|by right]. left.
    destruct (F m q Hm _ _ Hlo Heq) as [|[i Hi]]; [done|]. unfold holder in Hi.
    destruct Hw as [Hw|Hw]; rewrite Hw in Hi; cbn in Hi; [done|]. rewrite Hn in Hi.
    injection Hi as ->. by destruct (Hpc i). }
  assert (forall i, pc' = IndexSet i -> holder p' = Some (IndexSet i)) as Hset
    by (intros i ->; by rewrite Hh).
  split.
  - by rewrite Hh.
  - intros m q [[-> ->]|[? Hm]]%lookup_call; cbn.
    + by destruct (holding pc').
    + rewrite (Hothers m q) by done. destruct (holding pc'); split; congruence.
  - intros m Hm. cbn in *. destruct (holding pc'); [injection Hm as <-|done]. rewrite Hn'. by eexists.
  - unfold commits, p'. cbn. rewrite Hgen. f_equal. destruct pc'; cbn in *; try done; by rewrite Hn'.
  - intros m q g [[-> ->]|[? Hm]]%lookup_call Hgo; cbn.
    + apply Hg in Hgo. specialize (E _ _ _ Hn Hgo). lia.
    + specialize (E _ _ _ Hm Hgo). lia.
  - intros m q Hq g idx Hlo Hge. cbn in *.
    assert (exists q', (exists m', calls p !! m' = Some q') /\ loaded q' = Some (g, idx)) as (q' & Hq' & Hlo').
    { apply lookup_call in Hq as [[-> ->]|[? Hm]]; [exists pc|exists q]; eauto. }
    destruct (Hfresh q' Hq' _ _ Hlo' Hge) as [|[i Hi]]; [by left|right; eauto].
  - intros m g idx c i [[-> Heq]|[? Hm]]%lookup_call; [by destruct (Ha g idx c i)|].
    by specialize (Hothers _ _ H0 Hm).
  - intros m q c i [[-> ->]|[? Hm]]%lookup_call Hof; [|by eapply H].
    apply Ho in Hof. by eapply H.
Qed.

(** The holder of the lock, seen by itself. *)
Lemma inv_holding eps p n pc :
  pool_inv eps p -> calls p !! n = Some pc -> holding pc = true ->
  writer p = Some n /\ client_ok eps (Some pc) (pool_client p) /\
  reconnect_generation (pool_client p) = Z.of_nat (switches p) + (match pc with Bumped => 1 | _ => 0 end).
Proof.
  intros HI Hn Hh. assert (writer p = Some n) as Hw by (by apply (pi_lock _ _ HI _ _ Hn)).
  pose proof (pi_client _ _ HI) as Hc. unfold holder in Hc. rewrite Hw in Hc. cbn in Hc. rewrite Hn in Hc.
  split_and!; [done|done|]. rewrite (pi_generation _ _ HI). unfold commits. rewrite Hw, Hn. by destruct pc.
Qed.

(** Without a writer nothing is in progress. *)
Lemma inv_free eps p :
  pool_inv eps p -> writer p = None ->
  client_ok eps None (pool_client p) /\ reconnect_generation (pool_client p) = Z.of_nat (switches p).
Proof.
  intros HI Hw. pose proof (pi_client _ _ HI) as Hc. unfold holder in Hc. rewrite Hw in Hc.
  split; [done|]. rewrite (pi_generation _ _ HI). unfold commits. rewrite Hw. lia.
Qed.

(** What a search from the next index returns. *)
Lemma connect_offers h c idx t new i t' :
  (0 < length (endpoints c))%nat ->
  run h (connect_with_failover (endpoints c) (next_index c idx) false) tt t = (Ok (new, i), tt, t') ->
  endpoints c !! i = Some (cc_uri new).
Proof.
  intros Hlen Hr.
  pose proof (wp_run _ _ _ _ _ h (wp_connect (endpoints c) (next_index c idx) false tt t
    ltac:(unfold next_index; apply Nat.mod_upper_bound; lia))) as Hw.
  rewrite Hr in Hw. by destruct Hw as (d & rest & _ & _ & _ & Hi & _).
Qed.

Lemma usize_add_small a b : 0 <= a + b < 2 ^ 64 -> usize_add a b = a + b.
Proof. apply Z.mod_small. Qed.

Lemma inv_reconnect_step eps n p p' :
  pool_inv eps p -> Z.of_nat (switches p') < 2 ^ 64 - 1 ->
  reconnect_step n p p' -> pool_inv eps p'.
Proof.
  intros HI Hb Hs. pose proof HI as [A B C D E F G H].
  destruct Hs as [Hn|g Hn|g idx h t c i t' Hn Hr|g idx h t e t' Hn Hr|g idx c i Hn Hw Hrd
                 |g idx c i Hn Hne|g idx c i Hn Heq|g idx c i Hn|i Hn|i Hn|Hn].
  - eapply (inv_call _ _ _ _ _ HI Hn); try done. by intros g [= <-].
  - eapply (inv_call _ _ _ _ _ HI Hn); try done; cbn.
    + intros g' [= <-]. by eapply E.
    + intros g' idx [= <- <-]. by right.
  - eapply (inv_call _ _ _ _ _ HI Hn); try done; cbn.
    + intros g' [= <-]. by eapply E.
    + intros g' idx' [= <- <-]. by left.
    + intros c' i' [= <- <-]. destruct A as (Hep & Hlt & _). rewrite <- Hep.
      eapply connect_offers; [rewrite Hep; lia|exact Hr].
  - by eapply (inv_call _ _ _ _ _ HI Hn).
  - destruct (inv_free _ _ HI Hw) as [Hc Hg].
    eapply (inv_owner _ _ _ (WriteGuard g idx c i) (pool_client p) (switches p) _ HI Hn); auto; try done; try lia.
    all: intros _; left; split; [done|by intros].
  - destruct (inv_holding _ _ _ _ HI Hn eq_refl) as (Hw & Hc & Hg).
    eapply (inv_owner _ _ _ (Returned (ok tt)) (pool_client p) (switches p) _ HI Hn); auto; try done; try lia.
    all: intros _; left; split; [done|by intros].
  - eapply (inv_call _ _ _ _ _ HI Hn); try done; cbn.
    + intros g' [= <-]. lia.
    + intros g' idx' [= <- <-]. by left.
    + intros ? ? ? ? [= <- <- <- <-]. done.
    + intros c' i' [= <- <-]. by eapply H.
  - destruct (inv_holding _ _ _ _ HI Hn eq_refl) as (Hw & (He & Hlt & Hc) & Hg).
    assert (eps !! i = Some (cc_uri c)) as Hi by (by eapply H).
    unfold with_client, with_call. cbn. rewrite Hw.
    eapply (inv_owner _ _ _ (ClientSet i) _ (switches p) _ HI Hn); auto; try done.
    split; [done|]. split; [done|]. split; [by eapply lookup_lt_Some|done].
  - destruct (inv_holding _ _ _ _ HI Hn eq_refl) as (Hw & (He & Hlt & Hi & Hc) & Hg).
    unfold with_client, with_call. cbn. rewrite Hw.
    eapply (inv_owner _ _ _ (IndexSet i) _ (switches p) _ HI Hn); auto; try done. eauto.
  - destruct (inv_holding _ _ _ _ HI Hn eq_refl) as (Hw & (He & Hlt & Hi & Hc) & Hg).
    cbn in Hb. pose proof (usize_add_small (reconnect_generation (pool_client p)) 1 ltac:(lia)) as Hadd.
    unfold with_client, with_call. cbn. rewrite Hw.
    eapply (inv_owner _ _ _ Bumped _ (switches p) _ HI Hn); auto; try done; cbn; rewrite ?Hadd; try lia.
    split; [done|]. split; [done|]. cbn. by rewrite Hi.
  - destruct (inv_holding _ _ _ _ HI Hn eq_refl) as (Hw & Hc & Hg).
    eapply (inv_owner _ _ _ (Returned (ok tt)) (pool_client p) (switches p + 1) _ HI Hn); auto; try done; try lia.
    all: intros _; left; split; [done|by intros].
Qed.

Lemma switches_mono p p' : pool_step p p' -> (switches p <= switches p')%nat.
Proof. destruct 1 as [|n p' Hs|n|n]; cbn; try lia. destruct Hs; cbn; lia. Qed.

Lemma inv_pool_step eps p p' :
  pool_inv eps p -> Z.of_nat (switches p') < 2 ^ 64 - 1 -> pool_step p p' -> pool_inv eps p'.
Proof.
  intros HI Hb. destruct 1 as [|n p' Hs|Hw|n Hr]; [|by eapply inv_reconnect_step| |].
  2,3: destruct HI; by split.
  destruct HI as [A B C D E F G H].
  assert (forall m q, (calls p ++ [Start]) !! m = Some q -> calls p !! m = Some q \/ q = Start /\ (length (calls p) <= m)%nat) as Hl.
  { intros m q [Hq|[Hge Hq]]%lookup_app_Some; [by left|right].
    split; [|done]. destruct (m - length (calls p))%nat; cbn in Hq; [congruence|done]. }
  assert (forall m, is_Some (calls p !! m) -> (calls p ++ [Start]) !! m = calls p !! m) as Hold.
  { intros m [q Hq]. rewrite lookup_app_l; [done|by eapply lookup_lt_Some]. }
  assert (forall n, writer p = Some n -> (calls p ++ [Start]) !! n = calls p !! n) as Hww
    by (intros; by apply Hold, C).
  set (p' := {| pool_client := pool_client p |}).
  assert (holder p' = holder p) as Hh.
  { unfold holder, p'. cbn. destruct (writer p) eqn:Hw; [|done]. cbn. by apply Hww. }
  split.
  - by rewrite Hh.
  - intros m q [Hq|[-> Hge]]%Hl; [by apply B|]. split; [done|]. intros Hw%C%lookup_lt_is_Some. lia.
  - intros m Hm. cbn in *. rewrite Hww by done. by apply C.
  - cbn. rewrite D. unfold commits, p'. cbn. destruct (writer p) eqn:Hw; [|done]. by rewrite Hww.
  - intros m q g [Hq|[-> Hge]]%Hl; [by eapply E|done].
  - intros m q [Hq|[-> Hge]]%Hl g idx Hlo; [|done]. rewrite Hh. by eapply F.
  - intros m g idx c i [Hq|[? Hge]]%Hl; [by eapply G|done].
  - intros m q c i [Hq|[-> Hge]]%Hl; [by eapply H|done].
Qed.

(** A client as [Client::new] returns it. *)
Definition fresh_client (c : Client) : Prop :=
  current_endpoint c = Some (cc_uri (chain_api c)) /\ reconnect_generation c = 0.

Lemma client_of_fresh h legacy uris t c s' t' :
  run h (client_of legacy uris) tt t = (Ok c, s', t') -> fresh_client c.
Proof.
  intros Hrun. unfold client_of in Hrun. destruct (parse_endpoints uris) as [|e eps] eqn:He; [done|].
  rewrite run_mbind in Hrun.
  pose proof (wp_run _ _ _ _ _ h (wp_connect (e :: eps) 0 legacy tt t ltac:(cbn; lia))) as Hc.
  destruct (run h (connect_with_failover _ _ _) tt t) as [[o s1] t1]. destruct o as [[c0 i]| | |]; try done.
  destruct Hc as (d & rest & _ & _ & _ & Hi & _). cbn in Hrun. injection Hrun as <- _ _. done.
Qed.

Lemma inv_init c : fresh_client c -> pool_inv (endpoints c) (pool_init c).
Proof.
  intros [Hc Hg]. split; cbn; try done; [].
  split_and!; [done|by eapply lookup_lt_Some|done].
Qed.

Lemma inv_reachable c p :
  fresh_client c -> rtc pool_step (pool_init c) p -> Z.of_nat (switches p) < 2 ^ 64 - 1 ->
  pool_inv (endpoints c) p.
Proof.
  intros Hc Hr. revert p Hr. refine (rtc_ind_r _ _ _ _); [intros _; by apply inv_init|].
  intros p p' Hr Hs IH Hb. eapply inv_pool_step; [|exact Hb|exact Hs]. apply IH. pose proof (switches_mono _ _ Hs). lia.
Qed.

End reconnects.

(** C21: a client that connected, and any number of tasks reconnecting at any time, with readers in between,
    fewer than 2^64 times.  The current endpoint never indexes out of bounds;
    whoever can take the lock sees a connection to the current endpoint, and the
    generation counts the switches; a call that passes the generation check is
    alone in the critical section, still has the current generation, has
    searched from the endpoint after the current one, and installs a connection
    to the endpoint whose index it stores. *)
Theorem reconnect_safe `{T : MinerConfig} (h : handler) legacy uris (t t' : trace) (c : Client) (p : Pool) :
  run h (client_of legacy uris) tt t = (Ok c, tt, t') ->
  rtc pool_step (pool_init c) p -> Z.of_nat (switches p) < 2 ^ 64 - 1 ->
  is_Some (current_endpoint (pool_client p)) /\
  (writer p = None ->
     current_endpoint (pool_client p) = Some (cc_uri (chain_api (pool_client p))) /\
     reconnect_generation (pool_client p) = Z.of_nat (switches p)) /\
  (forall n g idx new i, calls p !! n = Some (Agreed g idx new i) ->
     g = reconnect_generation (pool_client p) /\ idx = current_endpoint_index (pool_client p) /\
     endpoints (pool_client p) !! i = Some (cc_uri new) /\
     forall m pc, calls p !! m = Some pc -> holding pc = true -> m = n).
Proof.
  intros Hc%client_of_fresh Hr Hb. pose proof (inv_reachable _ _ Hc Hr Hb) as HI.
  pose proof (pi_client _ _ HI) as (He & Hlt & _). split_and!.
  - unfold current_endpoint. rewrite He. by apply lookup_lt_is_Some.
  - intros Hw. destruct (inv_free _ _ HI Hw) as [(_ & _ & Hu) Hg]. split; [|done].
    unfold current_endpoint. by rewrite He.
  - intros n g idx new i Hn. destruct (inv_holding _ _ _ _ HI Hn eq_refl) as (Hw & _ & _).
    assert (g = reconnect_generation (pool_client p)) as Hg by (by eapply pi_agreed). split_and!.
    + done.
    + destruct (pi_fresh _ _ HI _ _ Hn g idx eq_refl Hg) as [|[j Hj]]; [done|].
      unfold holder in Hj. rewrite Hw in Hj. cbn in Hj. by rewrite Hn in Hj.
    + rewrite He. by eapply pi_offered.
    + intros m pc Hm Hh. apply (pi_lock _ _ HI _ _ Hm) in Hh. congruence.
Qed.

(** A pool of two endpoints whose first reconnect has passed the check. *)
Definition agreed_pool : Pool :=
  {| pool_client := {| chain_api := {| cc_uri := "a"; cc_legacy := false |}; endpoints := ["a"; "b"];
                       current_endpoint_index := 0; reconnect_generation := 0 |};
     writer := Some 0%nat; readers := 0;
     calls := [Agreed 0 0 {| cc_uri := "b"; cc_legacy := false |} 1]; switches := 0 |}.

Lemma agreed_pool_reachable :
  rtc pool_step (pool_init {| chain_api := {| cc_uri := "a"; cc_legacy := false |}; endpoints := ["a"; "b"];
                              current_endpoint_index := 0; reconnect_generation := 0 |}) agreed_pool.
Proof.
  eapply rtc_l; [apply pool_call|].
  eapply rtc_l; [eapply (pool_reconnect _ 0), step_load_generation; reflexivity|].
  eapply rtc_l; [eapply (pool_reconnect _ 0), step_load_index; reflexivity|].
  eapply rtc_l; [eapply (pool_reconnect _ 0), (step_connect _ _ _ _ (node_handler good_node) []); [reflexivity|vm_compute; reflexivity]|].
  eapply rtc_l; [eapply (pool_reconnect _ 0), step_lock; reflexivity|].
  eapply rtc_l; [eapply (pool_reconnect _ 0), step_agreed; reflexivity|].
  apply rtc_refl.
Qed.

Lemma reconnect_safe_witness :
  is_Some (current_endpoint (pool_client agreed_pool)) /\
  endpoints (pool_client agreed_pool) !! 1%nat = Some "b".
Proof.
  pose proof (reconnect_safe (node_handler good_node) false "a, b" [] _ _ agreed_pool
    ltac:(vm_compute; reflexivity) agreed_pool_reachable ltac:(vm_compute; reflexivity)) as (H1 & _ & H3).
  split; [exact H1|]. apply (H3 0%nat 0 0%nat {| cc_uri := "b"; cc_legacy := false |} 1%nat). reflexivity.
Defined.
