(* ===== verification/Tokens.v ===== *)
(** * Token amounts

    [planck_to_token] of [src/utils.rs]: printing an amount of plancks as a
    decimal number of tokens, and that nothing is lost by it. *)

From Stdlib Require Import Ascii.
From S2P Require Import Prelude RustStr.
Local Open Scope Z_scope.

Fixpoint zeros (k : nat) : string :=
  match k with 0%nat => EmptyString | S k => String "0" (zeros k) end.

(** [{:0>width$}]: zeros on the left up to the width. *)
Definition pad_zeros (width : nat) (s : string) : string :=
  zeros (width - String.length s) +:+ s.

(** [trim_end_matches('0')] *)
Fixpoint trim_end_zeros (s : string) : string :=
  match s with
  | EmptyString => EmptyString
  | String c rest =>
      match trim_end_zeros rest with
      | EmptyString => if Ascii.eqb c "0" then EmptyString else String c EmptyString
      | rest' => String c rest'
      end
  end.

(** [10_u128.pow(decimals)] without overflow checks. *)
Definition u128_pow10 (decimals : Z) : Z := 10 ^ decimals mod 2 ^ 128.

(** The amount without the symbol. *)
Definition amount_str (planck divisor : Z) (decimals : nat) : string :=
  let whole := planck / divisor in
  let remainder := planck mod divisor in
  if remainder =? 0 then pretty whole
  else
    let remainder_trimmed := trim_end_zeros (pad_zeros decimals (pretty remainder)) in
    match remainder_trimmed with
    | EmptyString => pretty whole
    | _ => pretty whole +:+ "." +:+ remainder_trimmed
    end.

(** [planck_to_token]; [None] is a division by zero. *)
Definition planck_to_token (planck decimals : Z) (symbol : string) : option string :=
  let divisor := u128_pow10 decimals in
  if divisor =? 0 then None
  else Some (amount_str planck divisor (Z.to_nat decimals) +:+ " " +:+ symbol).

(** [planck_to_token_u64] *)
Definition planck_to_token_u64 (planck decimals : Z) (symbol : string) : option string :=
  planck_to_token planck decimals symbol.

(** ** Reading an amount *)

(** The value of a string of digits, after [acc]. *)
Fixpoint digits_value (s : string) (acc : Z) : option Z :=
  match s with
  | EmptyString => Some acc
  | String c rest => d ← to_digit c; digits_value rest (acc * 10 + d)
  end.

(** A decimal number with at most [decimals] places, in units of the last one. *)
Definition read_amount (decimals : nat) (s : string) : option Z :=
  match split "."%char s with
  | [whole] => w ← digits_value whole 0; Some (w * 10 ^ Z.of_nat decimals)
  | [whole; places] =>
      if (String.length places <=? decimals)%nat then
        w ← digits_value whole 0;
        f ← digits_value places 0;
        Some (w * 10 ^ Z.of_nat decimals + f * 10 ^ Z.of_nat (decimals - String.length places))
      else None
  | _ => None
  end.

(** An amount with its symbol. *)
Definition read_token (decimals : nat) (symbol s : string) : option Z :=
  match split " "%char s with
  | [amount; symbol'] => if String.eqb symbol symbol' then read_amount decimals amount else None
  | _ => None
  end.

(** ** Digits *)

Lemma digits_value_pretty_go (x : N) : forall s,
  digits_value (pretty_N_go x s) 0 = digits_value s (Z.of_N x).
Proof.
  induction (N.lt_wf_0 x) as [x _ IH]. intros s.
  destruct (decide (0 < x)%N) as [Hpos|Hz]; [|by replace x with 0%N by lia; rewrite pretty_N_go_0].
  assert (Z.of_N x = Z.of_N (x / 10) * 10 + Z.of_N (x mod 10)) as Hdiv.
  { rewrite (N.div_mod x 10) at 1 by done. lia. }
  pose proof (N.mod_lt x 10 ltac:(done)) as Hr. pose proof (N.div_lt x 10 Hpos ltac:(done)) as Hq.
  rewrite pretty_N_go_step by done. revert Hdiv Hr Hq.
  generalize (x / 10)%N (x mod 10)%N. intros q r Hdiv Hr Hq.
  rewrite IH by (done || lia). cbn. rewrite to_digit_pretty by done. cbn. by rewrite <- Hdiv.
Qed.

Lemma digits_value_pretty n : 0 <= n -> digits_value (pretty n) 0 = Some n.
Proof.
  intros Hn. destruct n as [|p|p]; [done| |lia].
  change (pretty (Z.pos p)) with (pretty_N_go (N.pos p) ""). by rewrite digits_value_pretty_go.
Qed.

(** A number below [10 ^ k] has at most [k] digits. *)
Lemma length_pretty_go (k : nat) : forall x s, (Z.of_N x < 10 ^ Z.of_nat k) ->
  (String.length (pretty_N_go x s) <= k + String.length s)%nat.
Proof.
  induction k as [|k IH]; intros x s Hx.
  - cbn in Hx. replace x with 0%N by lia. by rewrite pretty_N_go_0.
  - destruct (decide (0 < x)%N) as [Hpos|Hz]; [|replace x with 0%N by lia; rewrite pretty_N_go_0; lia].
    rewrite pretty_N_go_step by done.
    etrans; [apply IH|cbn; lia]. rewrite N2Z.inj_div. apply Z.div_lt_upper_bound; [lia|].
    replace (Z.of_nat (S k)) with (Z.succ (Z.of_nat k)) in Hx by lia. by rewrite Z.pow_succ_r in Hx by lia.
Qed.

Lemma length_pretty n (k : nat) :
  0 < n < 10 ^ Z.of_nat k -> (String.length (pretty n) <= k)%nat.
Proof.
  intros [H0 Hn]. destruct n as [|p|p]; [lia| |lia].
  change (pretty (Z.pos p)) with (pretty_N_go (N.pos p) "").
  etrans; [by apply (length_pretty_go k)|cbn; lia].
Qed.

Lemma length_app_string a b : String.length (a +:+ b) = (String.length a + String.length b)%nat.
Proof.
  induction a as [|c a IH]; [done|]. change (S (String.length (a +:+ b)) = S (String.length a) + String.length b)%nat.
  by rewrite IH.
Qed.

Lemma length_zeros k : String.length (zeros k) = k.
Proof. induction k; cbn; auto. Qed.

Lemma length_pad width s :
  (String.length s <= width)%nat -> String.length (pad_zeros width s) = width.
Proof. intros. unfold pad_zeros. rewrite length_app_string, length_zeros. lia. Qed.

Lemma digits_value_app a : forall b acc,
  digits_value (a +:+ b) acc = (v ← digits_value a acc; digits_value b v).
Proof.
  induction a as [|c a IH]; intros b acc; [done|].
  change ((d ← to_digit c; digits_value (a +:+ b) (acc * 10 + d)) =
          (v ← (d ← to_digit c; digits_value a (acc * 10 + d)); digits_value b v)).
  destruct (to_digit c); cbn; [apply IH|done].
Qed.

Lemma digits_value_zeros k : forall acc, digits_value (zeros k) acc = Some (acc * 10 ^ Z.of_nat k).
Proof.
  induction k as [|k IH]; intros acc; cbn [zeros digits_value]; [f_equal; lia|].
  change (digits_value (zeros k) (acc * 10 + 0) = Some (acc * 10 ^ Z.of_nat (S k))).
  rewrite IH. f_equal. replace (Z.of_nat (S k)) with (Z.succ (Z.of_nat k)) by lia.
  rewrite Z.pow_succ_r by lia. lia.
Qed.

Lemma digits_value_pad width s : digits_value (pad_zeros width s) 0 = digits_value s 0.
Proof. unfold pad_zeros. by rewrite digits_value_app, digits_value_zeros. Qed.

(** The trimmed zeros can be put back. *)
Lemma trim_end_zeros_spec s : exists k, s = trim_end_zeros s +:+ zeros k.
Proof.
  induction s as [|c s [k IH]]; [by exists 0%nat|]. cbn [trim_end_zeros].
  destruct (trim_end_zeros s) as [|c' s'] eqn:Ht.
  - change (s = zeros k) in IH. destruct (Ascii.eqb_spec c "0") as [->|].
    + exists (S k). change (String "0" s = String "0" (zeros k)). by f_equal.
    + exists k. change (String c s = String c (zeros k)). by f_equal.
  - exists k. change (String c s = String c (String c' s' +:+ zeros k)). by f_equal.
Qed.

(** The places that are printed stand for the remainder. *)
Lemma places_value (n : Z) (d : nat) :
  0 < n < 10 ^ Z.of_nat d ->
  let places := trim_end_zeros (pad_zeros d (pretty n)) in
  (String.length places <= d)%nat /\
  exists f, digits_value places 0 = Some f /\ f * 10 ^ Z.of_nat (d - String.length places) = n.
Proof.
  intros Hn. cbn zeta. set (s := pad_zeros d (pretty n)). destruct (trim_end_zeros_spec s) as [k Hk].
  assert (String.length s = d) as Hlen by (by apply length_pad, length_pretty).
  assert (digits_value s 0 = Some n) as Hv
    by (unfold s; rewrite digits_value_pad; apply digits_value_pretty; lia).
  rewrite Hk in Hlen, Hv. rewrite length_app_string, length_zeros in Hlen. rewrite digits_value_app in Hv.
  split; [lia|]. destruct (digits_value (trim_end_zeros s) 0) as [f|]; [|done]. exists f. split; [done|].
  cbn in Hv. rewrite digits_value_zeros in Hv. injection Hv as <-. do 2 f_equal. lia.
Qed.

(** Digits contain neither dots nor blanks. *)
Lemma digits_no_char c s : forall acc v, to_digit c = None -> digits_value s acc = Some v -> has_char c s = false.
Proof.
  induction s as [|a s IH]; intros acc v Hc; cbn; [done|].
  destruct (to_digit a) as [d|] eqn:Ha; cbn; [|done]. intros Hv.
  destruct (Ascii.eqb_spec a c) as [->|]; [congruence|]. cbn. by eapply IH.
Qed.

Lemma has_char_app c a b : has_char c (a +:+ b) = has_char c a || has_char c b.
Proof.
  induction a as [|x a IH]; [done|].
  change (Ascii.eqb x c || has_char c (a +:+ b) = (Ascii.eqb x c || has_char c a) || has_char c b).
  by rewrite IH, orb_assoc.
Qed.

(** The amount of a positive divisor [10 ^ d] reads back, and has no blanks. *)
Lemma read_amount_str planck (d : nat) :
  0 <= planck ->
  let s := amount_str planck (10 ^ Z.of_nat d) d in
  read_amount d s = Some planck /\ has_char " "%char s = false.
Proof.
  intros Hp. unfold amount_str. set (D := 10 ^ Z.of_nat d). assert (0 < D) as HD by (apply Z.pow_pos_nonneg; lia).
  pose proof (Z.mod_pos_bound planck D HD) as Hr. pose proof (Z.div_mod planck D ltac:(lia)) as Hdm.
  assert (0 <= planck / D) as Hq by (apply Z.div_pos; lia).
  pose proof (digits_value_pretty _ Hq) as Hw.
  assert (forall c, to_digit c = None -> has_char c (pretty (planck / D)) = false) as Hwc
    by (intros; by eapply digits_no_char).
  destruct (Z.eqb_spec (planck mod D) 0) as [H0|H0].
  - cbn zeta. split; [|by apply Hwc]. unfold read_amount. rewrite split_no_sep by (by apply Hwc).
    rewrite Hw. cbn. f_equal. lia.
  - destruct (places_value (planck mod D) d ltac:(fold D; lia)) as (Hlen & f & Hf & Hv).
    set (places := trim_end_zeros _) in *. cbn zeta.
    assert (forall c, to_digit c = None -> has_char c places = false) as Hpc
      by (intros; by eapply digits_no_char).
    assert (forall P : string -> Prop, P (pretty (planck / D) +:+ "." +:+ places) ->
      P match places with EmptyString => pretty (planck / D) | _ => pretty (planck / D) +:+ "." +:+ places end) as Hmatch.
    { intros P HP. destruct places; [|done]. injection Hf as <-. lia. }
    apply Hmatch. split.
    + unfold read_amount. change ("." +:+ places) with (String "."%char places).
      rewrite split_cons_sep by (by apply Hwc). rewrite split_no_sep by (by apply Hpc).
      destruct (Nat.leb_spec (String.length places) d); [|lia]. rewrite Hw, Hf. cbn. f_equal. fold D. lia.
    + rewrite !has_char_app, Hwc, Hpc by done. done.
Qed.

(** C40: printing plancks as tokens loses nothing.  With the token decimals for
    which [10 ^ decimals] fits a [u128], an amount and a symbol without blanks
    are printed without a panic and read back exactly. *)
Theorem planck_to_token_exact planck decimals symbol :
  0 <= planck -> 0 <= decimals <= 38 -> has_char " "%char symbol = false ->
  exists s, planck_to_token planck decimals symbol = Some s /\
    read_token (Z.to_nat decimals) symbol s = Some planck.
Proof.
  intros Hp Hd Hs. unfold planck_to_token, u128_pow10.
  assert (0 < 10 ^ decimals) as Hpos by (apply Z.pow_pos_nonneg; lia).
  rewrite Z.mod_small.
  2:{ split; [lia|]. apply Z.le_lt_trans with (10 ^ 38); [apply Z.pow_le_mono_r; lia|reflexivity]. }
  destruct (Z.eqb_spec (10 ^ decimals) 0); [lia|]. eexists. split; [done|].
  destruct (read_amount_str planck (Z.to_nat decimals) Hp) as [Hr Hb].
  rewrite Z2Nat.id in Hr, Hb by lia. unfold read_token.
  change (" " +:+ symbol) with (String " "%char symbol). rewrite split_cons_sep by done.
  rewrite split_no_sep by done. by rewrite String.eqb_refl.
Qed.

Lemma planck_to_token_exact_witness :
  planck_to_token 12340000000 10 "DOT" = Some "1.234 DOT" /\
  exists s, planck_to_token 12340000000 10 "DOT" = Some s /\ read_token 10 "DOT" s = Some 12340000000.
Proof.
  split; [vm_compute; reflexivity|].
  apply (planck_to_token_exact 12340000000 10 "DOT"); [lia|lia|reflexivity].
Defined.

(** With 128 decimals the divisor wraps to zero. *)
Theorem planck_to_token_divides_by_zero planck symbol : planck_to_token planck 128 symbol = None.
Proof. reflexivity. Qed.
