(* ===== verification/ElectionData.v ===== *)
(** * Election data for predictions

    [apply_overrides] and [convert_election_data_to_snapshots] of
    [src/dynamic/election_data.rs] with the override types of
    [src/commands/types.rs]: adjusting the candidates and voters of an election
    and paging them into the snapshot the miner expects. *)

From S2P Require Import Prelude Errors Chain.
Local Open Scope Z_scope.

(** [NominatorData] is stash, stake, targets; [ValidatorData] is account and
    self-stake. *)
Definition NominatorData : Type := AccountId * Z * list AccountId.
Definition ValidatorData : Type := AccountId * Z.

(** [CandidateInclude] *)
Inductive CandidateInclude : Type :=
| Address (address : string)
| WithSelfStake (address : string) (self_stake : Z).

(** [CandidateInclude::parts] *)
Definition parts (c : CandidateInclude) : string * Z :=
  match c with
  | Address address => (address, 0)
  | WithSelfStake address self_stake => (address, self_stake)
  end.

(** [ElectionOverrides] *)
Record ElectionOverrides : Type := {
  candidates_include : list CandidateInclude;
  candidates_exclude : list string;
  voters_include : list (string * Z * list string);
  voters_exclude : list string;
}.

(** [ElectionDataSource] *)
Inductive ElectionDataSource : Type :=
| Snapshot
| Staking.

(** [?] on a [Result] with the errors of the crate. *)
Definition res_bind {A B} (r : Result A Error.t) (k : A -> Result B Error.t) : Result B Error.t :=
  match r with ok a => k a | err e => err e end.

#[local] Notation "'let?' x := r 'in' k" := (res_bind r (fun x => k))
  (at level 10, x pattern, k at level 200).

(** [iter_mut().find(..)] and an assignment: the first match is replaced, [None]
    when there is none. *)
Fixpoint replace_first {A} (p : A -> bool) (y : A) (l : list A) : option (list A) :=
  match l with
  | [] => None
  | x :: l => if p x then Some (y :: l) else (x ::.) <$> replace_first p y l
  end.

(** The first element with the key of [y] is replaced by [y]; without one [y] is
    pushed. *)
Definition upsert {A} (key : A -> Z) (y : A) (l : list A) : list A :=
  match replace_first (fun x => Z.eqb (key x) (key y)) y l with
  | Some l => l
  | None => l ++ [y]
  end.

(** The bounds of [T: MinerConfig] the paging uses. *)
Class SnapshotBounds : Type := {
  Pages : Z;
  VoterSnapshotPerBlock : nat;
  TargetSnapshotPerBlock : nat;
  MaxVotesPerVoter : nat;
}.

(** [slice::sort_unstable_by_key]: how ties are ordered is not specified. *)
Class UnstableSort : Type := {
  sort_unstable_by_key : (nat -> Z) -> list nat -> list nat;
  sort_permutation key l : sort_unstable_by_key key l ≡ₚ l;
  sort_sorted key l : StronglySorted (fun i j => key i <= key j) (sort_unstable_by_key key l);
}.

(** ** Overrides *)
Section overrides.

(** [str::parse::<AccountId>], an address parser of polkadot-sdk. *)
Context (parse_account : string -> Result AccountId string).

(** [parse::<AccountId>().map_err(..)] *)
Definition parse_or (what address : string) : Result AccountId Error.t :=
  match parse_account address with
  | ok a => ok a
  | err e => err (Error.Other ("Invalid " +:+ what +:+ " " +:+ address +:+ ": " +:+ e))
  end.

(** [.map(parse).collect::<Result<_, _>>()]: the first error wins. *)
Fixpoint parse_all (what : string) (l : list string) : Result (list AccountId) Error.t :=
  match l with
  | [] => ok []
  | x :: l => let? a := parse_or what x in let? rest := parse_all what l in ok (a :: rest)
  end.

(** Step 2 for one entry: register the candidate, and its self-vote if it has a
    self-stake. *)
Definition include_candidate (candidates : list ValidatorData) (voters : list NominatorData)
    (c : CandidateInclude) : Result (list ValidatorData * list NominatorData) Error.t :=
  let '(address, self_stake) := parts c in
  let? account := parse_or "candidate include" address in
  let candidates := upsert fst (account, self_stake) candidates in
  if self_stake =? 0 then ok (candidates, voters)
  else
    let self_vote := (account, self_stake, [account]) in
    ok (candidates, upsert (fun v => v.1.1) self_vote voters).

Fixpoint include_candidates (l : list CandidateInclude) (candidates : list ValidatorData)
    (voters : list NominatorData) : Result (list ValidatorData * list NominatorData) Error.t :=
  match l with
  | [] => ok (candidates, voters)
  | c :: l =>
      let? (candidates, voters) := include_candidate candidates voters c in
      include_candidates l candidates voters
  end.

(** The index of each account; [collect] keeps the last of equal keys. *)
Definition voter_map (voters : list NominatorData) : gmap Z nat :=
  list_to_map (reverse (zip voters.*1.*1 (seq 0 (length voters)))).

(** Step 4: the map of the indices is that of the voters before the loop. *)
Fixpoint include_voters (m : gmap Z nat) (l : list (string * Z * list string))
    (voters : list NominatorData) : Result (list NominatorData) Error.t :=
  match l with
  | [] => ok voters
  | (v_str, stake, t_strs) :: l =>
      let? account := parse_or "voter include" v_str in
      let? targets := parse_all "voter target" t_strs in
      include_voters m l
        match m !! account with
        | Some index => <[index := (account, stake, targets)]> voters
        | None => voters ++ [(account, stake, targets)]
        end
  end.

(** [apply_overrides] *)
Definition apply_overrides (candidates : list ValidatorData) (voters : list NominatorData)
    (overrides : ElectionOverrides) : Result (list ValidatorData * list NominatorData) Error.t :=
  let? exclude := parse_all "candidate exclude" (candidates_exclude overrides) in
  let candidates := filter (fun x => x.1 ∉ exclude) candidates in
  let? (candidates, voters) := include_candidates (candidates_include overrides) candidates voters in
  let? exclude := parse_all "voter exclude" (voters_exclude overrides) in
  let voters := filter (fun x => x.1.1 ∉ exclude) voters in
  let? voters := include_voters (voter_map voters) (voters_include overrides) voters in
  ok (candidates, voters).

End overrides.

(** ** Paging *)
Section paging.
Context `{B : SnapshotBounds} `{US : UnstableSort}.

(** How many voters the pages can hold: a saturating product of two [u32]. *)
Definition voter_capacity : Z := Z.min u64_max (Pages * Z.of_nat VoterSnapshotPerBlock).

(** The stake of the voter at an index. *)
Definition stake_at (voters : list NominatorData) (i : nat) : Z :=
  match voters !! i with Some v => v.1.2 | None => 0 end.

(** The weakest voters make room when there are too many. *)
Definition drop_weakest (voters : list NominatorData) : list NominatorData :=
  if (0 <? voter_capacity) && (voter_capacity <? Z.of_nat (length voters)) then
    let by_stake := sort_unstable_by_key (fun i => - stake_at voters i) (seq 0 (length voters)) in
    let dropped := drop (Z.to_nat voter_capacity) by_stake in
    (filter (fun x => x.1 ∉ dropped) (zip (seq 0 (length voters)) voters)).*2
  else voters.

(** Appending a voter to the pages; [take] is [BoundedVec::truncate_from] and
    the last branch is a failing [try_push]. *)
Definition push_voter (pages : list (list NominatorData)) (v : NominatorData)
    : list (list NominatorData) :=
  let new_page := take VoterSnapshotPerBlock [v] in
  match last pages with
  | None => pages ++ [new_page]
  | Some page =>
      if (VoterSnapshotPerBlock <=? length page)%nat then pages ++ [new_page]
      else if (length page <? VoterSnapshotPerBlock)%nat
           then alter (fun p => p ++ [v]) (length pages - 1)%nat pages
           else pages ++ [new_page]
  end.

(** A voter with its votes truncated to the bound. *)
Definition bounded_voter (v : NominatorData) : NominatorData :=
  (v.1, take MaxVotesPerVoter v.2).

(** [convert_election_data_to_snapshots] *)
Definition convert_election_data_to_snapshots (candidates : list ValidatorData)
    (voters : list NominatorData) (data_source : ElectionDataSource)
    : TargetSnapshotPage * list (list NominatorData) :=
  let target_snapshot := take TargetSnapshotPerBlock candidates.*1 in
  let voters := drop_weakest voters in
  let pages := foldl push_voter [] (bounded_voter <$> voters) in
  (target_snapshot, match data_source with Staking => reverse pages | Snapshot => pages end).

End paging.
