(* ===== verification/ElectionDataSpec.v ===== *)
(** * Properties of the election data

    The pages built for the miner are the chunks of the strongest voters that
    fit, and the overrides change the election as documented. *)

From S2P Require Import Prelude Errors Chain ElectionData.
Local Open Scope Z_scope.

(** ** Chunks *)

Lemma chunks_fuel_irrelevant {A} n (l : list A) : forall f1 f2,
  (0 < n)%nat -> (length l <= f1)%nat -> (length l <= f2)%nat -> chunks_fuel f1 n l = chunks_fuel f2 n l.
Proof.
  intros f1. revert l. induction f1 as [|f1 IH]; intros l f2 Hn H1 H2.
  - destruct l; [by destruct f2|cbn in H1; lia].
  - destruct l as [|x l]; [by destruct f2|]. destruct f2 as [|f2]; [cbn in H2; lia|].
    cbn [chunks_fuel]. f_equal. apply IH; [done|rewrite length_drop; cbn in *; lia..].
Qed.

Lemma chunks_cons {A} n (l : list A) :
  (0 < n)%nat -> l <> [] -> chunks n l = take n l :: chunks n (drop n l).
Proof.
  intros Hn Hl. unfold chunks. destruct l as [|x l]; [done|]. cbn [length chunks_fuel]. f_equal.
  apply chunks_fuel_irrelevant; [done| |done]. rewrite length_drop. cbn. lia.
Qed.

Lemma chunks_nil {A} n : chunks n ([] : list A) = [].
Proof. done. Qed.

(** One more element goes to the last chunk, or to a new one if it is full. *)
Lemma chunks_snoc {A} n (x : A) : (0 < n)%nat -> forall len l, (length l <= len)%nat ->
  chunks n (l ++ [x]) =
  match last (chunks n l) with
  | None => [[x]]
  | Some c => if (n <=? length c)%nat then chunks n l ++ [[x]]
              else alter (fun c => c ++ [x]) (length (chunks n l) - 1)%nat (chunks n l)
  end.
Proof.
  intros Hn. assert (forall (l : list A), l <> [] -> (length l <= n)%nat -> chunks n l = [l]) as Hone.
  { intros l Hl Hle. rewrite chunks_cons, take_ge, drop_ge by done. done. }
  assert (chunks n [x] = [[x]]) as Hx by (apply Hone; [done|cbn; lia]).
  induction len as [|len IH]; intros l Hlen;
    (destruct (decide (l = [])) as [->|Hl]; [cbn [app]; by rewrite Hx|]).
  { destruct l; [done|cbn in Hlen; lia]. }
  assert (l ++ [x] <> []) as Hlx by (by destruct l).
  destruct (decide (length l < n)%nat) as [Hlt|Hge].
  { rewrite (Hone l), (Hone (l ++ [x])) by (done || rewrite ?length_app; cbn; lia). cbn.
    by destruct (Nat.leb_spec n (length l)); [lia|]. }
  rewrite (chunks_cons n (l ++ [x])), (chunks_cons n l) by done.
  rewrite take_app_le, drop_app_le by lia.
  destruct (decide (length l = n)) as [Heq|Hne].
  { rewrite drop_ge, take_ge by lia. cbn [app]. rewrite Hx, chunks_nil. cbn.
    by destruct (Nat.leb_spec n (length l)); [|lia]. }
  assert (drop n l <> []) as Hd.
  { intros Hd%(f_equal length). rewrite length_drop in Hd. cbn in Hd. lia. }
  rewrite IH by (rewrite length_drop; lia).
  rewrite (chunks_cons n (drop n l)) by done. set (cs := _ :: chunks n (drop n (drop n l))).
  change (last (take n l :: cs)) with (last cs). destruct (last cs) as [c|] eqn:Hc.
  2:{ by apply last_None in Hc. }
  destruct (n <=? length c)%nat; [done|].
  replace (length (take n l :: cs) - 1)%nat with (Datatypes.S (length cs - 1)) by (cbn; lia). done.
Qed.

(** ** Paging *)
Section paging.
Context `{B : SnapshotBounds} `{US : UnstableSort}.

(** The pages are the chunks of the voters. *)
Lemma foldl_push_voter voters :
  (0 < VoterSnapshotPerBlock)%nat -> foldl push_voter [] voters = chunks VoterSnapshotPerBlock voters.
Proof.
  intros Hn. induction voters as [|v voters IH] using rev_ind; [done|].
  rewrite foldl_snoc, IH, (chunks_snoc _ _ Hn (length voters)) by done. unfold push_voter.
  assert (take VoterSnapshotPerBlock [v] = [v]) as -> by (by apply take_ge; cbn; lia).
  destruct (last (chunks VoterSnapshotPerBlock voters)) as [c|] eqn:Hc.
  - destruct (Nat.leb_spec VoterSnapshotPerBlock (length c)); [done|].
    by destruct (Nat.ltb_spec (length c) VoterSnapshotPerBlock); [|lia].
  - by apply last_None in Hc as ->.
Qed.

(** Voters with their indices. *)
Definition indexed (voters : list NominatorData) : list (nat * NominatorData) :=
  zip (seq 0 (length voters)) voters.

Lemma indexed_snd voters : (indexed voters).*2 = voters.
Proof. apply snd_zip. by rewrite length_seq. Qed.

Lemma indexed_fst voters : (indexed voters).*1 = seq 0 (length voters).
Proof. apply fst_zip. by rewrite length_seq. Qed.

Lemma indexed_stake voters i v : (i, v) ∈ indexed voters -> stake_at voters i = v.1.2.
Proof.
  intros [k Hk]%list_elem_of_lookup. apply lookup_zip_Some in Hk as [Hi Hv].
  apply lookup_seq in Hi as [Hi _]. cbn in Hi. subst k. unfold stake_at.
  by assert (voters !! i = Some v) as -> by exact Hv.
Qed.

Lemma filter_fst_length {X Y} (P : X -> Prop) (Q : X * Y -> Prop)
    `{!forall x, Decision (P x)} `{!forall x, Decision (Q x)} (l : list (X * Y)) :
  (forall x, Q x <-> P x.1) -> length (filter Q l) = length (filter P l.*1).
Proof.
  intros HPQ. induction l as [|[x y] l IH]; [done|]. rewrite fmap_cons, !filter_cons.
  specialize (HPQ (x, y)). cbn in *. do 2 case_decide; cbn; rewrite ?IH; tauto || done.
Qed.

(** The indices that stay are those before the cut. *)
Lemma kept_indices (l s : list nat) k :
  NoDup l -> s ≡ₚ l -> filter (fun i => i ∉ drop k s) l ≡ₚ take k s.
Proof.
  intros Hnd Hp. assert (NoDup s) as Hs by (by rewrite Hp).
  rewrite <- (take_drop k s) in Hs. apply NoDup_app in Hs as (H1 & H2 & H3).
  apply NoDup_Permutation; [by apply NoDup_filter|done|]. intros i.
  rewrite list_elem_of_filter, <- Hp. rewrite <- (take_drop k s) at 2. rewrite elem_of_app.
  split; [tauto|]. intros Hi. split; [by apply H2|by left].
Qed.

(** What is kept and what is dropped when there are too many voters. *)
Lemma drop_weakest_spec voters :
  0 < voter_capacity ->
  let kept := drop_weakest voters in
  kept `sublist_of` voters /\
  Z.of_nat (length kept) = Z.min (Z.of_nat (length voters)) voter_capacity /\
  exists dropped, voters ≡ₚ kept ++ dropped /\
    forall k d, k ∈ kept -> d ∈ dropped -> d.1.2 <= k.1.2.
Proof.
  intros Hcap kept. subst kept. unfold drop_weakest.
  destruct (Z.ltb_spec 0 voter_capacity) as [_|]; [|lia]. cbn [andb].
  destruct (Z.ltb_spec voter_capacity (Z.of_nat (length voters))) as [Hlt|Hge].
  2:{ split_and!; [done|lia|]. exists []. rewrite app_nil_r. split; [done|].
      intros k d _ Hd. by apply not_elem_of_nil in Hd. }
  set (key := fun i => - stake_at voters i). set (s := sort_unstable_by_key key (seq 0 (length voters))).
  set (n := Z.to_nat voter_capacity). fold (indexed voters).
  assert (s ≡ₚ seq 0 (length voters)) as Hp by apply sort_permutation.
  assert (filter (fun i => i ∉ drop n s) (seq 0 (length voters)) ≡ₚ take n s) as Hkept
    by (apply kept_indices; [apply NoDup_seq|done]).
  split_and!.
  - rewrite <- (indexed_snd voters) at 2. apply fmap_sublist, sublist_filter.
  - assert (length (filter (fun x => x.1 ∉ drop n s) (indexed voters)) =
            length (filter (fun i => i ∉ drop n s) (indexed voters).*1)) as Hl
      by (by apply filter_fst_length).
    rewrite length_fmap, Hl, indexed_fst, Hkept, length_take, Hp, length_seq. lia.
  - exists (filter (fun x : nat * NominatorData => ~ (x.1 ∉ drop n s)) (indexed voters)).*2. split.
    { rewrite <- fmap_app, filter_app_complement. by rewrite indexed_snd. }
    intros k d Hk Hd.
    apply list_elem_of_fmap in Hk as ([i k'] & -> & [Hi Hik]%list_elem_of_filter).
    apply list_elem_of_fmap in Hd as ([j d'] & -> & [Hj Hjd]%list_elem_of_filter). cbn in *.
    rewrite <- (indexed_stake _ _ _ Hik), <- (indexed_stake _ _ _ Hjd).
    assert (i ∈ take n s) as Hi'.
    { rewrite <- Hkept. apply list_elem_of_filter. split; [done|]. rewrite <- indexed_fst.
      by apply (list_elem_of_fmap_2 fst _ (i, k')). }
    assert (j ∈ drop n s) as Hj' by (by apply dec_stable).
    pose proof (sort_sorted key (seq 0 (length voters))) as Hs. fold s in Hs.
    rewrite <- (take_drop n s) in Hs.
    pose proof (StronglySorted_app_1_elem_of _ _ _ _ _ Hs Hi' Hj') as Hkey. unfold key in Hkey. lia.
Qed.

Lemma chunks_count {A} n (l : list A) (k : nat) :
  (0 < n)%nat -> (length l <= k * n)%nat -> (length (chunks n l) <= k)%nat.
Proof.
  intros Hn. revert l. induction k as [|k IH]; intros l Hl.
  - by destruct l; [|cbn in Hl; lia].
  - destruct (decide (l = [])) as [->|Hne]; [cbn; lia|]. rewrite chunks_cons by done. cbn.
    assert (length (chunks n (drop n l)) <= k)%nat; [|lia]. apply IH. rewrite length_drop. lia.
Qed.

End paging.

(** C31: the snapshots built for the miner, when the pages can hold voters at
    all.  The targets are the candidates in order, cut at the bound; the voters
    kept are as many as fit, in their order, and no voter dropped is stronger
    than one kept; their pages are the chunks of the page size with the votes
    cut at the bound, at most as many as the miner mines and none above its
    bound; staking data, which comes strongest first, has its pages reversed. *)
Theorem convert_keeps_strongest `{B : SnapshotBounds} `{US : UnstableSort} candidates voters source :
  0 < Pages <= u32_max -> (0 < VoterSnapshotPerBlock)%nat -> Z.of_nat VoterSnapshotPerBlock <= u32_max ->
  let '(targets, pages) := convert_election_data_to_snapshots candidates voters source in
  targets = take TargetSnapshotPerBlock candidates.*1 /\
  exists kept dropped,
    kept `sublist_of` voters /\ voters ≡ₚ kept ++ dropped /\
    (forall k d, k ∈ kept -> d ∈ dropped -> d.1.2 <= k.1.2) /\
    Z.of_nat (length kept) =
      Z.min (Z.of_nat (length voters)) (Pages * Z.of_nat VoterSnapshotPerBlock) /\
    (match source with Staking => reverse pages | Snapshot => pages end) =
      chunks VoterSnapshotPerBlock (bounded_voter <$> kept) /\
    Z.of_nat (length pages) <= Pages /\
    Forall (fun page => length page <= VoterSnapshotPerBlock)%nat pages.
Proof.
  intros HP Hn Hm. unfold convert_election_data_to_snapshots. split; [done|].
  assert (voter_capacity = Pages * Z.of_nat VoterSnapshotPerBlock) as Hcap.
  { unfold voter_capacity, u32_max, u64_max in *. nia. }
  destruct (drop_weakest_spec voters ltac:(rewrite Hcap; nia)) as (Hsub & Hlen & dropped & Hp & Hs).
  exists (drop_weakest voters), dropped. rewrite Hcap in Hlen. rewrite foldl_push_voter by done.
  set (cs := chunks _ _). assert (Z.of_nat (length cs) <= Pages) as Hcs.
  { assert (length cs <= Z.to_nat Pages)%nat; [|lia]. apply chunks_count; [done|].
    rewrite length_fmap. nia. }
  assert (Forall (fun page => length page <= VoterSnapshotPerBlock)%nat cs) as Hf by apply chunks_length.
  split_and!; try done.
  - destruct source; [done|]. by rewrite reverse_involutive.
  - by destruct source; rewrite ?length_reverse.
  - destruct source; [done|]. by rewrite Forall_reverse.
Qed.

(** An instance of the sort, for the examples. *)
#[export] Instance merge_sort_unstable : UnstableSort.
Proof.
  refine {| sort_unstable_by_key := fun key l =>
    @merge_sort nat (fun i j => key i <= key j) (fun i j => Z_le_dec (key i) (key j)) l |}.
  - intros key l. apply merge_sort_Permutation.
  - intros key l. apply StronglySorted_merge_sort; [intros i j k; lia|intros i j; lia].
Defined.

(** Two pages of two voters. *)
#[export] Instance bounds22 : SnapshotBounds :=
  {| Pages := 2; VoterSnapshotPerBlock := 2; TargetSnapshotPerBlock := 3; MaxVotesPerVoter := 1 |}.

(** Five voters for four places: the one with stake 1 goes. *)
Lemma convert_keeps_strongest_witness :
  let '(targets, pages) := convert_election_data_to_snapshots [(7, 0); (8, 0)]
    [(1, 9, [7]); (2, 1, [7]); (3, 8, [8; 7]); (4, 7, []); (5, 6, [])] Staking in
  pages = [[(4, 7, []); (5, 6, [])]; [(1, 9, [7]); (3, 8, [8])]] /\ Z.of_nat (length pages) <= 2.
Proof.
  pose proof (convert_keeps_strongest [(7, 0); (8, 0)]
    [(1, 9, [7]); (2, 1, [7]); (3, 8, [8; 7]); (4, 7, []); (5, 6, [])] Staking
    ltac:(split; [reflexivity|discriminate]) ltac:(cbn; lia) ltac:(discriminate)) as H.
  destruct (convert_election_data_to_snapshots _ _ _) as [targets pages] eqn:Hc.
  vm_compute in Hc. injection Hc as <- <-. split; [reflexivity|].
  destruct H as (_ & kept & dropped & H). apply H.
Defined.

(** ** Overrides *)
Section upsert.
Context {A : Type} (key : A -> Z).

Lemma replace_first_Some p (y : A) l l' :
  replace_first p y l = Some l' -> exists l1 x l2, l = l1 ++ x :: l2 /\ p x = true /\ l' = l1 ++ y :: l2.
Proof.
  revert l'. induction l as [|x l IH]; intros l'; cbn; [done|]. destruct (p x) eqn:Hp.
  - intros [= <-]. by exists [], x, l.
  - intros (l2 & Hl & ->)%fmap_Some. destruct (IH _ Hl) as (l1 & x' & l3 & -> & Hx & ->).
    by exists (x :: l1), x', l3.
Qed.

Lemma replace_first_None p (y : A) l : replace_first p y l = None -> Forall (fun x => p x = false) l.
Proof.
  induction l as [|x l IH]; cbn; [constructor|]. destruct (p x) eqn:Hp; [done|].
  intros Hl%fmap_None. constructor; auto.
Qed.

(** The keys of the list, and what happens to its elements. *)
Lemma upsert_cases y l :
  (exists l1 x l2, l = l1 ++ x :: l2 /\ key x = key y /\ upsert key y l = l1 ++ y :: l2) \/
  ((key y ∉ (key <$> l)) /\ upsert key y l = l ++ [y]).
Proof.
  unfold upsert. destruct (replace_first _ y l) as [l'|] eqn:Hr.
  - left. apply replace_first_Some in Hr as (l1 & x & l2 & -> & Hx%Z.eqb_eq & ->). eauto 7.
  - right. split; [|done]. apply replace_first_None in Hr. intros (x & Hk & Hx)%list_elem_of_fmap.
    eapply Forall_forall in Hr; [|exact Hx]. cbn in Hr. apply Z.eqb_neq in Hr. congruence.
Qed.

Lemma upsert_keys y l b : b ∈ (key <$> upsert key y l) <-> b = key y \/ b ∈ (key <$> l).
Proof.
  destruct (upsert_cases y l) as [(l1 & x & l2 & -> & Hk & ->)|[_ ->]].
  - rewrite !fmap_app, !fmap_cons, !elem_of_app, !elem_of_cons, Hk. tauto.
  - rewrite fmap_app, elem_of_app. cbn. rewrite list_elem_of_singleton. tauto.
Qed.

Lemma upsert_NoDup y l : NoDup (key <$> l) -> NoDup (key <$> upsert key y l).
Proof.
  destruct (upsert_cases y l) as [(l1 & x & l2 & -> & Hk & ->)|[Hn ->]].
  - by rewrite !fmap_app, !fmap_cons, Hk.
  - intros Hl. rewrite fmap_app. apply NoDup_app. split_and!; [done| |apply NoDup_singleton].
    intros b Hb ->%list_elem_of_singleton. done.
Qed.

Lemma upsert_here y l : y ∈ upsert key y l.
Proof.
  destruct (upsert_cases y l) as [(l1 & x & l2 & _ & _ & ->)|[_ ->]]; apply elem_of_app; right; by left.
Qed.

Lemma upsert_other y l x : key x <> key y -> x ∈ upsert key y l <-> x ∈ l.
Proof.
  intros Hx. destruct (upsert_cases y l) as [(l1 & z & l2 & -> & Hk & ->)|[_ ->]].
  - rewrite !elem_of_app, !elem_of_cons. split; intros [?|[->|?]]; try tauto; congruence.
  - rewrite elem_of_app, list_elem_of_singleton. split; [intros [?| ->]|]; try tauto; congruence.
Qed.

Lemma upsert_source y l x : x ∈ upsert key y l -> x = y \/ x ∈ l.
Proof.
  destruct (upsert_cases y l) as [(l1 & z & l2 & -> & _ & ->)|[_ ->]];
    rewrite !elem_of_app, ?elem_of_cons, ?elem_of_nil; tauto.
Qed.

End upsert.

Section overrides.
Context (parse_account : string -> Result AccountId string).

#[local] Abbreviation acct := (fun v : NominatorData => v.1.1).

(** An entry of the overrides and what it stands for. *)
Definition parsed_candidate (c : CandidateInclude) (x : ValidatorData) : Prop :=
  parse_account (parts c).1 = ok x.1 /\ (parts c).2 = x.2.

Definition parsed_voter (e : string * Z * list string) (x : NominatorData) : Prop :=
  parse_account e.1.1 = ok x.1.1 /\ e.1.2 = x.1.2 /\
  Forall2 (fun t a => parse_account t = ok a) e.2 x.2.

Definition parsed_account (address : string) (a : AccountId) : Prop := parse_account address = ok a.

Lemma parse_or_ok what address a :
  parse_or parse_account what address = ok a -> parsed_account address a.
Proof. unfold parse_or, parsed_account. destruct (parse_account address); [by intros [= ->]|done]. Qed.

Lemma parse_all_ok what l : forall r, parse_all parse_account what l = ok r -> Forall2 parsed_account l r.
Proof.
  induction l as [|x l IH]; intros r; cbn; [intros [= <-]; constructor|].
  destruct (parse_or parse_account what x) as [a|] eqn:Ha; cbn; [|done].
  destruct (parse_all parse_account what l) as [r'|] eqn:Hr; cbn; [|done].
  intros [= <-]. constructor; [by eapply parse_or_ok|by apply IH].
Qed.

(** The votes a candidate entry adds. *)
Definition self_votes (cin : list ValidatorData) : list NominatorData :=
  omap (fun x => if Z.eqb x.2 0 then None else Some (x.1, x.2, [x.1])) cin.

Lemma include_candidate_ok cs vs c cs' vs' :
  include_candidate parse_account cs vs c = ok (cs', vs') -> exists x, parsed_candidate c x /\
    cs' = upsert fst x cs /\
    vs' = (if Z.eqb x.2 0 then vs else upsert acct (x.1, x.2, [x.1]) vs).
Proof.
  unfold include_candidate, parsed_candidate. destruct (parts c) as [address st].
  destruct (parse_or parse_account _ address) as [a|] eqn:Ha; cbn; [|done].
  apply parse_or_ok in Ha. destruct (Z.eqb st 0) eqn:Hst; intros [= <- <-];
    exists (a, st); cbn; by rewrite Hst.
Qed.

(** What the candidate entries do, [cin] being what they stand for. *)
Lemma include_candidates_ok l : forall cs vs cs' vs',
  include_candidates parse_account l cs vs = ok (cs', vs') -> exists cin, Forall2 parsed_candidate l cin /\
    (forall a, a ∈ cs'.*1 <-> a ∈ cs.*1 \/ a ∈ cin.*1) /\
    (NoDup cs.*1 -> NoDup cs'.*1) /\
    (forall x, x ∈ cs -> x.1 ∉ cin.*1 -> x ∈ cs') /\
    (forall pre x post, cin = pre ++ x :: post -> x.1 ∉ post.*1 -> x ∈ cs') /\
    (forall a, a ∈ (acct <$> vs') <-> a ∈ (acct <$> vs) \/ a ∈ (acct <$> self_votes cin)) /\
    (NoDup (acct <$> vs) -> NoDup (acct <$> vs')) /\
    (forall v, v ∈ vs -> v.1.1 ∉ (acct <$> self_votes cin) -> v ∈ vs') /\
    (forall pre x post, self_votes cin = pre ++ x :: post -> x.1.1 ∉ (acct <$> post) -> x ∈ vs') /\
    (forall v, v ∈ vs' -> v ∈ vs \/ v ∈ self_votes cin).
Proof.
  induction l as [|c l IH]; intros cs vs cs' vs'; cbn [include_candidates].
  { intros [= <- <-]. exists []. split_and!; try done.
    - intros a. cbn. rewrite elem_of_nil. tauto.
    - by intros [|??] ? ? [=].
    - intros a. cbn. rewrite elem_of_nil. tauto.
    - by intros [|??] ? ? [=].
    - by left. }
  destruct (include_candidate parse_account cs vs c) as [[cs1 vs1]|] eqn:Hc; cbn; [|done].
  apply include_candidate_ok in Hc as (x & Hx & -> & ->).
  intros (cin & Hl & H1 & H2 & H3 & H4 & H5 & H6 & H7 & H8 & H9)%IH. exists (x :: cin).
  set (vs1 := if Z.eqb x.2 0 then vs else _) in *.
  assert (forall a, a ∈ (acct <$> vs1) <-> a ∈ (acct <$> vs) \/ (x.2 <> 0 /\ a = x.1)) as Hv1.
  { intros a. unfold vs1. destruct (Z.eqb_spec x.2 0); [tauto|]. rewrite upsert_keys. cbn. tauto. }
  assert (forall a, a ∈ (acct <$> self_votes (x :: cin)) <->
    (x.2 <> 0 /\ a = x.1) \/ a ∈ (acct <$> self_votes cin)) as Hsv.
  { intros a. unfold self_votes. cbn. destruct (Z.eqb_spec x.2 0); cbn; [tauto|].
    rewrite elem_of_cons. cbn. tauto. }
  split_and!.
  - by constructor.
  - intros a. rewrite H1, fmap_cons, elem_of_cons.
    change (upsert fst x cs).*1 with (fst <$> upsert fst x cs). rewrite upsert_keys. tauto.
  - intros Hnd. apply H2. by apply upsert_NoDup.
  - intros y Hy Hn. rewrite fmap_cons, not_elem_of_cons in Hn. apply H3; [|tauto].
    apply upsert_other; [tauto|done].
  - intros pre y post Heq Hn. destruct pre as [|z pre]; injection Heq as -> ->.
    + apply H3; [apply upsert_here|done].
    + by eapply H4.
  - intros a. rewrite H5, Hv1, Hsv. tauto.
  - intros Hnd. apply H6. unfold vs1. destruct (x.2 =? 0); [done|by apply upsert_NoDup].
  - intros v Hv Hn. rewrite Hsv in Hn. apply H7; [|tauto]. unfold vs1.
    destruct (Z.eqb_spec x.2 0); [done|]. apply upsert_other; [cbn; tauto|done].
  - intros pre y post. unfold self_votes. cbn. destruct (x.2 =? 0) eqn:Hx0; [apply H8|].
    intros Heq Hn. destruct pre as [|z pre]; injection Heq as Hy Hpost; [|by eapply H8].
    subst y post. apply H7; [|done]. unfold vs1. apply upsert_here.
  - intros v Hv. unfold self_votes. cbn. apply H9 in Hv as [Hv|Hv]; unfold vs1 in *.
    + destruct (x.2 =? 0); [by left|]. apply upsert_source in Hv as [->|Hv]; [right; by left|by left].
    + right. destruct (x.2 =? 0); [done|by right].
Qed.

Lemma voter_map_Some vs a i : voter_map vs !! a = Some i -> (acct <$> vs) !! i = Some a.
Proof.
  unfold voter_map. intros H%elem_of_list_to_map_2. rewrite elem_of_reverse in H.
  apply list_elem_of_lookup in H as [k Hk]. apply lookup_zip_Some in Hk as [Ha Hi].
  apply lookup_seq in Hi as [Hi _]. cbn in Hi. subst i.
  by rewrite <- list_fmap_compose in Ha.
Qed.

Lemma voter_map_None vs a : voter_map vs !! a = None <-> a ∉ (acct <$> vs).
Proof.
  unfold voter_map. rewrite <- not_elem_of_list_to_map, fmap_reverse, elem_of_reverse, fst_zip.
  - by rewrite <- list_fmap_compose.
  - by rewrite length_seq, !length_fmap.
Qed.

(** Replacing the voter at an index of its account. *)
Lemma insert_acct (vs : list NominatorData) (i : nat) (v : NominatorData) :
  (acct <$> vs) !! i = Some v.1.1 -> acct <$> <[i := v]> vs = acct <$> vs.
Proof. intros H. rewrite list_fmap_insert. by apply list_insert_id. Qed.

Lemma insert_other (vs : list NominatorData) (i : nat) (v w : NominatorData) :
  (acct <$> vs) !! i = Some v.1.1 -> w.1.1 <> v.1.1 -> w ∈ vs -> w ∈ <[i := v]> vs.
Proof.
  intros Hi Hne [k Hk]%list_elem_of_lookup. apply list_elem_of_lookup. exists k.
  rewrite list_lookup_insert_ne; [done|]. intros ->. rewrite list_lookup_fmap, Hk in Hi. cbn in Hi. congruence.
Qed.

Lemma insert_source (vs : list NominatorData) (i : nat) (v w : NominatorData) :
  w ∈ <[i := v]> vs -> w = v \/ w ∈ vs.
Proof.
  intros [k Hk]%list_elem_of_lookup. apply list_lookup_insert_Some in Hk as [(_ & <- & _)|[_ Hk]]; [by left|].
  right. by eapply list_elem_of_lookup_2.
Qed.

(** What the voter entries do. *)
Lemma include_voters_ok vs0 l : forall vs vs' extra,
  acct <$> vs = (acct <$> vs0) ++ extra ->
  include_voters parse_account (voter_map vs0) l vs = ok vs' -> exists vin, Forall2 parsed_voter l vin /\
    acct <$> vs' = (acct <$> vs) ++ filter (fun a => a ∉ (acct <$> vs0)) (acct <$> vin) /\
    (forall v, v ∈ vs -> v.1.1 ∉ (acct <$> vin) -> v ∈ vs') /\
    (forall pre x post, vin = pre ++ x :: post -> x.1.1 ∉ (acct <$> post) -> x ∈ vs') /\
    (forall v, v ∈ vs' -> v ∈ vs \/ v ∈ vin).
Proof.
  induction l as [|[[v_str stake] t_strs] l IH]; intros vs vs' extra Hvs; cbn [include_voters].
  { intros [= <-]. exists []. split_and!; try done; [by rewrite app_nil_r|by intros [|??] ? ? [=]|by left]. }
  destruct (parse_or parse_account _ v_str) as [a|] eqn:Ha; cbn [res_bind]; [|done].
  destruct (parse_all parse_account _ t_strs) as [targets|] eqn:Ht; cbn [res_bind]; [|done].
  apply parse_or_ok in Ha. apply parse_all_ok in Ht. set (y := (a, stake, targets) : NominatorData).
  assert (parsed_voter (v_str, stake, t_strs) y) as Hy by done.
  set (vs1 := match voter_map vs0 !! a with Some _ => _ | None => _ end).
  assert (acct <$> vs1 = (acct <$> vs) ++ filter (fun a => a ∉ (acct <$> vs0)) [a] /\ y ∈ vs1 /\
    (forall w, w ∈ vs -> w.1.1 <> a -> w ∈ vs1) /\ forall w, w ∈ vs1 -> w ∈ vs \/ w = y) as (Hacc & Hyin & Hoth & Hsrc).
  { unfold vs1. destruct (voter_map vs0 !! a) as [i|] eqn:Hm.
    - apply voter_map_Some in Hm. assert ((acct <$> vs) !! i = Some y.1.1) as Hi.
      { rewrite Hvs. by apply lookup_app_l_Some. }
      rewrite insert_acct, filter_cons_False, app_nil_r; [|by apply list_elem_of_lookup_2 in Hm; auto|done].
      split_and!; [done| |by intros; apply insert_other|intros w Hw; by apply insert_source in Hw as [->|Hw]; auto].
      apply list_elem_of_lookup. exists i. apply list_lookup_insert_eq.
      apply lookup_lt_Some in Hi. by rewrite length_fmap in Hi.
    - apply voter_map_None in Hm. rewrite fmap_app, filter_cons_True by done.
      split_and!; [done|apply elem_of_app; right; by left| |].
      + intros w Hw _. apply elem_of_app. by left.
      + intros w [Hw|Hw%list_elem_of_singleton]%elem_of_app; auto. }
  intros Hrun. assert (exists extra', acct <$> vs1 = (acct <$> vs0) ++ extra') as [extra' Hvs1].
  { rewrite Hacc, Hvs, <- app_assoc. by eexists. }
  destruct (IH _ _ _ Hvs1 Hrun) as (vin & Hl & H1 & H2 & H3 & H4). exists (y :: vin). split_and!.
  - by constructor.
  - rewrite H1, Hacc, <- app_assoc, fmap_cons. f_equal. by rewrite <- filter_app.
  - intros v Hv Hn. rewrite fmap_cons, not_elem_of_cons in Hn. apply H2; [|tauto]. apply Hoth; tauto.
  - intros pre x post Heq Hn. destruct pre as [|z pre]; injection Heq as -> ->; [by apply H2|by eapply H3].
  - intros v [Hv|Hv]%H4; [|right; by right]. apply Hsrc in Hv as [Hv| ->]; [by left|right; by left].
Qed.

(** *** Failures *)

(** An address of the list does not parse. *)
Definition bad (l : list string) : Prop := exists x e, x ∈ l /\ parse_account x = err e.

Lemma bad_sub l l' : bad l -> (forall x, x ∈ l -> x ∈ l') -> bad l'.
Proof. intros (x & e & Hx & He) H. exists x, e. auto. Qed.

Lemma parse_or_err what x e : parse_or parse_account what x = err e -> bad [x].
Proof.
  unfold parse_or. destruct (parse_account x) as [a|e'] eqn:He; [done|]. intros _. exists x, e'.
  split; [by left|done].
Qed.

Lemma parse_all_err what l e : parse_all parse_account what l = err e -> bad l.
Proof.
  induction l as [|x l IH]; cbn; [done|].
  destruct (parse_or parse_account what x) eqn:Hx; cbn; [|intros _; eapply bad_sub; [by eapply parse_or_err|]].
  - destruct (parse_all parse_account what l); cbn; [done|]. intros [= ->].
    eapply bad_sub; [by apply IH|]. intros. by right.
  - intros y ->%list_elem_of_singleton. by left.
Qed.

Lemma include_candidates_err l : forall cs vs e,
  include_candidates parse_account l cs vs = err e -> bad ((fun c => (parts c).1) <$> l).
Proof.
  induction l as [|c l IH]; intros cs vs e; cbn [include_candidates]; [done|].
  destruct (include_candidate parse_account cs vs c) as [[cs1 vs1]|e1] eqn:Hc; cbn [res_bind].
  - intros H%IH. eapply bad_sub; [exact H|]. intros. by right.
  - intros _. unfold include_candidate in Hc. destruct (parts c) as [address st] eqn:Hp.
    destruct (parse_or parse_account _ address) eqn:Ha; cbn in Hc; [by destruct (st =? 0)|].
    eapply bad_sub; [by eapply parse_or_err|]. intros y ->%list_elem_of_singleton.
    rewrite fmap_cons, Hp. by left.
Qed.

Lemma include_voters_err m l : forall vs e,
  include_voters parse_account m l vs = err e -> bad (l ≫= fun v => v.1.1 :: v.2).
Proof.
  induction l as [|[[v st] ts] l IH]; intros vs e; cbn [include_voters]; [done|].
  destruct (parse_or parse_account _ v) eqn:Ha; cbn [res_bind].
  2:{ intros _. eapply bad_sub; [by eapply parse_or_err|]. intros y ->%list_elem_of_singleton. csimpl. by left. }
  destruct (parse_all parse_account _ ts) eqn:Ht; cbn [res_bind].
  2:{ intros _. eapply bad_sub; [by eapply parse_all_err|]. intros y Hy. csimpl.
      right. apply elem_of_app. by left. }
  intros H%IH. eapply bad_sub; [exact H|]. intros y Hy. csimpl. right. apply elem_of_app. by right.
Qed.

(** The addresses the overrides mention. *)
Definition addresses (o : ElectionOverrides) : list string :=
  candidates_exclude o ++ ((fun c => (parts c).1) <$> candidates_include o) ++
  voters_exclude o ++ (voters_include o ≫= fun v => v.1.1 :: v.2).

(** What the overrides mean for the candidates. *)
Record candidates_overridden (candidates : list ValidatorData) (cex : list AccountId)
    (cin cs : list ValidatorData) : Prop := {
  co_accounts : forall a, a ∈ cs.*1 <-> a ∈ cin.*1 \/ (a ∈ candidates.*1 /\ a ∉ cex);
  co_last_wins : forall pre x post, cin = pre ++ x :: post -> x.1 ∉ post.*1 -> x ∈ cs;
  co_others : forall x, x ∈ candidates -> x.1 ∉ cex -> x.1 ∉ cin.*1 -> x ∈ cs;
  co_nodup : NoDup candidates.*1 -> NoDup cs.*1;
}.

(** What they mean for the voters: those included, then, where not excluded, the
    self-votes [(a, stake, [a])] of the candidates included with a self-stake,
    then the voters there were; of two includes of one account the last counts. *)
Record voters_overridden (voters : list NominatorData) (cin : list ValidatorData)
    (vex : list AccountId) (vin vs : list NominatorData) : Prop := {
  vo_accounts : forall a, a ∈ (acct <$> vs) <-> a ∈ (acct <$> vin) \/
    ((a ∉ vex) /\ (a ∈ (acct <$> voters) \/ a ∈ (acct <$> self_votes cin)));
  vo_last_wins : forall pre x post, vin = pre ++ x :: post -> x.1.1 ∉ (acct <$> post) -> x ∈ vs;
  vo_self_votes : forall pre x post, self_votes cin = pre ++ x :: post -> x.1.1 ∉ (acct <$> post) ->
    x.1.1 ∉ vex -> x.1.1 ∉ (acct <$> vin) -> x ∈ vs;
  vo_source : forall v, v ∈ vs -> v ∈ vin \/ ((v.1.1 ∉ vex) /\ (v ∈ voters \/ v ∈ self_votes cin));
  vo_others : forall v, v ∈ voters -> v.1.1 ∉ vex -> v.1.1 ∉ (acct <$> self_votes cin) ->
    v.1.1 ∉ (acct <$> vin) -> v ∈ vs;
  vo_nodup : NoDup (acct <$> voters) -> NoDup (acct <$> vin) -> NoDup (acct <$> vs);
}.

Lemma filter_fmap_elem {X} (f : X -> Z) (ex : list Z) (l : list X) a :
  a ∈ (f <$> filter (fun x => f x ∉ ex) l) <-> a ∈ (f <$> l) /\ a ∉ ex.
Proof.
  rewrite !list_elem_of_fmap. split.
  - intros (x & -> & [Hx Hl]%list_elem_of_filter). eauto.
  - intros [(x & -> & Hx) Hn]. exists x. rewrite list_elem_of_filter. auto.
Qed.

Lemma filter_fmap_NoDup {X} (f : X -> Z) (ex : list Z) (l : list X) :
  NoDup (f <$> l) -> NoDup (f <$> filter (fun x => f x ∉ ex) l).
Proof. intros H. eapply sublist_NoDup; [exact H|]. apply fmap_sublist, sublist_filter. Qed.

Lemma apply_candidates_ok candidates cex cin cs :
  (forall a, a ∈ cs.*1 <-> a ∈ (filter (fun x => x.1 ∉ cex) candidates).*1 \/ a ∈ cin.*1) ->
  (NoDup (filter (fun x => x.1 ∉ cex) candidates).*1 -> NoDup cs.*1) ->
  (forall x, x ∈ filter (fun x => x.1 ∉ cex) candidates -> x.1 ∉ cin.*1 -> x ∈ cs) ->
  (forall pre x post, cin = pre ++ x :: post -> x.1 ∉ post.*1 -> x ∈ cs) ->
  candidates_overridden candidates cex cin cs.
Proof.
  intros H1 H2 H3 H4. split; [|done|..].
  - intros a. rewrite H1, (filter_fmap_elem fst). tauto.
  - intros x Hx Hn Hi. apply H3; [|done]. by apply list_elem_of_filter.
  - intros Hnd. apply H2. by apply filter_fmap_NoDup.
Qed.

Lemma apply_voters_ok voters cin vex vin vs1 vs :
  (forall a, a ∈ (acct <$> vs1) <-> a ∈ (acct <$> voters) \/ a ∈ (acct <$> self_votes cin)) ->
  (NoDup (acct <$> voters) -> NoDup (acct <$> vs1)) ->
  (forall v, v ∈ voters -> v.1.1 ∉ (acct <$> self_votes cin) -> v ∈ vs1) ->
  (forall pre x post, self_votes cin = pre ++ x :: post -> x.1.1 ∉ (acct <$> post) -> x ∈ vs1) ->
  (forall v, v ∈ vs1 -> v ∈ voters \/ v ∈ self_votes cin) ->
  let vs0 := filter (fun x => x.1.1 ∉ vex) vs1 in
  acct <$> vs = (acct <$> vs0) ++ filter (fun a => a ∉ (acct <$> vs0)) (acct <$> vin) ->
  (forall v, v ∈ vs0 -> v.1.1 ∉ (acct <$> vin) -> v ∈ vs) ->
  (forall pre x post, vin = pre ++ x :: post -> x.1.1 ∉ (acct <$> post) -> x ∈ vs) ->
  (forall v, v ∈ vs -> v ∈ vs0 \/ v ∈ vin) ->
  voters_overridden voters cin vex vin vs.
Proof.
  intros H1 H2 H3 Hself Hsrc1 vs0 H4 H5 H6 Hsrc.
  assert (forall a, a ∈ (acct <$> vs0) <-> a ∈ (acct <$> vs1) /\ a ∉ vex) as H0.
  { intros a. apply (filter_fmap_elem acct). }
  split; [|done|..].
  - intros a. rewrite H4, elem_of_app, list_elem_of_filter.
    assert (a ∈ (acct <$> vs0) \/ a ∉ (acct <$> vs0)) as [Hi|Hi]
      by (destruct (decide (a ∈ (acct <$> vs0))); auto); pose proof Hi as Hi'; rewrite H0, H1 in Hi'; tauto.
  - intros pre x post Heq Hn Hx Hi. apply H5; [|done]. apply list_elem_of_filter. eauto.
  - intros v [[Hx Hv]%list_elem_of_filter|Hv]%Hsrc; auto.
  - intros v Hv Hx Hs Hn. apply H5; [|done]. apply list_elem_of_filter. auto.
  - intros Hv Hi. rewrite H4. apply NoDup_app. split_and!.
    + apply (filter_fmap_NoDup acct). auto.
    + intros a Ha [Hna _]%list_elem_of_filter. done.
    + by apply NoDup_filter.
Qed.

End overrides.

(** C32: overrides.  They are refused only if an address does not parse.
    Otherwise the candidates are those included and those not excluded, the last
    include of an account sets its self-stake, and the others stay.  A voter that
    is included stands as its last include says, with that stake and those
    targets; the account of a candidate included with a self-stake, unless that
    voter is excluded or included, votes with that stake, as the last such include
    gives it, for itself alone, in place of what it voted for; every other voter
    that is not excluded stays as it was (also that of a candidate included as a
    bare address or with stake zero), and there are no others.  No candidate is
    listed twice, nor a voter unless it is included twice. *)
Theorem apply_overrides_spec (parse_account : string -> Result AccountId string) candidates voters o :
  match apply_overrides parse_account candidates voters o with
  | ok (cs, vs) => exists cex cin vex vin,
      Forall2 (parsed_account parse_account) (candidates_exclude o) cex /\
      Forall2 (parsed_candidate parse_account) (candidates_include o) cin /\
      Forall2 (parsed_account parse_account) (voters_exclude o) vex /\
      Forall2 (parsed_voter parse_account) (voters_include o) vin /\
      candidates_overridden candidates cex cin cs /\
      voters_overridden voters cin vex vin vs
  | err _ => bad parse_account (addresses o)
  end.
Proof.
  unfold apply_overrides, addresses.
  destruct (parse_all _ _ (candidates_exclude o)) as [cex|e] eqn:Hcex; cbn [res_bind].
  2:{ eapply bad_sub; [by eapply parse_all_err|]. intros x Hx. rewrite !elem_of_app. auto. }
  destruct (include_candidates _ _ _ _) as [[cs vs1]|e] eqn:Hc; cbn [res_bind].
  2:{ eapply bad_sub; [by eapply include_candidates_err|]. intros x Hx. rewrite !elem_of_app. auto. }
  destruct (parse_all _ _ (voters_exclude o)) as [vex|e] eqn:Hvex; cbn [res_bind].
  2:{ eapply bad_sub; [by eapply parse_all_err|]. intros x Hx. rewrite !elem_of_app. auto. }
  destruct (include_voters _ _ _ _) as [vs|e] eqn:Hv; cbn [res_bind].
  2:{ eapply bad_sub; [by eapply include_voters_err|]. intros x Hx. rewrite !elem_of_app. auto. }
  apply parse_all_ok in Hcex, Hvex.
  apply include_candidates_ok in Hc as (cin & Hcin & H1 & H2 & H3 & H4 & H5 & H6 & H7 & H11 & H12).
  eapply (include_voters_ok _ _ _ _ _ []) in Hv as (vin & Hvin & H8 & H9 & H10 & H13); [|by rewrite app_nil_r].
  exists cex, cin, vex, vin. split_and!; [done..|by apply apply_candidates_ok|by eapply apply_voters_ok].
Qed.

(** A voter that is included twice and not among the voters is listed twice. *)
Theorem voter_included_twice :
  apply_overrides (fun _ => ok 5) [] []
    {| candidates_include := []; candidates_exclude := []; voters_exclude := [];
       voters_include := [("x", 10, []); ("x", 20, [])] |} = ok ([], [(5, 10, []); (5, 20, [])]).
Proof. reflexivity. Qed.

