(* ===== verification/Staking.v ===== *)
(** * Staking data

    [src/dynamic/staking.rs]: the candidates and voters of an election read
    directly from the staking and bags-list pallets, for the blocks that have
    no snapshot.

    Futures that [join_all] drives together, and spawned tasks, run here one
    after the other.  They share no state and only read, and the answers of the
    environment are arbitrary, so every outcome of an interleaving is an outcome
    of this order. *)

From S2P Require Import Prelude RustStr Errors Chain Metrics Types Effects ElectionData.
Local Open Scope Z_scope.

(** ** Keys *)

(** The last [n] bytes. *)
Definition last_bytes (n : nat) (bytes : list Z) : list Z := drop (length bytes - n) bytes.

(** [AccountId::from] of 32 bytes. *)
Definition account_of_bytes (bytes : list Z) : AccountId := foldl (fun acc b => 256 * acc + b) 0 bytes.

(** [u64::from_le_bytes] *)
Definition from_le_bytes (bytes : list Z) : Z := foldr (fun b acc => b + 256 * acc) 0 bytes.

(** The account in the last 32 bytes of a key, if it has that many; the
    conversion of exactly 32 bytes to an array cannot fail. *)
Definition account_of_key (key_bytes : list Z) : option AccountId :=
  if (length key_bytes <? 32)%nat then None
  else Some (account_of_bytes (last_bytes 32 key_bytes)).

(** The upper bound of a bag in the last 8 bytes of its key. *)
Definition bag_upper_of_key (key_bytes : list Z) : Z :=
  if (8 <=? length key_bytes)%nat then from_le_bytes (last_bytes 8 key_bytes) else 0.

(** ** Futures *)
Section futures.
Context `{T : MinerConfig} {S : Type}.

(** [futures::future::join_all] on futures that return a [Result]. *)
Fixpoint join_all {A} (futs : list (M S A)) : M S (list (Result A Error.t)) :=
  match futs with
  | [] => mret []
  | fut :: futs => r ← catch fut; rest ← join_all futs; mret (r :: rest)
  end.

(** [for result in results { .. push(result?) }] *)
Fixpoint collect_results {A} (results : list (Result A Error.t)) : Result (list A) Error.t :=
  match results with
  | [] => ok []
  | ok a :: results =>
      match collect_results results with ok l => ok (a :: l) | err e => err e end
  | err e :: _ => err e
  end.

End futures.

Section staking.
Context `{T : MinerConfig} {S : Type}.

(** ** Candidates *)

(** The [while let Some(next) = iter.next().await] loop of [fetch_candidates]. *)
Fixpoint candidate_accounts (items : list (Result (list Z) string)) : Result (list AccountId) Error.t :=
  match items with
  | [] => ok []
  | err e :: _ => err (Error.Other ("storage iteration error: " +:+ e))
  | ok key_bytes :: items =>
      match account_of_key key_bytes with
      | None =>
          err (Error.Other ("unexpected key length " +:+ pretty (length key_bytes)
                            +:+ " (< 32); cannot decode AccountId"))
      | Some account =>
          match candidate_accounts items with
          | ok accounts => ok (account :: accounts)
          | err e => err e
          end
      end
  end.

(** The key of the ledger: the controller in [Bonded], else the stash. *)
Definition ledger_key (stash : AccountId) (bonded : option (list Z)) : Result AccountId Error.t :=
  match bonded with
  | Some controller_bytes =>
      match account_of_key controller_bytes with
      | Some controller => ok controller
      | None => err (Error.Other "Unexpected Bonded key length")
      end
  | None => ok stash
  end.

(** The self-stake of a candidate: [active], else [total], else 0. *)
Definition candidate_stake (ledger : Fetched LedgerValue) : Z :=
  match ledger with
  | Some (ok value) =>
      match ledger_active value, ledger_total value with
      | Some active, _ => active
      | None, Some total => total
      | None, None => 0
      end
  | _ => 0
  end.

Definition fetch_stake (storage : AtBlock) (account : AccountId) : M S Z :=
  bonded ← query (TryFetchBonded storage account);
  key ← of_result (ledger_key account bonded);
  ledger ← query (TryFetchLedger storage key);
  mret (candidate_stake ledger).

(** [fetch_candidates] *)
Definition fetch_candidates (storage : AtBlock) : M S (list ValidatorData) :=
  items ← query (IterValidators storage);
  accounts ← of_result (candidate_accounts items);
  stakes_results ← join_all (fetch_stake storage <$> accounts);
  stakes ← of_result (collect_results stakes_results);
  mret (zip accounts stakes).

(** [fetch_validator_keys]: keys that are too short are ignored. *)
Fixpoint validator_key_set (items : list (Result (list Z) string)) (keys : gset Z)
    : Result (gset Z) Error.t :=
  match items with
  | [] => ok keys
  | err e :: _ => err (Error.Other ("storage iteration error: " +:+ e))
  | ok key_bytes :: items =>
      validator_key_set items
        match account_of_key key_bytes with Some account => {[account]} ∪ keys | None => keys end
  end.

Definition fetch_validator_keys (storage : AtBlock) : M S (gset Z) :=
  items ← query (IterValidators storage);
  of_result (validator_key_set items ∅).

(** ** The voter list *)

(** [VoterNode] *)
Record VoterNode : Type := {
  vn_id : AccountId;
  vn_score : Z;
  vn_next : option AccountId;
  vn_bag_upper : Z;
}.

(** The bags by their upper bound: a bag that cannot be decoded is an error. *)
Fixpoint collect_bags (items : list (Result (KeyValue ListBag) string)) (bags : gmap Z ListBag)
    : Result (gmap Z ListBag) Error.t :=
  match items with
  | [] => ok bags
  | err e :: _ => err (Error.Other ("bags iteration error: " +:+ e))
  | ok (key_bytes, value) :: items =>
      match value with
      | err e => err (Error.Codec e)
      | ok bag => collect_bags items (<[bag_upper_of_key key_bytes := bag]> bags)
      end
  end.

Definition voter_node (node : ListNode) : VoterNode := {|
  vn_id := node_id node;
  vn_score := node_score node;
  vn_next := node_next node;
  vn_bag_upper := node_bag_upper node;
|}.

(** The nodes by the account they carry; short keys and values that cannot be
    decoded are skipped. *)
Fixpoint collect_nodes (items : list (Result (KeyValue ListNode) string)) (nodes : gmap Z VoterNode)
    : Result (gmap Z VoterNode) Error.t :=
  match items with
  | [] => ok nodes
  | err e :: _ => err (Error.Other ("node iteration error: " +:+ e))
  | ok (key_bytes, value) :: items =>
      collect_nodes items
        match account_of_key key_bytes, value with
        | Some _, ok node => <[node_id node := voter_node node]> nodes
        | _, _ => nodes
        end
  end.

(** The walk over the linked lists keeps the voters found so far and the nodes
    it visited. *)
Record Walk : Type := {
  voters : list (AccountId * Z);
  processed : gset Z;
}.

(** [while let Some(node_id) = current_node_id]: [None] when the fuel runs out. *)
Fixpoint walk_bag (fuel : nat) (limit : Z) (nodes : gmap Z VoterNode)
    (current_node_id : option AccountId) (w : Walk) : option Walk :=
  match fuel with
  | O => None
  | Datatypes.S fuel =>
      match current_node_id with
      | None => Some w
      | Some node_id =>
          if limit <=? Z.of_nat (length (voters w)) then Some w
          else if decide (node_id ∈ processed w) then Some w
          else
            let processed := {[node_id]} ∪ processed w in
            match nodes !! node_id with
            | None => Some {| voters := voters w; processed := processed |}
            | Some node =>
                walk_bag fuel limit nodes (vn_next node)
                  {| voters := voters w ++ [(vn_id node, vn_score node)]; processed := processed |}
            end
      end
  end.

(** A walk visits every node at most once, and one more step ends it. *)
Definition walk_fuel (nodes : gmap Z VoterNode) : nat := Datatypes.S (size nodes).

(** [for bag_upper in sorted_bag_keys] *)
Fixpoint walk_bags (limit : Z) (bags : gmap Z ListBag) (nodes : gmap Z VoterNode)
    (sorted_bag_keys : list Z) (w : Walk) : option Walk :=
  match sorted_bag_keys with
  | [] => Some w
  | bag_upper :: keys =>
      if limit <=? Z.of_nat (length (voters w)) then Some w
      else match bags !! bag_upper with
           | None => walk_bags limit bags nodes keys w
           | Some bag =>
               match bag_head bag with
               | None => walk_bags limit bags nodes keys w
               | Some _ =>
                   match walk_bag (walk_fuel nodes) limit nodes (bag_head bag) w with
                   | None => None
                   | Some w => walk_bags limit bags nodes keys w
                   end
               end
           end
  end.

(** [sort_by(|a, b| b.cmp(a))] on distinct keys. *)
Definition sorted_bag_keys (bags : gmap Z ListBag) : list Z :=
  merge_sort Z.ge (map_to_list bags).*1.

(** [usize::saturating_add(100)] *)
Definition extended_voter_limit (voter_limit : Z) : Z := Z.min u64_max (voter_limit + 100).

(** The voters of the bags, from the highest bag down. *)
Definition voters_of_bags (voter_limit : Z) (bags : gmap Z ListBag)
    (nodes : gmap Z VoterNode) : option (list (AccountId * Z)) :=
  voters <$> walk_bags (extended_voter_limit voter_limit) bags nodes (sorted_bag_keys bags)
               {| voters := []; processed := ∅ |}.

(** [fetch_voter_list]; the panic stands for a walk that never ends. *)
Definition fetch_voter_list (voter_limit : Z) (storage : AtBlock) : M S (list (AccountId * Z)) :=
  items ← query (IterListBags storage);
  bags ← of_result (collect_bags items ∅);
  items ← query (IterListNodes storage);
  nodes ← of_result (collect_nodes items ∅);
  match voters_of_bags voter_limit bags nodes with
  | Some voters => mret voters
  | None => panic "diverges"
  end.

(** ** Voters with their targets *)

(** [active as u64] *)
Definition as_u64 (x : Z) : Z := x mod 2 ^ 64.

(** The stake in the ledger replaces the score of the voter list. *)
Definition voter_stake (score : Z) (ledger : Fetched LedgerValue) : Z :=
  match ledger with
  | Some (ok value) =>
      match ledger_active value with Some active => as_u64 active | None => score end
  | _ => score
  end.

(** One future of [fetch_voter_batch]. *)
Definition fetch_voter (storage : AtBlock) (voter : AccountId * Z)
    : M S (AccountId * Z * Fetched Nominations) :=
  let '(account_id, score_stake) := voter in
  nominator_data ← query (TryFetchNominators storage account_id);
  bonded ← query (TryFetchBonded storage account_id);
  key ← of_result (ledger_key account_id bonded);
  ledger ← query (TryFetchLedger storage key);
  mret (account_id, voter_stake score_stake ledger, nominator_data).

(** No entry, or the targets of an entry that is active and can be decoded. *)
Definition nominated_targets (data : Fetched Nominations) : option (list AccountId) :=
  match data with
  | Some (ok nominations) => Some (if suppressed nominations then [] else targets nominations)
  | Some (err _) => Some []
  | None => None
  end.

Definition BatchResult : Type := list (AccountId * Z * option (list AccountId)).

(** [fetch_voter_batch] *)
Definition fetch_voter_batch (voters : list (AccountId * Z)) (storage : AtBlock) : M S BatchResult :=
  results ← join_all (fetch_voter storage <$> voters);
  fetched ← of_result (collect_results results);
  mret ((fun x => (x.1, nominated_targets x.2)) <$> fetched).

Definition BATCH_SIZE : nat := 20.
Definition MAX_CONCURRENT_BATCHES : nat := 10.
Definition MAX_RETRIES : nat := 8.

(** The errors a batch is retried on. *)
Definition is_retryable (error_msg : string) : bool :=
  str_contains "limit reached" error_msg || str_contains "RPC error" error_msg
  || str_contains "timeout" error_msg.

(** [Duration::from_secs(2) * (1 << attempt)], at most a minute, in milliseconds. *)
Definition retry_delay (attempt : Z) : Z := 1000 * Z.min (2 * Z.shiftl 1 attempt) 60.

(** [for attempt in 0..=MAX_RETRIES]: [remaining] iterations remain. *)
Fixpoint batch_attempts (remaining : nat) (attempt : Z) (last_error : option Error.t)
    (chunk : list (AccountId * Z)) (storage : AtBlock) : M S BatchResult :=
  match remaining with
  | O => throw (default (Error.Other "Failed after retries") last_error)
  | Datatypes.S remaining =>
      r ← catch (fetch_voter_batch chunk storage);
      match r with
      | ok results => mret results
      | err e =>
          error_msg ← display_error e;
          if is_retryable error_msg && (attempt <? Z.of_nat MAX_RETRIES) then
            ask (Sleep (retry_delay attempt));;
            batch_attempts remaining (attempt + 1) (Some e) chunk storage
          else throw e
      end
  end.

(** The task spawned for a chunk. *)
Definition batch_task (chunk : list (AccountId * Z)) (storage : AtBlock) : M S BatchResult :=
  batch_attempts (MAX_RETRIES + 1) 0 None chunk storage.

(** What a voter contributes: a nominator its targets if it has any, a validator
    without an entry votes for itself. *)
Definition complete_voter (validator_keys : gset Z)
    (x : AccountId * Z * option (list AccountId)) : option NominatorData :=
  let '(account, stake, maybe_targets) := x in
  match maybe_targets with
  | Some [] => None
  | Some targets => Some (account, stake, targets)
  | None => if decide (account ∈ validator_keys) then Some (account, stake, [account]) else None
  end.

(** A finished task, and [handle.await] with the [match] on it. *)
Definition BatchHandle : Type := Result BatchResult Error.t.

Definition join_batch (join_error : option string) (handle : BatchHandle) : Result BatchResult Error.t :=
  match join_error with
  | Some e => err (Error.Other ("Task join error: " +:+ e))
  | None => handle
  end.

(** [for chunk in voters.chunks(BATCH_SIZE)]: spawn a task; when ten are in
    flight, take the result of the oldest. *)
Fixpoint batch_loop (storage : AtBlock) (validator_keys : gset Z)
    (todo : list (list (AccountId * Z))) (batch_handles : list BatchHandle)
    (complete_voter_data : list NominatorData) : M S (list BatchHandle * list NominatorData) :=
  match todo with
  | [] => mret (batch_handles, complete_voter_data)
  | chunk :: todo =>
      handle ← catch (batch_task chunk storage);
      match batch_handles ++ [handle] with
      | oldest :: younger =>
          if (MAX_CONCURRENT_BATCHES <=? Datatypes.S (length younger))%nat then
            joined ← ask JoinTask;
            results ← of_result (join_batch joined oldest);
            batch_loop storage validator_keys todo younger
              (complete_voter_data ++ omap (complete_voter validator_keys) results)
          else batch_loop storage validator_keys todo (oldest :: younger) complete_voter_data
      | [] => panic "remove from an empty vector"
      end
  end.

(** [join_all(batch_handles).await] *)
Fixpoint join_handles (batch_handles : list BatchHandle) : M S (list (Result BatchResult Error.t)) :=
  match batch_handles with
  | [] => mret []
  | handle :: handles =>
      joined ← ask JoinTask;
      rest ← join_handles handles;
      mret (join_batch joined handle :: rest)
  end.

(** [fetch_voters] *)
Definition fetch_voters (voter_limit : Z) (storage : AtBlock) : M S (list NominatorData) :=
  voters ← fetch_voter_list voter_limit storage;
  validator_keys ← fetch_validator_keys storage;
  x ← batch_loop storage validator_keys (chunks BATCH_SIZE voters) [] [];
  let '(batch_handles, complete_voter_data) := x in
  batch_results ← join_handles batch_handles;
  remaining ← of_result (collect_results batch_results);
  let complete_voter_data :=
    complete_voter_data ++ omap (complete_voter validator_keys) (concat remaining) in
  mret (if voter_limit <? Z.of_nat (length complete_voter_data)
        then take (Z.to_nat voter_limit) complete_voter_data
        else complete_voter_data).

End staking.
