(* ===== verification/StakingSpec.v ===== *)
(** * Theorems on the staking data

    The walk over the bags ends on any links, cyclic ones included, and on
    well-formed bags it is the abstract voter list; against a node that serves
    one staking state, [fetch_candidates] and [fetch_voters] return what an
    abstract definition computes from that state, in spite of batches, windows
    and retries. *)

From S2P Require Import Prelude RustStr Errors Chain Metrics Types Effects Calls Scenario ElectionData Staking.
Local Open Scope Z_scope.

(** ** The walk ends *)
Section walk.
Context (limit : Z) (nodes : gmap Z VoterNode).

(** The nodes a walk has not visited yet. *)
Definition unvisited (w : Walk) : gset Z := dom nodes ∖ processed w.

Lemma unvisited_step w a vs :
  a ∉ processed w -> is_Some (nodes !! a) ->
  Datatypes.S (size (unvisited {| voters := vs; processed := {[a]} ∪ processed w |}))
  = size (unvisited w).
Proof.
  intros Ha Hn. unfold unvisited. cbn.
  assert (dom nodes ∖ processed w = {[a]} ∪ dom nodes ∖ ({[a]} ∪ processed w)) as ->.
  { apply set_eq. intros x. apply elem_of_dom in Hn. destruct (decide (x = a)); set_solver. }
  rewrite (size_union (C := gset Z) {[a]}) by set_solver. by rewrite size_singleton.
Qed.

Lemma walk_bag_enough : forall fuel cur w,
  (size (unvisited w) < fuel)%nat -> is_Some (walk_bag fuel limit nodes cur w).
Proof.
  induction fuel as [|fuel IH]; intros cur w Hf; [lia|]. cbn.
  destruct cur as [a|]; [|done]. case_match; [done|]. case_decide as Ha; [done|].
  destruct (nodes !! a) as [n|] eqn:Hn; [|done].
  apply IH, Nat.succ_lt_mono. by rewrite unvisited_step.
Qed.

Lemma walk_bag_more : forall fuel cur w w' fuel',
  walk_bag fuel limit nodes cur w = Some w' -> (fuel <= fuel')%nat ->
  walk_bag fuel' limit nodes cur w = Some w'.
Proof.
  induction fuel as [|fuel IH]; intros cur w w' fuel' Hw Hf; [done|].
  destruct fuel' as [|fuel']; [lia|]. cbn in *.
  destruct cur as [a|]; [|done]. case_match; [done|]. case_decide; [done|].
  destruct (nodes !! a); [|done]. apply IH; [done|lia].
Qed.

(** What the walk keeps: the voters are distinct visited nodes, within the limit. *)
Definition walk_inv (w : Walk) : Prop :=
  NoDup (voters w).*1 /\ (forall a, a ∈ (voters w).*1 -> a ∈ processed w) /\
  Z.of_nat (length (voters w)) <= Z.max 0 limit.

Definition keyed : Prop := map_Forall (fun a n => vn_id n = a) nodes.

Lemma walk_bag_inv : keyed -> forall fuel cur w w',
  walk_bag fuel limit nodes cur w = Some w' -> walk_inv w -> walk_inv w'.
Proof.
  intros Hk. induction fuel as [|fuel IH]; intros cur w w' Hw Hi; [done|]. cbn in Hw.
  destruct cur as [a|]; [|by simplify_eq].
  destruct (Z.leb_spec limit (Z.of_nat (length (voters w)))); [by simplify_eq|].
  destruct Hi as (Hnd & Hsub & Hlen).
  case_decide as Ha; [by simplify_eq|].
  destruct (nodes !! a) as [n|] eqn:Hn.
  - apply IH in Hw; [done|]. pose proof (Hk a n Hn) as Hid. cbn in Hid. unfold walk_inv. cbn.
    rewrite fmap_app, length_app. cbn. rewrite Hid. split; [|split; [set_solver|lia]].
    apply NoDup_app. split; [done|]. split; [set_solver|apply NoDup_singleton].
  - simplify_eq. split; [done|]. split; [cbn; set_solver|done].
Qed.

Lemma walk_bags_total bags : keyed -> forall keys w, walk_inv w ->
  exists w', walk_bags limit bags nodes keys w = Some w' /\ walk_inv w'.
Proof.
  intros Hk. induction keys as [|k keys IH]; intros w Hi; cbn [walk_bags]; [eauto|].
  case_match; [eauto|]. destruct (bags !! k) as [bag|]; [|eauto].
  destruct (bag_head bag) as [a|]; [|eauto].
  destruct (walk_bag_enough (walk_fuel nodes) (Some a) w) as [w' Hw].
  { unfold walk_fuel, unvisited. apply Nat.lt_succ_r. rewrite <- size_dom. apply subseteq_size. set_solver. }
  rewrite Hw. apply IH. by eapply walk_bag_inv.
Qed.

End walk.

(** ** The abstract voter list

    The contents of the bags, from the highest bag down, each bag as the list
    of its members with their scores. *)
Definition BagContents : Type := list (Z * list (AccountId * Z)).

(** The nodes from [cur] on are linked in the order of the list. *)
Fixpoint linked (nodes : gmap Z VoterNode) (cur : option AccountId) (l : list (AccountId * Z)) : Prop :=
  match l with
  | [] => cur = None
  | (a, sc) :: l =>
      cur = Some a /\
      exists n, nodes !! a = Some n /\ vn_id n = a /\ vn_score n = sc /\ linked nodes (vn_next n) l
  end.

(** Bags and nodes in storage hold the contents [abs]. *)
Record represents (bags : gmap Z ListBag) (nodes : gmap Z VoterNode) (abs : BagContents) : Prop := {
  rep_sorted : StronglySorted Z.gt abs.*1;
  rep_keys : forall k, k ∈ abs.*1 <-> is_Some (bags !! k);
  rep_linked : Forall (fun x => exists bag,
    bags !! x.1 = Some bag /\ linked nodes (bag_head bag) x.2) abs;
  rep_distinct : NoDup (concat abs.*2).*1;
}.

Section represented.
Context (limit : Z) (bags : gmap Z ListBag) (nodes : gmap Z VoterNode).

(** On a linked list the walk takes its members in order, up to the limit. *)
Lemma walk_bag_linked : forall fuel cur l w w',
  walk_bag fuel limit nodes cur w = Some w' ->
  linked nodes cur l -> NoDup l.*1 -> (forall a, a ∈ l.*1 -> a ∉ processed w) ->
  Z.of_nat (length (voters w)) <= limit ->
  voters w' = take (Z.to_nat limit) (voters w ++ l) /\
  (forall a, a ∈ processed w' -> a ∈ processed w \/ a ∈ l.*1).
Proof.
  induction fuel as [|fuel IH]; intros cur l w w' Hw Hl Hnd Hdis Hlen; [done|]. cbn in Hw.
  destruct l as [|[a sc] l].
  - cbn in Hl. subst cur. simplify_eq. rewrite app_nil_r, take_ge by lia. auto.
  - destruct Hl as [-> (n & Hn & Hid & <- & Hl)].
    destruct (Z.leb_spec limit (Z.of_nat (length (voters w)))).
    { simplify_eq. rewrite take_app_le, take_ge by lia. auto. }
    cbn in Hnd. apply NoDup_cons in Hnd as [Ha Hnd].
    rewrite decide_False in Hw by (apply Hdis; cbn; left). rewrite Hn in Hw.
    apply (IH _ l) in Hw as [Hv Hp]; cbn in *; [|done|done| |rewrite length_app; cbn; lia].
    + rewrite Hid, <- app_assoc in Hv. split; [exact Hv|].
      intros x [Hx|Hx]%Hp; [|right; by right]. apply elem_of_union in Hx as [Hx|Hx]; [|by left].
      right. apply elem_of_singleton in Hx. subst. left.
    + intros x Hx Hx'. apply elem_of_union in Hx' as [Hx'|Hx'].
      * apply elem_of_singleton in Hx'. by subst.
      * eapply Hdis; [by right|done].
Qed.

Lemma walk_bags_represented : keyed nodes -> forall (abs : BagContents) w w',
  walk_bags limit bags nodes abs.*1 w = Some w' ->
  Forall (fun x => exists bag, bags !! x.1 = Some bag /\ linked nodes (bag_head bag) x.2) abs ->
  NoDup (concat abs.*2).*1 -> (forall a, a ∈ (concat abs.*2).*1 -> a ∉ processed w) ->
  Z.of_nat (length (voters w)) <= limit ->
  voters w' = take (Z.to_nat limit) (voters w ++ concat abs.*2).
Proof.
  intros Hk. induction abs as [|[k l] abs IH]; intros w w' Hw Hrep Hnd Hdis Hlen; cbn [walk_bags fmap list_fmap concat fst snd] in *.
  - simplify_eq. by rewrite app_nil_r, take_ge by lia.
  - apply Forall_cons in Hrep as [(bag & Hbag & Hl) Hrep]. cbn in Hbag, Hl.
    destruct (Z.leb_spec limit (Z.of_nat (length (voters w)))).
    { simplify_eq. by rewrite take_app_le, take_ge by lia. }
    rewrite Hbag in Hw. rewrite fmap_app in Hnd, Hdis.
    apply NoDup_app in Hnd as (Hnd & Hsep & Hnd').
    destruct l as [|[a sc] l].
    { cbn in Hl. rewrite Hl in Hw. cbn [app]. apply IH; auto. }
    pose proof Hl as [Hh _]. rewrite Hh in Hw.
    destruct (walk_bag _ _ _ _ w) as [w1|] eqn:Hw1; [|done]. rewrite <- Hh in Hw1.
    pose proof (walk_bag_linked _ _ _ _ _ Hw1 Hl Hnd) as [Hv Hp]; [set_solver|lia|].
    apply IH in Hw; [| done | done | | rewrite Hv, length_take; lia].
    + rewrite Hw, Hv, app_assoc. generalize (voters w ++ (a, sc) :: l) (concat abs.*2).
      intros x y. rewrite take_app, take_take, Nat.min_id, length_take.
      destruct (decide (Z.to_nat limit <= length x)%nat) as [Hx|Hx].
      * rewrite (take_app_le _ y) by done.
        replace (Z.to_nat limit - _)%nat with 0%nat by lia. by rewrite take_0, app_nil_r.
      * rewrite Nat.min_r by lia. by rewrite (take_ge x), take_app_ge by lia.
    + intros x Hx Hx'. apply Hp in Hx' as [Hx'|Hx']; [|by eapply Hsep].
      revert Hx'. apply Hdis. set_solver.
Qed.

Lemma represents_keys abs : represents bags nodes abs -> sorted_bag_keys bags = abs.*1.
Proof.
  intros [Hs Hkeys _ _]. unfold sorted_bag_keys.
  assert (StronglySorted Z.ge abs.*1) as Hs'.
  { clear -Hs. induction Hs as [|k l Hl IH Hx]; constructor; [done|].
    eapply Forall_impl; [exact Hx|]. intros. lia. }
  apply (StronglySorted_unique Z.ge); [|done|].
  - apply (StronglySorted_merge_sort Z.ge).
  - rewrite merge_sort_Permutation. apply NoDup_Permutation.
    + apply NoDup_fst_map_to_list.
    + clear -Hs. induction Hs as [|k l Hl IH Hx]; constructor; [|done].
      intros Hin. eapply Forall_forall in Hx; [|done]. lia.
    + intros k. rewrite Hkeys. setoid_rewrite list_elem_of_fmap. split.
      * intros ([k' b] & -> & Hb%elem_of_map_to_list). cbn. by eexists.
      * intros [b Hb]. exists (k, b). by rewrite elem_of_map_to_list.
Qed.

End represented.

(** [voters_of_bags] is total, whatever the links are. *)
Lemma voters_of_bags_total limit bags nodes : keyed nodes ->
  exists l, voters_of_bags limit bags nodes = Some l /\ NoDup l.*1 /\
            Z.of_nat (length l) <= Z.max 0 (extended_voter_limit limit).
Proof.
  intros Hk. unfold voters_of_bags.
  destruct (walk_bags_total (extended_voter_limit limit) nodes bags Hk (sorted_bag_keys bags)
              {| voters := []; processed := ∅ |}) as (w & Hw & Hnd & _ & Hlen).
  { split; [apply NoDup_nil_2|]. split; [set_solver|cbn; lia]. }
  rewrite Hw. cbn. eauto.
Qed.

Lemma voters_of_bags_represented limit bags nodes abs :
  0 <= limit -> keyed nodes -> represents bags nodes abs ->
  voters_of_bags limit bags nodes
  = Some (take (Z.to_nat (extended_voter_limit limit)) (concat abs.*2)).
Proof.
  intros Hl Hk Hrep. unfold voters_of_bags. rewrite (represents_keys _ _ _ Hrep).
  destruct Hrep as [_ _ Hlk Hnd].
  assert (0 <= extended_voter_limit limit) by (unfold extended_voter_limit, u64_max; lia).
  destruct (walk_bags_total (extended_voter_limit limit) nodes bags Hk abs.*1
              {| voters := []; processed := ∅ |}) as (w & Hw & _).
  { split; [apply NoDup_nil_2|]. split; [set_solver|cbn; lia]. }
  rewrite Hw. cbn. f_equal.
  apply (walk_bags_represented _ _ _ Hk abs _ _ Hw Hlk Hnd); [set_solver|cbn; lia].
Qed.

(** The nodes of [collect_nodes] are stored under their own account. *)
Lemma collect_nodes_keyed items : forall nodes nodes',
  keyed nodes -> collect_nodes items nodes = ok nodes' -> keyed nodes'.
Proof.
  induction items as [|[[key [node|e]]|e] items IH]; intros nodes nodes' Hk; cbn.
  - by intros [= <-].
  - apply IH. case_match; [|done]. by apply map_Forall_insert_2.
  - apply IH. by case_match.
  - done.
Qed.

(** ** Against any environment *)
Section any_environment.
Context `{T : MinerConfig} {S : Type}.

Lemma returns_join_all {A B} (f : A -> M S B) (P : A -> B -> Prop) xs :
  (forall x, returns (f x) (P x)) ->
  returns (join_all (f <$> xs)) (Forall2 (fun x r => match r with ok y => P x y | err _ => True end) xs).
Proof.
  intros Hf. induction xs as [|x xs IH]; cbn [join_all fmap list_fmap]; [by apply returns_ret|].
  eapply returns_bind; [apply returns_catch, Hf|]. intros r Hr. returns_step.
  apply returns_ret. by constructor.
Qed.

Lemma collect_results_Forall2 {A B} (P : A -> B -> Prop) xs rs : forall l,
  Forall2 (fun x r => match r with ok y => P x y | err _ => True end) xs rs ->
  collect_results rs = ok l -> Forall2 P xs l.
Proof.
  intros l Hrs. revert l. induction Hrs as [|x [y|e] xs rs Hr Hrs IH]; intros l; cbn; [by intros [= <-]| |done].
  destruct (collect_results rs) as [l'|]; [|done]. intros [= <-]. constructor; [done|by apply IH].
Qed.

Lemma returns_fetch_voter_list limit b :
  returns (fetch_voter_list (S := S) limit b)
    (fun l => NoDup l.*1 /\ Z.of_nat (length l) <= Z.max 0 (extended_voter_limit limit)).
Proof.
  unfold fetch_voter_list. do 3 returns_skip.
  eapply returns_bind; [apply (returns_of_result _ keyed)|].
  { intros nodes. apply collect_nodes_keyed, map_Forall_empty. }
  intros nodes Hk. destruct (voters_of_bags_total limit a0 nodes Hk) as (l & -> & Hl).
  by apply returns_ret.
Qed.

(** Batch entries are those of the voters asked for, in their order. *)
Definition for_voters (voters : list (AccountId * Z)) (r : BatchResult) : Prop :=
  r.*1.*1 = voters.*1.

Lemma returns_fetch_voter_batch chunk b :
  returns (fetch_voter_batch (S := S) chunk b) (for_voters chunk).
Proof.
  unfold fetch_voter_batch. eapply returns_bind.
  { apply (returns_join_all _ (fun v y => y.1.1 = v.1)). intros [a sc]. unfold fetch_voter.
    do 4 returns_skip. by apply returns_ret. }
  intros rs Hrs. eapply returns_bind.
  { apply (returns_of_result _ (Forall2 (fun v y => y.1.1 = v.1) chunk)).
    intros l. by apply collect_results_Forall2. }
  intros l Hl. apply returns_ret. unfold for_voters. clear rs Hrs.
  induction Hl as [|v y vs ys Hy Hl IH]; [done|]. cbn. f_equal; [done|]. apply IH.
Qed.

Lemma returns_batch_attempts chunk b n : forall attempt last_error,
  returns (batch_attempts (S := S) n attempt last_error chunk b) (for_voters chunk).
Proof.
  induction n as [|n IH]; intros attempt last_error; cbn [batch_attempts]; [apply returns_throw|].
  eapply returns_bind; [apply returns_catch, returns_fetch_voter_batch|].
  intros [r|e] Hr; [by apply returns_ret|]. returns_skip. case_match; [|apply returns_throw].
  returns_skip. apply IH.
Qed.

(** A handle holds an error, or entries for the voters of its chunk. *)
Definition handle_for (chunk : list (AccountId * Z)) (handle : BatchHandle) : Prop :=
  match handle with ok r => for_voters chunk r | err _ => True end.

Lemma join_batch_for chunk e handle : handle_for chunk handle -> handle_for chunk (join_batch e handle).
Proof. by destruct e. Qed.

Lemma for_voters_app vs1 vs2 r1 r2 :
  for_voters vs1 r1 -> for_voters vs2 r2 -> for_voters (vs1 ++ vs2) (r1 ++ r2).
Proof. unfold for_voters. intros H1 H2. by rewrite !fmap_app, H1, H2. Qed.

Lemma for_voters_concat vss rs : Forall2 for_voters vss rs -> for_voters (concat vss) (concat rs).
Proof. induction 1; [done|]. by apply for_voters_app. Qed.

(** The window of tasks neither loses nor reorders voters. *)
Lemma returns_batch_loop b keys : forall todo handles acc (raw : BatchResult) before chunks,
  acc = omap (complete_voter keys) raw -> for_voters before raw ->
  Forall2 handle_for chunks handles ->
  returns (batch_loop (S := S) b keys todo handles acc)
    (fun x => exists (raw' : BatchResult) before' chunks',
       x.2 = omap (complete_voter keys) raw' /\ for_voters before' raw' /\
       Forall2 handle_for chunks' x.1 /\
       before' ++ concat chunks' = before ++ concat chunks ++ concat todo).
Proof.
  induction todo as [|chunk todo IH]; intros handles acc raw before chunks Hacc Hraw Hh; cbn [batch_loop].
  { apply returns_ret. exists raw, before, chunks. by rewrite app_nil_r. }
  eapply returns_bind; [apply returns_catch, returns_batch_attempts|]. intros handle Hhandle.
  assert (Forall2 handle_for (chunks ++ [chunk]) (handles ++ [handle])) as Hh'
    by (apply Forall2_app; [done|by repeat constructor]).
  assert (concat (chunks ++ [chunk]) = concat chunks ++ chunk) as Hc
    by (rewrite concat_app; cbn; by rewrite app_nil_r).
  destruct (handles ++ [handle]) as [|oldest younger] eqn:Eh; [by destruct handles|].
  apply Forall2_cons_inv_r in Hh' as (c0 & cs & H0 & Hy & Hcs). rewrite Hcs in Hc. cbn in Hc.
  case_match.
  - eapply (returns_bind _ _ (fun _ => True)); [by apply returns_ask|]. intros joined _.
    eapply (returns_bind _ _ (for_voters c0)).
    { apply returns_of_result. intros r Hr. pose proof (join_batch_for c0 joined oldest H0) as H'.
      by rewrite Hr in H'. }
    intros results Hr. eapply returns_weaken.
    { apply (IH _ _ (raw ++ results) (before ++ c0) cs); [|by apply for_voters_app|done].
      by rewrite Hacc, omap_app. }
    intros x (raw' & before' & chunks' & Hx & Hf & Hfs & Heq). exists raw', before', chunks'.
    split_and!; [done..|]. rewrite Heq. cbn. rewrite <- !app_assoc. f_equal.
    rewrite app_assoc, Hc. by rewrite <- app_assoc.
  - eapply returns_weaken; [apply (IH _ _ raw before (c0 :: cs)); [done..|by constructor]|].
    intros x (raw' & before' & chunks' & Hx & Hf & Hfs & Heq). exists raw', before', chunks'.
    split_and!; [done..|]. rewrite Heq. f_equal. cbn. by rewrite Hc, <- app_assoc.
Qed.

Lemma returns_join_handles chunks handles : Forall2 handle_for chunks handles ->
  returns (join_handles (S := S) handles) (Forall2 handle_for chunks).
Proof.
  induction 1 as [|c handle cs hs Hc Hcs IH]; cbn [join_handles]; [by apply returns_ret|].
  eapply (returns_bind _ _ (fun _ => True)); [by apply returns_ask|]. intros joined _.
  eapply returns_bind; [exact IH|]. intros rest Hrest. apply returns_ret.
  constructor; [by apply join_batch_for|done].
Qed.

(** A list of voters comes from batch entries for [vs], in order. *)
Definition from_voters (keys : gset Z) (vs : list (AccountId * Z)) (l : list NominatorData) : Prop :=
  exists raw : BatchResult, for_voters vs raw /\ l = omap (complete_voter keys) raw.

Lemma returns_fetch_voters limit b :
  returns (fetch_voters (S := S) limit b)
    (fun l => exists keys vs all, NoDup vs.*1 /\ from_voters keys vs all /\ l = take (Z.to_nat limit) all).
Proof.
  unfold fetch_voters. eapply returns_bind; [apply returns_fetch_voter_list|]. intros vs [Hnd _].
  eapply (returns_bind _ _ (fun _ => True)).
  { unfold fetch_validator_keys. returns_skip. by apply returns_of_result. }
  intros keys _. eapply returns_bind; [by apply (returns_batch_loop b keys _ _ _ [] [] [])|].
  intros [handles acc] (raw & before & chunks' & Hx & Hf & Hh & Heq). cbn [fst snd] in *.
  eapply returns_bind; [by apply returns_join_handles|]. intros rs Hrs.
  eapply (returns_bind _ _ (Forall2 for_voters chunks')).
  { apply returns_of_result. intros l. by apply collect_results_Forall2. }
  intros remaining Hrem%for_voters_concat. apply returns_ret.
  cbn in Heq. rewrite chunks_concat in Heq by (unfold BATCH_SIZE; lia).
  exists keys, vs, (acc ++ omap (complete_voter keys) (concat remaining)). split_and!; [done| |].
  - exists (raw ++ concat remaining). split; [|by rewrite Hx, omap_app].
    rewrite <- Heq. by apply for_voters_app.
  - case_match eqn:E; [done|]. apply Z.ltb_ge in E. by rewrite take_ge by lia.
Qed.

End any_environment.

(** ** Retries *)
Section retries.
Context `{T : MinerConfig} {S : Type}.

(** The sleeps of a trace, newest first. *)
Definition sleep_of (e : event) : option Z :=
  match e with Event o _ => match o with Sleep ms => Some ms | _ => None end end.
Definition sleeps (t : trace) : list Z := omap sleep_of t.

Definition slept (ss : list Z) (_ : S) (t : trace) : Prop := sleeps t = ss.

Ltac no_sleep := intros ? ? ? ?; assumption.
Ltac keeps_slept := repeat (keeps_step no_sleep).

Lemma keeps_join_all {A B} I (f : A -> M S B) xs :
  (forall x, keeps I (f x) anything) -> keeps I (join_all (f <$> xs)) anything.
Proof.
  intros Hf. induction xs as [|x xs IH]; cbn [join_all fmap list_fmap]; [by apply keeps_ret|].
  eapply keeps_bind; [apply keeps_catch, Hf|]. intros r.
  eapply keeps_bind; [exact IH|]. intros rs. by apply keeps_ret.
Qed.

Lemma keeps_slept_batch ss chunk b : keeps (slept ss) (fetch_voter_batch chunk b) anything.
Proof.
  unfold fetch_voter_batch. eapply keeps_bind; [apply keeps_join_all|].
  - intros [a sc]. unfold fetch_voter. keeps_slept.
  - intros rs. keeps_slept.
Qed.

Lemma keeps_slept_display ss e : keeps (slept ss) (display_error e) anything.
Proof. destruct e; cbn [display_error]; keeps_slept. Qed.

Lemma batch_attempts_sleeps chunk b n : forall attempt last_error (s : S) t,
  Z.of_nat n + attempt = Z.of_nat MAX_RETRIES + 1 -> (0 < n)%nat ->
  wp Itrue (batch_attempts n attempt last_error chunk b)
    (fun o _ t' => (forall msg, o <> Panic msg) /\ exists k, (k < n)%nat /\
       sleeps t' = reverse (retry_delay <$> seqZ attempt (Z.of_nat k)) ++ sleeps t) s t.
Proof.
  induction n as [|n IH]; intros attempt last_error s t Hn Hpos; [lia|]. cbn [batch_attempts].
  assert (forall (o : outcome BatchResult) t', (forall msg, o <> Panic msg) -> sleeps t' = sleeps t ->
    (forall msg, o <> Panic msg) /\ exists k, (k < Datatypes.S n)%nat /\
      sleeps t' = reverse (retry_delay <$> seqZ attempt (Z.of_nat k)) ++ sleeps t) as Hend.
  { intros o t' Ho Ht. split; [done|]. exists 0%nat. split; [lia|done]. }
  assert (wp Itrue (catch (fetch_voter_batch chunk b))
            (fun o _ t' => (exists r, o = Ok r) /\ sleeps t' = sleeps t) s t) as Hbatch.
  { apply wp_catch. eapply wp_mono; [| |apply wp_and; [apply (keeps_slept_batch (sleeps t) chunk b); reflexivity|apply (returns_fetch_voter_batch chunk b)]]; [done|].
    intros [r|e|m|] s' t' [[Ht _] Hr]; try done; eauto. }
  apply wp_bind. eapply wp_mono; [done| |exact Hbatch].
  intros o s' t' [[[r|e] ->] Ht]; cbn [bind_post]; [by apply wp_ret, Hend|].
  apply wp_bind. eapply wp_mono; [| |apply wp_and; [apply (keeps_slept_display (sleeps t) e); exact Ht|apply (returns_display e)]]; [done|].
  intros [msg|e'|m|] s'' t'' [[Ht' _] Hr]; try done; cbn [bind_post]; [|by apply Hend].
  destruct (is_retryable msg && (attempt <? Z.of_nat MAX_RETRIES)) eqn:Hretry; [|by apply wp_throw, Hend].
  apply andb_prop in Hretry as [_ Hlt%Z.ltb_lt].
  apply wp_bind. intros []. split; [done|]. apply wp_ret. cbn [bind_post].
  eapply wp_mono; [done| |apply IH; lia].
  intros o s3 t3 (Hp & k & Hk & Hs). split; [done|]. exists (Datatypes.S k). split; [lia|].
  rewrite Hs. cbn [sleeps omap list_omap sleep_of]. fold (sleeps t''). rewrite Ht'.
  rewrite (seqZ_cons attempt) by lia. replace (Z.pred (Z.of_nat (Datatypes.S k))) with (Z.of_nat k) by lia.
  rewrite fmap_cons, reverse_cons, <- app_assoc. done.
Qed.

End retries.

(** ** Against a node that serves one state

    The staking state at a block: the storage of the bags-list pallet and the
    contents it represents, the validators in the order of the iteration, and
    the nominations, controllers and ledgers of accounts. *)
Record StakingState : Type := {
  st_bags : gmap Z ListBag;
  st_nodes : gmap Z VoterNode;
  st_contents : BagContents;
  st_validators : list AccountId;
  st_nominators : AccountId -> Fetched Nominations;
  st_controller : AccountId -> AccountId;
  st_ledger : AccountId -> Fetched LedgerValue;
}.

(** The stake of a voter: the active stake of its ledger, else its score. *)
Definition npos_stake (st : StakingState) (a : AccountId) (score : Z) : Z :=
  match st_ledger st (st_controller st a) with
  | Some (ok value) => default score (as_u64 <$> ledger_active value)
  | _ => score
  end.

(** Nominators vote for their targets, validators without nominations for
    themselves. *)
Definition npos_voter (st : StakingState) (v : AccountId * Z) : option NominatorData :=
  let '(a, score) := v in
  match st_nominators st a with
  | Some (ok n) =>
      if suppressed n || bool_decide (targets n = []) then None
      else Some (a, npos_stake st a score, targets n)
  | Some (err _) => None
  | None => if decide (a ∈ st_validators st) then Some (a, npos_stake st a score, [a]) else None
  end.

(** The first eligible voters among the first [limit + 100] of the bags. *)
Definition npos_voters (st : StakingState) (limit : Z) : list NominatorData :=
  take (Z.to_nat limit)
    (omap (npos_voter st)
       (take (Z.to_nat (extended_voter_limit limit)) (concat (st_contents st).*2))).

(** The validators with the active stake of their ledger, else its total. *)
Definition npos_candidates (st : StakingState) : list ValidatorData :=
  (fun a => (a, candidate_stake (st_ledger st (st_controller st a)))) <$> st_validators st.

Section serving.
Context `{T : MinerConfig}.

Record serves (h : handler) (b : AtBlock) (st : StakingState) : Prop := {
  serves_bags t : exists items,
    answer h _ (IterListBags b) t = ok items /\ collect_bags items ∅ = ok (st_bags st);
  serves_nodes t : exists items,
    answer h _ (IterListNodes b) t = ok items /\ collect_nodes items ∅ = ok (st_nodes st);
  serves_validators t : exists keys,
    answer h _ (IterValidators b) t = ok (ok <$> keys) /\
    account_of_key <$> keys = Some <$> st_validators st;
  serves_nominators a t : answer h _ (TryFetchNominators b a) t = ok (st_nominators st a);
  serves_bonded a t : exists bonded,
    answer h _ (TryFetchBonded b a) t = ok bonded /\ ledger_key a bonded = ok (st_controller st a);
  serves_ledger a t : answer h _ (TryFetchLedger b a) t = ok (st_ledger st a);
  serves_joins t : answer h _ JoinTask t = None;
}.

Context {S : Type} (h : handler) (b : AtBlock) (st : StakingState) (Hst : serves h b st).

Lemma yields_join_all {A B} (f : A -> M S B) (g : A -> B) xs :
  (forall x, yields h (f x) (.= g x)) ->
  yields h (join_all (f <$> xs)) (fun rs => collect_results rs = ok (g <$> xs)).
Proof.
  intros Hf. induction xs as [|x xs IH]; cbn [join_all fmap list_fmap]; [by apply yields_ret|].
  eapply yields_bind; [apply yields_catch, Hf|]. intros r (a & -> & ->).
  eapply yields_bind; [exact IH|]. intros rs Hrs. apply yields_ret. cbn. by rewrite Hrs.
Qed.

Lemma yields_bonded {B} a (k : AccountId -> M S B) P :
  yields h (k (st_controller st a)) P ->
  yields h (bonded ← query (TryFetchBonded b a); key ← of_result (ledger_key a bonded); k key) P.
Proof.
  intros Hk. eapply yields_bind; [apply yields_query, (serves_bonded _ _ _ Hst a)|].
  intros bonded Hb. cbn beta in Hb. rewrite Hb. exact Hk.
Qed.

Lemma yields_fetch_stake a :
  yields h (fetch_stake (S := S) b a) (.= candidate_stake (st_ledger st (st_controller st a))).
Proof.
  apply yields_bonded. eapply yields_bind; [apply yields_query_eq, (serves_ledger _ _ _ Hst _)|].
  intros l ->. by apply yields_ret.
Qed.

Lemma candidate_accounts_served keys : forall accounts,
  account_of_key <$> keys = Some <$> accounts -> candidate_accounts (ok <$> keys) = ok accounts.
Proof.
  induction keys as [|k keys IH]; intros [|a accounts]; try done.
  cbn. intros [= Hk Hks]. by rewrite Hk, (IH accounts).
Qed.

Lemma validator_key_set_served keys : forall accounts acc,
  account_of_key <$> keys = Some <$> accounts ->
  exists keys', validator_key_set (ok <$> keys) acc = ok keys' /\
    forall a, a ∈ keys' <-> a ∈ accounts \/ a ∈ acc.
Proof.
  induction keys as [|k keys IH]; intros [|a accounts] acc; try done.
  - intros _. exists acc. split; [done|]. set_solver.
  - cbn. intros [= Hk Hks]. rewrite Hk.
    destruct (IH accounts ({[a]} ∪ acc) Hks) as (keys' & Hkeys & Hin).
    exists keys'. split; [done|]. set_solver.
Qed.

Lemma yields_fetch_candidates : yields h (fetch_candidates (S := S) b) (.= npos_candidates st).
Proof.
  unfold fetch_candidates.
  eapply (yields_bind _ _ _ (fun items => candidate_accounts items = ok (st_validators st))).
  { apply yields_query. intros t. destruct (serves_validators _ _ _ Hst t) as (keys & Hk & Ha).
    exists (ok <$> keys). split; [done|]. by apply candidate_accounts_served. }
  intros items Hitems. eapply yields_bind; [by apply (yields_of_result _ _ (.= st_validators st) _ Hitems)|].
  intros ? ->. eapply yields_bind; [apply yields_join_all, yields_fetch_stake|].
  intros rs Hrs. rewrite Hrs. apply yields_ret, zip_image.
Qed.

Lemma yields_fetch_voter_list limit :
  0 <= limit -> represents (st_bags st) (st_nodes st) (st_contents st) ->
  yields h (fetch_voter_list (S := S) limit b)
    (.= take (Z.to_nat (extended_voter_limit limit)) (concat (st_contents st).*2)).
Proof.
  intros Hl Hrep. unfold fetch_voter_list.
  eapply yields_bind; [apply yields_query, (serves_bags _ _ _ Hst)|]. cbn beta. intros ? ->.
  eapply yields_bind; [by apply (yields_of_result _ _ (.= st_bags st) _ eq_refl)|]. intros ? ->.
  eapply yields_bind; [apply yields_query, (serves_nodes _ _ _ Hst)|]. cbn beta. intros ? Hnodes.
  rewrite Hnodes.
  eapply yields_bind; [by apply (yields_of_result _ _ (.= st_nodes st) _ eq_refl)|]. intros ? ->.
  rewrite (voters_of_bags_represented _ _ _ (st_contents st)); [by apply yields_ret|done| |done].
  eapply collect_nodes_keyed; [|exact Hnodes]. apply map_Forall_empty.
Qed.

(** What a batch reads for a voter. *)
Definition served_entry (v : AccountId * Z) : AccountId * Z * option (list AccountId) :=
  (v.1, npos_stake st v.1 v.2, nominated_targets (st_nominators st v.1)).

Lemma yields_batch_task chunk :
  yields h (batch_task (S := S) chunk b) (.= served_entry <$> chunk).
Proof.
  unfold batch_task. cbn [batch_attempts Nat.add MAX_RETRIES].
  eapply (yields_bind _ _ _ (fun r => r = ok (served_entry <$> chunk))); [|intros ? ->; by apply yields_ret].
  eapply yields_weaken; [apply (yields_catch _ _ (.= served_entry <$> chunk))|by intros ? (? & -> & ->)].
  unfold fetch_voter_batch. eapply yields_bind.
  { apply (yields_join_all _ (fun v => (v.1, npos_stake st v.1 v.2, st_nominators st v.1))).
    intros [a sc]. unfold fetch_voter.
    eapply yields_bind; [apply yields_query_eq, (serves_nominators _ _ _ Hst _)|]. intros ? ->.
    apply yields_bonded.
    eapply yields_bind; [apply yields_query_eq, (serves_ledger _ _ _ Hst _)|]. intros ? ->.
    apply yields_ret. unfold npos_stake, voter_stake. cbn.
    destruct (st_ledger st _) as [[value|]|]; [|done..]. by destruct (ledger_active value). }
  intros rs Hrs. rewrite Hrs. apply yields_ret. by rewrite <- list_fmap_compose.
Qed.

(** The window: what was collected and what the handles hold is all there is. *)
Lemma yields_batch_loop keys : forall todo held acc,
  yields h (batch_loop (S := S) b keys todo (ok <$> held) acc)
    (fun x => exists held', x.1 = ok <$> held' /\
       x.2 ++ omap (complete_voter keys) (concat held')
       = acc ++ omap (complete_voter keys) (concat held ++ (served_entry <$> concat todo))).
Proof.
  induction todo as [|chunk todo IH]; intros held acc; cbn [batch_loop].
  { apply yields_ret. exists held. cbn. by rewrite app_nil_r. }
  eapply yields_bind; [apply yields_catch, yields_batch_task|]. intros ? (? & -> & ->).
  case_match eqn:Eh; [by destruct held|].
  match type of Eh with _ = ?ho :: ?hy =>
    assert (ho :: hy = ok <$> (held ++ [served_entry <$> chunk])) as Ho
      by (rewrite fmap_app; symmetry; exact Eh)
  end. clear Eh.
  assert (concat (held ++ [served_entry <$> chunk]) ++ (served_entry <$> concat todo)
          = concat held ++ (served_entry <$> concat (chunk :: todo))) as Hc.
  { rewrite concat_app. cbn. rewrite app_nil_r, fmap_app. by rewrite <- app_assoc. }
  destruct (held ++ [served_entry <$> chunk]) as [|oldest younger] eqn:E; [by destruct held|].
  injection Ho as -> ->. case_match.
  - eapply (yields_bind _ _ _ (.= None)); [apply yields_ask, (serves_joins _ _ _ Hst)|]. intros ? ->.
    eapply (yields_bind _ _ _ (.= oldest)); [by apply yields_ret|]. intros ? ->.
    eapply yields_weaken; [apply IH|]. intros x (held' & Hx & Heq). exists held'. split; [done|].
    rewrite Heq, <- Hc. cbn. by rewrite <- !app_assoc, (omap_app _ oldest).
  - eapply yields_weaken; [apply (IH (oldest :: younger))|]. intros x (held' & Hx & Heq).
    exists held'. split; [done|]. by rewrite Heq, Hc.
Qed.

Lemma yields_join_handles held :
  yields h (join_handles (S := S) (ok <$> held)) (fun rs => collect_results rs = ok held).
Proof.
  induction held as [|r held IH]; cbn [join_handles fmap list_fmap]; [by apply yields_ret|].
  eapply (yields_bind _ _ _ (.= None)); [apply yields_ask, (serves_joins _ _ _ Hst)|]. intros ? ->.
  eapply yields_bind; [exact IH|]. intros rs Hrs. apply yields_ret. cbn. by rewrite Hrs.
Qed.

Lemma complete_voter_served keys (l : list (AccountId * Z)) :
  (forall a, a ∈ keys <-> a ∈ st_validators st) ->
  omap (complete_voter keys) (served_entry <$> l) = omap (npos_voter st) l.
Proof.
  intros Hk. induction l as [|[a sc] l IH]; [done|]. cbn. rewrite IH.
  destruct (st_nominators st a) as [[n|]|]; cbn.
  - destruct (suppressed n); [done|]. cbn. by destruct (targets n).
  - done.
  - by rewrite (decide_ext (a ∈ keys) (a ∈ st_validators st)).
Qed.

Lemma yields_fetch_voters limit :
  0 <= limit -> represents (st_bags st) (st_nodes st) (st_contents st) ->
  yields h (fetch_voters (S := S) limit b) (.= npos_voters st limit).
Proof.
  intros Hl Hrep. unfold fetch_voters.
  eapply yields_bind; [by apply yields_fetch_voter_list|]. intros ? ->.
  eapply (yields_bind _ _ _ (fun keys => forall a, a ∈ keys <-> a ∈ st_validators st)).
  { unfold fetch_validator_keys.
    eapply (yields_bind _ _ _ (fun items => exists keys, validator_key_set items ∅ = ok keys /\
              forall a, a ∈ keys <-> a ∈ st_validators st)).
    - apply yields_query. intros t. destruct (serves_validators _ _ _ Hst t) as (keys & Hk & Ha).
      exists (ok <$> keys). split; [done|].
      destruct (validator_key_set_served keys _ ∅ Ha) as (keys' & Hk' & Hin).
      exists keys'. split; [done|]. set_solver.
    - intros items (keys & -> & Hkeys). by apply yields_ret. }
  intros keys Hkeys. eapply yields_bind; [apply (yields_batch_loop keys _ [] [])|].
  intros [handles acc] (held & Hx & Heq). cbn [fst snd] in *. rewrite Hx.
  eapply yields_bind; [apply yields_join_handles|]. intros rs Hrs.
  eapply (yields_bind _ _ _ (.= held)); [by apply (yields_of_result _ _ _ _ Hrs)|]. intros ? ->.
  apply yields_ret. rewrite Heq, chunks_concat by (unfold BATCH_SIZE; lia).
  cbn [app concat]. rewrite complete_voter_served by done. unfold npos_voters.
  case_match eqn:E; [done|]. apply Z.ltb_ge in E. symmetry. apply take_ge. lia.
Qed.

End serving.

(** ** The theorems *)

(** C15: The walk over the linked list of a bag ends on any links, also when they
    form a cycle or leave the list: one step more than there are nodes is
    enough, and more steps do not change what it found. *)
Theorem voter_list_walk_terminates limit nodes cur w :
  exists w', forall fuel, (walk_fuel nodes <= fuel)%nat ->
    walk_bag fuel limit nodes cur w = Some w'.
Proof.
  destruct (walk_bag_enough limit nodes (walk_fuel nodes) cur w) as [w' Hw].
  - unfold walk_fuel, unvisited. apply Nat.lt_succ_r. rewrite <- size_dom. apply subseteq_size. set_solver.
  - exists w'. intros fuel Hf. by eapply walk_bag_more.
Qed.


Section staking_theorems.
Context `{T : MinerConfig} {S : Type}.

Lemma from_voters_facts keys vs l : from_voters keys vs l ->
  l.*1.*1 `sublist_of` vs.*1 /\ Forall (fun v => v.2 <> []) l.
Proof.
  intros (raw & Hraw & ->). unfold for_voters in Hraw. rewrite <- Hraw. clear vs Hraw.
  induction raw as [|[[a stake] [ts|]] raw [IH1 IH2]]; cbn; [split; constructor| |].
  - destruct ts as [|x ts]; cbn; [split; [by apply sublist_cons|done]|].
    split; [by apply sublist_skip|by constructor].
  - case_decide; cbn; [split; [by apply sublist_skip|by constructor]|].
    split; [by apply sublist_cons|done].
Qed.

(** C23: Whatever the node answers, [fetch_voters] does not panic, and the voters
    it returns are distinct accounts, at most [voter_limit] many, each with at
    least one target. *)
Theorem fetch_voters_well_formed h limit b (s : S) t :
  match (run h (fetch_voters limit b) s t).1.1 with
  | Ok l => NoDup l.*1.*1 /\ (length l <= Z.to_nat limit)%nat /\ Forall (fun v => v.2 <> []) l
  | Err _ => True
  | Panic _ | Elapsed => False
  end.
Proof.
  pose proof (returns_run _ _ h s t (returns_fetch_voters limit b)) as H.
  destruct (run h _ s t) as [[[l|e|m|] s'] t']; cbn in *; [|done..].
  destruct H as (keys & vs & all & Hnd & [Hsub Hne]%from_voters_facts & ->). split_and!.
  - eapply sublist_NoDup; [exact Hnd|]. etrans; [|exact Hsub].
    do 2 apply fmap_sublist. apply sublist_take.
  - rewrite length_take. lia.
  - by apply Forall_take.
Qed.

(** C10: Against a node that serves one staking state, [fetch_voters] returns the
    voters of the abstract definition: batches of 20, ten tasks in flight and
    the order in which they are joined make no difference. *)
Theorem fetch_voters_refines h b st limit (s : S) t :
  serves h b st -> represents (st_bags st) (st_nodes st) (st_contents st) -> 0 <= limit ->
  exists t', run h (fetch_voters limit b) s t = (Ok (npos_voters st limit), s, t').
Proof.
  intros Hst Hrep Hl. destruct (yields_fetch_voters h b st Hst limit Hl Hrep s t) as (l & t' & Hr & ->).
  by exists t'.
Qed.

(** Against such a node [fetch_candidates] returns every validator, in the
    order of the iteration, with its active stake, else its total, else 0. *)
Theorem fetch_candidates_refines h b st (s : S) t :
  serves h b st ->
  exists t', run h (fetch_candidates b) s t = (Ok (npos_candidates st), s, t').
Proof.
  intros Hst. destruct (yields_fetch_candidates h b st Hst s t) as (l & t' & Hr & ->). by exists t'.
Qed.

(** C39: A batch sleeps between attempts for 2, 4, 8, 16, 32 and then 60 seconds,
    at most eight times, and never panics. *)
Theorem batch_task_backoff h chunk b (s : S) t :
  let '(o, _, t') := run h (batch_task chunk b) s t in
  (forall msg, o <> Panic msg) /\
  exists k, (k <= 8)%nat /\
    sleeps t' = reverse (take k [2000; 4000; 8000; 16000; 32000; 60000; 60000; 60000]) ++ sleeps t.
Proof.
  pose proof (wp_run _ _ _ s t h (batch_attempts_sleeps chunk b (MAX_RETRIES + 1) 0 None s t
                eq_refl ltac:(cbv; lia))) as H.
  fold (batch_task (S := S) chunk b) in H. destruct (run h _ s t) as [[o s'] t'].
  destruct H as (Hp & k & Hk & Hs). split; [done|]. exists k.
  assert (k <= 8)%nat as Hk' by (unfold MAX_RETRIES in Hk; lia). split; [done|].
  rewrite Hs. do 2 f_equal. clear -Hk'. do 9 (destruct k as [|k]; [done|]). lia.
Qed.

End staking_theorems.

(** ** A node with two bags

    Bag 200 holds the validator 1 and the nominator 2, bag 100 the suppressed
    nominator 3 and the account 4, which neither nominates nor validates. *)
Module TwoBags.

Definition account_key (a : Z) : list Z := replicate 40 9 ++ replicate 31 0 ++ [a].
Definition bag_key (k : Z) : list Z := [9; 9; k] ++ replicate 7 0.

Definition list_node (a : Z) (next : option Z) (bag sc : Z) : ListNode :=
  {| node_id := a; node_prev := None; node_next := next; node_bag_upper := bag; node_score := sc |}.

Definition bag_items : list (Result (KeyValue ListBag) string) :=
  [ok (bag_key 100, ok {| bag_head := Some 3; bag_tail := Some 4 |});
   ok (bag_key 200, ok {| bag_head := Some 1; bag_tail := Some 2 |})].

Definition node_items : list (Result (KeyValue ListNode) string) :=
  [ok (account_key 3, ok (list_node 3 (Some 4) 100 30));
   ok (account_key 2, ok (list_node 2 None 200 140));
   ok ([1; 2], ok (list_node 7 None 100 1));
   ok (account_key 1, ok (list_node 1 (Some 2) 200 150));
   ok (account_key 4, ok (list_node 4 None 100 20))].

Definition nominators (a : Z) : Fetched Nominations :=
  if a =? 2 then Some (ok {| targets := [1; 5]; submitted_in := 0; suppressed := false |})
  else if a =? 3 then Some (ok {| targets := [1]; submitted_in := 0; suppressed := true |})
  else None.

Definition ledger (a : Z) : Fetched LedgerValue :=
  if a =? 1 then Some (ok {| ledger_active := Some 155; ledger_total := Some 200 |})
  else if a =? 5 then Some (ok {| ledger_active := None; ledger_total := Some 9 |})
  else None.

(** Account 2 has another account as its controller. *)
Definition bonded (a : Z) : option (list Z) := if a =? 2 then Some (account_key 12) else None.

Definition answers {R} (o : op R) (t : trace) : R :=
  match o in op R return R with
  | IterListBags _ => ok bag_items
  | IterListNodes _ => ok node_items
  | IterValidators _ => ok [ok (account_key 5); ok (account_key 1)]
  | TryFetchNominators _ a => ok (nominators a)
  | TryFetchBonded _ a => ok (bonded a)
  | TryFetchLedger _ a => ok (ledger a)
  | JoinTask => None
  | o => node_answer good_node o t
  end.

Definition node : handler := {| answer := fun R o t => answers o t; fires := fun _ _ => false |}.

Definition contents : BagContents := [(200, [(1, 150); (2, 140)]); (100, [(3, 30); (4, 20)])].

Definition get_ok {A E} (d : A) (r : Result A E) : A := match r with ok a => a | err _ => d end.

Definition state : StakingState := {|
  st_bags := get_ok ∅ (collect_bags bag_items ∅);
  st_nodes := get_ok ∅ (collect_nodes node_items ∅);
  st_contents := contents;
  st_validators := [5; 1];
  st_nominators := nominators;
  st_controller := fun a => if a =? 2 then 12 else a;
  st_ledger := ledger;
|}.

Lemma node_serves b : serves node b state.
Proof.
  split; try done.
  - by exists bag_items.
  - by exists node_items.
  - by exists [account_key 5; account_key 1].
  - intros a t. exists (bonded a). split; [done|]. unfold bonded, state. cbn. by destruct (a =? 2).
Qed.


Local Ltac link :=
  lazymatch goal with
  | |- linked _ _ [] => reflexivity
  | |- linked _ _ (_ :: _) => split; [reflexivity|]
  | |- exists n, _ !! _ = Some n /\ _ => eexists; split; [by vm_compute|]
  end.

Lemma state_represents : represents (st_bags state) (st_nodes state) (st_contents state).
Proof.
  split.
  - cbn. repeat constructor; lia.
  - intros k. rewrite <- elem_of_dom.
    assert (dom (st_bags state) = list_to_set contents.*1) as -> by (by vm_compute).
    by rewrite elem_of_list_to_set.
  - apply Forall_cons. split; [|apply Forall_singleton]; eexists;
      (split; [by vm_compute|]); repeat (link || (split; [done|])).
  - cbn. repeat (apply NoDup_cons; split; [set_solver|]). apply NoDup_nil_2.
Qed.

End TwoBags.


Lemma fetch_voters_refines_witness :
  exists t', run TwoBags.node (fetch_voters 10 block0) tt []
             = (Ok [(1, 155, [1]); (2, 140, [1; 5])], tt, t').
Proof.
  apply (fetch_voters_refines TwoBags.node block0 TwoBags.state 10 tt []).
  - apply TwoBags.node_serves.
  - exact TwoBags.state_represents.
  - lia.
Defined.

Lemma fetch_candidates_refines_witness :
  exists t', run TwoBags.node (fetch_candidates block0) tt [] = (Ok [(5, 9); (1, 155)], tt, t').
Proof.
  apply (fetch_candidates_refines TwoBags.node block0 TwoBags.state tt []). apply TwoBags.node_serves.
Defined.

(** A bag whose links form a cycle: the walk stops where it started. *)
Example cyclic_bag :
  voters_of_bags 5 {[ 1 := {| bag_head := Some 7; bag_tail := None |} ]}
    {[ 7 := {| vn_id := 7; vn_score := 3; vn_next := Some 8; vn_bag_upper := 1 |};
       8 := {| vn_id := 8; vn_score := 2; vn_next := Some 7; vn_bag_upper := 1 |} ]}
  = Some [(7, 3); (8, 2)].
Proof. by vm_compute. Qed.
