(* ===== verification/Predictions.v ===== *)
(** * Predictions

    The rest of [src/dynamic/election_data.rs]: reading the election data from
    the snapshot or from staking, turning it into the input of the miner, and
    turning a mined solution into the predictions for validators and nominators,
    with their types of [src/commands/types.rs] and the JSON files of
    [src/utils.rs]. *)

From S2P Require Import Prelude RustStr Errors Chain Metrics Types Effects ElectionData Tokens SnapshotFetch Staking.
Local Open Scope Z_scope.

(** ** Types *)

Record PredictionMetadata : Type := {
  timestamp : string;
  desired_validators : Z;
  pm_round : Z;
  pm_block_number : Z;
  solution_score : option ElectionScore;
  pm_data_source : string;
}.

Record NominatorAllocation : Type := {
  na_address : string;
  na_allocated_stake : string;
}.

Record ValidatorInfo : Type := {
  vi_account : string;
  vi_total_stake : string;
  vi_self_stake : string;
  vi_nominator_count : nat;
  vi_nominators : list NominatorAllocation;
}.

Record ValidatorsPrediction : Type := {
  metadata : PredictionMetadata;
  results : list ValidatorInfo;
}.

Record ValidatorStakeAllocation : Type := {
  vs_validator : string;
  vs_allocated_stake : string;
}.

Record NominatorPrediction : Type := {
  np_address : string;
  np_stake : string;
  active_validators : list ValidatorStakeAllocation;
  inactive_validators : list string;
  waiting_validators : list string;
}.

Record NominatorsPrediction : Type := {
  np_nominators : list NominatorPrediction;
}.

(** [PredictionContext] *)
Record PredictionContext : Type := {
  ctx_round : Z;
  ctx_desired_targets : Z;
  ctx_block_number : Z;
  ctx_ss58_prefix : Z;
  ctx_token_decimals : Z;
  ctx_token_symbol : string;
  ctx_data_source : ElectionDataSource;
}.

(** [OverridesConfig] *)
Inductive OverridesConfig : Type :=
| Path (path : string)
| Data (data : ElectionOverrides).

(** [OverridesConfig::from_str] never fails. *)
Definition overrides_config_from_str (s : string) : OverridesConfig := Path s.

(** ** What other crates compute

    SS58 addresses ([sp_core]), JSON ([serde_json]) and the product of a
    [Percent] ([sp_arithmetic]). *)
Class Foreign : Type := {
  to_ss58check_with_version : AccountId -> Z -> string;
  parse_account : string -> Result AccountId string;
  overrides_from_json : string -> Result ElectionOverrides string;
  validators_to_json : ValidatorsPrediction -> Result string string;
  nominators_to_json : NominatorsPrediction -> Result string string;
  percent_mul : Z -> Z -> Z;
}.

(** [T::MaxVotesPerVoter], a constant of the chosen runtime. *)
Class VotesBound : Type := { max_votes_per_voter : nat }.

(** ** From supports to predictions *)
Section supports.

(** One winner of one page: its total saturates, its voters are appended. *)
Definition add_support (m : gmap Z Support) (x : AccountId * Support) : gmap Z Support :=
  let entry := default {| sup_total := 0; sup_voters := [] |} (m !! x.1) in
  <[x.1 := {| sup_total := u128_saturating_add (sup_total entry) (sup_total x.2);
              sup_voters := sup_voters entry ++ sup_voters x.2 |}]> m.

Definition winner_support_map (page_supports : list (list (AccountId * Support))) : gmap Z Support :=
  foldl add_support ∅ (concat page_supports).

(** The entries of a [BTreeMap], in the order of its keys. *)
Definition btree_entries {A} (m : gmap Z A) : list (Z * A) := sort_by_key fst (map_to_list m).

(** One voter of one winner in the allocation map. *)
Definition add_allocation (validator : AccountId) (m : gmap Z (gmap Z Z)) (v : AccountId * Z)
    : gmap Z (gmap Z Z) :=
  let inner := default ∅ (m !! v.1) in
  <[v.1 := <[validator := match inner !! validator with
                          | Some existing => u128_saturating_add existing v.2
                          | None => v.2
                          end]> inner]> m.

Definition allocation_map (winners : list (AccountId * Support)) : gmap Z (gmap Z Z) :=
  foldl (fun m x => foldl (add_allocation x.1) m (sup_voters x.2)) ∅ winners.

(** The winners by decreasing backing, at most [desired_targets]. *)
Definition winners_sorted (desired_targets : Z) (winners : gmap Z Support)
    : list (Z * Support) :=
  let sorted := sort_by_key (fun x => - sup_total x.2) (btree_entries winners) in
  if desired_targets <? Z.of_nat (length sorted)
  then take (Z.to_nat desired_targets) sorted else sorted.

(** The accounts that are left out of the nominators: the active validators, and
    voters whose only target is themselves. *)
Definition validators_with_only_self_vote (active_set : gset Z) (all_voters : list Voter) : gset Z :=
  list_to_set (filter (fun v => v.1.1 ∈ active_set \/ v.2 = [v.1.1]) all_voters).*1.*1.

(** The stake a validator gave itself: the first entry with its account. *)
Definition self_stake (validator : AccountId) (voters : list (AccountId * Z)) : Z :=
  match list_find (fun v => v.1 = validator) voters with
  | Some (_, v) => v.2
  | None => 0
  end.

(** The other backers, by decreasing stake. *)
Definition validator_nominators (validator : AccountId) (voters : list (AccountId * Z))
    : list (AccountId * Z) :=
  sort_by_key (fun v => - v.2) (filter (fun v => v.1 <> validator) voters).

End supports.

Section predictions.
Context `{F : Foreign}.

(** [encode_account_id]: the registry is only consulted for the log. *)
Definition encode_account_id (account : AccountId) (ss58_prefix : Z) : string :=
  to_ss58check_with_version account ss58_prefix.

Section with_context.
Context (ctx : PredictionContext).

Definition encoded (account : AccountId) : string := encode_account_id account (ctx_ss58_prefix ctx).

(** [None] is a panic of [planck_to_token]. *)
Definition tokens (planck : Z) : option string :=
  planck_to_token planck (ctx_token_decimals ctx) (ctx_token_symbol ctx).

Definition nominator_allocation (v : AccountId * Z) : option NominatorAllocation :=
  stake ← tokens v.2;
  Some {| na_address := encoded v.1; na_allocated_stake := stake |}.

Definition validator_info (x : AccountId * Support) : option ValidatorInfo :=
  let '(validator, support) := x in
  let self := self_stake validator (sup_voters support) in
  let noms := validator_nominators validator (sup_voters support) in
  nominator_allocations ← mapM nominator_allocation noms;
  total_stake ← tokens (sup_total support);
  self_stake ← tokens self;
  Some {| vi_account := encoded validator;
          vi_total_stake := total_stake;
          vi_self_stake := self_stake;
          vi_nominator_count := length noms;
          vi_nominators := nominator_allocations |}.

(** Where a target of a nominator goes. *)
Inductive TargetClass : Type :=
| ActiveTarget (allocated : Z)
| InactiveTarget
| WaitingTarget.

Definition target_class (active_set : gset Z) (allocations : option (gmap Z Z)) (target : AccountId)
    : TargetClass :=
  let allocated := default 0 (allocations ≫= (.!! target)) in
  if decide (target ∈ active_set) then
    if 0 <? allocated then ActiveTarget allocated else InactiveTarget
  else WaitingTarget.

(** [for target in nominated_targets.iter()] *)
Fixpoint classify_targets (active_set : gset Z) (allocations : option (gmap Z Z))
    (nominated : list AccountId)
    : option (list ValidatorStakeAllocation * list string * list string) :=
  match nominated with
  | [] => Some ([], [], [])
  | target :: rest =>
      match target_class active_set allocations target with
      | ActiveTarget allocated =>
          stake ← tokens allocated;
          x ← classify_targets active_set allocations rest;
          let '(active_supported, inactive, waiting) := x in
          Some ({| vs_validator := encoded target; vs_allocated_stake := stake |} :: active_supported,
                inactive, waiting)
      | InactiveTarget =>
          x ← classify_targets active_set allocations rest;
          let '(active_supported, inactive, waiting) := x in
          Some (active_supported, encoded target :: inactive, waiting)
      | WaitingTarget =>
          x ← classify_targets active_set allocations rest;
          let '(active_supported, inactive, waiting) := x in
          Some (active_supported, inactive, encoded target :: waiting)
      end
  end.

Definition nominator_prediction (active_set : gset Z) (allocation : gmap Z (gmap Z Z)) (v : Voter)
    : option NominatorPrediction :=
  let '(nominator, stake, nominated_targets) := v in
  x ← classify_targets active_set (allocation !! nominator) nominated_targets;
  let '(active_supported, inactive, waiting) := x in
  stake ← planck_to_token_u64 stake (ctx_token_decimals ctx) (ctx_token_symbol ctx);
  Some {| np_address := encoded nominator;
          np_stake := stake;
          active_validators := active_supported;
          inactive_validators := inactive;
          waiting_validators := waiting |}.

(** The voters of the snapshot that are nominators. *)
Definition nominators_of (active_set : gset Z) (all_voters : list Voter) : list Voter :=
  filter (fun v => v.1.1 ∉ validators_with_only_self_vote active_set all_voters) all_voters.

End with_context.

Definition data_source_str (s : ElectionDataSource) : string :=
  match s with Snapshot => "snapshot" | Staking => "staking" end.

(** [duration_since(UNIX_EPOCH)] in seconds, or 0 before it. *)
Definition timestamp_str (now : option Z) : string :=
  match now with Some secs => pretty secs | None => "0" end.

End predictions.

Section programs.
Context `{T : MinerConfig} `{F : Foreign} {S : Type}.

Definition no_panic {A} (x : option A) : M S A :=
  match x with Some a => mret a | None => panic "attempt to divide by zero" end.

(** [build_predictions_from_solution] *)
Definition build_predictions_from_solution (solution : PagedRawSolution)
    (target_snapshot : TargetSnapshotPage) (voter_snapshot : list VoterSnapshotPage)
    (ctx : PredictionContext) : M S (ValidatorsPrediction * NominatorsPrediction) :=
  pages ← ask PagesGet;
  let voter_pages_bounded := take (Z.to_nat pages) voter_snapshot in
  evaluated ← ask (EvaluateSupports solution voter_pages_bounded target_snapshot (ctx_desired_targets ctx));
  match evaluated with
  | err e => throw (Error.Other ("Failed to evaluate solution supports: " +:+ e))
  | ok page_supports =>
      let supports := winner_support_map page_supports in
      let allocation := allocation_map (btree_entries supports) in
      let winners := winners_sorted (ctx_desired_targets ctx) supports in
      let active_set : gset Z := list_to_set winners.*1 in
      let all_voters := concat voter_snapshot in
      infos ← no_panic (mapM (validator_info ctx) winners);
      now ← ask SystemTime;
      let metadata := {|
        timestamp := timestamp_str now;
        desired_validators := ctx_desired_targets ctx;
        pm_round := ctx_round ctx;
        pm_block_number := ctx_block_number ctx;
        solution_score := Some (score solution);
        pm_data_source := data_source_str (ctx_data_source ctx) |} in
      nominators ← no_panic (mapM (nominator_prediction ctx active_set allocation)
                               (nominators_of active_set all_voters));
      mret ({| metadata := metadata; results := infos |}, {| np_nominators := nominators |})
  end.

(** ** Election data *)
Context `{V : VotesBound} `{US : UnstableSort}.

(** [a * b] on [u32] in a build without overflow checks. *)
Definition u32_mul (a b : Z) : Z := (a * b) mod 2 ^ 32.

(** [map_err(|e| Error::Other(format!("..: {e}")))] *)
Definition context_error {A} (what : string) (m : M S A) : M S A :=
  r ← catch m;
  match r with
  | ok a => mret a
  | err e => text ← display_error e; throw (Error.Other (what +:+ text))
  end.

(** [get_election_data] *)
Definition get_election_data (n_pages round : Z) (at_block : AtBlock)
    : M S (list ValidatorData * list NominatorData * ElectionDataSource) :=
  r ← catch (try_fetch_snapshot n_pages round at_block);
  match r with
  | ok (target_snapshot, voter_pages) =>
      mret ((fun a => (a, 0)) <$> target_snapshot, concat voter_pages, Snapshot)
  | err _ =>
      candidates ← context_error "Failed to fetch candidates: " (fetch_candidates at_block);
      pages ← ask PagesGet;
      per_block ← ask (ParamGet ParamVoterSnapshotPerBlock);
      let voter_limit := u32_mul pages per_block in
      voters ← context_error "Failed to fetch voters: " (fetch_voters voter_limit at_block);
      mret (candidates, voters, Staking)
  end.

(** [?] on the result of an I/O call. *)
Definition io {A} (o : op (Result A string)) : M S A :=
  r ← ask o;
  match r with ok a => mret a | err e => throw (Error.Io e) end.

(** [?] on the result of [serde_json]. *)
Definition serde {A} (r : Result A string) : M S A :=
  match r with ok a => mret a | err e => throw (Error.SerdeJson e) end.

(** [read_data_from_json_file] *)
Definition read_data_from_json_file {A} (from_json : string -> Result A string) (path : string) : M S A :=
  io (FileOpen path);;
  content ← io (FileReadToString path);
  serde (from_json content).

(** [write_data_to_json_file] *)
Definition write_data_to_json_file {A} (to_json : A -> Result string string) (data : A)
    (path : FilePath) : M S unit :=
  (if decide (parent_dir path = "") then mret tt else io (CreateDirAll (parent_dir path)));;
  io (FileCreate path);;
  json ← serde (to_json data);
  io (FileWriteAll path json);;
  io (FileFlush path).

(** [convert_election_data_to_snapshots] with the parameter types of this moment. *)
Definition convert_with_params (candidates : list ValidatorData) (voters : list NominatorData)
    (data_source : ElectionDataSource) : M S (TargetSnapshotPage * list VoterSnapshotPage) :=
  pages ← ask PagesGet;
  voters_per_block ← ask (ParamGet ParamVoterSnapshotPerBlock);
  targets_per_block ← ask (ParamGet ParamTargetSnapshotPerBlock);
  let bounds := {|
    Pages := pages;
    VoterSnapshotPerBlock := Z.to_nat voters_per_block;
    TargetSnapshotPerBlock := Z.to_nat targets_per_block;
    MaxVotesPerVoter := max_votes_per_voter |} in
  mret (convert_election_data_to_snapshots (B := bounds) candidates voters data_source).

(** [fetch_snapshots] *)
Definition fetch_snapshots (n_pages current_round : Z) (at_block : AtBlock)
    (overrides : option OverridesConfig)
    : M S (TargetSnapshotPage * list VoterSnapshotPage * ElectionDataSource) :=
  x ← get_election_data n_pages current_round at_block;
  let '(candidates, nominators, data_source) := x in
  y ← match overrides with
      | Some overrides_config =>
          overrides_to_apply ←
            match overrides_config with
            | Path path => read_data_from_json_file overrides_from_json path
            | Data data => mret data
            end;
          of_result (apply_overrides parse_account candidates nominators overrides_to_apply)
      | None => mret (candidates, nominators)
      end;
  let '(candidates, nominators) := y in
  z ← convert_with_params candidates nominators data_source;
  mret (z, data_source).

End programs.
