(* ===== verification/PredictionsSpec.v ===== *)
(** * Theorems on the predictions

    What the supports of a solution become: the ranking of the winners, the
    stake each nominator gives to each of them, and where every target of a
    nominator is listed; and what the election data is when there is no
    snapshot. *)

From S2P Require Import Prelude RustStr Errors Chain Metrics Types Effects Calls Scenario ElectionData ElectionDataSpec Tokens SnapshotFetch Staking StakingSpec Predictions.
Local Open Scope Z_scope.

(** ** Supports *)

Fixpoint sum_Z (l : list Z) : Z := match l with [] => 0 | x :: l => x + sum_Z l end.

Lemma sum_Z_app l1 l2 : sum_Z (l1 ++ l2) = sum_Z l1 + sum_Z l2.
Proof. induction l1 as [|x l1 IH]; cbn in *; lia. Qed.

Lemma sum_Z_nonneg l : Forall (fun x => 0 <= x) l -> 0 <= sum_Z l.
Proof. induction 1; cbn; lia. Qed.

(** A sum that saturates at the end is one that saturates at every step. *)
Definition saturated (x : Z) : Z := Z.min u128_max x.

Lemma saturated_add x y : 0 <= y -> u128_saturating_add (saturated x) y = saturated (x + y).
Proof. unfold u128_saturating_add, saturated. lia. Qed.

(** The supports several pages give to one winner, together. *)
Definition merged (l : list Support) : Support :=
  {| sup_total := saturated (sum_Z (sup_total <$> l)); sup_voters := concat (sup_voters <$> l) |}.

Definition supports_of (a : AccountId) (l : list (AccountId * Support)) : list Support :=
  (filter (fun x => x.1 = a) l).*2.

Lemma supports_of_snoc a l x :
  supports_of a (l ++ [x]) = supports_of a l ++ (if decide (x.1 = a) then [x.2] else []).
Proof.
  unfold supports_of. rewrite filter_app, fmap_app. f_equal.
  rewrite filter_cons. by case_decide.
Qed.

Lemma foldl_add_support (l : list (AccountId * Support)) : Forall (fun x => 0 <= sup_total x.2) l ->
  forall a, foldl add_support ∅ l !! a
            = match supports_of a l with [] => None | cs => Some (merged cs) end.
Proof.
  induction l as [|x l IH] using rev_ind; intros Hl a; [done|].
  apply Forall_app in Hl as [Hl Hx]. rewrite Forall_singleton in Hx. specialize (IH Hl).
  rewrite foldl_app, supports_of_snoc. cbn. unfold add_support at 1.
  destruct (decide (x.1 = a)) as [<-|Hne].
  - rewrite lookup_insert_eq, IH.
    assert (default {| sup_total := 0; sup_voters := [] |}
              match supports_of x.1 l with [] => None | cs => Some (merged cs) end
            = merged (supports_of x.1 l)) as -> by by destruct (supports_of x.1 l).
    destruct (supports_of x.1 l ++ [x.2]) as [|c cs] eqn:E; [by destruct (supports_of x.1 l)|].
    rewrite <- E. unfold merged. rewrite !fmap_app, sum_Z_app, concat_app. cbn.
    rewrite saturated_add by exact Hx. by rewrite app_nil_r, Z.add_0_r.
  - rewrite lookup_insert_ne by done. by rewrite app_nil_r, IH.
Qed.

(** ** The winners *)

Definition ranks_before (x y : Z * Support) : Prop :=
  sup_total y.2 < sup_total x.2 \/ sup_total x.2 = sup_total y.2 /\ x.1 < y.1.

Lemma btree_entries_permutation {A} (m : gmap Z A) : btree_entries m ≡ₚ map_to_list m.
Proof. apply sort_by_key_permutation. Qed.

Lemma btree_entries_sorted {A} (m : gmap Z A) :
  StronglySorted (fun x y => x.1 < y.1) (btree_entries m).
Proof.
  pose proof (sort_by_key_sorted fst (map_to_list m)) as Hs. fold (btree_entries m) in Hs.
  assert (NoDup (btree_entries m).*1) as Hnd.
  { rewrite btree_entries_permutation. apply NoDup_fst_map_to_list. }
  induction Hs as [|x l Hl IH Hx]; constructor.
  - apply IH. by apply NoDup_cons in Hnd as [_ ?].
  - apply NoDup_cons in Hnd as [Hx' _]. apply Forall_forall. intros y Hy.
    eapply Forall_forall in Hx; [|done]. assert (x.1 <= y.1) by exact Hx.
    enough (x.1 <> y.1) by lia. intros E. apply Hx'. rewrite E. by apply list_elem_of_fmap_2.
Qed.

(** A stable sort keeps a relation between elements with equal keys. *)
Lemma sort_insert_refines {A} (key : A -> Z) (R : relation A) x l :
  StronglySorted (fun x y => key x < key y \/ key x = key y /\ R x y) l -> Forall (R x) l ->
  StronglySorted (fun x y => key x < key y \/ key x = key y /\ R x y) (sort_insert key x l).
Proof.
  induction 1 as [|y l Hl IH Hy]; intros Hx; cbn; [repeat constructor|].
  apply Forall_cons in Hx as [Hxy Hx].
  destruct (Z.leb_spec (key x) (key y)).
  - constructor; [by constructor|]. apply Forall_cons.
    split; [destruct (decide (key x = key y)); [by right|left; lia]|].
    apply Forall_forall. intros z Hz. eapply Forall_forall in Hy, Hx; [|done..].
    destruct (decide (key x = key z)); [by right|]. left. lia.
  - constructor; [by apply IH|]. rewrite sort_insert_permutation. constructor; [left; lia|done].
Qed.

Lemma sort_by_key_refines {A} (key : A -> Z) (R : relation A) l :
  StronglySorted R l ->
  StronglySorted (fun x y => key x < key y \/ key x = key y /\ R x y) (sort_by_key key l).
Proof.
  induction 1 as [|x l Hl IH Hx]; cbn; [constructor|]. fold (sort_by_key key l).
  apply sort_insert_refines; [done|]. by rewrite sort_by_key_permutation.
Qed.

Lemma StronglySorted_weaken {A} (R R' : relation A) l :
  (forall x y, R x y -> R' x y) -> StronglySorted R l -> StronglySorted R' l.
Proof.
  intros HR. induction 1 as [|x l Hl IH Hx]; constructor; [done|].
  eapply Forall_impl; [exact Hx|]. intros. by apply HR.
Qed.

Lemma winners_sorted_spec desired winners : 0 <= desired ->
  exists rest, winners_sorted desired winners ++ rest ≡ₚ map_to_list winners /\
    StronglySorted ranks_before (winners_sorted desired winners ++ rest) /\
    length (winners_sorted desired winners) = Nat.min (Z.to_nat desired) (size winners).
Proof.
  intros Hd. unfold winners_sorted. cbv zeta.
  pose proof (sort_by_key_refines (fun x => - sup_total x.2) _ _ (btree_entries_sorted winners)) as Hs.
  pose proof (sort_by_key_permutation (fun x => - sup_total x.2) (btree_entries winners)) as Hp.
  revert Hs Hp. generalize (sort_by_key (fun x => - sup_total x.2) (btree_entries winners)) as l.
  intros l Hs Hp. rewrite btree_entries_permutation in Hp.
  assert (length l = size winners) as Hlen by (by rewrite Hp, length_map_to_list).
  assert (StronglySorted ranks_before l) as Hs'.
  { eapply StronglySorted_weaken; [|exact Hs]. intros x y [?|[? ?]]; unfold ranks_before; [left|right]; lia. }
  exists (drop (Z.to_nat desired) l). case_match eqn:E.
  - rewrite take_drop, length_take. split_and!; [done|done|]. by rewrite <- Hlen.
  - apply Z.ltb_ge in E. rewrite drop_ge, app_nil_r by lia. split_and!; [done|done|]. lia.
Qed.

(** ** The allocation of the nominators *)

(** The stakes a voter has in a support. *)
Definition stakes_in (voter : AccountId) (s : list (AccountId * Z)) : list Z :=
  (filter (fun v => v.1 = voter) s).*2.

(** What the allocation map holds for a voter and a validator, 0 without an entry. *)
Definition allocated (m : gmap Z (gmap Z Z)) (voter validator : AccountId) : Z :=
  default 0 ((m !! voter) ≫= (.!! validator)).

Definition is_u128 (x : Z) : Prop := 0 <= x <= u128_max.

Lemma allocated_empty voter validator : allocated ∅ voter validator = 0.
Proof. unfold allocated. by rewrite lookup_empty. Qed.

Lemma allocated_add_same m v voter validator : is_u128 v.2 ->
  0 <= allocated m voter validator <= u128_max ->
  allocated (add_allocation validator m v) voter validator
  = if decide (v.1 = voter) then saturated (allocated m voter validator + v.2)
    else allocated m voter validator.
Proof.
  intros Hv Hm. unfold allocated, add_allocation in *. case_decide as E.
  - subst voter. rewrite lookup_insert_eq. cbn. rewrite lookup_insert_eq. cbn.
    unfold is_u128 in Hv. destruct (m !! v.1) as [inner|]; cbn in *.
    + destruct (inner !! validator); cbn; unfold saturated, u128_saturating_add; lia.
    + rewrite lookup_empty. cbn. unfold saturated. lia.
  - by rewrite lookup_insert_ne.
Qed.

Lemma allocated_add_other m v voter validator validator' : validator' <> validator ->
  allocated (add_allocation validator' m v) voter validator = allocated m voter validator.
Proof.
  intros Hne. unfold allocated, add_allocation. destruct (decide (v.1 = voter)) as [<-|E].
  - rewrite lookup_insert_eq. cbn. rewrite lookup_insert_ne by done. by destruct (m !! v.1).
  - by rewrite lookup_insert_ne.
Qed.

Lemma allocated_support validator voter s : Forall (fun v => is_u128 v.2) s ->
  forall m, 0 <= allocated m voter validator <= u128_max ->
  allocated (foldl (add_allocation validator) m s) voter validator
  = saturated (allocated m voter validator + sum_Z (stakes_in voter s)).
Proof.
  induction s as [|v s IH]; intros Hs m Hm.
  { cbn. unfold saturated. lia. }
  apply Forall_cons in Hs as [Hv Hs]. cbn [foldl].
  pose proof (allocated_add_same m v voter validator Hv Hm) as Ha.
  unfold is_u128 in Hv. unfold stakes_in in *. rewrite filter_cons.
  destruct (decide (v.1 = voter)) as [E|E]; rewrite IH, Ha by
    (done || (rewrite Ha; unfold saturated; lia)); [|done].
  cbn. assert (0 <= sum_Z (filter (fun v => v.1 = voter) s).*2).
  { apply sum_Z_nonneg, Forall_forall. intros x (y & -> & [_ Hy]%list_elem_of_filter)%list_elem_of_fmap.
    rewrite Forall_forall in Hs. apply (Hs y Hy). }
  unfold saturated. lia.
Qed.

Lemma allocated_other_supports voter validator (l : list (AccountId * Support)) : validator ∉ l.*1 -> forall m,
  allocated (foldl (fun m x => foldl (add_allocation x.1) m (sup_voters x.2)) m l) voter validator
  = allocated m voter validator.
Proof.
  induction l as [|[w s] l IH]; intros Hl m; [done|]. cbn [foldl fst snd fmap list_fmap] in *.
  apply not_elem_of_cons in Hl as [Hw Hl]. rewrite IH by done. clear IH.
  generalize (sup_voters s) as vs. intros vs. revert m.
  induction vs as [|v vs IH]; intros m; [done|]. cbn [foldl]. rewrite IH. by apply allocated_add_other.
Qed.

Lemma allocation_map_spec (winners : gmap Z Support) :
  map_Forall (fun _ s => Forall (fun v => is_u128 v.2) (sup_voters s)) winners ->
  forall voter validator,
  allocated (allocation_map (btree_entries winners)) voter validator
  = match winners !! validator with
    | Some s => saturated (sum_Z (stakes_in voter (sup_voters s)))
    | None => 0
    end.
Proof.
  intros Hw voter validator. unfold allocation_map.
  assert (forall x, x ∈ btree_entries winners <-> winners !! x.1 = Some x.2) as Hin.
  { intros [k x]. by rewrite btree_entries_permutation, elem_of_map_to_list. }
  assert (NoDup (btree_entries winners).*1) as Hnd.
  { rewrite btree_entries_permutation. apply NoDup_fst_map_to_list. }
  destruct (winners !! validator) as [s|] eqn:Hs.
  - assert ((validator, s) ∈ btree_entries winners) as Hv by by apply Hin.
    apply list_elem_of_split in Hv as (l1 & l2 & El). rewrite El in *. clear El.
    rewrite fmap_app in Hnd. cbn in Hnd. apply NoDup_app in Hnd as (_ & Hsep & Hnd2).
    apply NoDup_cons in Hnd2 as [Hnin _].
    rewrite foldl_app. cbn. rewrite allocated_other_supports by done.
    rewrite allocated_support.
    + rewrite allocated_other_supports, allocated_empty; [done|]. intros Hl. apply (Hsep _ Hl). left.
    + by apply (Hw validator s).
    + rewrite allocated_other_supports, allocated_empty; [unfold u128_max; lia|].
      intros Hl. apply (Hsep _ Hl). left.
  - rewrite allocated_other_supports; [apply allocated_empty|].
    intros ([k s] & -> & Hk%Hin)%list_elem_of_fmap.
    pose proof (eq_trans (eq_sym Hk) Hs). done.
Qed.

(** ** The specification of a prediction *)
Section specification.
Context `{F : Foreign}.
Context (ctx : PredictionContext) (page_supports : list (list (AccountId * Support))).

Definition page_entries : list (AccountId * Support) := concat page_supports.

(** The stake a voter gives to a winner, over all pages. *)
Definition backing (voter winner : AccountId) : Z :=
  saturated (sum_Z (stakes_in voter (sup_voters (merged (supports_of winner page_entries))))).

(** The winners are the best of the supported accounts: ordered by their total
    support over all pages, then by account, and as many as are desired. *)
Definition best_winners (winners : list (Z * Support)) : Prop :=
  exists rest,
    StronglySorted ranks_before (winners ++ rest) /\ NoDup (winners ++ rest).*1 /\
    (forall a s, (a, s) ∈ winners ++ rest <->
       supports_of a page_entries <> [] /\ s = merged (supports_of a page_entries)) /\
    length winners = Nat.min (Z.to_nat (ctx_desired_targets ctx)) (length (winners ++ rest)).

(** An amount as it is printed. *)
Definition token_text (planck : Z) : string :=
  amount_str planck (u128_pow10 (ctx_token_decimals ctx)) (Z.to_nat (ctx_token_decimals ctx))
    +:+ " " +:+ ctx_token_symbol ctx.

(** The entry of a winner: its amounts, and every other backer once, by
    decreasing stake. *)
Definition describes_winner (x : Z * Support) (info : ValidatorInfo) : Prop :=
  vi_account info = encoded ctx x.1 /\ vi_total_stake info = token_text (sup_total x.2) /\
  vi_self_stake info = token_text (self_stake x.1 (sup_voters x.2)) /\
  vi_nominator_count info = length (vi_nominators info) /\
  exists backers, backers ≡ₚ filter (fun v => v.1 <> x.1) (sup_voters x.2) /\
    StronglySorted (fun v v' => v'.2 <= v.2) backers /\
    vi_nominators info =
      (fun v => {| na_address := encoded ctx v.1; na_allocated_stake := token_text v.2 |}) <$> backers.

(** The entry of a nominator: a target is active with the stake it received,
    inactive if it won without this nominator, and waiting if it did not win. *)
Definition describes_nominator (active_set : gset Z) (v : Voter) (p : NominatorPrediction) : Prop :=
  let '(nominator, stake, nominated) := v in
  np_address p = encoded ctx nominator /\ np_stake p = token_text stake /\
  active_validators p =
    (fun a => {| vs_validator := encoded ctx a; vs_allocated_stake := token_text (backing nominator a) |})
      <$> filter (fun a => a ∈ active_set /\ 0 < backing nominator a) nominated /\
  inactive_validators p =
    encoded ctx <$> filter (fun a => a ∈ active_set /\ ~ 0 < backing nominator a) nominated /\
  waiting_validators p = encoded ctx <$> filter (fun a => a ∉ active_set) nominated.

(** The predictions for a solution with these supports. *)
Record predicts (sc : ElectionScore) (voter_snapshot : list VoterSnapshotPage)
    (vp : ValidatorsPrediction) (np : NominatorsPrediction) : Prop := {
  predicts_winners : exists winners, best_winners winners /\
    Forall2 describes_winner winners (results vp) /\
    Forall2 (describes_nominator (list_to_set winners.*1))
      (nominators_of (list_to_set winners.*1) (concat voter_snapshot)) (np_nominators np);
  predicts_metadata :
    desired_validators (metadata vp) = ctx_desired_targets ctx /\
    pm_round (metadata vp) = ctx_round ctx /\ pm_block_number (metadata vp) = ctx_block_number ctx /\
    solution_score (metadata vp) = Some sc /\
    pm_data_source (metadata vp) = data_source_str (ctx_data_source ctx);
}.

(** Supports with [u128] amounts. *)
Definition supports_ok : Prop :=
  Forall (fun x => 0 <= sup_total x.2 /\ Forall (fun v => is_u128 v.2) (sup_voters x.2)) page_entries.

Lemma winner_support_map_lookup : supports_ok -> forall a,
  winner_support_map page_supports !! a
  = match supports_of a page_entries with [] => None | cs => Some (merged cs) end.
Proof.
  intros Hs. apply foldl_add_support. eapply Forall_impl; [exact Hs|]. by intros x [].
Qed.

Lemma winners_are_best : supports_ok -> 0 <= ctx_desired_targets ctx ->
  best_winners (winners_sorted (ctx_desired_targets ctx) (winner_support_map page_supports)).
Proof.
  intros Hs Hd. destruct (winners_sorted_spec _ (winner_support_map page_supports) Hd) as (rest & Hp & Hsort & Hlen).
  exists rest. split_and!; [done| | |].
  - rewrite Hp. apply NoDup_fst_map_to_list.
  - intros a s. rewrite Hp, elem_of_map_to_list, winner_support_map_lookup by done.
    destruct (supports_of a page_entries) as [|c cs]; [by split; [|intros []]|].
    split; [by intros [= <-]|]. by intros [_ ->].
  - rewrite Hlen, Hp. by rewrite length_map_to_list.
Qed.

Lemma merged_stakes a : supports_ok ->
  Forall (fun v => is_u128 v.2) (sup_voters (merged (supports_of a page_entries))).
Proof.
  intros Hs. unfold supports_ok in Hs. rewrite Forall_forall in Hs. apply Forall_forall.
  intros v. cbn. rewrite list_elem_of_In, in_concat. intros (vs & Hvs & Hv).
  apply list_elem_of_In, list_elem_of_fmap in Hvs as (s & -> & Hin).
  apply list_elem_of_fmap in Hin as (x & -> & [_ Hx]%list_elem_of_filter).
  destruct (Hs x Hx) as [_ Hvs]. rewrite Forall_forall in Hvs. by apply Hvs, list_elem_of_In.
Qed.

(** The allocation map is the backing. *)
Lemma allocation_is_backing voter a : supports_ok ->
  allocated (allocation_map (btree_entries (winner_support_map page_supports))) voter a = backing voter a.
Proof.
  intros Hs. rewrite allocation_map_spec.
  - rewrite winner_support_map_lookup by done. unfold backing.
    by destruct (supports_of a page_entries).
  - intros b s. rewrite winner_support_map_lookup by done.
    pose proof (merged_stakes b Hs). destruct (supports_of b page_entries); [done|]. by intros [= <-].
Qed.

Context (Hdec : u128_pow10 (ctx_token_decimals ctx) <> 0).

Lemma tokens_text planck : tokens ctx planck = Some (token_text planck).
Proof. unfold tokens, planck_to_token. by destruct (Z.eqb_spec (u128_pow10 (ctx_token_decimals ctx)) 0). Qed.

Lemma mapM_total {A B} (f : A -> option B) (g : A -> B) l :
  (forall x, f x = Some (g x)) -> mapM f l = Some (g <$> l).
Proof. intros Hf. induction l as [|x l IH]; [done|]. cbn. rewrite Hf. cbn. by rewrite IH. Qed.

Lemma mapM_Forall2 {A B} (f : A -> option B) (P : A -> B -> Prop) l :
  (forall x, exists y, f x = Some y /\ P x y) -> exists l', mapM f l = Some l' /\ Forall2 P l l'.
Proof.
  intros Hf. induction l as [|x l (l' & Hl & HP)]; [by exists []|].
  destruct (Hf x) as (y & Hy & Hxy). exists (y :: l'). cbn. rewrite Hy. cbn. rewrite Hl. by split; [|constructor].
Qed.

Lemma validator_info_describes x : exists info, validator_info ctx x = Some info /\ describes_winner x info.
Proof.
  destruct x as [a s]. unfold validator_info.
  rewrite (mapM_total _ (fun v => {| na_address := encoded ctx v.1; na_allocated_stake := token_text v.2 |})).
  2: { intros v. unfold nominator_allocation. by rewrite tokens_text. }
  cbn. rewrite !tokens_text. cbn. eexists. split; [done|]. split_and!; [done..| |].
  - cbn. by rewrite length_fmap.
  - eexists. split_and!; [apply sort_by_key_permutation| |done].
    eapply StronglySorted_weaken; [|apply sort_by_key_sorted]. intros v v' Hv.
    assert (- v.2 <= - v'.2) by exact Hv. lia.
Qed.

Lemma classify_targets_spec active_set alloc nominator nominated :
  (forall a, default 0 (alloc ≫= (.!! a)) = backing nominator a) ->
  classify_targets ctx active_set alloc nominated =
  Some ((fun a => {| vs_validator := encoded ctx a; vs_allocated_stake := token_text (backing nominator a) |})
          <$> filter (fun a => a ∈ active_set /\ 0 < backing nominator a) nominated,
        encoded ctx <$> filter (fun a => a ∈ active_set /\ ~ 0 < backing nominator a) nominated,
        encoded ctx <$> filter (fun a => a ∉ active_set) nominated).
Proof.
  intros Halloc. induction nominated as [|a l IH]; [done|].
  cbn [classify_targets]. unfold target_class. rewrite Halloc, !filter_cons, IH.
  destruct (decide (a ∈ active_set)) as [Ha|Ha].
  - destruct (Z.ltb_spec 0 (backing nominator a)).
    + rewrite tokens_text. cbn. rewrite decide_True, decide_False, decide_False by tauto. done.
    + cbn. repeat case_decide; naive_solver lia.
  - cbn. rewrite decide_False, decide_False, decide_True by tauto. done.
Qed.

Lemma nominator_prediction_describes active_set alloc v :
  (forall w a, allocated alloc w a = backing w a) ->
  exists p, nominator_prediction ctx active_set alloc v = Some p /\ describes_nominator active_set v p.
Proof.
  intros Halloc. destruct v as [[nominator stake] nominated]. unfold nominator_prediction.
  rewrite (classify_targets_spec _ _ nominator) by (intros a; apply Halloc). cbn.
  unfold planck_to_token_u64. fold (tokens ctx stake). rewrite tokens_text. cbn.
  eexists. split; [done|]. by split_and!.
Qed.

End specification.

(** ** The theorems *)
Section theorems.
Context `{T : MinerConfig} `{F : Foreign} {S : Type}.

(** An environment that evaluates a solution to these supports. *)
Record evaluates (h : handler) (solution : PagedRawSolution) (targets : TargetSnapshotPage)
    (voter_snapshot : list VoterSnapshotPage) (ctx : PredictionContext)
    (page_supports : list (list (AccountId * Support))) (pages : Z) : Prop := {
  ev_pages t : answer h _ PagesGet t = pages;
  ev_supports t :
    answer h _ (EvaluateSupports solution (take (Z.to_nat pages) voter_snapshot) targets
                  (ctx_desired_targets ctx)) t = ok page_supports;
  ev_ok : supports_ok page_supports;
  ev_desired : 0 <= ctx_desired_targets ctx;
  ev_decimals : u128_pow10 (ctx_token_decimals ctx) <> 0;
}.

Lemma yields_build_predictions h (solution : PagedRawSolution) targets voter_snapshot ctx page_supports pages :
  evaluates h solution targets voter_snapshot ctx page_supports pages ->
  yields h (build_predictions_from_solution (S := S) solution targets voter_snapshot ctx)
    (fun x => predicts ctx page_supports (score solution) voter_snapshot x.1 x.2).
Proof.
  intros [Hpages Heval Hs Hd Hdec].
  unfold build_predictions_from_solution.
  eapply (yields_bind _ _ _ (.= pages)); [by apply yields_ask|]. intros ? ->.
  eapply (yields_bind _ _ _ (.= ok page_supports)); [by apply yields_ask|]. intros ? ->. cbv zeta.
  pose proof (winners_are_best ctx page_supports Hs Hd) as Hbest. revert Hbest.
  generalize (winners_sorted (ctx_desired_targets ctx) (winner_support_map page_supports)) as winners.
  intros winners Hbest.
  destruct (mapM_Forall2 (validator_info ctx) (describes_winner ctx) winners) as (infos & Hi & Hinfos).
  { by apply validator_info_describes. }
  rewrite Hi. eapply (yields_bind _ _ _ (.= infos)); [by apply yields_ret|]. intros ? ->.
  eapply (yields_bind _ _ _ (fun _ => True)); [by apply yields_ask|]. intros now _.
  destruct (mapM_Forall2
              (nominator_prediction ctx (list_to_set winners.*1)
                 (allocation_map (btree_entries (winner_support_map page_supports))))
              (describes_nominator ctx page_supports (list_to_set winners.*1))
              (nominators_of (list_to_set winners.*1) (concat voter_snapshot))) as (noms & Hn & Hnoms).
  { intros v. apply nominator_prediction_describes; [done|]. intros. by apply allocation_is_backing. }
  rewrite Hn. eapply (yields_bind _ _ _ (.= noms)); [by apply yields_ret|]. intros ? ->.
  apply yields_ret. split; [|done]. exists winners. by split_and!.
Qed.

(** C13: Given the supports of a solution, [build_predictions_from_solution]
    returns, and predicts what the supports say: the best accounts win, by total
    support over the pages; each is described with all its backers; and every
    target of every nominator is listed exactly where its own backing puts it. *)
Theorem build_predictions_correct h (solution : PagedRawSolution) targets voter_snapshot ctx
    page_supports pages (s : S) t :
  evaluates h solution targets voter_snapshot ctx page_supports pages ->
  exists vp np t',
    run h (build_predictions_from_solution solution targets voter_snapshot ctx) s t
    = (Ok (vp, np), s, t') /\
    predicts ctx page_supports (score solution) voter_snapshot vp np.
Proof.
  intros He. destruct (yields_build_predictions _ _ _ _ _ _ _ He s t) as ([vp np] & t' & Hr & HP). eauto.
Qed.

Context `{V : VotesBound} `{US : UnstableSort}.

Lemma u32_mul_small a b : 0 <= a * b <= u32_max -> u32_mul a b = a * b.
Proof. unfold u32_mul, u32_max. intros. apply Z.mod_small. lia. Qed.

Lemma yields_context_error {A} h what (m : M S A) P : yields h m P -> yields h (context_error what m) P.
Proof.
  intros Hm. eapply yields_bind; [by apply yields_catch|]. intros r (a & -> & Ha). by apply yields_ret.
Qed.

(** Without a target snapshot there is no snapshot. *)
Lemma try_fetch_snapshot_fails h n_pages round b :
  (forall p t, answer h _ (TryFetchTargetSnapshot b round p) t = ok None) ->
  fails h (try_fetch_snapshot (S := S) n_pages round b).
Proof.
  intros Hn. eapply (fails_bind _ _ _ (fun _ => True)); [by apply yields_ask|]. intros chain_pages _.
  case_match; [apply fails_throw|]. apply fails_bind_first.
  eapply fails_bind; [apply yields_query_eq, Hn|]. intros ? ->. apply fails_throw.
Qed.

(** Data that fits the pages is only paged. *)
Lemma convert_fitting `{B : SnapshotBounds} candidates voters :
  (0 < VoterSnapshotPerBlock)%nat -> Z.of_nat (length voters) <= voter_capacity ->
  convert_election_data_to_snapshots candidates voters Staking
  = (take TargetSnapshotPerBlock candidates.*1,
     reverse (chunks VoterSnapshotPerBlock (bounded_voter <$> voters))).
Proof.
  intros Hn Hc. unfold convert_election_data_to_snapshots.
  assert (drop_weakest voters = voters) as ->.
  { unfold drop_weakest. rewrite andb_comm. by rewrite (proj2 (Z.ltb_ge _ _) Hc). }
  by rewrite foldl_push_voter.
Qed.

Lemma npos_voters_length st limit : (length (npos_voters st limit) <= Z.to_nat limit)%nat.
Proof. unfold npos_voters. rewrite length_take. lia. Qed.

Lemma yields_election_data_from_staking h b st round pages per_block :
  serves h b st -> represents (st_bags st) (st_nodes st) (st_contents st) ->
  (forall p t, answer h _ (TryFetchTargetSnapshot b round p) t = ok None) ->
  (forall t, answer h _ PagesGet t = pages) ->
  (forall t, answer h _ (ParamGet ParamVoterSnapshotPerBlock) t = per_block) ->
  yields h (get_election_data (S := S) pages round b)
    (.= (npos_candidates st, npos_voters st (u32_mul pages per_block), Staking)).
Proof.
  intros Hst Hrep Hno Hpages Hper. unfold get_election_data.
  eapply yields_bind; [by apply yields_catch_fails, try_fetch_snapshot_fails|]. intros r (e & ->).
  eapply yields_bind; [by apply yields_context_error, (yields_fetch_candidates h b st Hst)|]. intros ? ->.
  eapply (yields_bind _ _ _ (.= pages)); [by apply yields_ask|]. intros ? ->.
  eapply (yields_bind _ _ _ (.= per_block)); [by apply yields_ask|]. intros ? ->. cbv zeta.
  eapply (yields_bind _ _ _ (.= npos_voters st (u32_mul pages per_block)));
    [|intros ? ->; by apply yields_ret].
  apply yields_context_error, (yields_fetch_voters h b st Hst); [|done].
  unfold u32_mul. by apply Z.mod_pos_bound.
Qed.

(** The voter pages of a staking state: the voters in chunks, the last chunk
    first. *)
Definition staking_pages (st : StakingState) (pages per_block : Z) : list VoterSnapshotPage :=
  reverse (chunks (Z.to_nat per_block)
    ((fun v => (v.1, take max_votes_per_voter v.2)) <$> npos_voters st (pages * per_block))).

(** An environment with a staking state, no snapshot, and these parameters. *)
Record staking_only (h : handler) (b : AtBlock) (st : StakingState)
    (round pages per_block targets_per_block : Z) : Prop := {
  so_serves : serves h b st;
  so_represents : represents (st_bags st) (st_nodes st) (st_contents st);
  so_no_snapshot p t : answer h _ (TryFetchTargetSnapshot b round p) t = ok None;
  so_pages t : answer h _ PagesGet t = pages;
  so_per_block t : answer h _ (ParamGet ParamVoterSnapshotPerBlock) t = per_block;
  so_targets t : answer h _ (ParamGet ParamTargetSnapshotPerBlock) t = targets_per_block;
  so_positive : 0 < pages /\ 0 < per_block /\ pages * per_block <= u32_max;
}.

(** The election data after the overrides: as it is, or overridden by the data of
    the configuration or of its file. *)
Definition overrides_apply (h : handler) (over : option OverridesConfig)
    (data data' : list ValidatorData * list NominatorData) : Prop :=
  match over with
  | None => data' = data
  | Some (Data ov) => apply_overrides parse_account data.1 data.2 ov = ok data'
  | Some (Path path) =>
      exists text ov, (forall t, answer h _ (FileOpen path) t = ok tt) /\
        (forall t, answer h _ (FileReadToString path) t = ok text) /\
        overrides_from_json text = ok ov /\ apply_overrides parse_account data.1 data.2 ov = ok data'
  end.

(** Election data from staking as snapshots, with these parameters. *)
Definition snapshots_of (pages per_block targets_per_block : Z)
    (data : list ValidatorData * list NominatorData) : TargetSnapshotPage * list VoterSnapshotPage :=
  convert_election_data_to_snapshots (B := {|
    Pages := pages; VoterSnapshotPerBlock := Z.to_nat per_block;
    TargetSnapshotPerBlock := Z.to_nat targets_per_block; MaxVotesPerVoter := max_votes_per_voter |})
    data.1 data.2 Staking.

(** The data of the staking pallets. *)
Definition staking_data (st : StakingState) (pages per_block : Z) : list ValidatorData * list NominatorData :=
  (npos_candidates st, npos_voters st (pages * per_block)).

Lemma yields_overridden h over data data' : overrides_apply h over data data' ->
  yields h (match over with
      | Some overrides_config =>
          overrides_to_apply ←
            match overrides_config with
            | Path path => read_data_from_json_file (S := S) overrides_from_json path
            | Data data => mret data
            end;
          of_result (apply_overrides parse_account data.1 data.2 overrides_to_apply)
      | None => mret data
      end) (.= data').
Proof.
  destruct over as [[path|ov]|]; cbn [overrides_apply]; [| |by intros ->; apply yields_ret].
  - intros (text & ov & Hopen & Hread & Hjson & Happ).
    eapply (yields_bind _ _ _ (.= ov)); [|intros ? ->; rewrite Happ; by apply yields_ret].
    unfold read_data_from_json_file, io.
    eapply (yields_bind _ _ _ (fun _ => True)).
    { eapply yields_bind; [apply yields_ask_eq, Hopen|]. intros ? ->. by apply yields_ret. }
    intros _ _. eapply (yields_bind _ _ _ (.= text)).
    { eapply yields_bind; [apply yields_ask_eq, Hread|]. intros ? ->. by apply yields_ret. }
    intros ? ->. unfold serde. rewrite Hjson. by apply yields_ret.
  - intros Happ. eapply (yields_bind _ _ _ (.= ov)); [by apply yields_ret|]. intros ? ->. rewrite Happ. by apply yields_ret.
Qed.

Lemma yields_fetch_overridden h b st round pages per_block targets_per_block over data :
  staking_only h b st round pages per_block targets_per_block ->
  overrides_apply h over (staking_data st pages per_block) data ->
  yields h (fetch_snapshots (S := S) pages round b over)
    (.= (snapshots_of pages per_block targets_per_block data, Staking)).
Proof.
  intros [Hst Hrep Hno Hpages Hper Htper (Hp & Hb & Hmul)] Hover. unfold fetch_snapshots.
  eapply yields_bind; [by eapply yields_election_data_from_staking|]. intros ? ->. cbv beta iota zeta.
  rewrite u32_mul_small by lia. eapply yields_bind; [exact (yields_overridden h over _ data Hover)|].
  intros [candidates nominators] <-.
  eapply (yields_bind _ _ _ (.= snapshots_of pages per_block targets_per_block (candidates, nominators)));
    [|intros ? ->; by apply yields_ret].
  unfold convert_with_params.
  eapply yields_bind; [by apply yields_ask_eq|]. intros ? ->.
  eapply yields_bind; [by apply yields_ask_eq|]. intros ? ->.
  eapply yields_bind; [by apply yields_ask_eq|]. intros ? ->. by apply yields_ret.
Qed.

(** Without overrides the data fits, and is only paged. *)
Lemma snapshots_of_staking st pages per_block targets_per_block :
  0 < pages -> 0 < per_block -> pages * per_block <= u32_max ->
  snapshots_of pages per_block targets_per_block (staking_data st pages per_block) =
  (take (Z.to_nat targets_per_block) (st_validators st), staking_pages st pages per_block).
Proof.
  intros Hp Hb Hmul. pose proof (npos_voters_length st (pages * per_block)) as Hlen.
  unfold snapshots_of. rewrite convert_fitting; cbn; [|lia|].
  - do 2 f_equal. unfold npos_candidates. by rewrite <- list_fmap_compose, list_fmap_id.
  - unfold voter_capacity. cbn. rewrite Z2Nat.id by lia. unfold u32_max, u64_max in *. lia.
Qed.

Lemma yields_fetch_snapshots h b st round pages per_block targets_per_block :
  staking_only h b st round pages per_block targets_per_block ->
  yields h (fetch_snapshots (S := S) pages round b None)
    (.= (take (Z.to_nat targets_per_block) (st_validators st), staking_pages st pages per_block, Staking)).
Proof.
  intros Hso. eapply yields_weaken; [by eapply (yields_fetch_overridden _ _ _ _ _ _ _ None)|].
  intros ? ->. destruct Hso as [_ _ _ _ _ _ (Hp & Hb & Hmul)]. by rewrite snapshots_of_staking.
Qed.

Lemma staking_pages_bounded st pages per_block : 0 < pages -> 0 < per_block ->
  Z.of_nat (length (staking_pages st pages per_block)) <= pages.
Proof.
  intros Hp Hb. unfold staking_pages. rewrite length_reverse.
  apply (Z.le_trans _ (Z.of_nat (Z.to_nat pages))); [|lia].
  apply Nat2Z.inj_le, chunks_count; [lia|]. rewrite length_fmap, <- Z2Nat.inj_mul by lia.
  apply npos_voters_length.
Qed.

(** Without a snapshot the input of the miner is built from staking: the
    targets are the validators, and the pages, read from the last to the first,
    are the voters of the abstract definition in their order, none dropped, as
    long as the number of voters fits [u32]. *)
Theorem fetch_snapshots_from_staking h b st round pages per_block targets_per_block (s : S) t :
  staking_only h b st round pages per_block targets_per_block ->
  exists voter_pages t',
    run h (fetch_snapshots pages round b None) s t
    = (Ok (take (Z.to_nat targets_per_block) (st_validators st), voter_pages, Staking), s, t') /\
    reverse voter_pages =
      chunks (Z.to_nat per_block)
        ((fun v => (v.1, take max_votes_per_voter v.2)) <$> npos_voters st (pages * per_block)) /\
    Z.of_nat (length voter_pages) <= pages.
Proof.
  intros Hso. destruct (yields_fetch_snapshots _ _ _ _ _ _ _ Hso s t) as (x & t' & Hr & ->).
  exists (staking_pages st pages per_block), t'. split_and!; [done|apply reverse_involutive|].
  destruct Hso as [_ _ _ _ _ _ (Hp & Hb & _)]. by apply staking_pages_bounded.
Qed.

End theorems.

(** ** Examples

    Addresses are numbers, and the JSON functions are not used. *)
#[export] Instance toy_foreign : Foreign := {|
  to_ss58check_with_version := fun a prefix => pretty prefix +:+ "/" +:+ pretty a;
  parse_account := fun s => match parse_u32 s with ok n => ok n | err _ => err "BadBase58" end;
  overrides_from_json := fun _ => err "EOF";
  validators_to_json := fun _ => ok "{}";
  nominators_to_json := fun _ => ok "[]";
  percent_mul := fun percent n => percent * n / 100;
|}.

#[export] Instance votes16 : VotesBound := {| max_votes_per_voter := 16 |}.

Module TwoWinners.

(** Winner 1 has support on both pages, winner 2 on one. *)
Definition supports : list (list (AccountId * Support)) :=
  [[(1, {| sup_total := 60; sup_voters := [(1, 10); (7, 50)] |});
    (2, {| sup_total := 40; sup_voters := [(7, 40)] |})];
   [(1, {| sup_total := 5; sup_voters := [(8, 5)] |})]].

Definition snapshot : list VoterSnapshotPage :=
  [[(1, 10, [1]); (7, 90, [1; 2; 3])]; [(8, 5, [1; 2])]].

Definition answers {R} (o : op R) (t : trace) : R :=
  match o in op R return R with
  | EvaluateSupports _ _ _ _ => ok supports
  | TryFetchTargetSnapshot _ _ _ => ok None
  | o => TwoBags.answers o t
  end.

Definition node : handler := {| answer := fun R o t => answers o t; fires := fun _ _ => false |}.

Definition ctx (desired : Z) : PredictionContext := {|
  ctx_round := 3; ctx_desired_targets := desired; ctx_block_number := 100; ctx_ss58_prefix := 42;
  ctx_token_decimals := 1; ctx_token_symbol := "DOT"; ctx_data_source := Staking |}.

Lemma supports_u128 : supports_ok supports.
Proof.
  repeat (apply Forall_cons; split); try apply Forall_nil_2; cbn; split; try lia;
    repeat (apply Forall_cons; split); try apply Forall_nil_2; unfold is_u128, u128_max; cbn; lia.
Qed.

Lemma node_serves_staking b : serves node b TwoBags.state.
Proof. destruct (TwoBags.node_serves b). by split. Qed.

Lemma node_staking_only b round : staking_only node b TwoBags.state round 4 4 4.
Proof.
  split; [apply node_serves_staking|exact TwoBags.state_represents|done..|]. unfold u32_max. lia.
Qed.

End TwoWinners.

Lemma build_predictions_correct_witness :
  exists vp np t',
    run TwoWinners.node (build_predictions_from_solution mined4 [1; 2; 3] TwoWinners.snapshot (TwoWinners.ctx 2)) tt []
    = (Ok (vp, np), tt, t') /\
    predicts (TwoWinners.ctx 2) TwoWinners.supports score0 TwoWinners.snapshot vp np.
Proof.
  apply (build_predictions_correct TwoWinners.node mined4 [1; 2; 3] TwoWinners.snapshot (TwoWinners.ctx 2)
           TwoWinners.supports 4 tt []).
  split; [done|done|exact TwoWinners.supports_u128|done|done].
Defined.

(** With one place winner 2 is left out: nominator 7 waits for it. *)
Example one_place :
  match (run TwoWinners.node (build_predictions_from_solution mined4 [1; 2; 3] TwoWinners.snapshot (TwoWinners.ctx 1)) tt []).1.1 with
  | Ok (vp, np) =>
      ((fun i => (vi_account i, vi_total_stake i, vi_self_stake i, vi_nominator_count i)) <$> results vp,
       (fun p => (np_address p, np_stake p, vs_allocated_stake <$> active_validators p, waiting_validators p))
         <$> np_nominators np)
      = ([("42/1", "6.5 DOT", "1 DOT", 2%nat)],
         [("42/7", "9 DOT", ["5 DOT"], ["42/2"; "42/3"]);
          ("42/8", "0.5 DOT", ["0.5 DOT"], ["42/2"])])
  | _ => False
  end.
Proof. by vm_compute. Qed.

Lemma fetch_snapshots_from_staking_witness :
  exists voter_pages t',
    run TwoWinners.node (fetch_snapshots 4 3 block0 None) tt []
    = (Ok (take 4 [5; 1], voter_pages, Staking), tt, t') /\
    reverse voter_pages = [[(1, 155, [1]); (2, 140, [1; 5])]] /\ Z.of_nat (length voter_pages) <= 4.
Proof.
  destruct (fetch_snapshots_from_staking TwoWinners.node block0 TwoBags.state 3 4 4 4 tt []
              (TwoWinners.node_staking_only block0 3))
    as (voter_pages & t' & Hr & Hrev & Hlen).
  exists voter_pages, t'. split; [exact Hr|]. split; [|exact Hlen].
  rewrite Hrev. vm_compute. reflexivity.
Defined.

(** The product of the two [u32] parameters wraps: with 65536 pages of 65536
    voters no voter is fetched at all. *)
Example voter_limit_wraps : u32_mul 65536 65536 = 0.
Proof. reflexivity. Qed.
