(* ===== verification/Runtime.v ===== *)
(** * The runtime the miner is configured for

    - the chains and how a runtime version selects one ([src/opt.rs]);
    - the miner configuration of each chain ([src/static_types/multi_block.rs],
      the macro [for_multi_block_runtime]);
    - the parameter types, global cells that are set from the metadata
      ([src/macros.rs], [src/dynamic/mod.rs], [src/dynamic/pallet_api.rs]);
    - the signer ([src/signer.rs]), up to the cryptography. *)

From Stdlib Require Import Ascii.
From S2P Require Import Prelude RustStr Errors Chain Metrics Types Effects Predictions.
Local Open Scope Z_scope.

(** ** Chains *)
Module Chains.

Inductive Chain : Type := Westend | Kusama | Polkadot | SubstrateNode | StakingAsync.

#[export] Instance Chain_eq_dec : EqDecision Chain.
Proof. solve_decision. Defined.

(** [Display] *)
Definition to_string (c : Chain) : string :=
  match c with
  | Polkadot => "polkadot"
  | Kusama => "kusama"
  | Westend => "westend"
  | SubstrateNode => "node"
  | StakingAsync => "staking-async"
  end.

(** [FromStr]; the relay chain of staking-async is [unimplemented!]. *)
Definition from_str (s : string) : outcome Chain :=
  if String.eqb s "polkadot" then Ok Polkadot
  else if String.eqb s "statemint" then Ok Polkadot
  else if String.eqb s "asset-hub-paseo" then Ok Polkadot
  else if String.eqb s "kusama" then Ok Kusama
  else if String.eqb s "statemine" then Ok Kusama
  else if String.eqb s "westend" then Ok Westend
  else if String.eqb s "westmint" then Ok Westend
  else if String.eqb s "staking-async-parachain" then Ok StakingAsync
  else if String.eqb s "staking-async-rc" then
    Panic "not implemented: multi-block mining is not supported on relay chains"
  else if String.eqb s "node" then Ok SubstrateNode
  else Err (Error.InvalidChain s).

(** [make_ascii_lowercase] *)
Definition ascii_lower (c : ascii) : ascii :=
  let n := Ascii.nat_of_ascii c in
  if (65 <=? n)%nat && (n <=? 90)%nat then Ascii.ascii_of_nat (n + 32) else c.

Fixpoint make_ascii_lowercase (s : string) : string :=
  match s with
  | EmptyString => EmptyString
  | String c rest => String (ascii_lower c) (make_ascii_lowercase rest)
  end.

(** [TryFrom<&RuntimeVersion>] *)
Definition try_from (rv : RuntimeVersion) : outcome Chain :=
  from_str (make_ascii_lowercase (spec_name rv)).

End Chains.

(** ** Miner configurations *)

(** The accuracy types of the solutions. *)
Inductive AccuracyType : Type := AccuracyPercent | AccuracyPerU16.

(** What differs between the [MinerConfig]s: the solution type
    ([generate_solution_type!]) and the votes a voter may have. *)
Record SolutionConfig : Type := {
  voter_index_bits : Z;
  target_index_bits : Z;
  accuracy : AccuracyType;
  solution_votes : Z;
  sc_max_votes_per_voter : Z;
}.

(** [for_multi_block_runtime!] *)
Definition runtime_config (c : Chains.Chain) : SolutionConfig :=
  match c with
  | Chains.Polkadot => {| voter_index_bits := 32; target_index_bits := 16;
      accuracy := AccuracyPerU16; solution_votes := 16; sc_max_votes_per_voter := 16 |}
  | Chains.Kusama => {| voter_index_bits := 32; target_index_bits := 16;
      accuracy := AccuracyPerU16; solution_votes := 24; sc_max_votes_per_voter := 24 |}
  | Chains.Westend => {| voter_index_bits := 32; target_index_bits := 16;
      accuracy := AccuracyPerU16; solution_votes := 16; sc_max_votes_per_voter := 16 |}
  | Chains.StakingAsync => {| voter_index_bits := 32; target_index_bits := 16;
      accuracy := AccuracyPerU16; solution_votes := 16; sc_max_votes_per_voter := 16 |}
  | Chains.SubstrateNode => {| voter_index_bits := 16; target_index_bits := 16;
      accuracy := AccuracyPercent; solution_votes := 16; sc_max_votes_per_voter := 16 |}
  end.

(** The votes bound the predictions page with. *)
Definition votes_bound (c : Chains.Chain) : VotesBound :=
  {| max_votes_per_voter := Z.to_nat (sc_max_votes_per_voter (runtime_config c)) |}.

(** ** Parameter types *)

(** [ElectionAlgorithm] *)
Inductive ElectionAlgorithm : Type := SeqPhragmen | Phragmms.

#[export] Instance ElectionAlgorithm_eq_dec : EqDecision ElectionAlgorithm.
Proof. solve_decision. Defined.

(** The byte stored for an algorithm, and reading it back. *)
Definition algorithm_byte (a : ElectionAlgorithm) : Z :=
  match a with SeqPhragmen => 0 | Phragmms => 1 end.

Definition algorithm_of_byte (v : Z) : outcome ElectionAlgorithm :=
  if v =? 0 then Ok SeqPhragmen
  else if v =? 1 then Ok Phragmms
  else Panic "internal error: entered unreachable code".

(** [BalancingConfig], as the solvers take it. *)
Record BalancingConfig : Type := { bc_iterations : Z; bc_tolerance : Z }.

(** The values of the cells before anything is set. *)
Definition param_initial (p : Param) : Z :=
  match p with ParamBalancingIterations => 10 | _ => 0 end.

(** [BlockLength::total] *)
Definition block_length_total (b : BlockLength) : Z :=
  let total := 0 in
  let total := u32_saturating_add total (normal (bl_max b)) in
  let total := u32_saturating_add total (operational (bl_max b)) in
  u32_saturating_add total (mandatory (bl_max b)).

(** [PalletItem] with its [Display]. *)
Record PalletItem : Type := { pallet : string; variant : string }.

Definition pallet_item_display (i : PalletItem) : string := pallet i +:+ "::" +:+ variant i.

(** The constants of [pallet_api]. *)
Definition PAGES : PalletItem := {| pallet := "MultiBlockElection"; variant := "Pages" |}.
Definition TARGET_SNAPSHOT_PER_BLOCK : PalletItem :=
  {| pallet := "MultiBlockElection"; variant := "TargetSnapshotPerBlock" |}.
Definition VOTER_SNAPSHOT_PER_BLOCK : PalletItem :=
  {| pallet := "MultiBlockElection"; variant := "VoterSnapshotPerBlock" |}.
Definition MAX_WINNERS_PER_PAGE : PalletItem :=
  {| pallet := "MultiBlockElectionVerifier"; variant := "MaxWinnersPerPage" |}.
Definition MAX_BACKERS_PER_WINNER : PalletItem :=
  {| pallet := "MultiBlockElectionVerifier"; variant := "MaxBackersPerWinner" |}.
Definition BLOCK_LENGTH : PalletItem := {| pallet := "System"; variant := "BlockLength" |}.
Definition SS58_PREFIX : PalletItem := {| pallet := "System"; variant := "SS58Prefix" |}.

Section params.
Context `{T : MinerConfig} {S : Type} `{F : Foreign}.

(** [PalletConstant::fetch], from the answer of the metadata; [ty] is the name of
    the type. *)
Definition decode_constant {A} (i : PalletItem) (ty : string) (r : Result (Result A string) string)
    : Result A Error.t :=
  match r with
  | err e => err (Error.InvalidMetadata (variant i +:+ " failed: " +:+ e))
  | ok (err e) =>
      err (Error.InvalidMetadata
        ("Decoding constant " +:+ pallet i +:+ ":" +:+ variant i +:+ " type: `" +:+ ty +:+
         "` couldn't be decoded " +:+ e))
  | ok (ok v) => ok v
  end.

Definition fetch_constant (b : AtBlock) (i : PalletItem) (ty : string) : M S Z :=
  r ← ask (Constant b (pallet i) (variant i));
  of_result (decode_constant i ty r).

Definition fetch_block_length (b : AtBlock) : M S BlockLength :=
  r ← ask (ConstantBlockLength b);
  of_result (decode_constant BLOCK_LENGTH "BlockLength" r).

Definition set_param (p : Param) (v : Z) : M S unit := ask (ParamSet p v).

(** [update_metadata_constants] *)
Definition update_metadata_constants (at_block : AtBlock) : M S unit :=
  pages ← fetch_constant at_block PAGES "u32";
  set_param ParamPages pages;;
  targets ← fetch_constant at_block TARGET_SNAPSHOT_PER_BLOCK "u32";
  set_param ParamTargetSnapshotPerBlock targets;;
  voters ← fetch_constant at_block VOTER_SNAPSHOT_PER_BLOCK "u32";
  set_param ParamVoterSnapshotPerBlock voters;;
  block_len ← fetch_block_length at_block;
  set_param ParamMaxLength (percent_mul 75 (block_length_total block_len));;
  winners ← fetch_constant at_block MAX_WINNERS_PER_PAGE "u32";
  set_param ParamMaxWinnersPerPage winners;;
  backers ← fetch_constant at_block MAX_BACKERS_PER_WINNER "u32";
  set_param ParamMaxBackersPerWinner backers.

(** [set_balancing_iterations] and [set_algorithm] *)
Definition set_balancing_iterations (iterations : Z) : M S unit :=
  set_param ParamBalancingIterations iterations.
Definition set_algorithm (algo : ElectionAlgorithm) : M S unit :=
  set_param ParamAlgorithm (algorithm_byte algo).

(** [Algorithm::get] *)
Definition algorithm_get : M S ElectionAlgorithm :=
  v ← ask (ParamGet ParamAlgorithm);
  match algorithm_of_byte v with
  | Ok a => mret a
  | Err e => throw e
  | Panic msg => panic msg
  | Elapsed => panic "not reached"
  end.

(** [DynamicSolver::solve]: the two solvers are those of polkadot-sdk. *)
Definition dynamic_solve {A B} (seq_phragmen phragmms : A -> B) (input : A) : M S B :=
  algo ← algorithm_get;
  mret match algo with SeqPhragmen => seq_phragmen input | Phragmms => phragmms input end.

(** [DynamicSolver::weight], of the same solvers. *)
Definition dynamic_weight {W} (seq_phragmen phragmms : Z -> Z -> Z -> W) (voters targets vote_degree : Z) : M S W :=
  algo ← algorithm_get;
  mret match algo with
       | SeqPhragmen => seq_phragmen voters targets vote_degree
       | Phragmms => phragmms voters targets vote_degree
       end.

(** [BalancingIterations::get] *)
Definition balancing_get : M S (option BalancingConfig) :=
  n ← ask (ParamGet ParamBalancingIterations);
  mret (Some {| bc_iterations := n; bc_tolerance := 0 |}).

End params.

(** The value of a cell after a trace: the last one set. *)
Section cells.
Context `{T : MinerConfig}.

Definition param_set (e : event) : option (Param * Z) :=
  match e with Event o _ => match o with ParamSet p v => Some (p, v) | _ => None end end.

(** The sets of a trace, newest first. *)
Definition param_sets (t : trace) : list (Param * Z) := omap param_set t.

Fixpoint last_set (p : Param) (l : list (Param * Z)) : Z :=
  match l with
  | [] => param_initial p
  | (q, v) :: l => if decide (p = q) then v else last_set p l
  end.

Definition param_value (t : trace) (p : Param) : Z := last_set p (param_sets t).

(** An environment in which the cells are memory. *)
Record cells_are_memory (h : handler) : Prop := {
  cells_get p t : answer h _ (ParamGet p) t = param_value t p;
  cells_pages t : answer h _ PagesGet t = param_value t ParamPages;
}.

End cells.
