(* ===== verification/Glue.v ===== *)
(** * Dynamic items

    The glue between the miner and the dynamic interface of the node:
    [src/dynamic/utils.rs] (values of the type system of the chain, addresses,
    payloads and their errors) with the items of [src/dynamic/pallet_api.rs], and
    the payloads [MultiBlockTransaction] of [src/dynamic/multi_block.rs] builds.

    The codec, the registry of types and the decoder of dynamic values are other
    crates: they are the operations of the class [ScaleCodec], what their
    documentation promises is [ScaleLaws]. *)

From S2P Require Import Prelude RustStr Errors Strategy Chain Types Effects Traces Scenario Submission Runtime.
Local Open Scope Z_scope.

(** ** Items *)
Module Items.

Definition item (p v : string) : PalletItem := {| pallet := p; variant := v |}.

(** [PalletItem::into_parts] *)
Definition into_parts (i : PalletItem) : string * string := (pallet i, variant i).

Definition PAGED_TARGET_SNAPSHOT : PalletItem := item "MultiBlockElection" "PagedTargetSnapshot".
Definition PAGED_TARGET_SNAPSHOT_HASH : PalletItem := item "MultiBlockElection" "PagedTargetSnapshotHash".
Definition PAGED_VOTER_SNAPSHOT : PalletItem := item "MultiBlockElection" "PagedVoterSnapshot".
Definition PAGED_VOTER_SNAPSHOT_HASH : PalletItem := item "MultiBlockElection" "PagedVoterSnapshotHash".

Definition SUBMIT_PAGE : PalletItem := item "MultiBlockElectionSigned" "submit_page".
Definition REGISTER : PalletItem := item "MultiBlockElectionSigned" "register".

Definition VALIDATORS : PalletItem := item "Staking" "Validators".
Definition LEDGER : PalletItem := item "Staking" "Ledger".
Definition NOMINATORS : PalletItem := item "Staking" "Nominators".
Definition BONDED : PalletItem := item "Staking" "Bonded".

Definition LIST_NODES : PalletItem := item "VoterList" "ListNodes".
Definition LIST_BAGS : PalletItem := item "VoterList" "ListBags".

End Items.
Import Items.

(** The storage item and the keys a dynamic read addresses; reads through the
    generated interface have none. *)
Definition read_item {R} `{T : MinerConfig} (o : op R) : option (PalletItem * list Z) :=
  match o with
  | TryFetchTargetSnapshot _ round page => Some (PAGED_TARGET_SNAPSHOT, [round; page])
  | TryFetchTargetSnapshotHash _ round page => Some (PAGED_TARGET_SNAPSHOT_HASH, [round; page])
  | TryFetchVoterSnapshot _ round page => Some (PAGED_VOTER_SNAPSHOT, [round; page])
  | TryFetchVoterSnapshotHash _ round page => Some (PAGED_VOTER_SNAPSHOT_HASH, [round; page])
  | IterValidators _ => Some (VALIDATORS, [])
  | IterListBags _ => Some (LIST_BAGS, [])
  | IterListNodes _ => Some (LIST_NODES, [])
  | TryFetchNominators _ who => Some (NOMINATORS, [who])
  | TryFetchBonded _ who => Some (BONDED, [who])
  | TryFetchLedger _ who => Some (LEDGER, [who])
  | _ => None
  end.

(** ** Values, addresses and payloads *)

(** [parity-scale-codec], [scale-info], [scale-value] and [subxt::dynamic]: values
    of the chain with their decoder and encoder for a type of a registry. *)
Class ScaleCodec : Type := {
  Value : Type;
  MetaType : Type;
  Registry : Type;
  PortableRegistry : Type;
  registry_new : Registry;
  register_type : MetaType -> Registry -> Z * Registry;
  into_portable : Registry -> PortableRegistry;
  decode_as_type : list Z -> Z -> PortableRegistry -> Result Value string;
  encode_as_type : Value -> Z -> PortableRegistry -> option (list Z);
}.

(** The types that are sent: [Encode], [TypeInfo] and [type_name]. *)
Class Encoded `{SC : ScaleCodec} (A : Type) : Type := {
  encode : A -> list Z;
  decode : list Z -> option A;
  meta_type : MetaType;
  type_name : string;
}.

Section values.
Context `{SC : ScaleCodec}.

(** [invalid_metadata_error] *)
Definition invalid_metadata_error (name e : string) : Error.t :=
  Error.InvalidMetadata (name +:+ " failed: " +:+ e).

(** [decode_error], from the [Debug] of an error. *)
Definition decode_error (ty err_debug : string) : Error.t :=
  Error.DynamicTransaction ("Failed to decode " +:+ ty +:+ ": " +:+ err_debug).

(** [make_type] *)
Definition make_type (A : Type) `{!Encoded A} : Z * PortableRegistry :=
  let '(id, types) := register_type (meta_type (A := A)) registry_new in
  (id, into_portable types).

(** [to_scale_value] *)
Definition to_scale_value {A} `{!Encoded A} (val : A) : Result Value Error.t :=
  let '(ty_id, types) := make_type A in
  match decode_as_type (encode val) ty_id types with
  | ok v => ok v
  | err e => err (decode_error (type_name (A := A)) e)
  end.

(** [storage_addr] *)
Record DynamicAddress : Type := { addr_pallet : string; addr_entry : string }.

Definition storage_addr (storage : PalletItem) : DynamicAddress :=
  let '(p, v) := into_parts storage in {| addr_pallet := p; addr_entry := v |}.

(** [tx] *)
Record DynamicPayload : Type := { payload_pallet : string; payload_call : string; payload_data : list Value }.

Definition tx (t : PalletItem) (call_data : list Value) : DynamicPayload :=
  let '(p, v) := into_parts t in {| payload_pallet := p; payload_call := v; payload_data := call_data |}.

(** The [Debug] of the one error [to_scale_value] has. *)
Definition error_debug (e : Error.t) : string :=
  match e with Error.DynamicTransaction msg => "DynamicTransaction(" +:+ str_debug msg +:+ ")" | _ => "" end.

(** [.map_err(decode_error::<T>)] *)
Definition map_decode_error {A} (ty : string) (r : Result A Error.t) : Result A Error.t :=
  match r with ok a => ok a | err e => err (decode_error ty (error_debug e)) end.

End values.

(** [src/dynamic/utils.rs] reports both of its errors so. *)
Lemma decode_constant_metadata_error {A} i ty e :
  decode_constant (A := A) i ty (err e) = err (invalid_metadata_error (variant i) e).
Proof. done. Qed.

(** ** The payloads of transactions *)
Section payloads.
Context `{T : MinerConfig} `{SC : ScaleCodec}.
Context `{ES : !Encoded ElectionScore} `{EP : !Encoded Z} `{EO : !Encoded (option Solution)}.
Context (pages_name solution_name : string).

(** [MultiBlockTransaction::register_score] *)
Definition register_payload (sc : ElectionScore) : Result DynamicPayload Error.t :=
  match map_decode_error (type_name (A := ElectionScore)) (to_scale_value sc) with
  | ok scale_score => ok (tx REGISTER [scale_score])
  | err e => err e
  end.

(** [MultiBlockTransaction::submit_page]; the errors name [T::Pages] and [T::Solution]. *)
Definition submit_page_payload (page : Z) (maybe_solution : option Solution) : Result DynamicPayload Error.t :=
  match map_decode_error pages_name (to_scale_value page) with
  | ok scale_page =>
      match map_decode_error solution_name (to_scale_value maybe_solution) with
      | ok scale_solution => ok (tx SUBMIT_PAGE [scale_page; scale_solution])
      | err e => err e
      end
  | err e => err e
  end.

(** The payload of a call of the signed pallet that is sent as a dynamic one. *)
Definition call_payload (c : Call) : option (Result DynamicPayload Error.t) :=
  match c with
  | register sc => Some (register_payload sc)
  | submit_page_call page sol => Some (submit_page_payload page sol)
  | _ => None
  end.

End payloads.

(** ** What the crates promise

    What a type encodes is a value of that type, which encodes to the same bytes;
    and decoding inverts encoding, on the values in [dom]: a page is a [u32]. *)
Class ScaleLaws `{SC : ScaleCodec} (A : Type) `{E : !Encoded A} (dom : A -> Prop) : Prop := {
  decodes a : dom a -> exists v, decode_as_type (encode a) (make_type A).1 (make_type A).2 = ok v;
  encodes_back b v : decode_as_type b (make_type A).1 (make_type A).2 = ok v ->
    encode_as_type v (make_type A).1 (make_type A).2 = Some b;
  decode_encode a : dom a -> decode (encode a) = Some a;
}.

Section values_spec.
Context `{SC : ScaleCodec} {A : Type} `{E : !Encoded A} (dom : A -> Prop) `{L : !ScaleLaws A dom}.

(** Building a value does not fail, and it tells what it was built from. *)
Lemma to_scale_value_total a : dom a -> exists v, to_scale_value a = ok v.
Proof using L.
  intros Ha. unfold to_scale_value. destruct (decodes a Ha) as [v Hv]. destruct (make_type A) as [id types].
  cbn in Hv. rewrite Hv. by exists v.
Qed.

(** What a value of the type stands for. *)
Definition from_scale_value (v : Value) : option A :=
  encode_as_type v (make_type A).1 (make_type A).2 ≫= decode.

Lemma from_to_scale_value a v : dom a -> to_scale_value a = ok v -> from_scale_value v = Some a.
Proof using L.
  unfold to_scale_value, from_scale_value. pose proof (encodes_back (A := A)) as Hb.
  destruct (make_type A) as [id types]. cbn in Hb |- *. intros Ha Hv.
  destruct (decode_as_type (encode a) id types) as [w|] eqn:Ew; [|done]. injection Hv as ->.
  apply Hb in Ew. rewrite Ew. by apply decode_encode.
Qed.

End values_spec.

Section payloads_spec.
Context `{T : MinerConfig} `{SC : ScaleCodec}.
Context `{ES : !Encoded ElectionScore} `{EP : !Encoded Z} `{EO : !Encoded (option Solution)}.
Context (score_dom : ElectionScore -> Prop) (sol_dom : option Solution -> Prop) (pages_name solution_name : string).
Context `{LS : !ScaleLaws ElectionScore score_dom} `{LP : !ScaleLaws Z is_u32} `{LO : !ScaleLaws (option Solution) sol_dom}.

(** The calls that are sent as dynamic payloads, with encodable arguments. *)
Definition sendable (c : Call) : Prop :=
  match c with
  | register sc => score_dom sc
  | submit_page_call page sol => is_u32 page /\ sol_dom sol
  | _ => False
  end.

(** The call a node makes of a payload, by the names and the order of the
    arguments that the pallet declares: [register(claimed_score)] and
    [submit_page(page, maybe_solution)]. *)
Definition dispatch (p : DynamicPayload) : option Call :=
  if decide (payload_pallet p = "MultiBlockElectionSigned") then
    match payload_data p with
    | [claimed_score] =>
        if decide (payload_call p = "register") then register <$> from_scale_value claimed_score else None
    | [page; maybe_solution] =>
        if decide (payload_call p = "submit_page")
        then page ← from_scale_value page; submit_page_call page <$> from_scale_value maybe_solution
        else None
    | _ => None
    end
  else None.

(** With a codec that is faithful to a score, a page number and a solution, the
    node makes the same call of the payload. *)
Theorem payload_dispatches c : sendable c ->
  exists p, call_payload pages_name solution_name c = Some (ok p) /\ dispatch p = Some c.
Proof using LS LP LO.
  destruct c as [sc|page sol| | |]; cbn; try done; unfold register_payload, submit_page_payload.
  - intros Hsc. destruct (to_scale_value_total score_dom sc Hsc) as [v Hv]. rewrite Hv. eexists. split; [done|].
    unfold dispatch. cbn. by rewrite (from_to_scale_value score_dom sc v Hsc Hv).
  - intros [Hp Hs]. destruct (to_scale_value_total is_u32 page Hp) as [v Hv],
      (to_scale_value_total sol_dom sol Hs) as [w Hw]. rewrite Hv, Hw. eexists. split; [done|].
    unfold dispatch. cbn. rewrite (from_to_scale_value is_u32 page v Hp Hv). cbn.
    by rewrite (from_to_scale_value sol_dom sol w Hs Hw).
Qed.

End payloads_spec.

(** ** An example: values are their bytes *)
Module Bytes.

#[local] Instance bytes_codec : ScaleCodec := {|
  Value := list Z; MetaType := unit; Registry := unit; PortableRegistry := unit;
  registry_new := tt; register_type := fun _ r => (0, r); into_portable := fun r => r;
  decode_as_type := fun b _ _ => ok b; encode_as_type := fun v _ _ => Some v |}.

#[local] Instance encoded_score : Encoded ElectionScore := {|
  encode := fun sc => [minimal_stake sc; sum_stake sc; sum_stake_squared sc];
  decode := fun b => match b with [a; b; c] => Some {| minimal_stake := a; sum_stake := b; sum_stake_squared := c |} | _ => None end;
  meta_type := tt; type_name := "ElectionScore" |}.

#[local] Instance encoded_page : Encoded Z := {|
  encode := fun n => [n]; decode := fun b => match b with [n] => Some n | _ => None end;
  meta_type := tt; type_name := "u32" |}.

#[local] Instance encoded_solution : Encoded (option Solution) := {|
  encode := fun o => match o with Some n => [1; n] | None => [0] end;
  decode := fun b => match b with [1; n] => Some (Some n) | [0] => Some None | _ => None end;
  meta_type := tt; type_name := "Option<Solution>" |}.

Lemma bytes_laws {A} `{!Encoded A} (dom : A -> Prop) :
  (forall a, decode (encode a) = Some a) -> ScaleLaws A dom.
Proof.
  intros H. split; [intros a _; by eexists| |intros a _; apply H].
  intros b v. cbn. by intros [= ->].
Qed.

(** A page as its bytes, and back. *)
Lemma payload_dispatches_witness : exists p,
  call_payload "Pages" "Solution" (submit_page_call 2 (Some 13)) = Some (ok p) /\
  p = tx SUBMIT_PAGE [[2]; [1; 13]] /\ dispatch (T := num_config) p = Some (submit_page_call 2 (Some 13)).
Proof.
  pose proof (bytes_laws (A := ElectionScore) (fun _ => True) ltac:(by intros [])).
  pose proof (bytes_laws (A := Z) is_u32 ltac:(done)).
  pose proof (bytes_laws (A := option Z) (fun _ => True) ltac:(by intros [])).
  destruct (payload_dispatches (T := num_config) (fun _ => True) (fun _ => True) "Pages" "Solution"
    (submit_page_call (T := num_config) 2 (Some 13))) as (p & Hp & Hd); [cbn; unfold is_u32, u32_max; split; [lia|done]|].
  exists p. split; [exact Hp|]. split; [by injection Hp as <-|exact Hd].
Defined.

End Bytes.

(** ** Storage *)

Definition read_at {R} `{T : MinerConfig} (o : op R) : option AtBlock :=
  match o with
  | TryFetchTargetSnapshot b _ _ | TryFetchTargetSnapshotHash b _ _ | TryFetchVoterSnapshot b _ _
  | TryFetchVoterSnapshotHash b _ _ | IterValidators b | IterListBags b | IterListNodes b
  | TryFetchNominators b _ | TryFetchBonded b _ | TryFetchLedger b _ => Some b
  | _ => None
  end.

(** A dynamic read is told by its block, its address and its keys. *)
Lemma reads_identified `{T : MinerConfig} {R R'} (o : op R) (o' : op R') i i' keys :
  read_item o = Some (i, keys) -> read_item o' = Some (i', keys) -> storage_addr i = storage_addr i' ->
  read_at o = read_at o' -> existT R o = existT R' o'.
Proof.
  destruct o; try discriminate; intros Ho; injection Ho as <- <-;
    destruct o'; try discriminate; intros Ho'; injection Ho' as <-; intros Ha Hb; try discriminate Ha;
    injection Hb as <-; subst; reflexivity.
Qed.
