(* ===== verification/Predict.v ===== *)
(** * The predict command

    [src/commands/predict.rs] with the chain reads of [src/utils.rs] it uses:
    from a configuration to the two predictions and their files. *)

From S2P Require Import Prelude RustStr Errors Chain Metrics Types Effects ChainAccess ElectionData SnapshotFetch Staking Predictions Runtime.
Local Open Scope Z_scope.

(** [PredictConfig] *)
Record PredictConfig : Type := {
  pc_desired_validators : option Z;
  output_dir : option string;
  balancing_iterations : Z;
  do_reduce : bool;
  pc_block_number : option Z;
  overrides : option OverridesConfig;
  algorithm : ElectionAlgorithm;
}.

(** [default_balancing_iterations] *)
Definition default_balancing_iterations : Z := 10.

Section predict.
Context `{T : MinerConfig} `{F : Foreign} `{V : VotesBound} `{US : UnstableSort} {S : Type}.

(** ** Chain reads of [utils.rs] *)

(** [get_ss58_prefix]: 0 if the constant cannot be read. *)
Definition get_ss58_prefix : M S Z :=
  at_block ← query AtCurrentBlock;
  r ← catch (fetch_constant at_block SS58_PREFIX "u16");
  match r with
  | ok ss58_prefix => mret ss58_prefix
  | err _ => mret 0
  end.

(** An operation whose error is only printed into the text of another one. *)
Definition ask_or {A} (what : string) (o : op (Result A string)) : M S A :=
  r ← ask o;
  match r with ok a => mret a | err e => throw (Error.Other (what +:+ e)) end.

(** [get_block_hash] *)
Definition get_block_hash (block_number : Z) : M S Hash :=
  ask_or "Failed to serialize block number: " (RpcParamsPush block_number);;
  endpoint ← ask CurrentEndpoint;
  query (RpcFromUrl endpoint);;
  block_hash ← ask_or ("Failed to get block hash for block " +:+ pretty block_number +:+ ": ")
                 (RpcBlockHash block_number);
  match block_hash with
  | Some hash => mret hash
  | None => throw (Error.Other ("Block " +:+ pretty block_number +:+ " not found (may be pruned or invalid)"))
  end.

(** [get_chain_properties] *)
Definition get_chain_properties : M S (Z * Z * string) :=
  endpoint ← ask CurrentEndpoint;
  query (RpcFromUrl endpoint);;
  response ← ask_or "Failed to call system_properties RPC: " RpcSystemProperties;
  let decimals := default 10 (token_decimals response) in
  let symbol := default "UNIT" (token_symbol response) in
  ss58_prefix ← get_ss58_prefix;
  mret (ss58_prefix, decimals, symbol).

(** ** The prediction *)

Definition MINING_TIMEOUT_SECS : Z := 600.

(** [block_number() as u32] *)
Definition as_u32 (x : Z) : Z := x mod 2 ^ 32.

(** The block number of the metadata: the one asked for, else the latest. *)
Definition prediction_block_number (config : PredictConfig) : M S Z :=
  match pc_block_number config with
  | Some block_num => mret block_num
  | None =>
      r ← ask AtCurrentBlock;
      match r with
      | ok at_block => mret (as_u32 (ab_number at_block))
      | err e =>
          text ← ask (SubxtText e);
          throw (Error.Other ("Failed to fetch latest block number: " +:+ text))
      end
  end.

(** The block the data is read at. *)
Definition prediction_block (config : PredictConfig) : M S AtBlock :=
  match pc_block_number config with
  | Some block_num =>
      block_hash ← get_block_hash block_num;
      storage_at (Some block_hash)
  | None => query AtCurrentBlock
  end.

(** The desired number of validators: configured, else that of the chain. *)
Definition prediction_desired_targets (config : PredictConfig) (at_block : AtBlock) : M S Z :=
  match pc_desired_validators config with
  | Some targets => mret targets
  | None =>
      r ← ask_or "Failed to fetch Desired Targets from chain: " (TryFetchValidatorCount at_block);
      match r with
      | None => throw (Error.Other "Desired validators not found in chain storage")
      | Some (err e) => throw (Error.Other ("Failed to decode Desired Targets: " +:+ e))
      | Some (ok targets) => mret targets
      end
  end.

(** [run_prediction] *)
Definition run_prediction (config : PredictConfig) : M S (ValidatorsPrediction * NominatorsPrediction) :=
  at_block ← query AtCurrentBlock;
  update_metadata_constants at_block;;
  set_balancing_iterations (balancing_iterations config);;
  set_algorithm (algorithm config);;
  n_pages ← ask PagesGet;
  block_number ← prediction_block_number config;
  at_block ← prediction_block config;
  current_round ← query (FetchRound at_block);
  desired_targets ← prediction_desired_targets config at_block;
  x ← fetch_snapshots n_pages current_round at_block (overrides config);
  let '(target_snapshot, voter_snapshot, data_source) := x in
  let n_pages := Z.max n_pages (as_u32 (Z.of_nat (length voter_snapshot))) in
  r ← timeout MINING_TIMEOUT_SECS
        (mine_solution target_snapshot voter_snapshot n_pages current_round desired_targets
           block_number (do_reduce config));
  paged_raw_solution ←
    match r with
    | Some (ok sol) => mret sol
    | Some (err e) => throw e
    | None => throw (Error.Timeout (TimeoutError.Mining MINING_TIMEOUT_SECS))
    end;
  y ← get_chain_properties;
  let '(ss58_prefix, decimals, symbol) := y in
  build_predictions_from_solution paged_raw_solution target_snapshot voter_snapshot {|
    ctx_round := current_round;
    ctx_desired_targets := desired_targets;
    ctx_block_number := block_number;
    ctx_ss58_prefix := ss58_prefix;
    ctx_token_decimals := decimals;
    ctx_token_symbol := symbol;
    ctx_data_source := data_source |}.

(** [predict_cmd] *)
Definition predict_cmd (config : PredictConfig) : M S unit :=
  let output_dir := default "results" (output_dir config) in
  x ← run_prediction config;
  let '(validators_prediction, nominators_prediction) := x in
  ask_or ("Failed to create output directory " +:+ output_dir +:+ ": ") (CreateDirAll output_dir);;
  write_data_to_json_file validators_to_json validators_prediction
    {| parent_dir := output_dir; file_name := "validators_prediction.json" |};;
  write_data_to_json_file nominators_to_json nominators_prediction
    {| parent_dir := output_dir; file_name := "nominators_prediction.json" |}.

End predict.
