(* ===== verification/PredictSpec.v ===== *)
(** * Theorems on the predict command and the configuration of the runtime *)

From S2P Require Import Prelude RustStr Errors Chain Metrics Types Effects Calls Scenario ChainAccess ElectionData ElectionDataSpec Tokens SnapshotFetch Staking StakingSpec Predictions PredictionsSpec Runtime Predict.
Local Open Scope Z_scope.

(** ** Chains *)

(** What a chain prints selects it again, except for [StakingAsync], whose
    printed name is refused. *)
Theorem printed_chain_selects c : Chains.from_str (Chains.to_string c) = Ok c <-> c <> Chains.StakingAsync.
Proof. by destruct c. Qed.

(** The message of [InvalidChain] names a chain that is refused. *)
Theorem advertised_chain_refused :
  Chains.from_str "asset-hub-next" = Err (Error.InvalidChain "asset-hub-next").
Proof. reflexivity. Qed.

(** ** What a program does besides reading *)
Section acts.
Context `{T : MinerConfig}.

Inductive Act : Type :=
| ActSet (p : Param) (v : Z)
| ActDir (dir : string)
| ActCreate (path : FilePath)
| ActWrite (path : FilePath) (content : string)
| ActFlush (path : FilePath)
| ActMine
| ActOther.

(** Reads of the node, of files and of the clock, computations but the solver,
    and sleeping leave nothing behind. *)
Definition act_of_op {R} (o : op R) : option Act :=
  match o with
  | ParamSet p v => Some (ActSet p v)
  | CreateDirAll dir => Some (ActDir dir)
  | FileCreate path => Some (ActCreate path)
  | FileWriteAll path content => Some (ActWrite path content)
  | FileFlush path => Some (ActFlush path)
  | MineSolution _ => Some ActMine
  | CreateSigned _ _ _ | SubmitAndWatch _ _ _ | WaitForFinalized _ | WaitForSuccess _ | Reconnect
  | MinerTrySend _ | MinerSend _ | ClearTrySend _ | EraSend _ | EraTrySend _ | MetricOp _
  | TryAcquirePrediction | ReleasePrediction | PrometheusRun _ | TcpBind _ | SignalStream _
  | SpawnUpgradeTask => Some ActOther
  | _ => None
  end.

Definition act_of (e : event) : option Act := match e with Event o _ => act_of_op o end.

(** The acts of a trace, newest first. *)
Definition acts (t : trace) : list Act := omap act_of t.

Definition acted {S} (l : list Act) (_ : S) (t : trace) : Prop := acts t = l.

Lemma acts_cons {R} (o : op R) r t :
  acts (Event o r :: t) = match act_of_op o with Some a => a :: acts t | None => acts t end.
Proof. unfold acts. cbn. by destruct (act_of_op o). Qed.

Lemma acted_neutral {S R} l (o : op R) : act_of_op o = None -> neutral (acted (S := S) l) o.
Proof. intros Ho s t r Ht. unfold acted. by rewrite acts_cons, Ho. Qed.

(** The cells that were set are among the acts. *)
Definition set_of (a : Act) : option (Param * Z) := match a with ActSet p v => Some (p, v) | _ => None end.

Lemma param_sets_acts t : param_sets t = omap set_of (acts t).
Proof.
  induction t as [|[R o r] t IH]; [done|]. rewrite acts_cons. unfold param_sets in *. cbn.
  rewrite IH. by destruct o.
Qed.

End acts.

Ltac silent := apply acted_neutral; reflexivity.
Ltac keeps_acted := repeat (keeps_step silent).

Section readers.
Context `{T : MinerConfig} `{F : Foreign} `{V : VotesBound} `{US : UnstableSort} {S : Type}.
Context (l : list Act).
Let I := acted (S := S) l.

Lemma acted_display e : keeps I (display_error e) anything.
Proof. destruct e; cbn [display_error]; keeps_acted. Qed.

Lemma acted_context_error {A} what (m : M S A) :
  keeps I m anything -> keeps I (context_error what m) anything.
Proof.
  intros Hm. unfold context_error. eapply keeps_bind; [apply keeps_catch, Hm|].
  intros [a|e]; [by apply keeps_ret|]. eapply keeps_bind; [apply acted_display|].
  intros text. apply keeps_throw.
Qed.

Lemma acted_fetch_candidates b : keeps I (fetch_candidates b) anything.
Proof.
  unfold fetch_candidates. keeps_acted. apply keeps_join_all. intros x. unfold fetch_stake. keeps_acted.
Qed.

Lemma acted_fetch_voter_batch chunk b : keeps I (fetch_voter_batch chunk b) anything.
Proof.
  unfold fetch_voter_batch. eapply keeps_bind; [apply keeps_join_all|].
  - intros [a sc]. unfold fetch_voter. keeps_acted.
  - intros rs. keeps_acted.
Qed.

Lemma acted_batch_attempts chunk b n : forall attempt e,
  keeps I (batch_attempts n attempt e chunk b) anything.
Proof.
  induction n as [|n IH]; intros attempt e; cbn [batch_attempts]; [keeps_acted|].
  eapply keeps_bind; [apply keeps_catch, acted_fetch_voter_batch|].
  intros [r|e']; [keeps_acted|]. eapply keeps_bind; [apply acted_display|]. intros msg.
  destruct (is_retryable msg && (attempt <? Z.of_nat MAX_RETRIES)); [|keeps_acted].
  eapply (keeps_bind _ _ _ anything); [keeps_acted|]. intros _. apply IH.
Qed.

Lemma acted_batch_loop b keys : forall todo handles acc,
  keeps I (batch_loop b keys todo handles acc) anything.
Proof.
  induction todo as [|chunk todo IH]; intros handles acc; cbn [batch_loop]; [keeps_acted|].
  eapply keeps_bind; [apply keeps_catch, acted_batch_attempts|]. intros handle.
  destruct (handles ++ [handle]); [keeps_acted|].
  destruct (MAX_CONCURRENT_BATCHES <=? _)%nat; [|apply IH].
  eapply (keeps_bind _ _ _ anything); [keeps_acted|]. intros joined.
  eapply (keeps_bind _ _ _ anything); [keeps_acted|]. intros rs. apply IH.
Qed.

Lemma acted_join_handles handles : keeps I (join_handles handles) anything.
Proof.
  induction handles as [|x handles IH]; cbn [join_handles]; [keeps_acted|].
  eapply (keeps_bind _ _ _ anything); [keeps_acted|]. intros joined.
  eapply keeps_bind; [apply IH|]. intros rest. keeps_acted.
Qed.

Lemma acted_fetch_voters limit b : keeps I (fetch_voters limit b) anything.
Proof.
  unfold fetch_voters, fetch_voter_list, fetch_validator_keys.
  eapply (keeps_bind _ _ _ anything); [keeps_acted|]. intros vs.
  eapply (keeps_bind _ _ _ anything); [keeps_acted|]. intros keys.
  eapply keeps_bind; [apply acted_batch_loop|]. intros [handles acc].
  eapply keeps_bind; [apply acted_join_handles|]. intros rs. keeps_acted.
Qed.

Lemma acted_try_fetch_snapshot n round b : keeps I (try_fetch_snapshot n round b) anything.
Proof.
  assert (forall pages, keeps I (fetch_voter_pages (S := S) pages round b) anything) as Hp.
  { induction pages as [|p pages IH]; cbn [fetch_voter_pages]; [keeps_acted|].
    eapply (keeps_bind _ _ _ anything); [unfold paged_voter_snapshot, decode_fetched; keeps_acted|].
    intros x. eapply keeps_bind; [apply IH|]. intros xs. keeps_acted. }
  unfold try_fetch_snapshot. eapply (keeps_bind _ _ _ anything); [keeps_acted|]. intros chain_pages.
  case_match; [keeps_acted|].
  eapply (keeps_bind _ _ _ anything); [unfold target_snapshot, decode_fetched; keeps_acted|]. intros x.
  eapply keeps_bind; [apply Hp|]. intros xs. keeps_acted.
Qed.

Lemma acted_fetch_snapshots n round b overrides : keeps I (fetch_snapshots n round b overrides) anything.
Proof.
  unfold fetch_snapshots, get_election_data. eapply (keeps_bind _ _ _ anything).
  { eapply keeps_bind; [apply keeps_catch, acted_try_fetch_snapshot|].
    intros [[x y]|e]; [keeps_acted|].
    eapply keeps_bind; [apply acted_context_error, acted_fetch_candidates|]. intros candidates.
    eapply (keeps_bind _ _ _ anything); [keeps_acted|]. intros pages.
    eapply (keeps_bind _ _ _ anything); [keeps_acted|]. intros per_block. cbv zeta.
    eapply keeps_bind; [apply acted_context_error, acted_fetch_voters|]. intros voters. keeps_acted. }
  intros [[candidates nominators] source].
  unfold read_data_from_json_file, io, serde, convert_with_params.
  eapply (keeps_bind _ _ _ anything); [keeps_acted|]. intros [c v]. keeps_acted.
Qed.

Lemma acted_build_predictions solution targets vs ctx :
  keeps I (build_predictions_from_solution solution targets vs ctx) anything.
Proof.
  unfold build_predictions_from_solution.
  eapply (keeps_bind _ _ _ anything); [keeps_acted|]. intros pages. cbv zeta.
  eapply (keeps_bind _ _ _ anything); [keeps_acted|]. intros [supports|e]; [|keeps_acted].
  unfold no_panic. keeps_acted.
Qed.

End readers.

(** ** The acts of a program, in order *)

(** The cells [update_metadata_constants] sets, in order. *)
Definition metadata_params : list Param :=
  [ParamPages; ParamTargetSnapshotPerBlock; ParamVoterSnapshotPerBlock; ParamMaxLength;
   ParamMaxWinnersPerPage; ParamMaxBackersPerWinner].

(** An act without the value a cell got from the metadata. *)
Definition mask (a : Act) : Act :=
  match a with
  | ActSet p v => if decide (p ∈ metadata_params) then ActSet p 0 else a
  | _ => a
  end.

Section emits.
Context `{T : MinerConfig} {S : Type}.

(** The acts of a run, oldest first, are the listed ones when it returns, and a
    prefix of them when it does not. *)
Definition emitted (l : list Act) (t t' : trace) (returned : Prop) : Prop :=
  exists new, acts t' = reverse new ++ acts t /\ mask <$> new `prefix_of` l /\
    (returned -> mask <$> new = l).

Definition emits {A} (l : list Act) (m : M S A) : Prop :=
  forall s t, wp Itrue m (fun o _ t' => emitted l t t' (exists a, o = Ok a)) s t.

Lemma emits_run {A} l (m : M S A) h s t : emits l m ->
  let '(o, _, t') := run h m s t in emitted l t t' (exists a, o = Ok a).
Proof. intros Hm. apply (wp_run _ _ _ s t h (Hm s t)). Qed.

Lemma emits_silent {A} (m : M S A) : (forall l, keeps (acted l) m anything) -> emits [] m.
Proof.
  intros Hm s t. eapply wp_mono; [| |apply (Hm (acts t)); reflexivity]; [done|].
  intros o s' t' [Ht _]. exists []. by rewrite Ht.
Qed.

Lemma emits_bind {A B} l1 l2 (m : M S A) (f : A -> M S B) :
  emits l1 m -> (forall a, emits l2 (f a)) -> emits (l1 ++ l2) (mbind f m).
Proof.
  intros Hm Hf s t. apply wp_bind. eapply wp_mono; [done| |apply Hm].
  assert (forall (o : outcome B) t', (forall b, o <> Ok b) -> emitted l1 t t' False ->
            emitted (l1 ++ l2) t t' (exists b, o = Ok b)) as Hend.
  { intros o t' Ho (new & Hn & Hp & _). exists new. split_and!; [done|by apply prefix_app_r|].
    intros [b Hb]. by apply Ho in Hb. }
  intros [a|e|msg|] s' t' He; cbn [bind_post];
    try (apply Hend; [done|]; destruct He as (new & Hn & Hp & _); by exists new).
  destruct He as (new & Hn & _ & Heq). eapply wp_mono; [done| |apply Hf].
  intros o s'' t'' (new' & Hn' & Hp' & Heq'). exists (new ++ new').
  rewrite fmap_app, Heq by eauto. rewrite Hn', Hn, reverse_app, app_assoc. split_and!; [done| |].
  - by apply prefix_app.
  - intros Hok. by rewrite Heq'.
Qed.

Lemma emits_bind_nil {A B} l (m : M S A) (f : A -> M S B) :
  emits [] m -> (forall a, emits l (f a)) -> emits l (mbind f m).
Proof. apply emits_bind. Qed.



Lemma emits_ask {R} (o : op R) a : act_of_op o = Some a -> emits [mask a] (ask o : M S R).
Proof.
  intros Ho s t r. split; [done|]. apply wp_ret. exists [a]. by rewrite acts_cons, Ho.
Qed.



End emits.

Section prediction_acts.
Context `{T : MinerConfig} `{F : Foreign} `{V : VotesBound} `{US : UnstableSort} {S : Type}.

Lemma emits_set_step {A} p l (get : M S A) (v : A -> Z) (k : A -> M S unit) :
  p ∈ metadata_params -> (forall l, keeps (acted l) get anything) -> (forall a, emits l (k a)) ->
  emits (ActSet p 0 :: l) (a ← get; set_param p (v a);; k a).
Proof.
  intros Hp Hget Hk. apply emits_bind_nil; [by apply emits_silent|]. intros a.
  apply (emits_bind [ActSet p 0] l); [|intros _; apply Hk].
  assert (ActSet p 0 = mask (ActSet p (v a))) as -> by (cbn; by rewrite decide_True).
  by apply emits_ask.
Qed.

Lemma emits_own_set p v : mask (ActSet p v) = ActSet p v -> emits (S := S) [ActSet p v] (set_param p v).
Proof. intros <-. by apply emits_ask. Qed.

Lemma acted_fetch_constant l b i ty : keeps (acted (S := S) l) (fetch_constant b i ty) anything.
Proof. unfold fetch_constant. keeps_acted. Qed.

Lemma acted_fetch_block_length l b : keeps (acted (S := S) l) (fetch_block_length b) anything.
Proof. unfold fetch_block_length. keeps_acted. Qed.

Lemma emits_update_metadata_constants b :
  emits (S := S) ((fun p => ActSet p 0) <$> metadata_params) (update_metadata_constants b).
Proof.
  unfold update_metadata_constants, metadata_params. cbn [fmap list_fmap].
  do 3 (apply (emits_set_step _ _ _ id); [set_solver|intros; apply acted_fetch_constant|intros ?]).
  apply (emits_set_step _ _ _ (fun x => percent_mul 75 (block_length_total x)));
    [set_solver|intros; apply acted_fetch_block_length|intros ?].
  apply (emits_set_step _ _ _ id); [set_solver|intros; apply acted_fetch_constant|intros ?].
  apply emits_bind_nil; [apply emits_silent; intros; apply acted_fetch_constant|]. intros v.
  change (ActSet ParamMaxBackersPerWinner 0) with (mask (ActSet ParamMaxBackersPerWinner v)).
  by apply emits_ask.
Qed.

(** What a prediction sets: the metadata, then its own configuration. *)
Definition prediction_sets (config : PredictConfig) : list Act :=
  ((fun p => ActSet p 0) <$> metadata_params) ++
  [ActSet ParamBalancingIterations (balancing_iterations config);
   ActSet ParamAlgorithm (algorithm_byte (algorithm config))].

Lemma acted_get_ss58_prefix l : keeps (acted (S := S) l) get_ss58_prefix anything.
Proof.
  unfold get_ss58_prefix. eapply (keeps_bind _ _ _ anything); [keeps_acted|]. intros b.
  eapply keeps_bind; [apply keeps_catch, acted_fetch_constant|]. intros r. keeps_acted.
Qed.

Lemma acted_get_block_hash l n : keeps (acted (S := S) l) (get_block_hash n) anything.
Proof. unfold get_block_hash, ask_or. keeps_acted. Qed.

(** The solver runs once, also when the timer of the prediction fires. *)
Lemma emits_mine secs x1 x2 x3 x4 x5 x6 x7 e :
  emits (S := S) [ActMine]
    (r ← timeout secs (mine_solution x1 x2 x3 x4 x5 x6 x7);
     match r with Some (ok sol) => mret sol | Some (err e) => throw e | None => throw e end).
Proof.
  intros s t. set (I := fun (_ : S) t' => acts t' = acts t \/ acts t' = ActMine :: acts t).
  apply wp_bind. eapply (wp_mono I); [done| |].
  2: { apply (wp_timeout I _ _ (fun o s' t' => match o with
         | Ok (Some (ok _)) => acts t' = ActMine :: acts t
         | Ok (Some (err _)) | Ok None => I s' t'
         | _ => False end)); [|done].
       unfold mine_solution. apply wp_bind. intros bound. split; [by left|]. apply wp_ret. cbn [bind_post].
       cbv zeta. apply wp_bind. intros r. split; [by right|]. apply wp_ret. cbn [bind_post].
       destruct r as [[sol|err]|err]; try by right.
       apply wp_bind. intros r. split; [by right|]. apply wp_ret. cbn [bind_post].
       destruct r; [done|by right]. }
  assert (forall t', acts t' = acts t \/ acts t' = ActMine :: acts t -> emitted [ActMine] t t' False) as Hend.
  { intros t' [Ht|Ht].
    - exists []. split_and!; [done|apply prefix_nil|done].
    - by exists [ActMine]. }
  assert (forall (x : Error.t) s' t', I s' t' -> wp Itrue (throw x : M S PagedRawSolution)
            (fun o _ t' => emitted [ActMine] t t' (exists a, o = Ok a)) s' t') as Hthrow.
  { intros x s' t' Ht. destruct (Hend t' Ht) as (new & Hn & Hp & _). exists new. split_and!; [done..|].
    by intros []. }
  intros [[[sol|err]|]|x|msg|] s' t' Ho; cbn [bind_post]; try done; try by apply Hthrow.
  exists [ActMine]. by rewrite Ho.
Qed.

(** What [run_prediction] does with the solution adds nothing. *)
Lemma emits_mine_then {B} secs x1 x2 x3 x4 x5 x6 x7 e (k : PagedRawSolution -> M S B) :
  (forall sol, emits [] (k sol)) ->
  emits [ActMine]
    (r ← timeout secs (mine_solution x1 x2 x3 x4 x5 x6 x7);
     sol ← match r with Some (ok sol) => mret sol | Some (err e) => throw e | None => throw e end;
     k sol).
Proof. intros Hk s t. apply wp_bind_assoc, (emits_bind [ActMine] []); [apply emits_mine|done]. Qed.

Lemma acted_prediction_block l config : keeps (acted (S := S) l) (prediction_block config) anything.
Proof.
  unfold prediction_block. case_match; [|keeps_acted].
  eapply keeps_bind; [apply acted_get_block_hash|]. intros hash. unfold storage_at. keeps_acted.
Qed.

Lemma acted_get_chain_properties l : keeps (acted (S := S) l) get_chain_properties anything.
Proof.
  unfold get_chain_properties, ask_or.
  eapply (keeps_bind _ _ _ anything); [keeps_acted|]. intros endpoint.
  eapply (keeps_bind _ _ _ anything); [keeps_acted|]. intros _.
  eapply (keeps_bind _ _ _ anything); [keeps_acted|]. intros response. cbv zeta.
  eapply keeps_bind; [apply acted_get_ss58_prefix|]. intros prefix. keeps_acted.
Qed.

(** And then it mines. *)
Definition prediction_acts (config : PredictConfig) : list Act := prediction_sets config ++ [ActMine].

Lemma emits_run_prediction config : emits (S := S) (prediction_acts config) (run_prediction config).
Proof.
  unfold run_prediction.
  apply emits_bind_nil; [apply emits_silent; intros; keeps_acted|]. intros b.
  unfold prediction_acts, prediction_sets. rewrite <- app_assoc.
  apply emits_bind; [apply emits_update_metadata_constants|]. intros _.
  apply (emits_bind [_] [_; _]); [by apply emits_own_set|]. intros _.
  apply (emits_bind [_] [_]); [by apply emits_own_set|]. intros _.
  apply emits_bind_nil; [apply emits_silent; intros; keeps_acted|]. intros n_pages.
  apply emits_bind_nil; [apply emits_silent; intros; unfold prediction_block_number; keeps_acted|].
  intros block_number.
  apply emits_bind_nil; [apply emits_silent; intros; apply acted_prediction_block|]. intros at_block.
  apply emits_bind_nil; [apply emits_silent; intros; keeps_acted|]. intros round.
  apply emits_bind_nil; [apply emits_silent; intros; unfold prediction_desired_targets, ask_or; keeps_acted|].
  intros desired.
  apply emits_bind_nil; [apply emits_silent; intros; apply acted_fetch_snapshots|].
  intros [[targets voters] source]. cbv zeta. apply emits_mine_then. intros solution.
  apply emits_bind_nil; [apply emits_silent; intros; apply acted_get_chain_properties|].
  intros [[prefix decimals] symbol]. apply emits_silent. intros. apply acted_build_predictions.
Qed.

End prediction_acts.

(** ** The theorems *)
Section theorems.
Context `{T : MinerConfig} `{F : Foreign} `{V : VotesBound} `{US : UnstableSort} {S : Type}.

Definition metadata_error {A} (o : outcome A) : Prop :=
  match o with Ok _ => True | Err e => exists msg, e = Error.InvalidMetadata msg | _ => False end.

Lemma wp_decode_constant {A} (o : op (Result (Result A string) string)) i ty (s : S) t :
  wp Itrue (r ← ask o; of_result (decode_constant i ty r)) (fun o _ _ => metadata_error o) s t.
Proof.
  apply wp_bind. intros r. split; [done|]. apply wp_ret. cbn [bind_post].
  destruct r as [[v|e]|e]; cbn; [done|..]; by eexists.
Qed.

Lemma update_metadata_constants_errors b (s : S) t :
  wp Itrue (update_metadata_constants b) (fun o _ _ => metadata_error o) s t.
Proof.
  unfold update_metadata_constants, fetch_constant, fetch_block_length.
  assert (forall p v (k : unit -> M S unit) s t,
    (forall s t, wp Itrue (k tt) (fun o _ _ => metadata_error o) s t) ->
    wp Itrue (x ← set_param p v; k x) (fun o _ _ => metadata_error o) s t) as Hset.
  { intros p v k s' t' Hk. apply wp_bind. intros []. split; [done|]. apply wp_ret. apply Hk. }
  repeat (apply wp_bind; eapply wp_mono; [done| |apply wp_decode_constant];
          intros [?|?|?|] ? ? ?; cbn [bind_post]; [|done|done|done]; try (apply Hset; intros)).
  done.
Qed.

(** [update_metadata_constants] sets the six parameters in order.  It is not
    atomic: an error, which is always about the metadata, leaves those set that
    come before the constant that could not be read. *)
Theorem update_metadata_constants_in_order h b (s : S) t :
  let '(o, _, t') := run h (update_metadata_constants b) s t in
  metadata_error o /\ emitted ((fun p => ActSet p 0) <$> metadata_params) t t' (o = Ok tt).
Proof.
  pose proof (emits_run _ _ h s t (emits_update_metadata_constants b)) as He.
  pose proof (wp_run _ _ _ s t h (update_metadata_constants_errors b s t)) as Hm.
  destruct (run h _ s t) as [[o s'] t']. split; [done|].
  destruct He as (new & Hn & Hp & Heq). exists new. split_and!; [done..|]. intros ->. eauto.
Qed.

(** A prediction submits nothing, sends nothing and writes no file: all it
    changes are the parameter types, those of the metadata first, then the
    balancing iterations and the algorithm of its configuration; then the solver
    runs, once.  When it returns it has done all of that. *)
Theorem prediction_only_sets_parameters h config (s : S) t :
  let '(o, _, t') := run h (run_prediction config) s t in
  emitted (prediction_acts config) t t' (exists x, o = Ok x).
Proof. apply emits_run, emits_run_prediction. Qed.





(** ** The algorithm cell *)

(** The algorithm cell was only ever set to the byte of an algorithm. *)
Definition algorithm_typed (t : trace) : Prop :=
  Forall (fun x => x.1 = ParamAlgorithm -> x.2 = 0 \/ x.2 = 1) (param_sets t).

Lemma last_set_typed l :
  Forall (fun x : Param * Z => x.1 = ParamAlgorithm -> x.2 = 0 \/ x.2 = 1) l ->
  last_set ParamAlgorithm l = 0 \/ last_set ParamAlgorithm l = 1.
Proof.
  induction 1 as [|[p v] l Hx Hl IH]; cbn [last_set]; [by left|].
  case_decide as E; [by apply Hx|done].
Qed.

Lemma omap_reverse {A B} (f : A -> option B) l : omap f (reverse l) = reverse (omap f l).
Proof.
  induction l as [|x l IH]; [done|]. rewrite reverse_cons, omap_app, IH. cbn.
  destruct (f x) as [y|]; cbn; [by rewrite <- reverse_cons|by rewrite app_nil_r].
Qed.

Lemma mask_other p a v : p ∉ metadata_params -> mask a = ActSet p v -> a = ActSet p v.
Proof.
  intros Hp. destruct a as [q w| | | | | |]; cbn; try done. case_decide as Hq; [|done].
  intros E. injection E as -> _. done.
Qed.

Lemma prediction_sets_algorithm config v :
  ActSet ParamAlgorithm v ∈ prediction_acts config -> v = algorithm_byte (algorithm config).
Proof. unfold prediction_acts, prediction_sets, metadata_params. cbn. set_solver. Qed.

(** A prediction that returned has set the two cells of the solver last. *)
Lemma solver_cells_last config new (tail : list (Param * Z)) :
  mask <$> new = prediction_acts config ->
  last_set ParamAlgorithm (reverse (omap set_of new) ++ tail) = algorithm_byte (algorithm config) /\
  last_set ParamBalancingIterations (reverse (omap set_of new) ++ tail) = balancing_iterations config.
Proof.
  unfold prediction_acts, prediction_sets. rewrite <- app_assoc. intros Heq.
  apply fmap_app_inv in Heq as (new1 & new2 & Hn1 & Hn2 & ->).
  destruct new2 as [|x [|a [|y [|]]]]; try done. injection Hn2 as Hx Ha Hy. symmetry in Hx, Ha, Hy.
  apply mask_other in Ha as ->; [|set_solver]. apply mask_other in Hx as ->; [|set_solver].
  assert (set_of y = None) as Hy'.
  { destruct y as [p v| | | | | |]; try done. cbn in Hy. by case_decide. }
  rewrite !omap_app, !reverse_app. cbn. by rewrite Hy'.
Qed.

(** C38: Predictions keep the algorithm cell well typed, so that [Algorithm::get]
    never reaches its [unreachable!]; after a prediction that returned, the
    algorithm and the balancing configuration the solver reads are those that
    were asked for, with tolerance zero. *)
Theorem algorithm_cell_typed h config (s : S) t :
  algorithm_typed t ->
  let '(o, s', t') := run h (run_prediction config) s t in
  algorithm_typed t' /\
  (cells_are_memory h ->
   exists a, (run h algorithm_get s' t').1.1 = Ok a /\
     ((exists x, o = Ok x) -> a = algorithm config /\
        (run h balancing_get s' t').1.1 =
          Ok (Some {| bc_iterations := balancing_iterations config; bc_tolerance := 0 |}))).
Proof.
  intros Ht. pose proof (emits_run _ _ h s t (emits_run_prediction config)) as He.
  destruct (run h _ s t) as [[o s'] t']. destruct He as (new & Hn & Hp & Heq).
  assert (param_sets t' = reverse (omap set_of new) ++ param_sets t) as Hsets.
  { by rewrite !param_sets_acts, Hn, omap_app, omap_reverse. }
  assert (algorithm_typed t') as Ht'.
  { unfold algorithm_typed. rewrite Hsets. apply Forall_app. split; [|done].
    apply Forall_reverse, Forall_forall. intros [p v] (a & Ha & Hset)%list_elem_of_omap Hpv. cbn in Hpv. subst p. cbn [snd].
    destruct a; try done. injection Hset as -> ->.
    assert (ActSet ParamAlgorithm v ∈ mask <$> new) as Hin
      by (apply list_elem_of_fmap; by exists (ActSet ParamAlgorithm v)).
    destruct Hp as [rest Hrest]. rewrite (prediction_sets_algorithm config v).
    - destruct (algorithm config); cbn; auto.
    - rewrite Hrest. apply elem_of_app. by left. }
  split; [done|]. intros [Hget _].
  unfold algorithm_get, balancing_get. rewrite !run_mbind. cbn [run ask]. rewrite !Hget. unfold param_value.
  assert (forall a, algorithm_byte a = last_set ParamAlgorithm (param_sets t') -> (exists x, o = Ok x) ->
    a = algorithm config /\ last_set ParamBalancingIterations (param_sets t') = balancing_iterations config) as Hlast.
  { intros a Ha Hok. destruct (solver_cells_last config new (param_sets t) (Heq Hok)) as [Hb Hi].
    rewrite <- Hsets in Hb, Hi. split; [|done]. rewrite Hb in Ha. by destruct a, (algorithm config). }
  destruct (last_set_typed _ Ht') as [E|E]; rewrite E in *; cbn.
  - exists SeqPhragmen. split; [done|]. intros Hok. by destruct (Hlast SeqPhragmen eq_refl Hok) as [-> ->].
  - exists Phragmms. split; [done|]. intros Hok. by destruct (Hlast Phragmms eq_refl Hok) as [-> ->].
Qed.

End theorems.

(** ** From the node to the predictions *)
Section end_to_end.
Context `{T : MinerConfig} `{F : Foreign} `{V : VotesBound} `{US : UnstableSort} {S : Type}.

(** The block a configuration asks for and its number: the head, or the block of
    that number. *)
Definition located (h : handler) (config : PredictConfig) (head b : AtBlock) (number : Z) : Prop :=
  match pc_block_number config with
  | None => b = head /\ number = as_u32 (ab_number head)
  | Some n => number = n /\ (forall t, answer h _ (RpcParamsPush n) t = ok tt) /\
      exists hash, (forall t, answer h _ (RpcBlockHash n) t = ok (Some hash)) /\
        (forall t, answer h _ (AtBlockHash hash) t = ok b)
  end.

(** The number of validators a configuration asks for, or that of the chain. *)
Definition asked_for (h : handler) (config : PredictConfig) (b : AtBlock) (desired : Z) : Prop :=
  match pc_desired_validators config with
  | Some n => desired = n
  | None => forall t, answer h _ (TryFetchValidatorCount b) t = ok (Some (ok desired))
  end.

(** What the solver has to be asked. *)
Definition prediction_input (config : PredictConfig) (round pages desired : Z)
    (targets : TargetSnapshotPage) (voters : list VoterSnapshotPage) : MineInput := {|
  mi_desired_targets := desired; mi_all_targets := targets;
  mi_voter_pages := take (Z.to_nat pages) voters;
  mi_pages := Z.max pages (as_u32 (Z.of_nat (length voters)));
  mi_do_reduce := do_reduce config; mi_round := round |}.

(** A node whose head is [head] and that has no snapshot at [b]; a solver that
    finds [solution] for these targets and voters; and its supports. *)
Record predicting (h : handler) (head b : AtBlock) (st : StakingState)
    (round pages per_block targets_per_block : Z) (config : PredictConfig) (desired : Z)
    (targets : TargetSnapshotPage) (voters : list VoterSnapshotPage) (solution : PagedRawSolution)
    (page_supports : list (list (AccountId * Support))) (props : ChainProperties) (prefix : Z) : Prop := {
  pn_staking : staking_only h b st round pages per_block targets_per_block;
  pn_fires secs t : fires h secs t = false;
  pn_block t : answer h _ AtCurrentBlock t = ok head;
  pn_constants p v t : exists x, answer h _ (Constant head p v) t = ok (ok x);
  pn_block_length t : exists x, answer h _ (ConstantBlockLength head) t = ok (ok x);
  pn_prefix t : answer h _ (Constant head "System" "SS58Prefix") t = ok (ok prefix);
  pn_round t : answer h _ (FetchRound b) t = ok round;
  pn_rpc uri t : answer h _ (RpcFromUrl uri) t = ok tt;
  pn_properties t : answer h _ RpcSystemProperties t = ok props;
  pn_mine t : answer h _ (MineSolution (prediction_input config round pages desired targets voters)) t = ok (ok solution);
  pn_feasible t :
    answer h _ (CheckFeasibility solution (prediction_input config round pages desired targets voters)) t = ok tt;
  pn_supports t :
    answer h _ (EvaluateSupports solution (take (Z.to_nat pages) voters) targets desired) t = ok page_supports;
  pn_supports_ok : supports_ok page_supports;
  pn_decimals : u128_pow10 (default 10 (token_decimals props)) <> 0;
}.

Context (h : handler) (head b : AtBlock) (st : StakingState)
  (round pages per_block targets_per_block : Z) (config : PredictConfig) (desired : Z)
  (targets : TargetSnapshotPage) (voters : list VoterSnapshotPage) (solution : PagedRawSolution)
  (page_supports : list (list (AccountId * Support))) (props : ChainProperties) (prefix : Z).
Context (Hn : predicting h head b st round pages per_block targets_per_block config desired targets voters
  solution page_supports props prefix).

Lemma yields_any_constant i ty : yields h (fetch_constant (S := S) head i ty) (fun _ => True).
Proof.
  unfold fetch_constant. eapply (yields_bind _ _ _ (fun r => exists x, r = ok (ok x))).
  - apply yields_ask. intros t. destruct (pn_constants _ _ _ _ _ _ _ _ _ _ _ _ _ _ _ _ Hn (pallet i) (variant i) t) as [x ->]. eauto.
  - intros r (x & ->). by apply yields_ret.
Qed.

Lemma yields_update_constants : yields h (update_metadata_constants (S := S) head) (fun _ => True).
Proof.
  unfold update_metadata_constants, set_param.
  do 3 (eapply yields_bind; [apply yields_any_constant|]; intros ? _;
        eapply (yields_bind _ _ _ (fun _ => True)); [by apply yields_ask|]; intros _ _).
  eapply (yields_bind _ _ _ (fun _ => True)).
  { unfold fetch_block_length. eapply (yields_bind _ _ _ (fun r => exists x, r = ok (ok x))).
    - apply yields_ask. intros t. destruct (pn_block_length _ _ _ _ _ _ _ _ _ _ _ _ _ _ _ _ Hn t) as [x ->]. eauto.
    - intros r (x & ->). by apply yields_ret. }
  intros ? _. eapply (yields_bind _ _ _ (fun _ => True)); [by apply yields_ask|]. intros _ _.
  eapply yields_bind; [apply yields_any_constant|]. intros ? _.
  eapply (yields_bind _ _ _ (fun _ => True)); [by apply yields_ask|]. intros _ _.
  eapply yields_bind; [apply yields_any_constant|]. intros ? _. by apply yields_ask.
Qed.

Lemma yields_chain_properties :
  yields h (get_chain_properties (S := S))
    (.= (prefix, default 10 (token_decimals props), default "UNIT" (token_symbol props))).
Proof.
  unfold get_chain_properties.
  eapply (yields_bind _ _ _ (fun _ => True)); [by apply yields_ask|]. intros endpoint _.
  eapply yields_bind; [apply yields_query_eq, (pn_rpc _ _ _ _ _ _ _ _ _ _ _ _ _ _ _ _ Hn)|]. intros ? ->.
  eapply (yields_bind _ _ _ (.= props)).
  { eapply yields_bind; [apply yields_ask_eq, (pn_properties _ _ _ _ _ _ _ _ _ _ _ _ _ _ _ _ Hn)|].
    intros ? ->. by apply yields_ret. }
  intros ? ->. cbv zeta. eapply (yields_bind _ _ _ (.= prefix)); [|intros ? ->; by apply yields_ret].
  unfold get_ss58_prefix.
  eapply yields_bind; [apply yields_query_eq, (pn_block _ _ _ _ _ _ _ _ _ _ _ _ _ _ _ _ Hn)|]. intros ? ->.
  eapply (yields_bind _ _ _ (.= ok prefix)); [|intros ? ->; by apply yields_ret].
  eapply yields_weaken; [apply (yields_catch _ _ (.= prefix))|by intros ? (? & -> & ->)].
  eapply yields_bind; [apply yields_ask_eq, (pn_prefix _ _ _ _ _ _ _ _ _ _ _ _ _ _ _ _ Hn)|].
  intros ? ->. by apply yields_ret.
Qed.

Lemma yields_mine_solution number :
  yields h (mine_solution (S := S) targets voters (Z.max pages (as_u32 (Z.of_nat (length voters)))) round desired
    number (do_reduce config)) (.= solution).
Proof.
  unfold mine_solution. pose proof (pn_staking _ _ _ _ _ _ _ _ _ _ _ _ _ _ _ _ Hn) as Hso.
  eapply yields_bind; [apply yields_ask_eq, (so_pages _ _ _ _ _ _ _ Hso)|]. intros ? ->.
  cbv zeta. eapply yields_bind; [apply yields_ask_eq, (pn_mine _ _ _ _ _ _ _ _ _ _ _ _ _ _ _ _ Hn)|]. intros ? ->.
  eapply yields_bind; [apply yields_ask_eq, (pn_feasible _ _ _ _ _ _ _ _ _ _ _ _ _ _ _ _ Hn)|].
  intros ? ->. by apply yields_ret.
Qed.

(** The block, its number and the number of validators. *)
Lemma yields_located number : located h config head b number ->
  yields h (prediction_block_number (S := S) config) (.= number) /\
  yields h (prediction_block (S := S) config) (.= b).
Proof.
  unfold located, prediction_block_number, prediction_block.
  pose proof (pn_block _ _ _ _ _ _ _ _ _ _ _ _ _ _ _ _ Hn) as Hb.
  destruct (pc_block_number config) as [n|].
  - intros (-> & Hpush & hash & Hhash & Hat). split; [by apply yields_ret|].
    eapply (yields_bind _ _ _ (.= hash)); [|intros ? ->; by apply yields_query_eq].
    unfold get_block_hash, ask_or. eapply (yields_bind _ _ _ (fun _ => True)).
    { eapply yields_bind; [apply yields_ask_eq, Hpush|]. intros ? ->. by apply yields_ret. }
    intros _ _. eapply (yields_bind _ _ _ (fun _ => True)); [by apply yields_ask|]. intros endpoint _.
    eapply yields_bind; [apply yields_query_eq, (pn_rpc _ _ _ _ _ _ _ _ _ _ _ _ _ _ _ _ Hn)|]. intros ? ->.
    eapply (yields_bind _ _ _ (.= Some hash)).
    { eapply yields_bind; [apply yields_ask_eq, Hhash|]. intros ? ->. by apply yields_ret. }
    intros ? ->. by apply yields_ret.
  - intros [-> ->]. split; [|by apply yields_query_eq].
    eapply yields_bind; [by apply yields_ask_eq|]. intros ? ->. by apply yields_ret.
Qed.

Lemma yields_asked_for : asked_for h config b desired ->
  yields h (prediction_desired_targets (S := S) config b) (.= desired).
Proof.
  unfold asked_for, prediction_desired_targets, ask_or. destruct (pc_desired_validators config) as [n|].
  - intros ->. by apply yields_ret.
  - intros Hd. eapply (yields_bind _ _ _ (.= Some (ok desired))).
    { eapply yields_bind; [apply yields_ask_eq, Hd|]. intros ? ->. by apply yields_ret. }
    intros ? ->. by apply yields_ret.
Qed.

(** The context of a prediction at a block. *)
Definition context_at (number : Z) : PredictionContext := {|
  ctx_round := round; ctx_desired_targets := desired; ctx_block_number := number;
  ctx_ss58_prefix := prefix; ctx_token_decimals := default 10 (token_decimals props);
  ctx_token_symbol := default "UNIT" (token_symbol props); ctx_data_source := Staking |}.

Lemma yields_run_prediction number data :
  located h config head b number -> asked_for h config b desired -> 0 <= desired ->
  overrides_apply h (overrides config) (staking_data st pages per_block) data ->
  snapshots_of pages per_block targets_per_block data = (targets, voters) ->
  yields h (run_prediction (S := S) config)
    (fun x => predicts (context_at number) page_supports (score solution) voters x.1 x.2).
Proof.
  intros Hloc Hask Hd Hover Hdata. unfold run_prediction. destruct (yields_located number Hloc) as [Hnum Hblock].
  eapply yields_bind; [apply yields_query_eq, (pn_block _ _ _ _ _ _ _ _ _ _ _ _ _ _ _ _ Hn)|]. intros ? ->.
  eapply yields_bind; [apply yields_update_constants|]. intros _ _.
  do 2 (eapply (yields_bind _ _ _ (fun _ => True)); [by apply yields_ask|]; intros _ _).
  pose proof (pn_staking _ _ _ _ _ _ _ _ _ _ _ _ _ _ _ _ Hn) as Hso.
  eapply yields_bind; [apply yields_ask_eq, (so_pages _ _ _ _ _ _ _ Hso)|]. intros ? ->.
  eapply yields_bind; [exact Hnum|]. intros ? ->. eapply yields_bind; [exact Hblock|]. intros ? ->.
  eapply yields_bind; [apply yields_query_eq, (pn_round _ _ _ _ _ _ _ _ _ _ _ _ _ _ _ _ Hn)|]. intros ? ->.
  eapply yields_bind; [by apply yields_asked_for|]. intros ? ->.
  eapply yields_bind; [by eapply yields_fetch_overridden|]. intros ? ->. rewrite Hdata. cbv beta iota zeta.
  eapply yields_bind; [apply yields_timeout; [apply (pn_fires _ _ _ _ _ _ _ _ _ _ _ _ _ _ _ _ Hn)|apply yields_mine_solution]|].
  intros r (? & -> & ->). eapply (yields_bind _ _ _ (.= solution)); [by apply yields_ret|]. intros ? ->.
  eapply yields_bind; [apply yields_chain_properties|]. intros ? ->. cbv beta iota zeta.
  apply (yields_build_predictions _ _ _ _ (context_at number) _ pages). split.
  - apply (so_pages _ _ _ _ _ _ _ Hso).
  - intros t. apply (pn_supports _ _ _ _ _ _ _ _ _ _ _ _ _ _ _ _ Hn).
  - apply (pn_supports_ok _ _ _ _ _ _ _ _ _ _ _ _ _ _ _ _ Hn).
  - done.
  - apply (pn_decimals _ _ _ _ _ _ _ _ _ _ _ _ _ _ _ _ Hn).
Qed.

End end_to_end.

(** C12: From the node to the predictions, for any configuration: against a node
    that answers, whose head does not move, and that has no snapshot but serves a
    staking state at the block the configuration asks for.  The data of that
    state, after the overrides of the configuration or of its file, is paged; if
    the solver, asked for the desired number of validators (configured or that of
    the chain) over exactly these targets and voter pages, finds a solution that
    is feasible for them, and the verifier finds its supports for them,
    [run_prediction] returns and predicts what these supports say for these
    voters, under the number of that block.  Without overrides the targets are
    the validators and the voters those of the abstract definition, none
    dropped. *)
Theorem run_prediction_end_to_end `{T : MinerConfig} `{F : Foreign} `{V : VotesBound} `{US : UnstableSort}
    {S : Type} h head b st round pages per_block targets_per_block config desired number data targets voters
    solution page_supports props prefix (s : S) t :
  located h config head b number -> asked_for h config b desired -> 0 <= desired ->
  overrides_apply h (overrides config) (staking_data st pages per_block) data ->
  snapshots_of pages per_block targets_per_block data = (targets, voters) ->
  predicting h head b st round pages per_block targets_per_block config desired targets voters
    solution page_supports props prefix ->
  (exists vp np t',
    run h (run_prediction config) s t = (Ok (vp, np), s, t') /\
    predicts (context_at round desired props prefix number) page_supports (score solution) voters vp np) /\
  (overrides config = None ->
    targets = take (Z.to_nat targets_per_block) (st_validators st) /\
    reverse voters = chunks (Z.to_nat per_block)
      ((fun v => (v.1, take max_votes_per_voter v.2)) <$> npos_voters st (pages * per_block))).
Proof.
  intros Hloc Hask Hd Hover Hdata Hn. split.
  - destruct (yields_run_prediction _ _ _ _ _ _ _ _ _ _ _ _ _ _ _ _ Hn number data Hloc Hask Hd Hover Hdata s t)
      as ([vp np] & t' & Hr & HP). eauto.
  - intros Hno. rewrite Hno in Hover. cbn in Hover. subst data.
    destruct (pn_staking _ _ _ _ _ _ _ _ _ _ _ _ _ _ _ _ Hn) as [_ _ _ _ _ _ (Hp & Hb & Hmul)].
    rewrite snapshots_of_staking in Hdata by done. injection Hdata as <- <-. split; [done|apply reverse_involutive].
Qed.

(** ** Examples *)
Definition demo_config : PredictConfig := {|
  pc_desired_validators := Some 2; output_dir := None; balancing_iterations := 10; do_reduce := false;
  pc_block_number := None; overrides := None; algorithm := Phragmms |}.

Definition dot : ChainProperties := {| token_symbol := Some "DOT"; token_decimals := Some 10 |}.

(** A prediction at block 77 for the validators the chain wants, with a voter
    more and a candidate less than the staking pallets have. *)
Definition overriding_config : PredictConfig := {|
  pc_desired_validators := None; output_dir := None; balancing_iterations := 10; do_reduce := true;
  pc_block_number := Some 77;
  overrides := Some (Data {| candidates_include := []; candidates_exclude := ["5"];
    voters_include := [("9", 30, ["1"])]; voters_exclude := [] |});
  algorithm := SeqPhragmen |}.

Definition overriding_data : list ValidatorData * list NominatorData :=
  ([(1, 155)], [(1, 155, [1]); (2, 140, [1; 5]); (9, 30, [1])]).

(** Its node: the solver and the verifier know nothing but the data they have to
    be asked about. *)
Definition asks_right (targets : TargetSnapshotPage) (voters : list VoterSnapshotPage) (desired : Z) : bool :=
  bool_decide (targets = [1] /\ voters = [[(1, 155, [1]); (2, 140, [1; 5]); (9, 30, [1])]] /\ desired = 2).

Definition exact_node : handler := {|
  answer := fun R o t =>
    match o in op R return R with
    | MineSolution i =>
        if asks_right (mi_all_targets i) (mi_voter_pages i) (mi_desired_targets i) && mi_do_reduce i
        then ok (ok mined4) else ok (err "wrong data")
    | CheckFeasibility sol i =>
        if asks_right (mi_all_targets i) (mi_voter_pages i) (mi_desired_targets i) then ok tt else err "wrong data"
    | EvaluateSupports sol voters targets desired =>
        if asks_right targets voters desired then ok TwoWinners.supports else err "wrong data"
    | o => TwoWinners.answers o t
    end;
  fires := fun _ _ => false;
|}.

Lemma exact_node_staking : staking_only exact_node block0 TwoBags.state 1 4 4 4.
Proof.
  destruct (TwoWinners.node_staking_only block0 1) as [[] Hrep Hno Hp Hb Ht Hpos].
  by split.
Qed.

Lemma run_prediction_end_to_end_witness :
  exists vp np t',
    run exact_node (run_prediction overriding_config) tt [] = (Ok (vp, np), tt, t') /\
    predicts (context_at 1 2 dot 4 77) TwoWinners.supports score0
      [[(1, 155, [1]); (2, 140, [1; 5]); (9, 30, [1])]] vp np.
Proof.
  apply (run_prediction_end_to_end exact_node block0 block0 TwoBags.state 1 4 4 4 overriding_config 2 77
           overriding_data [1] [[(1, 155, [1]); (2, 140, [1; 5]); (9, 30, [1])]] mined4
           TwoWinners.supports dot 4 tt []).
  - split; [reflexivity|]. split; [done|]. exists 77. split; done.
  - intros t. reflexivity.
  - lia.
  - vm_compute. reflexivity.
  - vm_compute. reflexivity.
  - split; try done; try (intros; by eexists); try (exact exact_node_staking); try (exact TwoWinners.supports_u128).
Defined.

(** The same node with the cells as memory. *)
Definition memory_node : handler := {|
  answer := fun R o t =>
    match o in op R return R with
    | ParamGet p => param_value t p
    | PagesGet => param_value t ParamPages
    | o => TwoWinners.answers o t
    end;
  fires := fun _ _ => false;
|}.

Lemma algorithm_cell_typed_witness :
  algorithm_typed [] /\ cells_are_memory memory_node /\
  let '(o, s', t') := run memory_node (run_prediction demo_config) tt [] in
  exists a, (run memory_node algorithm_get s' t').1.1 = Ok a /\
    ((exists x, o = Ok x) -> a = Phragmms /\ (run memory_node balancing_get s' t').1.1 =
       Ok (Some {| bc_iterations := balancing_iterations demo_config; bc_tolerance := 0 |})).
Proof.
  assert (algorithm_typed []) as Ht by constructor.
  assert (cells_are_memory memory_node) as Hm by (split; reflexivity).
  split; [exact Ht|]. split; [exact Hm|].
  pose proof (algorithm_cell_typed memory_node demo_config tt [] Ht) as H.
  destruct (run memory_node (run_prediction demo_config) tt []) as [[o s'] t'].
  destruct H as [_ H]. exact (H Hm).
Defined.

(** Without a configured block the number of the metadata and the block of the
    data are two reads of the head: here a block was finalized in between, and
    the prediction for block 102 carries the number 101. *)
Definition head_reads (t : trace) : nat :=
  length (omap (fun e => match e with Event o _ => match o with AtCurrentBlock => Some tt | _ => None end end) t).

Definition moving_head : handler := {|
  answer := fun R o t =>
    match o in op R return R with
    | AtCurrentBlock =>
        ok {| ab_hash := 7; ab_number := 100 + Z.of_nat (head_reads t); ab_spec_version := 1 |}
    | o => TwoWinners.answers o t
    end;
  fires := fun _ _ => false;
|}.

Definition round_reads (t : trace) : list Z :=
  omap (fun e => match e with Event o _ => match o with FetchRound b => Some (ab_number b) | _ => None end end) t.

Example number_of_another_block :
  let '(o, _, t') := run moving_head (run_prediction demo_config) tt [] in
  match o with
  | Ok (vp, _) => (pm_block_number (metadata vp), round_reads t') = (101, [102])
  | _ => False
  end.
Proof. by vm_compute. Qed.
