(* ===== verification/System.v ===== *)
(** * The tasks together

    What [monitor_cmd] of [src/commands/multi_block/monitor.rs] sets up: the
    listener, the miner, the clear-old-rounds and the era pruning task, running
    concurrently and connected by channels with a buffer of one message.  A step
    of the system is one step of one task; every task keeps the trace of its own
    operations. *)

From S2P Require Import Prelude RustStr Errors Strategy Chain Metrics Types Effects Traces ChainAccess Submission SnapshotFetch Miner Listener Janitor.
Local Open Scope Z_scope.

(** ** One task *)
Section tasks.
Context `{T : MinerConfig}.

(** One step of a program: the answer of an operation and the timers are free. *)
Definition prog_step {S A} (x y : prog S A * S * trace) : Prop :=
  let '(p, s, t) := x in
  match p with
  | Ret _ => False
  | Get k => y = (k s, s, t)
  | Put s' k => y = (k, s', t)
  | Timer _ k => exists b, y = (k b, s, t)
  | Vis o k => exists r, y = (k r, s, Event o r :: t)
  end.

(** A task waits for a message, processes one, or has ended. *)
Inductive Task (S : Type) : Type :=
| Idle (s : S)
| Busy (p : M S unit) (s : S)
| Ended (o : outcome unit).
Arguments Idle {S} s.
Arguments Busy {S} p s.
Arguments Ended {S} o.

(** A receiving task: its channel, the messages it has taken out of it, and
    its trace. *)
Record Receiver (S Msg : Type) : Type := {
  task : Task S;
  queue : list Msg;
  received : list Msg;
  log : trace;
}.
Arguments task {S Msg}.
Arguments queue {S Msg}.
Arguments received {S Msg}.
Arguments log {S Msg}.

(** [while let Some(message) = rx.recv().await { body(message) }], and the error
    after the loop when the sender is gone. *)
Inductive receiver_step {S Msg} (body : Msg -> M S unit) (closed : Error.t) (sender_gone : Prop)
    (x : Receiver S Msg) : Receiver S Msg -> Prop :=
| receiver_takes s m q :
    task x = Idle s -> queue x = m :: q ->
    receiver_step body closed sender_gone x
      {| task := Busy (body m) s; queue := q; received := received x ++ [m]; log := log x |}
| receiver_runs p s p' s' t' :
    task x = Busy p s -> prog_step (p, s, log x) (p', s', t') ->
    receiver_step body closed sender_gone x
      {| task := Busy p' s'; queue := queue x; received := received x; log := t' |}
| receiver_done s :
    task x = Busy (Ret (Ok tt)) s ->
    receiver_step body closed sender_gone x
      {| task := Idle s; queue := queue x; received := received x; log := log x |}
| receiver_fails o s :
    task x = Busy (Ret o) s -> o <> Ok tt ->
    receiver_step body closed sender_gone x
      {| task := Ended o; queue := queue x; received := received x; log := log x |}
| receiver_closed s :
    task x = Idle s -> queue x = [] -> sender_gone ->
    receiver_step body closed sender_gone x
      {| task := Ended (Err closed); queue := []; received := received x; log := log x |}.

(** [mpsc::channel(1)]: [m] is put into the channel when there is room and the
    receiver lives. *)
Definition BUFFER : nat := 1.

Definition alive {S Msg} (x : Receiver S Msg) : Prop :=
  match task x with Ended _ => False | _ => True end.

Definition put {S Msg} (m : Msg) (x : Receiver S Msg) : Receiver S Msg :=
  {| task := task x; queue := queue x ++ [m]; received := received x; log := log x |}.

(** [try_send] returns at once. *)
Inductive try_sends {S Msg} (m : Msg) (x : Receiver S Msg) : TrySend -> Receiver S Msg -> Prop :=
| try_sent : alive x -> (length (queue x) < BUFFER)%nat -> try_sends m x Sent (put m x)
| try_full : alive x -> (BUFFER <= length (queue x))%nat -> try_sends m x Full x
| try_closed : ~ alive x -> try_sends m x Closed x.

(** [send().await] waits for room, and fails when the receiver is gone. *)
Inductive send_awaits {S Msg} (m : Msg) (x : Receiver S Msg) : Result unit string -> Receiver S Msg -> Prop :=
| send_ok : alive x -> (length (queue x) < BUFFER)%nat -> send_awaits m x (ok tt) (put m x)
| send_closed e : ~ alive x -> send_awaits m x (err e) x.

(** While it waits. *)
Definition full {S Msg} (x : Receiver S Msg) : Prop := alive x /\ (BUFFER <= length (queue x))%nat.

End tasks.

Arguments Idle {T S} s.
Arguments Busy {T S} p s.
Arguments Ended {T S} o.
Arguments task {T S Msg}.
Arguments queue {T S Msg}.
Arguments received {T S Msg}.
Arguments log {T S Msg}.

(** ** The system *)
Section system.
Context `{T : MinerConfig} `{SO : ScoreOrder} (signer : AccountId) (config : ProcessConfig).

Record System : Type := {
  listener : Task ListenerState;
  listener_log : trace;
  miner : Receiver MinerState MinerMessage;
  clear_old_rounds : Receiver (option Z) ClearOldRoundsMessage;
  era_pruning : Receiver bool EraPruningMessage;
}.

Definition Channels : Type :=
  Receiver MinerState MinerMessage * Receiver (option Z) ClearOldRoundsMessage * Receiver bool EraPruningMessage.

Definition channels (x : System) : Channels := (miner x, clear_old_rounds x, era_pruning x).

Definition with_listener (l : Task ListenerState) (t : trace) (c : Channels) : System :=
  {| listener := l; listener_log := t; miner := c.1.1; clear_old_rounds := c.1.2; era_pruning := c.2 |}.

(** What an operation of the listener does to the channels. *)
Inductive transmits (c : Channels) : event -> Channels -> Prop :=
| tx_miner_try m r x : try_sends m c.1.1 r x -> transmits c (Event (MinerTrySend m) r) (x, c.1.2, c.2)
| tx_miner_send m r x : send_awaits m c.1.1 r x -> transmits c (Event (MinerSend m) r) (x, c.1.2, c.2)
| tx_clear_try m r x : try_sends m c.1.2 r x -> transmits c (Event (ClearTrySend m) r) (c.1.1, x, c.2)
| tx_era_try m r x : try_sends m c.2 r x -> transmits c (Event (EraTrySend m) r) (c.1.1, c.1.2, x)
| tx_era_send m r x : send_awaits m c.2 r x -> transmits c (Event (EraSend m) r) (c.1.1, c.1.2, x)
| tx_other {R} (o : op R) r :
    match o with
    | MinerTrySend _ | MinerSend _ | ClearTrySend _ | EraTrySend _ | EraSend _ => False
    | _ => True
    end -> transmits c (Event o r) c.

(** A [send] that waits for room. *)
Definition send_waits (c : Channels) {R} (o : op R) : Prop :=
  match o with
  | MinerSend _ => full c.1.1
  | EraSend _ => full c.2
  | _ => False
  end.

(** The answer a trace keeps for a [send] that was dropped: not [ok]. *)
Definition dropped_answer {R} (o : op R) : R -> Prop :=
  match o in op R return R -> Prop with
  | MinerSend _ | EraSend _ => fun r => exists e, r = err e
  | _ => fun _ => False
  end.

Definition listener_gone (x : System) : Prop := exists o, listener x = Ended o.

Inductive system_step (x : System) : System -> Prop :=
| listener_moves p s p' s' :
    listener x = Busy p s -> prog_step (p, s, listener_log x) (p', s', listener_log x) ->
    system_step x (with_listener (Busy p' s') (listener_log x) (channels x))
| listener_operates p s p' s' e c :
    listener x = Busy p s -> prog_step (p, s, listener_log x) (p', s', e :: listener_log x) ->
    transmits (channels x) e c ->
    system_step x (with_listener (Busy p' s') (e :: listener_log x) c)
(* the enclosing timeout drops a [send] that waits, and the message with it; the
   trace keeps the attempt, with an answer that nobody reads *)
| listener_drops {R} (o : op R) k s r secs k' :
    listener x = Busy (Vis o k) s -> send_waits (channels x) o -> dropped_answer o r -> k r = Timer secs k' ->
    system_step x (with_listener (Busy (k' true) s) (Event o r :: listener_log x) (channels x))
| listener_ends o s :
    listener x = Busy (Ret o) s ->
    system_step x (with_listener (Ended o) (listener_log x) (channels x))
| miner_moves m :
    receiver_step (miner_step signer config) (Error.TaskFailure TaskFailureError.Miner)
      (listener_gone x) (miner x) m ->
    system_step x (with_listener (listener x) (listener_log x) (m, clear_old_rounds x, era_pruning x))
| clear_moves c :
    receiver_step (clear_step signer) (Error.TaskFailure TaskFailureError.ClearOldRounds)
      (listener_gone x) (clear_old_rounds x) c ->
    system_step x (with_listener (listener x) (listener_log x) (miner x, c, era_pruning x))
| era_moves c :
    receiver_step era_step (Error.TaskFailure TaskFailureError.EraPruning)
      (listener_gone x) (era_pruning x) c ->
    system_step x (with_listener (listener x) (listener_log x) (miner x, clear_old_rounds x, c)).

Definition fresh_receiver {S Msg} (s : S) : Receiver S Msg :=
  {| task := Idle s; queue := []; received := []; log := [] |}.

(** What [monitor_cmd] spawns; the listener is observed for [n] iterations. *)
Definition monitor_init (n : nat) : System :=
  {| listener := Busy (listener_task n) listener_init; listener_log := [];
     miner := {| task := Busy miner_start (miner_init 0); queue := []; received := []; log := [] |};
     clear_old_rounds := fresh_receiver None;
     era_pruning := fresh_receiver false |}.

(** The tasks whose handle [monitor_cmd] selects on. *)
Inductive TaskName : Type := ListenerTask | MinerTask | ClearOldRoundsTask | EraPruningTask.

Definition task_failure (x : TaskName) : Error.t :=
  Error.TaskFailure
    match x with
    | ListenerTask => TaskFailureError.Listener
    | MinerTask => TaskFailureError.Miner
    | ClearOldRoundsTask => TaskFailureError.ClearOldRounds
    | EraPruningTask => TaskFailureError.EraPruning
    end.

(** What [select!] returns when a task has ended: its error, or the failure of
    the task if it returned or panicked. *)
Definition monitor_result (x : TaskName) (o : outcome unit) : Result unit Error.t :=
  match o with
  | Err e => err e
  | _ => err (task_failure x)
  end.

End system.
