(* ===== verification/SystemSpec.v ===== *)
(** * Properties of the tasks together

    The channels deliver what they accepted, and what was
    proved of each task holds of the running system: the miner's transactions
    come from blocks the listener read, and eras are pruned at most once per
    block it found in the Off phase. *)

From S2P Require Import Prelude RustStr Errors Strategy Chain Metrics Types Effects Traces Observe Scenario ChainAccess Submission SnapshotFetch Miner MinerSafety MinerSpec Listener ListenerSpec Janitor JanitorSpec System.
Local Open Scope Z_scope.

(** ** Programs in small steps *)
Section steps.
Context `{T : MinerConfig}.

(** A verification condition about traces survives every step. *)
Lemma wp_prog_step {S A} (P : trace -> Prop) (p p' : prog S A) Q s s' t t' :
  wp (fun _ t => P t) p Q s t -> P t -> prog_step (p, s, t) (p', s', t') ->
  wp (fun _ t => P t) p' Q s' t' /\ P t'.
Proof.
  intros Hwp HP Hs. destruct p as [a|k|s0 k|k|R o k]; cbn in Hwp, Hs.
  - done.
  - by simplify_eq.
  - by simplify_eq.
  - destruct Hs as [b Hs]. simplify_eq. by split.
  - destruct Hs as [r Hs]. simplify_eq. by destruct (Hwp r).
Qed.

(** Every operation has an answer. *)
Definition some_answer {R} (o : op R) : R :=
  match o in op R return R with
  | AtCurrentBlock | AtBlockHash _ | FetchCurrentPhase _ | TryFetchCurrentPhase _ | FetchRound _
  | TryFetchDesiredTargets _ _ | TryFetchAccount _ _ | TryFetchMinimumScore _ | FetchSortedScores _ _
  | TryFetchSubmission _ _ _ | IterEraPruningState _ | TryFetchVoterSnapshotHash _ _ _
  | TryFetchTargetSnapshotHash _ _ _ | TryFetchVoterSnapshot _ _ _ | TryFetchTargetSnapshot _ _ _
  | CoreVersion _ | TryFetchRound _ | RpcFromUrl _
  | IterValidators _ | IterListBags _ | IterListNodes _ | TryFetchNominators _ _
  | TryFetchBonded _ _ | TryFetchLedger _ _
  | AccountNonce | CreateSigned _ _ _ | SubmitAndWatch _ _ _ | WaitForFinalized _
  | WaitForSuccess _ | StreamBlocks | FromBackend _ _ => err BackendError
  | ToScaleValue | CheckFeasibility _ _ | MinerSend _ | EraSend _ | BuildRpc _ => err ""
  | MineSolution _ => err ""
  | JoinTask => None
  | SubxtText _ | ScoreText _ => ""
  | NextReady _ => 0%nat
  | HashSetIter _ => []
  | EvaluateSupports _ _ _ _ | Constant _ _ _ | ConstantBlockLength _ | TryFetchValidatorCount _
  | RpcParamsPush _ | RpcBlockHash _ | RpcSystemProperties | CreateDirAll _ | FileCreate _
  | FileWriteAll _ _ | FileFlush _ | FileOpen _ | FileReadToString _ | PrometheusRun _
  | ParseDirective _ | SocketAddr _ _ | TcpBind _ | SignalStream _ => err ""
  | CurrentEndpoint => ""
  | FsRead _ => None
  | SystemTime => None
  | CollectBody _ => BodyError
  | TryAcquirePrediction => false
  | ParamSet _ _ | HealthCheckTick | ReleasePrediction | SpawnUpgradeTask => tt
  | WinnerCount _ | PagesGet | ParamGet _ => 0
  | SubscriptionNext => None
  | IsDisconnectedWillReconnect _ => false
  | Reconnect => ok tt
  | MinerTrySend _ | ClearTrySend _ | EraTrySend _ => Full
  | Sleep _ | MetricOp _ => tt
  end.

(** What holds of the trace of every completed run, and of the parts of such a
    trace, holds all the time. *)
Lemma wp_closed {S A} (P : trace -> Prop) (p : prog S A) Q :
  (forall e t, P (e :: t) -> P t) -> (forall a s t, Q a s t -> P t) ->
  forall s t, wp Itrue p Q s t -> P t /\ wp (fun _ t => P t) p Q s t.
Proof.
  intros Hsub HQ. induction p as [a|k IH|s' k IH|? k IH|R o k IH]; intros s t Hwp; cbn in *.
  - split; [by eapply HQ|done].
  - by apply IH.
  - by apply IH.
  - split; [apply (IH true s t (Hwp true))|]. intros b. apply (IH b s t (Hwp b)).
  - assert (forall r, P (Event o r :: t) /\ wp (fun _ t => P t) (k r) Q s (Event o r :: t)) as H
      by (intros r; apply IH, (Hwp r)).
    split; [eapply Hsub; apply (H (some_answer o))|done].
Qed.

End steps.

(** ** What a receiving task promises

    [task_state] holds between two messages, given those received so far;
    [task_trace] holds of the trace at any time. *)
Class TaskSpec `{T : MinerConfig} {S Msg} (body : Msg -> M S unit) : Type := {
  task_state : list Msg -> S -> trace -> Prop;
  task_trace : list Msg -> trace -> Prop;
  task_state_trace seen s t : task_state seen s t -> task_trace seen t;
  task_trace_more seen m t : task_trace seen t -> task_trace (seen ++ [m]) t;
  task_body seen m s t : task_state seen s t ->
    wp (fun _ t => task_trace (seen ++ [m]) t) (body m)
       (fun o s' t' => o = Ok tt -> task_state (seen ++ [m]) s' t') s t;
}.

Section receivers.
Context `{T : MinerConfig} {S Msg : Type} (body : Msg -> M S unit) `{TS : !TaskSpec body}.

Definition receiver_inv (x : Receiver S Msg) : Prop :=
  task_trace (received x) (log x) /\
  match task x with
  | Idle s => task_state (received x) s (log x)
  | Busy p s => wp (fun _ t => task_trace (received x) t) p
                  (fun o s' t' => o = Ok tt -> task_state (received x) s' t') s (log x)
  | Ended _ => True
  end.

Lemma receiver_inv_step closed gone x x' :
  receiver_inv x -> receiver_step body closed gone x x' -> receiver_inv x'.
Proof.
  intros [Ht Hx]. destruct 1 as [s m q Htk Hq|p s p' s' t' Htk Hs|s Htk|o s Htk Ho|s Htk Hq Hg];
    rewrite Htk in Hx; unfold receiver_inv; cbn.
  - split; [by apply task_trace_more|by apply task_body].
  - apply and_comm. by eapply wp_prog_step.
  - split; [done|by apply Hx].
  - done.
  - done.
Qed.

Lemma receiver_inv_put m x : receiver_inv x -> receiver_inv (put m x).
Proof. done. Qed.

Lemma receiver_inv_try m x r x' : receiver_inv x -> try_sends m x r x' -> receiver_inv x'.
Proof. by destruct 2. Qed.

Lemma receiver_inv_send m x r x' : receiver_inv x -> send_awaits m x r x' -> receiver_inv x'.
Proof. by destruct 2. Qed.

End receivers.

(** ** Channels *)
Section channels.
Context `{T : MinerConfig} {S Msg : Type}.

(** The channel is bounded, and what went through it and what is in it is what
    it accepted, in this order. *)
Definition channel_inv (accepted : list Msg) (x : Receiver S Msg) : Prop :=
  (length (queue x) <= BUFFER)%nat /\ received x ++ queue x = accepted.

Lemma channel_inv_step body closed gone accepted x x' :
  channel_inv accepted x -> receiver_step body closed gone x x' -> channel_inv accepted x'.
Proof.
  intros [Hq Hs]. destruct 1 as [s m q Htk Hm|p s p' s' t' Htk Hp|s Htk|o s Htk Ho|s Htk Hm Hg];
    unfold channel_inv in *; cbn in *; rewrite ?Hm in *; cbn in *; [|done..].
  split; [lia|]. by rewrite <- app_assoc.
Qed.

Lemma channel_inv_put accepted m x :
  (length (queue x) < BUFFER)%nat -> channel_inv accepted x -> channel_inv (accepted ++ [m]) (put m x).
Proof.
  intros Hlt [Hq <-]. split; cbn; rewrite ?length_app; [cbn; unfold BUFFER in *; lia|].
  by rewrite app_assoc.
Qed.

Lemma channel_inv_try accepted m x r x' :
  channel_inv accepted x -> try_sends m x r x' ->
  channel_inv (accepted ++ match r with Sent => [m] | _ => [] end) x'.
Proof. destruct 2; rewrite ?app_nil_r; [by apply channel_inv_put|done..]. Qed.

Lemma channel_inv_send accepted m x r x' :
  channel_inv accepted x -> send_awaits m x r x' ->
  channel_inv (accepted ++ match r with ok _ => [m] | err _ => [] end) x'.
Proof. destruct 2; rewrite ?app_nil_r; [by apply channel_inv_put|done]. Qed.

End channels.

(** ** The receiving tasks *)
Section instances.
Context `{T : MinerConfig} `{SO : ScoreOrder} (signer : AccountId) (config : ProcessConfig).

Definition miner_trace_ok (seen : list MinerMessage) (t : trace) : Prop :=
  guarded (fun e past => sent_tx e = None \/ tx_ok_some signer config seen e past) t.

Lemma miner_trace_more seen m t : miner_trace_ok seen t -> miner_trace_ok (seen ++ [m]) t.
Proof.
  unfold miner_trace_ok. rewrite !guarded_lookup. intros H new e past Heq.
  destruct (H new e past Heq) as [|(state & t0 & Hin & ?)]; [by left|right].
  exists state, t0. split; [|done]. apply elem_of_app. by left.
Qed.

#[global] Instance miner_spec : TaskSpec (miner_step signer config).
Proof.
  refine {| task_state := loop_inv signer config; task_trace := miner_trace_ok |}.
  - by intros seen s t [_ H].
  - apply miner_trace_more.
  - intros seen m s t [Hc Hg].
    eapply wp_mono; [| |apply (keeps_miner_step signer config (seen ++ [m]) m)].
    + by intros s' t' [_ H].
    + by intros o s' t' [H _] _.
    + apply elem_of_app. right. by left.
    + split; [done|by apply miner_trace_more].
Defined.

End instances.

Section era_instance.
Context `{T : MinerConfig}.

Definition era_trace_ok (seen : list EraPruningMessage) (t : trace) : Prop :=
  (length (sent_txs t) <= active_blocks false seen)%nat /\ guarded prune_justified t.

Definition era_state_ok (seen : list EraPruningMessage) (s : bool) (t : trace) : Prop :=
  s = foldl era_next false seen /\
  exists k, JanitorSpec.era_inv s k s t /\ (k <= active_blocks false seen)%nat.

#[global] Instance era_spec : TaskSpec era_step.
Proof.
  assert (forall seen s t, era_state_ok seen s t -> era_trace_ok seen t) as Htr.
  { intros seen s t (_ & k & (_ & Hk & Hg) & Hle). split; [by rewrite Hk|done]. }
  refine {| task_state := era_state_ok; task_trace := era_trace_ok |}.
  - apply Htr.
  - intros seen m t [Hle Hg]. split; [|done]. rewrite active_blocks_snoc. lia.
  - intros seen m s t (-> & k & HI & Hk).
    eapply wp_mono; [intros ? ? H; exact H| |
      apply (wp_closed (era_trace_ok (seen ++ [m])) _
        (fun o s' t' => era_state_ok (seen ++ [m]) s' t'))].
    + by intros o s' t' H _.
    + intros e t' [Hle [_ Hg]]. split; [|done]. rewrite sent_txs_cons, length_app in Hle. lia.
    + intros o s' t'. apply Htr.
    + eapply wp_mono; [done| |by apply wp_era_step].
      intros o s' t' (-> & -> & k' & HI' & Hk'). split; [by rewrite foldl_snoc|].
      exists k'. split; [done|]. rewrite active_blocks_snoc. lia.
Defined.

End era_instance.

(** ** The listener's side *)
Section listener_side.
Context `{T : MinerConfig}.

(** A block that was read in the Off phase, and a block offered for pruning. *)
Definition off_read (e : event) : option unit :=
  match e with
  | Event o r =>
      match o in op R return R -> option unit with
      | FetchCurrentPhase _ => fun r => match r with ok Off => Some tt | _ => None end
      | _ => fun _ => None
      end r
  end.

Definition new_block (e : event) : option unit :=
  match msg_of e with Some (ToEraPruning (NewBlock _)) => Some tt | _ => None end.

Definition off_reads (t : trace) : nat := length (omap off_read t).
Definition new_blocks (t : trace) : nat := length (omap new_block t).

(** The listener has read this phase, and this round. *)
Definition phase_seen (p : Phase) (t : trace) : Prop := exists b, Event (FetchCurrentPhase b) (ok p) ∈ t.
Definition round_seen (r : Z) (t : trace) : Prop := exists b, Event (FetchRound b) (ok r) ∈ t.

(** Blocks for the miner and rounds for the cleanup come from the chain. *)
Definition message_justified (e : event) (past : trace) : Prop :=
  match msg_of e with
  | Some (ToMiner (ProcessBlock state)) =>
      (match phase state with Signed _ | Snapshot_ _ => True | _ => False end) /\
      phase_seen (phase state) past /\ round_seen (round state) past
  | Some (ToClearOldRounds (ClearOldRoundsTick r)) => round_seen r past
  | _ => True
  end.

(** With [d] blocks of the Off phase not offered yet. *)
Definition honest (d : nat) (_ : ListenerState) (t : trace) : Prop :=
  (new_blocks t + d <= off_reads t)%nat /\ guarded message_justified t.

(** The phase and round of the block in progress. *)
Definition block_seen (p : Phase) (r : Z) (t : trace) : Prop := phase_seen p t /\ round_seen r t.

Definition busy (d : nat) (p : Phase) (r : Z) (s : ListenerState) (t : trace) : Prop :=
  honest d s t /\ block_seen p r t.

Lemma off_reads_cons e t : off_reads (e :: t) = (length (option_list (off_read e)) + off_reads t)%nat.
Proof. unfold off_reads. csimpl. by destruct (off_read e). Qed.

Lemma new_blocks_cons e t : new_blocks (e :: t) = (length (option_list (new_block e)) + new_blocks t)%nat.
Proof. unfold new_blocks. csimpl. by destruct (new_block e). Qed.

Lemma honest_step d e s t :
  new_block e = None -> message_justified e t -> honest d s t -> honest d s (e :: t).
Proof.
  intros Hn Hj [Hle Hg]. split; [|by split]. rewrite new_blocks_cons, off_reads_cons, Hn. cbn. lia.
Qed.

Lemma block_seen_cons e p r t : block_seen p r t -> block_seen p r (e :: t).
Proof. intros [[b Hb] [b' Hb']]. split; [exists b|exists b']; by right. Qed.

Lemma busy_neutral {R} d p rnd (o : op R) :
  (forall r, new_block (Event o r) = None) ->
  (forall r t, block_seen p rnd t -> message_justified (Event o r) t) ->
  neutral (busy d p rnd) o.
Proof.
  intros Hn Hj s t r [Hh Hb]. split; [|by apply block_seen_cons].
  apply honest_step; [done|by apply Hj|done].
Qed.

Lemma honest_neutral {R} d (o : op R) : (forall r, msg_of (Event o r) = None) -> neutral (honest d) o.
Proof.
  intros Ho s t r Hh. apply honest_step; [unfold new_block; by rewrite Ho|unfold message_justified; by rewrite Ho|done].
Qed.

Lemma busy_honest d p rnd s t : busy d p rnd s t -> honest 0 s t.
Proof. intros [[Hle Hg] _]. split; [lia|done]. Qed.

(** The blocks owed after reading a phase. *)
Definition owed (p : Phase) : nat := if is_off p then 1 else 0.

Lemma wp_read_block hash s t :
  honest 0 s t ->
  wp (honest 0) (get_block_state hash) (fun o s' t' => honest 0 s' t' /\
    match o with Ok x => busy (owed x.1.2) x.1.2 x.2 s' t' | _ => True end) s t.
Proof.
  intros HI. unfold get_block_state, storage_at.
  assert (forall d R (o : op R) r t', (forall r, msg_of (Event o r) = None) -> honest d s t' ->
    honest d s (Event o r :: t')) as Hn by (intros; by apply honest_neutral).
  apply wp_bind. intros [b|e]; (split; [by apply Hn|]); [|split; [by apply Hn|done]].
  apply wp_ret. cbn [bind_post]. apply wp_bind, wp_metric; [by repeat (assumption || (apply Hn; [done|]))|]. cbn [bind_post].
  set (t1 := Event (MetricOp _) _ :: _). assert (honest 0 s t1) as H1 by (by repeat (assumption || (apply Hn; [done|]))).
  apply wp_bind. intros [p|e]; (split; [by apply Hn|]); [|split; [by apply Hn|done]].
  set (t2 := Event (FetchCurrentPhase b) (ok p) :: t1).
  assert (honest (owed p) s t2) as H2.
  { destruct H1 as [Hle Hg]. split; [|by split]. unfold t2. rewrite off_reads_cons, new_blocks_cons.
    revert Hle. generalize (new_blocks t1) (off_reads t1). intros x y Hle. destruct p; cbn; lia. }
  assert (honest 0 s t2) as H20 by (by apply Hn).
  apply wp_ret. cbn [bind_post]. apply wp_bind, wp_metric; [by repeat (assumption || (apply Hn; [done|]))|]. cbn [bind_post].
  apply wp_bind. intros [x|e]; (split; [by repeat (assumption || (apply Hn; [done|]))|]); [|split; [by repeat (assumption || (apply Hn; [done|]))|done]].
  apply wp_ret. cbn [bind_post]. apply wp_bind, wp_metric; [by repeat (assumption || (apply Hn; [done|]))|]. cbn [bind_post].
  apply wp_ret. split; [by repeat (assumption || (apply Hn; [done|]))|]. cbn. split; [by repeat (assumption || (apply Hn; [done|]))|].
  split; [exists b; unfold t2; do 3 right; by left|exists b; right; by left].
Qed.

Ltac busy_step := apply busy_neutral; [done|intros ? ? ?; exact Logic.I].

Lemma busy_round d p rnd lr :
  keeps (busy d p rnd) (on_round_increment lr rnd p) anything.
Proof.
  unfold on_round_increment. eapply (keeps_bind _ _ _ anything).
  { apply keeps_ask; [|done]. apply busy_neutral; [done|]. by intros r t [_ ?]. }
  intros r. repeat (keeps_step busy_step).
Qed.

Lemma busy_mining d at_ p hash rnd :
  (match p with Signed _ | Snapshot_ _ => True | _ => False end) ->
  keeps (busy d p rnd) (mining_work at_ p hash rnd) anything.
Proof.
  intros Hp. unfold mining_work. intros s t HI.
  assert (keeps (busy d p rnd) (block_details_new at_ p hash rnd) (fun bd _ _ => details_of at_ p rnd bd)) as Hbd.
  { unfold block_details_new, storage_at.
    do 3 (eapply (keeps_bind _ _ _ anything); [repeat (keeps_step busy_step)|intros ?]). by apply keeps_ret. }
  revert s t HI. eapply keeps_bind_post; [exact Hbd|]. intros bd s t HI (Hph & Hr & _).
  apply (keeps_elim (busy d p rnd) _ anything); [|done].
  eapply (keeps_bind _ _ _ anything); [repeat (keeps_step busy_step)|intros _]. unfold send_block.
  eapply (keeps_bind _ _ _ anything); [|intros r; repeat (keeps_step busy_step)].
  apply keeps_ask; [|done]. apply busy_neutral; [done|]. intros r t' [H1 H2]. cbn. by rewrite Hph, Hr.
Qed.

Lemma busy_era_then {A} (m : EraPruningMessage) d p rnd (k : M ListenerState A) R :
  (forall n, m <> NewBlock n) -> keeps (busy d p rnd) k R -> keeps (busy d p rnd) (send_era m;; k) R.
Proof.
  intros Hm Hk. eapply (keeps_bind _ _ _ anything); [|intros _; exact Hk]. unfold send_era.
  eapply (keeps_bind _ _ _ anything); [|intros r; repeat (keeps_step busy_step)].
  apply keeps_ask; [|done]. apply busy_neutral; [|by intros]. intros r. unfold new_block. cbn.
  destruct m; try done. by destruct (Hm block_number).
Qed.

(** Offering the block pays what is owed. *)
Lemma wp_offer n rnd s t :
  busy 1 Off rnd s t ->
  wp (honest 0) (ask (EraTrySend (NewBlock n));; metric set_last_block_processing_time;; mret Continue)
    (fun _ s' t' => honest 0 s' t') s t.
Proof.
  intros [[Hle Hg] _]. apply wp_bind. intros r.
  assert (honest 0 s (Event (EraTrySend (NewBlock n)) r :: t)) as H1.
  { split; [|by split]. rewrite new_blocks_cons, off_reads_cons. cbn. lia. }
  split; [done|]. apply wp_ret. cbn [bind_post].
  apply wp_bind, wp_metric; [by apply honest_neutral|]. cbn [bind_post]. apply wp_ret. by apply honest_neutral.
Qed.

Lemma wp_honest_phase at_ p hash rnd s t :
  busy (owed p) p rnd s t ->
  wp (honest 0) (phase_work at_ p hash rnd) (fun _ s' t' => honest 0 s' t') s t.
Proof.
  intros HI. unfold phase_work, set_prev_phase. apply wp_bind, wp_get. cbn [bind_post].
  apply wp_bind, wp_bind, wp_get. cbn [bind_post]. apply wp_put. cbn [bind_post].
  set (s2 := {| prev_round := prev_round s |}). assert (busy (owed p) p rnd s2 t) as HI2 by exact HI.
  assert (forall A (m : M ListenerState A), keeps (busy (owed p) p rnd) m anything ->
    wp (honest 0) m (fun _ s' t' => honest 0 s' t') s2 t) as Hkeep.
  { intros A m Hm. eapply wp_mono; [| |apply Hm, HI2]; [apply busy_honest|].
    intros o s' t' [H _]. by eapply busy_honest. }
  destruct p as [|n|n|txt].
  - apply wp_bind. assert (forall s' t', busy 1 Off rnd s' t' -> wp (honest 0)
      (ask (EraTrySend (NewBlock (number at_ mod 2 ^ 32)));; metric set_last_block_processing_time;; mret Continue)
      (fun _ s' t' => honest 0 s' t') s' t') as Ho by (intros; by eapply wp_offer).
    eapply wp_mono; [apply busy_honest| |].
    2:{ match goal with |- wp _ ?m _ _ _ => assert (keeps (busy 1 Off rnd) m anything) as Hm end.
        { unfold send_era. destruct (prev_phase s) as [lp|]; [destruct (negb (is_off lp))|];
            repeat (keeps_step busy_step). }
        apply Hm, HI2. }
    intros [u|e|msg|] s' t' [H _]; cbn [bind_post]; [by apply Ho|by eapply busy_honest..].
  - apply Hkeep. destruct (prev_phase s) as [lp|]; [destruct (is_off lp)|].
    1: by apply busy_era_then; [|apply busy_mining].
    all: eapply (keeps_bind _ _ _ anything); [by apply keeps_ret|intros _; by apply busy_mining].
  - apply Hkeep. destruct (prev_phase s) as [lp|]; [destruct (is_off lp)|].
    1: by apply busy_era_then; [|apply busy_mining].
    all: eapply (keeps_bind _ _ _ anything); [by apply keeps_ret|intros _; by apply busy_mining].
  - apply Hkeep. repeat (keeps_step busy_step).
Qed.

Lemma keeps_honest_block at_ hash : keeps (honest 0) (process_block_internal at_ hash) anything.
Proof.
  intros s t HI. apply (wp_mono (honest 0) _ _ (fun _ s' t' => honest 0 s' t')); [done|by intros []|].
  unfold process_block_internal. apply wp_bind. eapply wp_mono; [done| |by apply wp_read_block].
  intros [[[b p] rnd]|e|msg|] s1 t1 [H1 Hb]; cbn [bind_post]; try done. cbn in Hb.
  apply wp_bind, wp_metric; [by apply honest_neutral|]. cbn [bind_post].
  apply wp_bind, wp_get. cbn [bind_post]. unfold set_prev_round.
  apply wp_bind, wp_bind, wp_get. cbn [bind_post]. apply wp_put. cbn [bind_post].
  set (t2 := Event (MetricOp _) _ :: t1). set (s2 := {| prev_round := Some rnd |}).
  assert (busy (owed p) p rnd s2 t2) as H2
    by (apply (busy_neutral (owed p) p rnd (MetricOp observe_block_state_duration)); [done|by intros|exact Hb]).
  apply wp_bind. eapply wp_mono; [apply busy_honest| |].
  2:{ match goal with |- wp _ ?m _ _ _ => assert (keeps (busy (owed p) p rnd) m anything) as Hm end.
      { destruct (prev_round s1) as [lr|]; [|by apply keeps_ret].
        destruct (lr <? rnd); [apply busy_round|by apply keeps_ret]. }
      apply Hm, H2. }
  intros [u|e|msg|] s' t' [H _]; cbn [bind_post]; [by apply wp_honest_phase|by eapply busy_honest..].
Qed.

Lemma keeps_honest n : keeps (honest 0) (listener_task n) anything.
Proof.
  apply keeps_listener_task; [|done|apply keeps_honest_block].
  intros R o Ho. apply honest_neutral. by destruct o.
Qed.

End listener_side.

(** ** The whole system *)
Section whole.
Context `{T : MinerConfig} `{SO : ScoreOrder} (signer : AccountId) (config : ProcessConfig).

(** The messages the listener offered to each task. *)
Definition to_miner (e : event) : option MinerMessage :=
  match msg_of e with Some (ToMiner m) => Some m | _ => None end.
Definition to_clear (e : event) : option ClearOldRoundsMessage :=
  match msg_of e with Some (ToClearOldRounds m) => Some m | _ => None end.
Definition to_era (e : event) : option EraPruningMessage :=
  match msg_of e with Some (ToEraPruning m) => Some m | _ => None end.

(** The messages a channel took. *)
Definition accepted (e : event) : option Message :=
  match e with
  | Event o r =>
      match o in op R return R -> option Message with
      | MinerTrySend m => fun r => match r with Sent => Some (ToMiner m) | _ => None end
      | MinerSend m => fun r => match r with ok _ => Some (ToMiner m) | err _ => None end
      | ClearTrySend m => fun r => match r with Sent => Some (ToClearOldRounds m) | _ => None end
      | EraTrySend m => fun r => match r with Sent => Some (ToEraPruning m) | _ => None end
      | EraSend m => fun r => match r with ok _ => Some (ToEraPruning m) | err _ => None end
      | _ => fun _ => None
      end r
  end.

Definition accepted_miner (e : event) : option MinerMessage :=
  match accepted e with Some (ToMiner m) => Some m | _ => None end.
Definition accepted_clear (e : event) : option ClearOldRoundsMessage :=
  match accepted e with Some (ToClearOldRounds m) => Some m | _ => None end.
Definition accepted_era (e : event) : option EraPruningMessage :=
  match accepted e with Some (ToEraPruning m) => Some m | _ => None end.

(** What was accepted was offered. *)
Lemma observed_sublist {X} (f g : event -> option X) t :
  (forall e x, f e = Some x -> g e = Some x) -> observed f t `sublist_of` observed g t.
Proof.
  intros Hfg. induction t as [|e t IH]; [done|]. rewrite !observed_cons. apply sublist_app; [done|].
  destruct (f e) as [x|] eqn:E; [by rewrite (Hfg _ _ E)|apply sublist_nil_l].
Qed.

Lemma accepted_offered e m : accepted e = Some m -> msg_of e = Some m.
Proof. destruct e as [R o r]. destruct o; cbn; try done; by destruct r. Qed.

Lemma accepted_miner_offered t : observed accepted_miner t `sublist_of` observed to_miner t.
Proof.
  apply observed_sublist. unfold accepted_miner, to_miner. intros e x.
  destruct (accepted e) as [m|] eqn:E; [|done]. by rewrite (accepted_offered _ _ E).
Qed.

Lemma accepted_clear_offered t : observed accepted_clear t `sublist_of` observed to_clear t.
Proof.
  apply observed_sublist. unfold accepted_clear, to_clear. intros e x.
  destruct (accepted e) as [m|] eqn:E; [|done]. by rewrite (accepted_offered _ _ E).
Qed.

Lemma accepted_era_offered t : observed accepted_era t `sublist_of` observed to_era t.
Proof.
  apply observed_sublist. unfold accepted_era, to_era. intros e x.
  destruct (accepted e) as [m|] eqn:E; [|done]. by rewrite (accepted_offered _ _ E).
Qed.

Definition channels_inv (t : trace) (c : Channels) : Prop :=
  channel_inv (observed accepted_miner t) c.1.1 /\ channel_inv (observed accepted_clear t) c.1.2 /\
  channel_inv (observed accepted_era t) c.2.

Definition receivers_inv (c : Channels) : Prop :=
  receiver_inv (miner_step signer config) (TS := miner_spec signer config) c.1.1 /\
  receiver_inv era_step c.2.

Definition listener_inv (l : Task ListenerState) (t : trace) : Prop :=
  honest 0 listener_init t /\
  match l with
  | Busy p s => wp (fun _ t => honest 0 listener_init t) p (fun _ _ _ => True) s t
  | _ => True
  end.

Record system_inv (x : System) : Prop := {
  si_listener : listener_inv (listener x) (listener_log x);
  si_channels : channels_inv (listener_log x) (channels x);
  si_receivers : receivers_inv (channels x);
}.

Lemma channels_inv_transmit t c e c' :
  channels_inv t c -> transmits c e c' -> channels_inv (e :: t) c'.
Proof.
  intros (H1 & H2 & H3). unfold channels_inv. rewrite !observed_cons.
  destruct 1 as [m r x Hs|m r x Hs|m r x Hs|m r x Hs|m r x Hs|R o r Ho].
  - pose proof (channel_inv_try _ _ _ _ _ H1 Hs) as H. destruct r; cbn; rewrite ?app_nil_r in *; by split_and!.
  - pose proof (channel_inv_send _ _ _ _ _ H1 Hs) as H. destruct r; cbn; rewrite ?app_nil_r in *; by split_and!.
  - pose proof (channel_inv_try _ _ _ _ _ H2 Hs) as H. destruct r; cbn; rewrite ?app_nil_r in *; by split_and!.
  - pose proof (channel_inv_try _ _ _ _ _ H3 Hs) as H. destruct r; cbn; rewrite ?app_nil_r in *; by split_and!.
  - pose proof (channel_inv_send _ _ _ _ _ H3 Hs) as H. destruct r; cbn; rewrite ?app_nil_r in *; by split_and!.
  - destruct o; cbn; rewrite ?app_nil_r; by split_and!.
Qed.

(** Dropping a send adds nothing to what was accepted. *)
Lemma dropped_not_accepted {R} (o : op R) r : dropped_answer o r -> accepted (Event o r) = None.
Proof. destruct o; cbn; try done; by intros [e ->]. Qed.

Lemma channels_inv_drop t c {R} (o : op R) r :
  dropped_answer o r -> channels_inv t c -> channels_inv (Event o r :: t) c.
Proof.
  intros Hd. unfold channels_inv. rewrite !observed_cons. unfold accepted_miner, accepted_clear, accepted_era.
  rewrite (dropped_not_accepted o r Hd). cbn. by rewrite !app_nil_r.
Qed.

Lemma receivers_inv_transmit c e c' : receivers_inv c -> transmits c e c' -> receivers_inv c'.
Proof.
  intros [H1 H2]. destruct 1 as [m r x Hs|m r x Hs|m r x Hs|m r x Hs|m r x Hs|R o r Ho]; try done;
    (split; [try done|try done]); cbn;
    (by eapply receiver_inv_try) || (by eapply receiver_inv_send).
Qed.

(** Dropping a send is two steps of the program. *)
Lemma wp_drop {R} (P : trace -> Prop) (o : op R) k (s : ListenerState) t r secs k' (Q : outcome unit -> ListenerState -> trace -> Prop) :
  wp (fun _ t => P t) (Vis o k) Q s t -> k r = Timer secs k' ->
  wp (fun _ t => P t) (k' true) Q s (Event o r :: t) /\ P (Event o r :: t).
Proof. intros Hwp Hk. destruct (Hwp r) as [HP Hw]. rewrite Hk in Hw. split; [exact (Hw true)|exact HP]. Qed.

Lemma system_inv_step x x' : system_inv x -> system_step signer config x x' -> system_inv x'.
Proof.
  intros [[HL Hl] HC [HR1 HR2]]. destruct 1 as
    [p s p' s' Hx Hs|p s p' s' e c Hx Hs Ht|R o k s r secs k' Hx Hw Hd Hk|o s Hx|m Hm|c Hc|c Hc].
  - rewrite Hx in Hl. split; [|done|done]. cbn. apply and_comm. by eapply wp_prog_step.
  - rewrite Hx in Hl. split; cbn.
    + apply and_comm. by eapply wp_prog_step.
    + destruct c as [[]]. by eapply channels_inv_transmit.
    + destruct c as [[]]. by eapply receivers_inv_transmit.
  - rewrite Hx in Hl. split; cbn; [|by apply channels_inv_drop|done].
    apply and_comm. by eapply wp_drop.
  - by split.
  - destruct HC as (C1 & C2 & C3). split; [done| |split; [|done]]; cbn.
    + split_and!; [by eapply channel_inv_step|done|done].
    + by eapply receiver_inv_step.
  - destruct HC as (C1 & C2 & C3). split; [done| |done]; cbn.
    split_and!; [done|by eapply channel_inv_step|done].
  - destruct HC as (C1 & C2 & C3). split; [done| |split; [done|]]; cbn.
    + split_and!; [done|done|by eapply channel_inv_step].
    + by eapply receiver_inv_step.
Qed.

Lemma system_inv_init n : system_inv (monitor_init n).
Proof.
  split.
  - split; [done|]. cbn. eapply wp_mono; [| |apply (keeps_honest n listener_init [])]; [done|done|]. by split.
  - split_and!; (split; [cbn; lia|done]).
  - split.
    + split; [done|]. intros pages. split; [split; [by left|done]|]. intros _. split; [by intros|].
      split; [by left|done].
    + split; [split; [cbn; lia|done]|]. split; [done|]. exists 0%nat. done.
Qed.

Lemma system_inv_reachable n x :
  rtc (system_step signer config) (monitor_init n) x -> system_inv x.
Proof.
  revert x. refine (rtc_ind_r _ _ _ _); [apply system_inv_init|].
  intros x x' _ Hs IH. by eapply system_inv_step.
Qed.

End whole.

(** ** Schedules

    The system as a program: one step of a chosen task, against handlers for
    what is outside. *)
Section schedules.
Context `{T : MinerConfig} `{SO : ScoreOrder} (signer : AccountId) (config : ProcessConfig) (h : handler).

(** The next step of a program. *)
Definition advance {S A} (p : prog S A) (s : S) (t : trace) : prog S A * S * trace :=
  match p with
  | Ret a => (Ret a, s, t)
  | Get k => (k s, s, t)
  | Put s' k => (k, s', t)
  | Timer secs k => (k (fires h secs t), s, t)
  | Vis o k => let r := answer h _ o t in (k r, s, Event o r :: t)
  end.

Definition receiver_exec {S Msg} (body : Msg -> M S unit) (x : Receiver S Msg) : Receiver S Msg :=
  match task x with
  | Idle s =>
      match queue x with
      | m :: q => {| task := Busy (body m) s; queue := q; received := received x ++ [m]; log := log x |}
      | [] => x
      end
  | Busy (Ret (Ok tt)) s => {| task := Idle s; queue := queue x; received := received x; log := log x |}
  | Busy (Ret o) s => {| task := Ended o; queue := queue x; received := received x; log := log x |}
  | Busy p s =>
      let '(p', s', t') := advance p s (log x) in
      {| task := Busy p' s'; queue := queue x; received := received x; log := t' |}
  | Ended _ => x
  end.

Definition alive_b {S Msg} (x : Receiver S Msg) : bool := match task x with Ended _ => false | _ => true end.
Definition room_b {S Msg} (x : Receiver S Msg) : bool := (length (queue x) <? BUFFER)%nat.

Definition try_exec {S Msg} (m : Msg) (x : Receiver S Msg) : TrySend * Receiver S Msg :=
  if alive_b x then if room_b x then (Sent, put m x) else (Full, x) else (Closed, x).

(** Not called while the channel is full. *)
Definition send_exec {S Msg} (m : Msg) (x : Receiver S Msg) : Result unit string * Receiver S Msg :=
  if alive_b x then (ok tt, put m x) else (err "closed", x).

Definition waits_b (c : Channels) {R} (o : op R) : bool :=
  match o with
  | MinerSend _ => alive_b c.1.1 && negb (room_b c.1.1)
  | EraSend _ => alive_b c.2 && negb (room_b c.2)
  | _ => false
  end.

(** The answer to an operation of the listener. *)
Definition listener_answer (c : Channels) (t : trace) {R} (o : op R) : R * Channels :=
  match o as o' in op R return R * Channels with
  | MinerTrySend m => let '(r, x) := try_exec m c.1.1 in (r, (x, c.1.2, c.2))
  | MinerSend m => let '(r, x) := send_exec m c.1.1 in (r, (x, c.1.2, c.2))
  | ClearTrySend m => let '(r, x) := try_exec m c.1.2 in (r, (c.1.1, x, c.2))
  | EraTrySend m => let '(r, x) := try_exec m c.2 in (r, (c.1.1, c.1.2, x))
  | EraSend m => let '(r, x) := send_exec m c.2 in (r, (c.1.1, c.1.2, x))
  | o' => (answer h _ o' t, c)
  end.

Definition listener_exec (x : System) : System :=
  match listener x with
  | Busy p s =>
      match p with
      | Ret o => with_listener (Ended o) (listener_log x) (channels x)
      | Get k => with_listener (Busy (k s) s) (listener_log x) (channels x)
      | Put s' k => with_listener (Busy k s') (listener_log x) (channels x)
      | Timer secs k => with_listener (Busy (k (fires h secs (listener_log x))) s) (listener_log x) (channels x)
      | Vis o k =>
          if waits_b (channels x) o then x
          else
            let '(r, c) := listener_answer (channels x) (listener_log x) o in
            with_listener (Busy (k r) s) (Event o r :: listener_log x) c
      end
  | _ => x
  end.

Definition exec_one (who : TaskName) (x : System) : System :=
  match who with
  | ListenerTask => listener_exec x
  | MinerTask => with_listener (listener x) (listener_log x)
      (receiver_exec (miner_step signer config) (miner x), clear_old_rounds x, era_pruning x)
  | ClearOldRoundsTask => with_listener (listener x) (listener_log x)
      (miner x, receiver_exec (clear_step signer) (clear_old_rounds x), era_pruning x)
  | EraPruningTask => with_listener (listener x) (listener_log x)
      (miner x, clear_old_rounds x, receiver_exec era_step (era_pruning x))
  end.

Definition exec (whos : list TaskName) (x : System) : System := foldl (fun x who => exec_one who x) x whos.

Lemma receiver_exec_step {S Msg} (body : Msg -> M S unit) closed gone x :
  receiver_exec body x = x \/ receiver_step body closed gone x (receiver_exec body x).
Proof.
  unfold receiver_exec. destruct (task x) as [s|p s|o] eqn:Ht; [| |by left].
  - destruct (queue x) as [|m q] eqn:Hq; [by left|right]. by eapply receiver_takes.
  - right. destruct p as [o|k|s0 k|k|R o k]; cbn.
    + destruct o as [[]|e|msg|]; [by apply receiver_done|by eapply receiver_fails..].
    + by eapply receiver_runs.
    + by eapply receiver_runs.
    + eapply receiver_runs; [done|]. by eexists.
    + eapply receiver_runs; [done|]. by eexists.
Qed.

Lemma try_exec_sends {S Msg} (m : Msg) (x : Receiver S Msg) :
  try_sends m x (try_exec m x).1 (try_exec m x).2.
Proof.
  unfold try_exec, alive_b, room_b.
  assert (alive x <-> match task x with Ended _ => False | _ => True end) as Ha by done.
  destruct (Nat.ltb_spec (length (queue x)) BUFFER); destruct (task x) eqn:Ht; cbn [fst snd];
    first [apply try_sent; tauto | apply try_full; tauto | apply try_closed; tauto].
Qed.

Lemma send_exec_sends {S Msg} (m : Msg) (x : Receiver S Msg) :
  alive_b x && negb (room_b x) = false -> send_awaits m x (send_exec m x).1 (send_exec m x).2.
Proof.
  unfold send_exec, alive_b, room_b. destruct (task x) eqn:Ht; cbn [andb].
  1,2: destruct (Nat.ltb_spec (length (queue x)) BUFFER); [|done]; intros _;
    (apply send_ok; [unfold alive; by rewrite Ht|done]).
  intros _. apply send_closed. cbn [snd]. unfold alive. rewrite Ht. tauto.
Qed.

Lemma listener_answer_transmits c t {R} (o : op R) : waits_b c o = false ->
  transmits c (Event o (listener_answer c t o).1) (listener_answer c t o).2.
Proof.
  intros Hw. destruct o; cbn; try (apply tx_other; done).
  - pose proof (try_exec_sends m c.1.1). destruct (try_exec m c.1.1). by constructor.
  - pose proof (send_exec_sends m c.1.1 Hw). destruct (send_exec m c.1.1). by constructor.
  - pose proof (try_exec_sends m c.1.2). destruct (try_exec m c.1.2). by constructor.
  - pose proof (send_exec_sends m c.2 Hw). destruct (send_exec m c.2). by constructor.
  - pose proof (try_exec_sends m c.2). destruct (try_exec m c.2). by constructor.
Qed.

Lemma with_listener_id x : with_listener (listener x) (listener_log x) (channels x) = x.
Proof. by destruct x. Qed.

Lemma exec_one_step who x :
  exec_one who x = x \/ system_step signer config x (exec_one who x).
Proof.
  destruct who; cbn.
  - unfold listener_exec. destruct (listener x) as [s|p s|o] eqn:Hl; [by left| |by left].
    destruct p as [o|k|s0 k|k|R o k].
    + right. by eapply listener_ends.
    + right. by eapply listener_moves.
    + right. by eapply listener_moves.
    + right. eapply listener_moves; [done|]. by eexists.
    + destruct (waits_b (channels x) o) eqn:Hw; [by left|right].
      pose proof (listener_answer_transmits (channels x) (listener_log x) o Hw) as Ht.
      destruct (listener_answer _ _ o) as [r c]. eapply listener_operates; [done| |exact Ht]. by eexists.
  - destruct (receiver_exec_step (miner_step signer config) (task_failure MinerTask) (listener_gone x) (miner x))
      as [->|Hs]; [left; apply with_listener_id|right; by apply miner_moves].
  - destruct (receiver_exec_step (clear_step signer) (task_failure ClearOldRoundsTask) (listener_gone x) (clear_old_rounds x))
      as [->|Hs]; [left; apply with_listener_id|right; by apply clear_moves].
  - destruct (receiver_exec_step era_step (task_failure EraPruningTask) (listener_gone x) (era_pruning x))
      as [->|Hs]; [left; apply with_listener_id|right; by apply era_moves].
Qed.

(** Every schedule is a run of the system. *)
Lemma exec_reachable whos : forall x, rtc (system_step signer config) x (exec whos x).
Proof.
  induction whos as [|who whos IH]; intros x; [apply rtc_refl|]. unfold exec. cbn [foldl].
  destruct (exec_one_step who x) as [->|Hs]; [apply IH|]. eapply rtc_l; [exact Hs|apply IH].
Qed.

End schedules.

(** ** Counting blocks *)
Definition is_new (m : EraPruningMessage) : option unit :=
  match m with NewBlock _ => Some tt | _ => None end.

Lemma active_blocks_new msgs : forall a, (active_blocks a msgs <= length (omap is_new msgs))%nat.
Proof.
  induction msgs as [|m msgs IH]; intros a; [done|]. destruct m; cbn [active_blocks]; csimpl.
  - apply IH.
  - apply IH.
  - specialize (IH a). destruct a; lia.
Qed.

Lemma omap_sublist_length {A B} (f : A -> option B) (l1 l2 : list A) :
  l1 `sublist_of` l2 -> (length (omap f l1) <= length (omap f l2))%nat.
Proof. induction 1 as [|x l1 l2 _ IH|x l1 l2 _ IH]; csimpl; [done|destruct (f x); csimpl; lia..]. Qed.

Lemma offered_new `{T : MinerConfig} t : length (omap is_new (observed to_era t)) = new_blocks t.
Proof.
  induction t as [|e t IH]; [done|]. rewrite observed_cons, new_blocks_cons, omap_app, length_app, IH.
  unfold to_era, new_block. destruct (msg_of e) as [[| |[]]|]; cbn; lia.
Qed.

Lemma offered_block `{T : MinerConfig} state t :
  guarded message_justified t -> ProcessBlock state ∈ observed to_miner t ->
  (match phase state with Signed _ | Snapshot_ _ => True | _ => False end) /\
  phase_seen (phase state) t /\ round_seen (round state) t.
Proof.
  induction t as [|e t IH]; [by intros _ Hin%not_elem_of_nil|]. intros [He Hg].
  rewrite observed_cons. intros [Hin|Hin]%elem_of_app.
  - destruct (IH Hg Hin) as (Hp & [b Hb] & [b' Hb']). split_and!; [done|exists b; by right|exists b'; by right].
  - unfold to_miner in Hin. unfold message_justified in He.
    destruct (msg_of e) as [[m| |]|]; cbn in Hin; try by apply not_elem_of_nil in Hin.
    apply list_elem_of_singleton in Hin. subst m. destruct He as (Hp & [b Hb] & [b' Hb']).
    split_and!; [done|exists b; by right|exists b'; by right].
Qed.

(** C1: the running system, whatever the interleaving of the tasks, the node
    and the timeouts.  Every transaction of the miner is justified by a block it
    has received: outside shady mode by a validated solution above the minimum
    that beats the competition, or whose score and missing page a submission of
    the account has, or by a submission to bail of; in shady mode it is the
    registration of the malicious score in a signed phase.  Every block the miner
    has received is in a signed or snapshot phase that the listener has read,
    with a round it has read; eras are pruned at most once per block the listener
    has read in the Off phase. *)
Theorem system_safe `{T : MinerConfig} `{SO : ScoreOrder} signer config n (x : System) :
  rtc (system_step signer config) (monitor_init n) x ->
  (forall new e past, log (miner x) = new ++ e :: past ->
     sent_tx e = None \/ tx_ok_some signer config (received (miner x)) e past) /\
  (forall state, ProcessBlock state ∈ received (miner x) ->
     (match phase state with Signed _ | Snapshot_ _ => True | _ => False end) /\
     phase_seen (phase state) (listener_log x) /\ round_seen (round state) (listener_log x)) /\
  (length (sent_txs (log (era_pruning x))) <= off_reads (listener_log x))%nat.
Proof.
  intros Hr. destruct (system_inv_reachable signer config n x Hr)
    as [[[Hnb Hg] _] (C1 & _ & C3) [[H1 _] [[H2 _] _]]]. split_and!.
  - intros new e past Heq. by eapply guarded_lookup in H1.
  - intros state Hin. assert (ProcessBlock state ∈ observed to_miner (listener_log x)) as Ho.
    { eapply elem_of_sublist; [|apply accepted_miner_offered]. destruct C1 as [_ <-]. apply elem_of_app. by left. }
    by apply offered_block.
  - etrans; [exact H2|]. etrans; [apply active_blocks_new|].
    etrans; [|etrans; [|exact Hnb]]; [|rewrite Nat.add_0_r; by rewrite <- offered_new].
    apply omap_sublist_length. etrans; [|apply accepted_era_offered]. destruct C3 as [_ <-].
    by apply sublist_inserts_r.
Qed.

(** A chain that leaves the Off phase after two blocks, and a schedule in which
    the eras are pruned on both and the miner then submits its solution. *)
Definition two_off_node : Node :=
  with_phase (fun t => if decide (0 < streams t /\ off_reads t < 2)%nat then Off else Signed 50) good_node.

Definition example_schedule : list TaskName :=
  concat (replicate 120 [ListenerTask; EraPruningTask; EraPruningTask]) ++ replicate 400 MinerTask.

Definition example_system : System :=
  exec 1 config0 (node_handler two_off_node) example_schedule (monitor_init 3).

Lemma system_safe_witness :
  length (sent_txs (log (miner example_system))) = 5%nat /\
  sent_txs (log (era_pruning example_system)) =
    [(prune_era_step_call 3, 5, None); (prune_era_step_call 3, 5, None)] /\
  (length (sent_txs (log (era_pruning example_system))) <= off_reads (listener_log example_system))%nat.
Proof.
  split; [vm_compute; reflexivity|]. split; [vm_compute; reflexivity|].
  apply (system_safe 1 config0 3 example_system), exec_reachable.
Defined.

(** A miner at work leaves the channel empty: the next block is buffered behind
    the one in progress, not skipped. *)
Theorem busy_miner_buffers_a_block : exists x state,
  rtc (system_step 1 config0) (monitor_init 2) x /\
  (match task (miner x) with Busy _ _ => True | _ => False end) /\ queue (miner x) = [ProcessBlock state].
Proof.
  exists (exec 1 config0 (node_handler good_node)
    (replicate 3 MinerTask ++ replicate 45 ListenerTask ++ [MinerTask] ++ replicate 45 ListenerTask) (monitor_init 2)), state0.
  split; [apply exec_reachable|]. split; [vm_compute; exact I|vm_compute; reflexivity].
Qed.
