(* ===== verification/Server.v ===== *)
(** * The prediction server

    [src/commands/server.rs]: routing of requests, the limits on their size,
    number and duration, the one prediction that may run at a time, and the
    snapshot endpoint.  The HTTP library ([hyper]) is outside: a request is its
    method, path, query and body. *)

From Stdlib Require Import Ascii.
From S2P Require Import Prelude RustStr Errors Chain Metrics Types Effects ChainAccess ElectionData SnapshotFetch Staking Predictions Runtime Predict.
Local Open Scope Z_scope.

Definition MAX_BODY_SIZE : Z := 1024 * 1024.
Definition MAX_CONCURRENT_CONNECTIONS : nat := 25.
Definition MAX_CONCURRENT_PREDICTIONS : nat := 1.
Definition SIMULATE_TIMEOUT : Z := 600.
Definition SNAPSHOT_TIMEOUT : Z := 120.

(** ** Types *)

Record SimulateRunParameters : Type := {
  rp_block_number : Z;
  rp_desired_validators : Z;
  rp_balancing_iterations : Z;
  rp_do_reduce : bool;
  rp_algorithm : ElectionAlgorithm;
  rp_overrides : option OverridesConfig;
}.

Record SimulateResult : Type := {
  run_parameters : SimulateRunParameters;
  sr_validators : ValidatorsPrediction;
  sr_nominators : NominatorsPrediction;
}.

Record SnapshotConfig : Type := {
  sc_block_number : Z;
  sc_round : Z;
  sc_data_source : ElectionDataSource;
}.

Record SnapshotNominator : Type := {
  sn_account : string;
  sn_stake : string;
  sn_targets : list string;
}.

Record SnapshotResult : Type := {
  snapshot_validators : list string;
  snapshot_nominators : list SnapshotNominator;
  snapshot_config : SnapshotConfig;
}.

(** The documents the server answers with. *)
Inductive Json : Type :=
| JsonError (message : string)
| JsonSimulate (result : SimulateResult)
| JsonSnapshot (result : SnapshotResult).

Inductive Method : Type := GET | POST | OtherMethod.

Record Request : Type := {
  req_method : Method;
  req_path : string;
  req_query : option string;
}.

Record Response : Type := {
  status : Z;
  response_body : string;
}.

(** What other crates compute: JSON ([serde_json]) and query strings ([url]). *)
Class Web : Type := {
  json_to_vec : Json -> option string;
  config_from_slice : string -> Result PredictConfig string;
  form_urlencoded_parse : string -> list (string * string);
}.

(** The trait [ServerHandler]. *)
Class ServerHandler `{T : MinerConfig} (S : Type) : Type := {
  predict : PredictConfig -> M S (ValidatorsPrediction * NominatorsPrediction);
  snapshot : option Z -> M S SnapshotResult;
}.

(** ** Responses *)
Section responses.
Context `{W : Web}.

(** The body used when nothing else can be serialized. *)
Definition INTERNAL_SERVER_ERROR : string :=
  let quote := String (Ascii.ascii_of_nat 34) EmptyString in
  "{" +:+ quote +:+ "error" +:+ quote +:+ ": " +:+ quote +:+ "Internal Server Error" +:+ quote +:+ "}".

(** [Response::builder()..body(..)]: only a status out of range is refused. *)
Definition build_response (code : Z) (body : string) : Response :=
  if (100 <=? code) && (code <=? 999) then {| status := code; response_body := body |}
  else {| status := 500; response_body := INTERNAL_SERVER_ERROR |}.

(** [error_response] *)
Definition error_response (code : Z) (message : string) : Response :=
  build_response code (default INTERNAL_SERVER_ERROR (json_to_vec (JsonError message))).

(** [json_response] *)
Definition json_response (result : Json) : Response :=
  match json_to_vec result with
  | Some body => build_response 200 body
  | None => error_response 500 "Failed to serialize JSON"
  end.

(** The first [block] parameter of the query, if it is a number. *)
Definition query_block_number (req : Request) : option Z :=
  query ← req_query req;
  '(_, (_, value)) ← list_find (fun kv => kv.1 = "block") (form_urlencoded_parse query);
  match parse_u32 value with ok n => Some n | err _ => None end.

End responses.

(** ** Requests *)
Section requests.
Context `{T : MinerConfig} `{W : Web} {S : Type} `{H : !ServerHandler S}.

(** The permit of the prediction semaphore is held until the end of the scope,
    however it is left. *)
Definition with_permit {A} (m : M S A) : M S A :=
  pbind m (fun o => Vis ReleasePrediction (fun _ => Ret o)).

(** A configuration with the block number of the query. *)
Definition with_block_number (num : option Z) (c : PredictConfig) : PredictConfig :=
  match num with
  | None => c
  | Some n => {|
      pc_desired_validators := pc_desired_validators c; output_dir := output_dir c;
      balancing_iterations := balancing_iterations c; do_reduce := do_reduce c;
      pc_block_number := Some n; overrides := overrides c; algorithm := algorithm c |}
  end.

Definition run_parameters_of (c : PredictConfig) (metadata : PredictionMetadata) : SimulateRunParameters := {|
  rp_block_number := pm_block_number metadata;
  rp_desired_validators := desired_validators metadata;
  rp_balancing_iterations := balancing_iterations c;
  rp_do_reduce := do_reduce c;
  rp_algorithm := algorithm c;
  rp_overrides := overrides c |}.

(** [POST /simulate] *)
Definition simulate (req : Request) : M S Response :=
  let block_number := query_block_number req in
  body ← ask (CollectBody MAX_BODY_SIZE);
  match body with
  | LengthLimitError => mret (error_response 413 "Request body too large")
  | BodyError => mret (error_response 400 "Failed to read body")
  | Collected bytes =>
      match config_from_slice bytes with
      | err _ => mret (error_response 400 "Invalid JSON")
      | ok predict_config =>
          let predict_config := with_block_number block_number predict_config in
          acquired ← ask TryAcquirePrediction;
          if acquired : bool then
            with_permit (
              result ← timeout SIMULATE_TIMEOUT (predict predict_config);
              mret match result with
                   | Some (ok (validators, nominators)) =>
                       json_response (JsonSimulate {|
                         run_parameters := run_parameters_of predict_config (metadata validators);
                         sr_validators := validators;
                         sr_nominators := nominators |})
                   | Some (err _) => error_response 500 "Internal Server Error: Prediction failed"
                   | None => error_response 504 "Gateway Timeout: Prediction took too long"
                   end)
          else mret (error_response 503 "A prediction is already in progress")
      end
  end.

(** [GET /snapshot] *)
Definition get_snapshot_response (req : Request) : M S Response :=
  result ← timeout SNAPSHOT_TIMEOUT (snapshot (query_block_number req));
  mret match result with
       | Some (ok snapshot_data) => json_response (JsonSnapshot snapshot_data)
       | Some (err _) => error_response 500 "Internal Server Error"
       | None => error_response 504 "Gateway Timeout: Snapshot fetch took too long"
       end.

(** [handle_request] *)
Definition handle_request (req : Request) : M S Response :=
  match req_method req with
  | POST => if String.eqb (req_path req) "/simulate" then simulate req
            else mret (error_response 404 "Not Found")
  | GET => if String.eqb (req_path req) "/snapshot" then get_snapshot_response req
           else mret (error_response 404 "Not Found")
  | OtherMethod => mret (error_response 404 "Not Found")
  end.

End requests.

(** ** The handler of the miner *)
Section client_handler.
Context `{T : MinerConfig} `{F : Foreign} `{V : VotesBound} `{US : UnstableSort} {S : Type}.

(** The block of a snapshot request and its number. *)
Definition snapshot_block (block_number : option Z) : M S (Z * AtBlock) :=
  match block_number with
  | Some num =>
      block_hash ← get_block_hash num;
      at_block ← storage_at (Some block_hash);
      mret (num, at_block)
  | None =>
      at_block ← query AtCurrentBlock;
      mret (as_u32 (ab_number at_block), at_block)
  end.

Definition snapshot_nominator (ss58_prefix : Z) (v : Voter) : SnapshotNominator :=
  let '(acc, stake, targets) := v in {|
    sn_account := encode_account_id acc ss58_prefix;
    sn_stake := pretty stake;
    sn_targets := (fun t => encode_account_id t ss58_prefix) <$> targets |}.

(** [fetch_snapshot_data] *)
Definition fetch_snapshot_data (block_number : option Z) : M S SnapshotResult :=
  n_pages ← ask PagesGet;
  x ← snapshot_block block_number;
  let '(block_number, at_block) := x in
  round ← query (TryFetchRound at_block);
  let current_round := default 0 round in
  y ← fetch_snapshots n_pages current_round at_block None;
  let '(target_snapshot, voter_snapshot, data_source) := y in
  ss58_prefix ← get_ss58_prefix;
  mret {|
    snapshot_validators := (fun acc => encode_account_id acc ss58_prefix) <$> target_snapshot;
    snapshot_nominators := snapshot_nominator ss58_prefix <$> concat voter_snapshot;
    snapshot_config := {| sc_block_number := block_number; sc_round := current_round;
                          sc_data_source := data_source |} |}.

(** [ClientHandler] *)
Definition ClientHandler : ServerHandler S := {|
  predict := run_prediction;
  snapshot := fetch_snapshot_data;
|}.

End client_handler.

(** ** The server

    [serve]: connections, and the requests on them, are served concurrently.  A
    request is the rest of its program with whether it holds the permit of a
    prediction; a semaphore is its number of permits.  A request may be dropped
    at any time, as those of a connection that ends may be, or outlive its
    connection; its permit is given back where it is dropped.  A connection
    beyond the limit waits until another one has ended. *)
Section serve.
Context `{T : MinerConfig} `{W : Web} `{H : !ServerHandler unit}.

Inductive Slot : Type :=
| Serving (rest : prog unit (outcome Response)) (permit : bool)
| Answered.

Record Server : Type := {
  open_connections : list bool;
  requests : list (nat * Slot);
  connection_permits : nat;
  prediction_permits : nat;
}.

Definition server_init : Server := {|
  open_connections := [];
  requests := [];
  connection_permits := MAX_CONCURRENT_CONNECTIONS;
  prediction_permits := MAX_CONCURRENT_PREDICTIONS |}.

(** The slot of a request, and the number of free permits, after a step. *)
Definition with_slot (j i : nat) (x : Slot) (permits : nat) (s : Server) : Server := {|
  open_connections := open_connections s;
  requests := <[j := (i, x)]> (requests s);
  connection_permits := connection_permits s;
  prediction_permits := permits |}.

(** Operations on the prediction semaphore. *)
Definition semaphore_op {R} (o : op R) : bool :=
  match o with TryAcquirePrediction | ReleasePrediction => true | _ => false end.

(** One more permit when one is given back. *)
Definition give_back (permit : bool) (n : nat) : nat := if permit then Datatypes.S n else n.

Inductive server_step (s : Server) : Server -> Prop :=
(* a connection is accepted and has its permit *)
| server_accept n :
    connection_permits s = Datatypes.S n ->
    server_step s {| open_connections := open_connections s ++ [true]; requests := requests s;
                     connection_permits := n; prediction_permits := prediction_permits s |}
(* a request arrives on a connection *)
| server_request i req :
    open_connections s !! i = Some true ->
    server_step s {| open_connections := open_connections s;
                     requests := requests s ++ [(i, Serving (handle_request req) false)];
                     connection_permits := connection_permits s;
                     prediction_permits := prediction_permits s |}
(* one step of a request; the environment answers *)
| server_op j i {R} (o : op R) k r permit :
    requests s !! j = Some (i, Serving (Vis o k) permit) -> semaphore_op o = false ->
    server_step s (with_slot j i (Serving (k r) permit) (prediction_permits s) s)
| server_timer j i secs k b permit :
    requests s !! j = Some (i, Serving (Timer secs k) permit) ->
    server_step s (with_slot j i (Serving (k b) permit) (prediction_permits s) s)
| server_get j i k permit :
    requests s !! j = Some (i, Serving (Get k) permit) ->
    server_step s (with_slot j i (Serving (k tt) permit) (prediction_permits s) s)
| server_put j i u k permit :
    requests s !! j = Some (i, Serving (Put u k) permit) ->
    server_step s (with_slot j i (Serving k permit) (prediction_permits s) s)
(* the semaphore *)
| server_acquire j i k n permit :
    requests s !! j = Some (i, Serving (Vis TryAcquirePrediction k) permit) ->
    prediction_permits s = Datatypes.S n ->
    server_step s (with_slot j i (Serving (k true) true) n s)
| server_acquire_fails j i k permit :
    requests s !! j = Some (i, Serving (Vis TryAcquirePrediction k) permit) ->
    prediction_permits s = 0%nat ->
    server_step s (with_slot j i (Serving (k false) permit) 0 s)
| server_release j i k permit :
    requests s !! j = Some (i, Serving (Vis ReleasePrediction k) permit) ->
    server_step s (with_slot j i (Serving (k tt) false) (give_back permit (prediction_permits s)) s)
(* the response is sent, or the request dropped *)
| server_respond j i o permit :
    requests s !! j = Some (i, Serving (Ret o) permit) ->
    server_step s (with_slot j i Answered (give_back permit (prediction_permits s)) s)
| server_drop j i rest permit :
    requests s !! j = Some (i, Serving rest permit) ->
    server_step s (with_slot j i Answered (give_back permit (prediction_permits s)) s)
(* a connection ends, with or without its requests *)
| server_close i :
    open_connections s !! i = Some true ->
    server_step s {| open_connections := <[i := false]> (open_connections s);
                     requests := requests s;
                     connection_permits := Datatypes.S (connection_permits s);
                     prediction_permits := prediction_permits s |}.

End serve.
