(* ===== verification/ServerSpec.v ===== *)
(** * Theorems on the prediction server *)

From S2P Require Import Prelude RustStr Errors Chain Metrics Types Effects Calls Traces Scenario ChainAccess ElectionData ElectionDataSpec Tokens SnapshotFetch Staking StakingSpec Predictions PredictionsSpec Runtime Predict PredictSpec System SystemSpec Server.
Local Open Scope Z_scope.

(** ** The permit of a prediction *)
Section discipline.
Context `{T : MinerConfig}.

(** Whether a request holds the permit after an operation; [None] if it may not
    perform it.  Only a holder may set the parameter types or start the solver,
    nobody takes the permit twice or gives back what it does not have, and
    nothing is submitted, sent or written. *)
Definition permit_after (holds : bool) {R} (o : op R) : R -> option bool :=
  match o in op R return R -> option bool with
  | TryAcquirePrediction => fun r => if holds then None else Some r
  | ReleasePrediction => fun _ => if holds then Some false else None
  | o => fun _ =>
      match act_of_op o with
      | None => Some holds
      | Some (ActSet _ _) | Some ActMine => if holds then Some true else None
      | Some _ => None
      end
  end.

(** A program follows that discipline, whatever the answers, and ends with [Q]. *)
Fixpoint disciplined {A} (holds : bool) (p : prog unit A) (Q : bool -> A -> Prop) : Prop :=
  match p with
  | Ret a => Q holds a
  | Get k => disciplined holds (k tt) Q
  | Put _ k => disciplined holds k Q
  | Timer _ k => forall b, disciplined holds (k b) Q
  | Vis o k => forall r,
      match permit_after holds o r with
      | None => False
      | Some holds' => disciplined holds' (k r) Q
      end
  end.

(** The permit is where it was. *)
Definition still (holds : bool) {A} (h : bool) (_ : A) : Prop := h = holds.

Lemma disciplined_mono {A} (p : prog unit A) (Q Q' : bool -> A -> Prop) : forall holds,
  disciplined holds p Q -> (forall h a, Q h a -> Q' h a) -> disciplined holds p Q'.
Proof.
  induction p as [a|k IH|u k IH|? k IH|R o k IH]; cbn; intros holds Hp HQ; eauto.
  intros r. specialize (Hp r). destruct (permit_after holds o r); eauto.
Qed.

Lemma disciplined_pbind {A B} (p : prog unit A) (f : A -> prog unit B) Q : forall holds,
  disciplined holds p (fun h a => disciplined h (f a) Q) -> disciplined holds (pbind p f) Q.
Proof.
  induction p as [a|k IH|u k IH|? k IH|R o k IH]; cbn; intros holds Hp; eauto.
  intros r. specialize (Hp r). destruct (permit_after holds o r); eauto.
Qed.

Lemma disciplined_bind {A B} holds h (m : M unit A) (f : A -> M unit B) :
  disciplined holds m (still h) -> (forall a, disciplined h (f a) (still h)) ->
  disciplined holds (mbind f m) (still h).
Proof.
  intros Hm Hf. apply disciplined_pbind. eapply disciplined_mono; [exact Hm|].
  intros h' [a|e|msg|] ->; [apply Hf|done..].
Qed.

(** A program that leaves the permit alone. *)
Fixpoint confined {A} (holds : bool) (p : prog unit A) : Prop :=
  match p with
  | Ret _ => True
  | Get k => confined holds (k tt)
  | Put _ k => confined holds k
  | Timer _ k => forall b, confined holds (k b)
  | Vis o k => forall r, permit_after holds o r = Some holds /\ confined holds (k r)
  end.

Lemma confined_disciplined {A} holds (p : prog unit A) : confined holds p -> disciplined holds p (still holds).
Proof.
  induction p as [a|k IH|u k IH|? k IH|R o k IH]; cbn; intros Hp; eauto; [done|].
  intros r. destruct (Hp r) as [-> Hk]. by apply IH.
Qed.

(** The timer may stop it anywhere. *)
Lemma confined_cancellable {A} holds secs (p : M unit A) : confined holds p -> confined holds (cancellable secs p).
Proof.
  induction p as [a|k IH|u k IH|? k IH|R o k IH]; cbn; intros Hp; eauto.
  destruct (is_await o); cbn; intros r; destruct (Hp r) as [Ho Hk]; split; [done| |done|by apply IH].
  intros [|]; [done|by apply IH].
Qed.

Lemma disciplined_timeout {A} holds secs (m : M unit A) :
  confined holds m -> disciplined holds (timeout secs m) (still holds).
Proof.
  intros Hm. apply disciplined_pbind. eapply disciplined_mono.
  - apply confined_disciplined, confined_cancellable, Hm.
  - by intros h o ->.
Qed.

Lemma permit_after_silent {R} holds (o : op R) r :
  act_of_op o = None -> permit_after holds o r = Some holds.
Proof. by destruct o. Qed.

Lemma confined_wp {A} holds (P : trace -> Prop) (p : prog unit A) Q :
  (forall R (o : op R) r t, P (Event o r :: t) -> permit_after holds o r = Some holds) ->
  forall t, wp (fun _ t => P t) p Q tt t -> confined holds p.
Proof.
  intros HP. induction p as [a|k IH|[] k IH|? k IH|R o k IH]; cbn; intros t Hp; eauto.
  intros r. destruct (Hp r) as [Ho Hk]. eauto.
Qed.

(** What reads only may run at any time. *)
Lemma confined_reader {A} holds (m : M unit A) : keeps (acted []) m anything -> confined holds m.
Proof.
  intros Hm. eapply (confined_wp holds (fun t => acts t = [])); [|exact (Hm tt [] eq_refl)].
  intros R o r t. rewrite acts_cons. destruct (act_of_op o) eqn:Ho; [done|].
  intros _. by apply permit_after_silent.
Qed.

(** What a holder of the permit may do. *)
Definition exclusive (a : Act) : Prop := match a with ActSet _ _ | ActMine => True | _ => False end.

Lemma exclusive_mask a : exclusive (mask a) -> exclusive a.
Proof. by destruct a. Qed.

Lemma confined_emits {A} l (m : M unit A) : Forall exclusive l -> emits l m -> confined true m.
Proof.
  intros Hl Hm. destruct (wp_closed (fun t => Forall exclusive (acts t)) m
    (fun o _ t' => emitted l [] t' (exists a, o = Ok a))) with (s := tt) (t := @nil event) as [_ Hwp].
  - intros [R o r] t. rewrite acts_cons. case_match; [|done]. by intros [_ ?]%Forall_cons.
  - intros o _ t (new & -> & Hp & _). rewrite app_nil_r. apply Forall_reverse, Forall_forall.
    intros a Ha. apply exclusive_mask. rewrite Forall_forall in Hl. apply Hl.
    destruct Hp as [rest ->]. apply elem_of_app. left. by apply list_elem_of_fmap_2.
  - apply Hm.
  - eapply (confined_wp true); [|exact Hwp]. intros R o r t. cbv beta. rewrite acts_cons.
    destruct (act_of_op o) as [a|] eqn:Ho; [|intros _; by apply permit_after_silent].
    intros [Ha _]%Forall_cons. destruct o; cbn in Ho |- *; try done; by injection Ho as <-.
Qed.

End discipline.

(** What the server asks of its handler: predictions use what a holder of the
    permit may use, snapshots only read. *)
Class ConfinedHandler `{T : MinerConfig} (H : ServerHandler unit) : Prop := {
  predict_confined c : confined true (predict c);
  snapshot_confined n : confined false (snapshot n);
}.

Section client_handler.
Context `{T : MinerConfig} `{F : Foreign} `{V : VotesBound} `{US : UnstableSort}.

Lemma acted_fetch_snapshot_data {S} l n : keeps (acted (S := S) l) (fetch_snapshot_data n) anything.
Proof.
  unfold fetch_snapshot_data, snapshot_block.
  eapply (keeps_bind _ _ _ anything); [keeps_acted|]. intros n_pages.
  eapply (keeps_bind _ _ _ anything).
  { destruct n as [num|]; [|keeps_acted]. eapply keeps_bind; [apply acted_get_block_hash|].
    intros hash. unfold storage_at. keeps_acted. }
  intros [number at_block]. eapply (keeps_bind _ _ _ anything); [keeps_acted|]. intros round. cbv zeta.
  eapply keeps_bind; [apply acted_fetch_snapshots|]. intros [[targets voters] source].
  eapply keeps_bind; [apply acted_get_ss58_prefix|]. intros prefix. keeps_acted.
Qed.

#[export] Instance client_handler_confined : ConfinedHandler ClientHandler.
Proof.
  split.
  - intros c. apply (confined_emits (prediction_acts c)); [|apply emits_run_prediction].
    unfold prediction_acts, prediction_sets, metadata_params. cbn. by repeat constructor.
  - intros n. apply confined_reader, acted_fetch_snapshot_data.
Qed.

End client_handler.

(** ** Requests *)
Section requests.
Context `{T : MinerConfig} `{W : Web} `{H : !ServerHandler unit} `{C : !ConfinedHandler H}.

Lemma disciplined_request req : disciplined false (handle_request req) (still false).
Proof.
  assert (disciplined false (get_snapshot_response req) (still false)) as Hs.
  { unfold get_snapshot_response. apply disciplined_bind; [|done].
    apply disciplined_timeout, snapshot_confined. }
  assert (disciplined false (simulate req) (still false)) as Hp.
  { unfold simulate. cbv zeta. apply disciplined_bind; [done|]. intros [bytes| |]; [|done..].
    destruct (config_from_slice bytes) as [c|e]; [|done]. intros [|]; [|done]. cbn [pbind].
    apply disciplined_pbind. eapply disciplined_mono.
    - apply (disciplined_bind true true); [apply disciplined_timeout, predict_confined|done].
    - by intros h o ->. }
  unfold handle_request. destruct (req_method req); [| |done]; by case_match.
Qed.

End requests.

(** ** The responses *)
Section responses.
Context `{T : MinerConfig} `{W : Web} {S : Type} `{H : !ServerHandler S}.

(** The two endpoints. *)
Inductive Endpoint : Type := Simulate | Snapshot.

Definition route (req : Request) : option Endpoint :=
  match req_method req with
  | POST => if String.eqb (req_path req) "/simulate" then Some Simulate else None
  | GET => if String.eqb (req_path req) "/snapshot" then Some Snapshot else None
  | OtherMethod => None
  end.

(** A body that was read as a configuration. *)
Definition configured (body : BodyRead) (c : PredictConfig) : Prop :=
  exists bytes, body = Collected bytes /\ config_from_slice bytes = ok c.

(** What holds of every value [m] returns holds of [a]. *)
Definition comes_from {A} (m : M S A) (a : A) : Prop :=
  forall P : A -> Prop,
  (forall s t, wp Itrue m (fun o _ _ => match o with Ok a => P a | _ => True end) s t) -> P a.

(** Response [r] of [/simulate] to the events [new], the newest first. *)
Definition simulated (req : Request) (new : trace) (r : Response) : Prop :=
  exists body earlier, new = earlier ++ [Event (CollectBody MAX_BODY_SIZE) body] /\
  ((status r = 413 /\ body = LengthLimitError /\ earlier = []) \/
   (status r = 400 /\ body <> LengthLimitError /\ (forall c, ~ configured body c) /\ earlier = []) \/
   (exists c0, configured body c0 /\ let c := with_block_number (query_block_number req) c0 in
     ((status r = 503 /\ earlier = [Event TryAcquirePrediction false]) \/
      (status r ∈ [200; 500; 504] /\
       (exists mid, earlier = Event ReleasePrediction tt :: mid ++ [Event TryAcquirePrediction true]) /\
       (status r = 200 -> exists x, comes_from (predict c) x /\
          json_to_vec (JsonSimulate {|
            run_parameters := run_parameters_of c (metadata x.1);
            sr_validators := x.1; sr_nominators := x.2 |}) = Some (response_body r)))))).

(** Response [r] of [/snapshot]. *)
Definition snapshotted (req : Request) (r : Response) : Prop :=
  status r ∈ [200; 500; 504] /\
  (status r = 200 -> exists x, comes_from (snapshot (query_block_number req)) x /\
     json_to_vec (JsonSnapshot x) = Some (response_body r)).

Lemma json_response_status j :
  let r := json_response j in
  status r ∈ [200; 500; 504] /\ (status r = 200 -> json_to_vec j = Some (response_body r)).
Proof.
  unfold json_response. destruct (json_to_vec j) as [body|] eqn:E; cbn; by (split; [set_solver|]).
Qed.

(** What a timer leaves of a program: its trace, and what it returned. *)
Lemma run_timeout {A} h secs (m : M S A) s t :
  let '(o, _, t') := run h (timeout secs m) s t in
  (exists mid, t' = mid ++ t) /\
  match o with
  | Ok (Some (ok a)) => comes_from m a
  | Ok _ | Panic _ => True
  | _ => False
  end.
Proof.
  pose proof (run_extends h (timeout secs m) s t) as Hx.
  set (Q P := fun (o : outcome (option (Result A Error.t))) (_ : S) (_ : trace) =>
    match o with Ok (Some (ok a)) => P a : Prop | Ok _ | Panic _ => True | _ => False end).
  assert (forall P : A -> Prop,
    (forall s t, wp Itrue m (fun o _ _ => match o with Ok a => P a | _ => True end) s t) ->
    wp Itrue (timeout secs m) (Q P) s t) as Hq.
  { intros P Hm. apply wp_timeout; [|done]. eapply wp_mono; [done| |apply Hm]. by intros []. }
  pose proof (fun P Hm => wp_run _ _ _ s t h (Hq P Hm)) as Hr.
  destruct (run h (timeout secs m) s t) as [[o s'] t'].
  assert (Q (fun _ => True) o s' t') as Ho.
  { apply Hr. intros s0 t0. eapply wp_mono; [done| |apply wp_true]. by intros []. }
  split; [done|]. destruct o as [[[a|e]|]|e|msg|]; done.
Qed.

Lemma run_snapshot h req s t :
  let '(o, _, _) := run h (get_snapshot_response req) s t in
  match o with Ok r => snapshotted req r | Panic _ => True | _ => False end.
Proof.
  unfold get_snapshot_response. rewrite run_mbind.
  pose proof (run_timeout h SNAPSHOT_TIMEOUT (snapshot (query_block_number req)) s t) as Hr.
  destruct (run h (timeout _ _) s t) as [[o s'] t']. destruct Hr as [_ Ho].
  destruct o as [[[x|e]|]|e|msg|]; try done; cbn.
  - destruct (json_response_status (JsonSnapshot x)) as [Hs Hb]. split; [done|]. eauto.
  - split; [set_solver|done].
  - split; [set_solver|done].
Qed.

(** The part of [/simulate] that holds the permit. *)
Lemma run_prediction_response h c s t :
  let '(o, _, t') := run h (with_permit (
      result ← timeout SIMULATE_TIMEOUT (predict c);
      mret match result with
           | Some (ok (validators, nominators)) =>
               json_response (JsonSimulate {| run_parameters := run_parameters_of c (metadata validators);
                                              sr_validators := validators; sr_nominators := nominators |})
           | Some (err _) => error_response 500 "Internal Server Error: Prediction failed"
           | None => error_response 504 "Gateway Timeout: Prediction took too long"
           end)) s t in
  (exists mid, t' = Event ReleasePrediction tt :: mid ++ t) /\
  match o with
  | Ok r => status r ∈ [200; 500; 504] /\
      (status r = 200 -> exists x, comes_from (predict c) x /\
          json_to_vec (JsonSimulate {|
            run_parameters := run_parameters_of c (metadata x.1);
            sr_validators := x.1; sr_nominators := x.2 |}) = Some (response_body r))
  | Panic _ => True
  | _ => False
  end.
Proof.
  unfold with_permit. rewrite run_pbind, run_mbind.
  pose proof (run_timeout h SIMULATE_TIMEOUT (predict c) s t) as Hr.
  destruct (run h (timeout _ _) s t) as [[o s'] t']. destruct Hr as [[mid ->] Ho].
  assert (answer h unit ReleasePrediction (mid ++ t) = tt) as Hu by by destruct (answer _ _ _ _).
  destruct o as [[[[vp np]|e]|]|e|msg|]; try done; cbn; rewrite Hu; split; eauto.
  - destruct (json_response_status (JsonSimulate {| run_parameters := run_parameters_of c (metadata vp);
      sr_validators := vp; sr_nominators := np |})) as [Hs Hb]. split; [done|].
    intros H200. exists (vp, np). auto.
  - split; [set_solver|done].
  - split; [set_solver|done].
Qed.

Lemma run_simulate h req s t :
  let '(o, _, t') := run h (simulate req) s t in
  match o with
  | Ok r => exists new, t' = new ++ t /\ simulated req new r
  | Panic _ => exists mid, t' = Event ReleasePrediction tt :: mid ++ t
  | _ => False
  end.
Proof.
  unfold simulate. cbv zeta. rewrite run_mbind. cbn [run ask].
  set (body := answer h _ (CollectBody MAX_BODY_SIZE) t).
  assert (forall r msg, body <> LengthLimitError -> (forall c, ~ configured body c) ->
    r = error_response 400 msg ->
    exists new, Event (CollectBody MAX_BODY_SIZE) body :: t = new ++ t /\ simulated req new r) as Hbad.
  { intros r msg Hl Hc ->. exists [Event (CollectBody MAX_BODY_SIZE) body]. split; [done|].
    exists body, []. split; [done|]. right. left. by split_and!. }
  destruct body as [bytes| |] eqn:Eb.
  2: { exists [Event (CollectBody MAX_BODY_SIZE) LengthLimitError]. split; [done|].
       exists LengthLimitError, []. split; [done|]. left. by split_and!. }
  2: { cbn. eapply Hbad; [done| |reflexivity]. by intros c (bytes & ? & _). }
  destruct (config_from_slice bytes) as [c|e] eqn:Ec.
  2: { cbn. eapply Hbad; [done| |reflexivity]. intros c (bytes' & [= <-] & Hc). congruence. }
  assert (configured (Collected bytes) c) as Hc by (by exists bytes).
  rewrite run_mbind. cbn [run ask].
  set (t1 := Event (CollectBody MAX_BODY_SIZE) (Collected bytes) :: t).
  destruct (answer h bool TryAcquirePrediction t1).
  - pose proof (run_prediction_response h (with_block_number (query_block_number req) c) s
      (Event TryAcquirePrediction true :: t1)) as Hr.
    destruct (run h (with_permit _) s _) as [[o s'] t']. destruct Hr as [[mid ->] Ho].
    destruct o as [r|e|msg|]; try done.
    + exists ((Event ReleasePrediction tt :: mid ++ [Event TryAcquirePrediction true]) ++
              [Event (CollectBody MAX_BODY_SIZE) (Collected bytes)]).
      split; [cbn; by rewrite <- !app_assoc|]. do 2 eexists. split; [done|].
      right. right. exists c. split; [done|]. right. destruct Ho. split_and!; eauto.
    + exists (mid ++ [Event TryAcquirePrediction true; Event (CollectBody MAX_BODY_SIZE) (Collected bytes)]).
      by rewrite <- app_assoc.
  - exists [Event TryAcquirePrediction false; Event (CollectBody MAX_BODY_SIZE) (Collected bytes)].
    split; [done|]. exists (Collected bytes), [Event TryAcquirePrediction false]. split; [done|].
    right. right. exists c. split; [done|]. by left.
Qed.

(** C27: Every request is answered with a response, except that a panic of the
    handler passes through.  An unknown method or path is 404 and does nothing.
    [/simulate] answers 413 or 400 before it tries for a permit, 503 exactly when
    no permit was free, and otherwise 200, 500 or 504 with its permit given back,
    also by a panic; 200 carries the prediction of the configuration in the body,
    at the block of the query if it has one.  [/snapshot] answers 200 with the
    snapshot, 500 or 504. *)
Theorem handle_request_responses h req s t :
  let '(o, _, t') := run h (handle_request req) s t in
  exists new, t' = new ++ t /\
  match o, route req with
  | Ok r, None => status r = 404 /\ new = []
  | Ok r, Some Simulate => simulated req new r
  | Ok r, Some Snapshot => snapshotted req r
  | Panic _, Some Simulate => head new = Some (Event ReleasePrediction tt)
  | Panic _, Some Snapshot => True
  | _, _ => False
  end.
Proof.
  unfold handle_request, route. destruct (req_method req); [| |by exists []].
  - destruct (String.eqb _ _); [|by exists []]. pose proof (run_snapshot h req s t) as Hr.
    pose proof (run_extends h (get_snapshot_response req) s t) as [new Hx].
    destruct (run h _ s t) as [[o s'] t']. exists new. split; [done|]. by destruct o.
  - destruct (String.eqb _ _); [|by exists []]. pose proof (run_simulate h req s t) as Hr.
    destruct (run h _ s t) as [[o s'] t']. destruct o as [r|e|msg|]; try done.
    destruct Hr as [mid ->]. by exists (Event ReleasePrediction tt :: mid).
Qed.

End responses.

(** ** The server *)

(** How many elements of a list satisfy a test. *)
Definition count {A} (f : A -> bool) (l : list A) : nat := length (filter (fun x => f x = true) l).

Arguments count : simpl never.

Lemma count_app {A} (f : A -> bool) l1 l2 : count f (l1 ++ l2) = (count f l1 + count f l2)%nat.
Proof. unfold count. by rewrite filter_app, length_app. Qed.

Lemma count_one {A} (f : A -> bool) x : count f [x] = Nat.b2n (f x).
Proof. unfold count. cbn. by destruct (f x). Qed.

Lemma count_insert {A} (f : A -> bool) l j x y : l !! j = Some x ->
  (count f (<[j := y]> l) + Nat.b2n (f x) = count f l + Nat.b2n (f y))%nat.
Proof.
  intros Hj. rewrite insert_take_drop by by eapply lookup_lt_Some.
  rewrite <- (take_drop_middle l j x Hj) at 3. rewrite (cons_middle y), (cons_middle x), !count_app, !count_one. lia.
Qed.

Lemma count_lookup {A} (f : A -> bool) l j x : l !! j = Some x -> f x = true -> (0 < count f l)%nat.
Proof.
  intros Hj Hx. rewrite <- (take_drop_middle l j x Hj), (cons_middle x), !count_app, count_one, Hx. cbn. lia.
Qed.

Section server.
Context `{T : MinerConfig} `{W : Web} `{H : !ServerHandler unit} `{C : !ConfinedHandler H}.

(** A request that holds the permit of a prediction. *)
Definition holds_permit (x : nat * Slot) : bool := match x.2 with Serving _ permit => permit | Answered => false end.

(** A request follows the discipline with the permit it has. *)
Definition slot_ok (x : nat * Slot) : Prop :=
  match x.2 with
  | Serving rest permit => disciplined permit rest (still false)
  | Answered => True
  end.

Record server_inv (s : Server) : Prop := {
  si_predictions : (prediction_permits s + count holds_permit (requests s) = MAX_CONCURRENT_PREDICTIONS)%nat;
  si_connections : (connection_permits s + count id (open_connections s) = MAX_CONCURRENT_CONNECTIONS)%nat;
  si_slots : Forall slot_ok (requests s);
}.

(** A step of one request keeps the invariant if the permits add up. *)
Lemma server_inv_slot s j i x y permits :
  server_inv s -> requests s !! j = Some (i, x) ->
  (permits + Nat.b2n (holds_permit (i, y)) = prediction_permits s + Nat.b2n (holds_permit (i, x)))%nat ->
  slot_ok (i, y) ->
  server_inv (with_slot j i y permits s).
Proof.
  intros [Hp Hc Hs] Hj Hperm Hy. split; cbn [with_slot prediction_permits requests connection_permits open_connections].
  - pose proof (count_insert holds_permit _ _ _ (i, y) Hj). lia.
  - done.
  - by apply Forall_insert.
Qed.

Lemma server_inv_step s s' : server_inv s -> server_step s s' -> server_inv s'.
Proof.
  intros Hi Hstep. pose proof Hi as [Hp Hc Hs].
  assert (forall j i rest permit, requests s !! j = Some (i, Serving rest permit) ->
    disciplined permit rest (still false)) as Hslot.
  { intros j i rest permit Hj. exact (Forall_lookup_1 _ _ _ _ Hs Hj). }
  destruct Hstep as [n Hn|i req Hconn|j i R o k r permit Hj Ho|j i secs k b permit Hj|j i k permit Hj
    |j i u k permit Hj|j i k n permit Hj Hn|j i k permit Hj Hn|j i k permit Hj|j i o permit Hj
    |j i rest permit Hj|i Hconn]; try pose proof (Hslot _ _ _ _ Hj) as Hd.
  - split; cbn; [done|rewrite count_app, count_one; cbn; lia|done].
  - split; cbn; [rewrite count_app, count_one; cbn; lia|done|]. apply Forall_app. split; [done|].
    apply Forall_singleton, disciplined_request.
  - eapply server_inv_slot; [done..|]. specialize (Hd r). cbn in Hd.
    assert (permit_after permit o r = Some permit \/ permit_after permit o r = None) as [E|E].
    { destruct o; cbn; try done; destruct permit; auto. }
    all: by rewrite E in Hd.
  - eapply server_inv_slot; [done..|]. apply Hd.
  - eapply server_inv_slot; [done..|]. apply Hd.
  - eapply server_inv_slot; [done..|]. apply Hd.
  - destruct permit; [by destruct (Hd true)|]. specialize (Hd true).
    eapply server_inv_slot; [done..| |]; [cbn; lia|done].
  - destruct permit; [by destruct (Hd true)|]. specialize (Hd false).
    eapply server_inv_slot; [done..| |]; [cbn; lia|done].
  - destruct permit; [|by destruct (Hd tt)]. specialize (Hd tt).
    eapply server_inv_slot; [done..| |]; [cbn; lia|done].
  - eapply server_inv_slot; [done..| |]; [|done]. destruct permit; cbn; lia.
  - eapply server_inv_slot; [done..| |]; [|done]. destruct permit; cbn; lia.
  - split; cbn; [done| |done]. pose proof (count_insert id _ _ _ false Hconn). cbn in *. lia.
Qed.

Lemma server_inv_reachable s : rtc server_step server_init s -> server_inv s.
Proof.
  revert s. refine (rtc_ind_r _ _ _ _).
  - split; [done..|]. constructor.
  - intros s s' _ Hstep IH. by eapply server_inv_step.
Qed.

Lemma one_holder s j1 j2 x1 x2 : server_inv s ->
  requests s !! j1 = Some x1 -> requests s !! j2 = Some x2 ->
  holds_permit x1 = true -> holds_permit x2 = true -> j1 = j2.
Proof.
  intros [Hp _ _] H1 H2 Hx1 Hx2. destruct (decide (j1 = j2)) as [|Hne]; [done|]. exfalso.
  pose proof (count_insert holds_permit _ _ _ (x1.1, Answered) H1) as Hc. rewrite Hx1 in Hc.
  assert (<[j1 := (x1.1, Answered)]> (requests s) !! j2 = Some x2) as H2'
    by by rewrite list_lookup_insert_ne.
  pose proof (count_lookup holds_permit _ _ _ H2' Hx2). cbn in Hc. unfold MAX_CONCURRENT_PREDICTIONS in Hp. lia.
Qed.

(** What a request is about to do is what its permit allows. *)
Lemma next_op_allowed s j i {R} (o : op R) k permit : server_inv s ->
  requests s !! j = Some (i, Serving (Vis o k) permit) ->
  match act_of_op o with
  | None => True
  | Some (ActSet _ _) | Some ActMine => permit = true
  | Some _ => semaphore_op o = true
  end.
Proof.
  intros [_ _ Hs] Hj. pose proof (Forall_lookup_1 _ _ _ _ Hs Hj : disciplined _ _ _) as Hd.
  specialize (Hd (some_answer o)). destruct o; cbn in Hd |- *; try done; by destruct permit.
Qed.

End server.

Section client_server.
Context `{T : MinerConfig} `{F : Foreign} `{V : VotesBound} `{US : UnstableSort} `{W : Web}.

(** C7: Whatever the interleaving of the requests, wherever they are dropped,
    time out or panic: the permits are never lost nor made, so that at most one
    request holds the permit of a prediction and at most 25 connections are open;
    a request that is about to set a parameter type or to start the solver is the
    one that holds the permit; and no request submits a transaction, sends a
    message or writes a file. *)
Theorem server_permits s :
  rtc (server_step (H := ClientHandler)) server_init s ->
  (prediction_permits s + count holds_permit (requests s) = 1)%nat /\
  (connection_permits s + count id (open_connections s) = 25)%nat /\
  (forall j1 j2 x1 x2, requests s !! j1 = Some x1 -> requests s !! j2 = Some x2 ->
     holds_permit x1 = true -> holds_permit x2 = true -> j1 = j2) /\
  (forall j i R (o : op R) k permit, requests s !! j = Some (i, Serving (Vis o k) permit) ->
     match act_of_op o with
     | None => True
     | Some (ActSet _ _) | Some ActMine => permit = true
     | Some _ => semaphore_op o = true
     end).
Proof.
  intros Hr. assert (server_inv s) as Hi by exact (server_inv_reachable (H := ClientHandler) s Hr). pose proof Hi as [Hp Hc _].
  split_and!; [exact Hp|exact Hc| |]; intros *; [by apply one_holder|by apply next_op_allowed].
Qed.

End client_server.

(** ** An example: a second prediction is refused while the first one runs *)

#[local] Instance toy_web : Web := {|
  json_to_vec := fun j => match j with JsonError msg => Some msg | _ => None end;
  config_from_slice := fun s => if String.eqb s "{}" then ok demo_config else err "not a configuration";
  form_urlencoded_parse := fun _ => [("block", "12")];
|}.

Definition simulate_request : Request := {| req_method := POST; req_path := "/simulate"; req_query := Some "block=12" |}.

(** Slots without their programs. *)
Definition slot_view (x : nat * Slot) : nat * option bool :=
  (x.1, match x.2 with Serving _ permit => Some permit | Answered => None end).

Lemma server_permits_witness : exists s,
  rtc (server_step (H := ClientHandler)) server_init s /\
  (slot_view <$> requests s = [(0, Some true); (0, None)])%nat /\
  (prediction_permits s + count holds_permit (requests s) = 1)%nat /\
  (connection_permits s + count id (open_connections s) = 25)%nat.
Proof.
  eexists. match goal with |- ?A /\ ?B /\ _ => assert (A /\ B) as [Hr Hv] end.
  { split.
    - eapply rtc_l; [eapply server_accept; reflexivity|].
      eapply rtc_l; [eapply (server_request _ 0 simulate_request); reflexivity|].
      eapply rtc_l; [eapply (server_request _ 0 simulate_request); reflexivity|].
      eapply rtc_l; [eapply (server_op _ 0) with (r := Collected "{}"); reflexivity|].
      eapply rtc_l; [eapply (server_acquire _ 0); reflexivity|].
      eapply rtc_l; [eapply (server_op _ 1) with (r := Collected "{}"); reflexivity|].
      eapply rtc_l; [eapply (server_acquire_fails _ 1); reflexivity|].
      eapply rtc_l; [eapply (server_respond _ 1); reflexivity|].
      apply rtc_refl.
    - reflexivity. }
  split; [exact Hr|]. split; [exact Hv|].
  destruct (server_permits _ Hr) as (Hp & Hc & _). split; [exact Hp|exact Hc].
Defined.
