(* ===== verification/Threads.v ===== *)
(** * Solver threads

    [mine_solution] runs the solver with [tokio::task::spawn_blocking]: once it is
    spawned, the thread runs to its end, whether or not the request that spawned
    it still waits for it.  Here the server runs with those threads: a solver is
    attached to the request that awaits it, or detached when the timer of the
    request fires or the request is dropped. *)

From S2P Require Import Prelude RustStr Errors Chain Metrics Types Effects Calls Traces Scenario ChainAccess ElectionData ElectionDataSpec SnapshotFetch Staking StakingSpec Predictions PredictionsSpec Runtime Predict PredictSpec System SystemSpec Server ServerSpec.
Local Open Scope Z_scope.

Section threads.
Context `{T : MinerConfig} `{W : Web} `{H : !ServerHandler unit}.

(** The server, the solvers that requests wait for, those nobody waits for, and
    how many requests have abandoned a solver. *)
Record ThreadedServer : Type := {
  server : Server;
  attached : gmap nat MineInput;
  detached : list MineInput;
  abandoned : nat;
}.

Definition threaded_init : ThreadedServer :=
  {| server := server_init; attached := ∅; detached := []; abandoned := 0 |}.

(** A request that awaits its solver. *)
Definition mines (x : nat * Slot) : bool :=
  match x.2 with
  | Serving (Vis o _) _ => match o with MineSolution _ => true | _ => false end
  | _ => false
  end.

Definition with_server (s : Server) (x : ThreadedServer) : ThreadedServer :=
  {| server := s; attached := attached x; detached := detached x; abandoned := abandoned x |}.

(** Request [j] goes on without its solver. *)
Definition abandon (j : nat) (s : Server) (x : ThreadedServer) : ThreadedServer :=
  match attached x !! j with
  | Some input =>
      {| server := s; attached := delete j (attached x); detached := input :: detached x;
         abandoned := Datatypes.S (abandoned x) |}
  | None => with_server s x
  end.

(** One of the timers of nested timeouts fires: the outer ones are asked first. *)
Inductive fired : prog unit (outcome Response) -> prog unit (outcome Response) -> Prop :=
| fired_outer secs k : fired (Timer secs k) (k true)
| fired_inner secs k p : fired (k false) p -> fired (Timer secs k) p.

Inductive thread_step (x : ThreadedServer) : ThreadedServer -> Prop :=
(* the solver is spawned, and joined *)
| thread_spawn j i input k permit :
    requests (server x) !! j = Some (i, Serving (Vis (MineSolution input) k) permit) ->
    attached x !! j = None ->
    thread_step x {| server := server x; attached := <[j := input]> (attached x); detached := detached x;
                     abandoned := abandoned x |}
| thread_join j i input k r permit :
    requests (server x) !! j = Some (i, Serving (Vis (MineSolution input) k) permit) ->
    attached x !! j = Some input ->
    thread_step x {| server := with_slot j i (Serving (k r) permit) (prediction_permits (server x)) (server x);
                     attached := delete j (attached x); detached := detached x; abandoned := abandoned x |}
(* a timer fires while the request waits *)
| thread_elapse j i input k r p permit :
    requests (server x) !! j = Some (i, Serving (Vis (MineSolution input) k) permit) ->
    attached x !! j = Some input -> fired (k r) p ->
    thread_step x (abandon j (with_slot j i (Serving p permit) (prediction_permits (server x)) (server x)) x)
(* the request is dropped, waiting or not *)
| thread_drop j i rest permit :
    requests (server x) !! j = Some (i, Serving rest permit) ->
    thread_step x (abandon j (with_slot j i Answered (give_back permit (prediction_permits (server x))) (server x)) x)
(* a solver nobody waits for ends *)
| thread_ends l1 input l2 :
    detached x = l1 ++ input :: l2 ->
    thread_step x {| server := server x; attached := attached x; detached := l1 ++ l2; abandoned := abandoned x |}
(* any other step of the server, in which no waiting request takes part *)
| thread_other s' :
    server_step (server x) s' ->
    (forall j slot, requests (server x) !! j = Some slot -> mines slot = true -> requests s' !! j = Some slot) ->
    thread_step x (with_server s' x).

(** ** The server underneath *)

Lemma server_abandon j s x : server (abandon j s x) = s.
Proof. unfold abandon. by destruct (attached x !! j). Qed.

(** A timer that fires is a step of the server for each timer that is asked. *)
Lemma fired_server s j i permit p q : (j < length (requests s))%nat -> fired p q ->
  rtc server_step (with_slot j i (Serving p permit) (prediction_permits s) s)
    (with_slot j i (Serving q permit) (prediction_permits s) s).
Proof.
  intros Hj Hf.
  assert (forall secs k b, server_step (with_slot j i (Serving (Timer secs k) permit) (prediction_permits s) s)
    (with_slot j i (Serving (k b) permit) (prediction_permits s) s)) as Hstep.
  { intros secs k b. replace (with_slot j i (Serving (k b) permit) (prediction_permits s) s) with
      (with_slot j i (Serving (k b) permit) (prediction_permits s)
         (with_slot j i (Serving (Timer secs k) permit) (prediction_permits s) s))
      by (unfold with_slot; cbn; by rewrite list_insert_insert_eq).
    refine (server_timer (with_slot j i (Serving (Timer secs k) permit) (prediction_permits s) s) j i secs k b permit _).
    cbn. by apply list_lookup_insert_eq. }
  induction Hf as [secs k|secs k p Hf IH]; [by apply rtc_once|]. by eapply rtc_l.
Qed.

(** A step with threads is a step of the server, or some. *)
Lemma thread_step_server x x' : thread_step x x' -> rtc server_step (server x) (server x').
Proof.
  destruct 1 as [j i input k permit Hj Ha|j i input k r permit Hj Ha|j i input k r p permit Hj Ha Hk
    |j i rest permit Hj|l1 input l2 Hd|s' Hs Hkeep]; rewrite ?server_abandon; cbn.
  - apply rtc_refl.
  - apply rtc_once. by eapply server_op.
  - eapply rtc_l; [by apply (server_op _ _ _ _ _ r _ Hj)|].
    apply fired_server; [by eapply lookup_lt_Some|done].
  - apply rtc_once. by eapply server_drop.
  - apply rtc_refl.
  - by apply rtc_once.
Qed.

Lemma threaded_server x : rtc thread_step threaded_init x -> rtc server_step server_init (server x).
Proof.
  revert x. refine (rtc_ind_r _ _ _ _); [apply rtc_refl|].
  intros x x' _ Hs IH. etrans; [exact IH|by apply thread_step_server].
Qed.

(** ** Who waits for a solver *)

(** The requests with a solver await it. *)
Record threads_inv (x : ThreadedServer) : Prop := {
  ti_attached j input : attached x !! j = Some input ->
    exists i k permit, requests (server x) !! j = Some (i, Serving (Vis (MineSolution input) k) permit);
  ti_detached : (length (detached x) <= abandoned x)%nat;
}.

(** The other requests keep waiting when request [j] moves on. *)
Lemma threads_inv_moves j i y permits x : threads_inv x ->
  let s := with_slot j i y permits (server x) in
  (forall j' input, delete j (attached x) !! j' = Some input ->
     exists i k permit, requests s !! j' = Some (i, Serving (Vis (MineSolution input) k) permit)).
Proof.
  intros [Ha _] s j' input [Hne Hj']%lookup_delete_Some.
  destruct (Ha j' input Hj') as (i' & k & permit & Hr). exists i', k, permit. cbn.
  by rewrite list_lookup_insert_ne.
Qed.

Lemma threads_inv_abandon j i y permits x : threads_inv x ->
  threads_inv (abandon j (with_slot j i y permits (server x)) x).
Proof.
  intros Hi. pose proof (threads_inv_moves j i y permits x Hi) as Hm. pose proof Hi as [_ Hd].
  unfold abandon. destruct (attached x !! j) as [input|] eqn:E; split; cbn; try done; [lia|].
  intros j' input Hj'. apply Hm. apply lookup_delete_Some. split; [congruence|done].
Qed.

Lemma threads_inv_step x x' : threads_inv x -> thread_step x x' -> threads_inv x'.
Proof.
  intros Hi Hs. pose proof Hi as [Ha Hd]. destruct Hs as [j i input k permit Hj Hn|j i input k r permit Hj Hn
    |j i input k r k' permit Hj Hn Hk|j i rest permit Hj|l1 input l2 Hl|s' Hs Hkeep].
  - split; [|done]. intros j' input'. cbn. intros [[<- <-]|[_ Hj']]%lookup_insert_Some; eauto.
  - split; [|done]. by apply threads_inv_moves.
  - by apply threads_inv_abandon.
  - by apply threads_inv_abandon.
  - split; [done|]. cbn. rewrite Hl, length_app in Hd. rewrite length_app. cbn in Hd. lia.
  - split; [|done]. intros j' input' Hj'. destruct (Ha j' input' Hj') as (i' & k & permit & Hr).
    exists i', k, permit. by apply (Hkeep j').
Qed.

Lemma threads_inv_reachable x : rtc thread_step threaded_init x -> threads_inv x.
Proof.
  revert x. refine (rtc_ind_r _ _ _ _).
  - split; [|done]. intros j input. cbn. by rewrite lookup_empty.
  - intros x x' _ Hs IH. by eapply threads_inv_step.
Qed.

(** ** Driving a request

    The operations of a request up to its solver or its permit, against a
    handler. *)
Definition pauses {R} (o : op R) : bool :=
  semaphore_op o || match o with MineSolution _ => true | _ => false end.

Fixpoint drive (fuel : nat) (h : handler) (p : prog unit (outcome Response)) (t : trace)
    : prog unit (outcome Response) :=
  match fuel, p with
  | Datatypes.S fuel, Get k => drive fuel h (k tt) t
  | Datatypes.S fuel, Put _ k => drive fuel h k t
  | Datatypes.S fuel, Timer secs k => drive fuel h (k (fires h secs t)) t
  | Datatypes.S fuel, Vis o k =>
      if pauses o then p else let r := answer h _ o t in drive fuel h (k r) (Event o r :: t)
  | _, _ => p
  end.

(** The server after its last request has got to [y]. *)
Definition last_slot (i : nat) (y : Slot) (permits : nat) (l : list (nat * Slot)) (x : ThreadedServer)
    : ThreadedServer :=
  with_server {| open_connections := open_connections (server x); requests := l ++ [(i, y)];
                 connection_permits := connection_permits (server x); prediction_permits := permits |} x.

Lemma last_slot_step i y y' permits permits' l x :
  mines (i, y) = false ->
  (forall s, requests s = l ++ [(i, y)] -> prediction_permits s = permits ->
     server_step s (with_slot (length l) i y' permits' s)) ->
  thread_step (last_slot i y permits l x) (last_slot i y' permits' l x).
Proof.
  intros Hm Hs. set (x0 := last_slot i y permits l x).
  assert (last_slot i y' permits' l x = with_server (with_slot (length l) i y' permits' (server x0)) x0) as ->.
  { unfold last_slot, with_slot, with_server, x0. cbn. by rewrite insert_app_r_alt, Nat.sub_diag by done. }
  apply thread_other; [by apply Hs|]. intros j slot Hj Hmines. cbn in Hj |- *.
  rewrite list_lookup_insert_ne; [done|]. intros <-.
  rewrite lookup_app_r, Nat.sub_diag in Hj by done. cbn in Hj. congruence.
Qed.

Lemma lookup_last {A} (l : list A) x l' : l' = l ++ [x] -> l' !! length l = Some x.
Proof. intros ->. by rewrite lookup_app_r, Nat.sub_diag. Qed.

Lemma drive_steps fuel h i permit permits l x : forall p t,
  rtc thread_step (last_slot i (Serving p permit) permits l x)
    (last_slot i (Serving (drive fuel h p t) permit) permits l x).
Proof.
  induction fuel as [|fuel IH]; intros p t; [apply rtc_refl|].
  destruct p as [o|k|u k|k|R o k]; cbn [drive].
  - apply rtc_refl.
  - eapply rtc_l; [|apply IH]. apply last_slot_step; [done|]. intros s Hr <-.
    by eapply server_get, lookup_last.
  - eapply rtc_l; [|apply IH]. apply last_slot_step; [done|]. intros s Hr <-.
    by eapply server_put, lookup_last.
  - eapply rtc_l; [|apply IH]. apply last_slot_step; [done|]. intros s Hr <-.
    by eapply server_timer, lookup_last.
  - destruct (pauses o) eqn:Ho; [apply rtc_refl|]. unfold pauses in Ho. apply orb_false_iff in Ho as [Ho Hm].
    eapply rtc_l; [|apply IH]. apply last_slot_step; [exact Hm|]. intros s Hr <-.
    by eapply server_op; [by eapply lookup_last|].
Qed.

(** ** A request that abandons its solver *)

Definition mining_view (p : prog unit (outcome Response))
    : option (MineInput * (Result (Result PagedRawSolution string) string -> prog unit (outcome Response))) :=
  match p with
  | Vis o k =>
      match o in op R return (R -> prog unit (outcome Response)) -> option (MineInput * _) with
      | MineSolution input => fun k => Some (input, k)
      | _ => fun _ => None
      end k
  | _ => None
  end.

Definition acquire_view (p : prog unit (outcome Response)) : option (bool -> prog unit (outcome Response)) :=
  match p with
  | Vis o k =>
      match o in op R return (R -> prog unit (outcome Response)) -> option (bool -> _) with
      | TryAcquirePrediction => fun k => Some k
      | _ => fun _ => None
      end k
  | _ => None
  end.

Definition release_view (p : prog unit (outcome Response)) : option (unit -> prog unit (outcome Response)) :=
  match p with
  | Vis o k =>
      match o in op R return (R -> prog unit (outcome Response)) -> option (unit -> _) with
      | ReleasePrediction => fun k => Some k
      | _ => fun _ => None
      end k
  | _ => None
  end.

Definition timer_view (p : prog unit (outcome Response)) : option (bool -> prog unit (outcome Response)) :=
  match p with Timer _ k => Some k | _ => None end.

Definition ret_view (p : prog unit (outcome Response)) : option (outcome Response) :=
  match p with Ret o => Some o | _ => None end.

Lemma mining_view_Some p input k : mining_view p = Some (input, k) -> p = Vis (MineSolution input) k.
Proof. destruct p as [| | | |R o k']; try done. cbn. destruct o; try done. by intros [= -> ->]. Qed.

Lemma acquire_view_Some p k : acquire_view p = Some k -> p = Vis TryAcquirePrediction k.
Proof. destruct p as [| | | |R o k']; try done. cbn. destruct o; try done. by intros [= ->]. Qed.

Lemma release_view_Some p k : release_view p = Some k -> p = Vis ReleasePrediction k.
Proof. destruct p as [| | | |R o k']; try done. cbn. destruct o; try done. by intros [= ->]. Qed.

Context (req : Request) (h : handler) (fuel : nat).

(** The solver of a request that takes the permit, times out while it waits for
    the solver, and answers. *)
Definition abandons : option (MineInput * outcome Response) :=
  k ← acquire_view (drive fuel h (handle_request req) []);
  '(input, k2) ← mining_view (drive fuel h (k true) []);
  k3 ← timer_view (k2 (err ""));
  k4 ← release_view (drive fuel h (k3 true) []);
  o ← ret_view (k4 tt);
  Some (input, o).

(** A server that serves nobody: a connection is open and the permit is free. *)
Definition quiescent (x : ThreadedServer) : Prop :=
  open_connections (server x) !! 0%nat = Some true /\ prediction_permits (server x) = 1%nat /\ attached x = ∅.

Lemma abandon_one x input o : abandons = Some (input, o) -> quiescent x ->
  exists x', rtc thread_step x x' /\ quiescent x' /\ detached x' = input :: detached x.
Proof.
  unfold abandons. intros Hab (Hconn & Hperm & Hatt).
  destruct (acquire_view _) as [k|] eqn:E1; [|done]. apply acquire_view_Some in E1. cbn [mbind option_bind] in Hab.
  destruct (mining_view _) as [[input' k2]|] eqn:E2; [|done]. apply mining_view_Some in E2. cbn in Hab.
  destruct (timer_view _) as [k3|] eqn:E3; [|done]. cbn in Hab.
  destruct (release_view _) as [k4|] eqn:E4; [|done]. apply release_view_Some in E4. cbn in Hab.
  destruct (ret_view _) as [o'|] eqn:E5; [|done]. injection Hab as -> ->.
  set (l := requests (server x)). set (j := length l).
  set (y := {| server := server x; attached := ∅; detached := input :: detached x;
               abandoned := Datatypes.S (abandoned x) |}).
  exists (last_slot 0 Answered 1 l y). split; [|done].
  (* the request arrives *)
  apply (rtc_l _ _ (last_slot 0 (Serving (handle_request req) false) 1 l x)).
  { unfold last_slot. rewrite <- Hperm. apply thread_other; [by apply server_request|].
    intros j' slot Hj' _. cbn. by apply lookup_app_l_Some. }
  (* it takes the permit *)
  etrans; [apply (drive_steps fuel h 0 false 1 l x _ [])|]. rewrite E1.
  apply (rtc_l _ _ (last_slot 0 (Serving (k true) true) 0 l x)).
  { apply last_slot_step; [done|]. intros s Hr Hp. eapply server_acquire; [by eapply lookup_last|done]. }
  (* its solver is spawned, and the timer fires *)
  etrans; [apply (drive_steps fuel h 0 true 0 l x _ [])|]. rewrite E2.
  set (z := last_slot 0 (Serving (Vis (MineSolution input) k2) true) 0 l x).
  assert (requests (server z) !! j = Some (0%nat, Serving (Vis (MineSolution input) k2) true)) as Hj
    by by eapply lookup_last.
  eapply rtc_l; [eapply (thread_spawn z j); [exact Hj|cbn; rewrite Hatt; apply lookup_empty]|].
  assert (exists secs, k2 (err "") = Timer secs k3) as [secs Hk]
    by (destruct (k2 (err "")); simplify_eq/=; by eexists).
  eapply rtc_l; [eapply (thread_elapse _ j); [exact Hj|cbn; apply lookup_insert_eq|rewrite Hk; apply fired_outer]|].
  (* it gives the permit back and answers *)
  assert (abandon j (with_slot j 0 (Serving (k3 true) true) 0 (server z))
      {| server := server z; attached := <[j := input]> (attached x); detached := detached x; abandoned := abandoned x |}
    = last_slot 0 (Serving (k3 true) true) 0 l y) as Hy.
  { unfold abandon. cbn. rewrite lookup_insert_eq, delete_insert_eq, Hatt, delete_empty. unfold last_slot, with_server. f_equal.
    unfold with_slot. cbn. f_equal. unfold j. by rewrite insert_app_r_alt, Nat.sub_diag by done. }
  cbn [attached detached abandoned server prediction_permits z last_slot with_server] in Hy |- *. rewrite Hy.
  etrans; [apply (drive_steps fuel h 0 true 0 l y _ [])|]. rewrite E4.
  apply (rtc_l _ _ (last_slot 0 (Serving (k4 tt) false) 1 l y)).
  { apply last_slot_step; [done|]. intros s Hr Hp.
    pose proof (server_release s (length l) 0 k4 true (lookup_last _ _ _ Hr)) as Hs. by rewrite Hp in Hs. }
  assert (k4 tt = Ret o) as -> by (destruct (k4 tt); by simplify_eq/=).
  apply rtc_once, last_slot_step; [done|]. intros s Hr Hp.
  pose proof (server_respond s (length l) 0 o false (lookup_last _ _ _ Hr)) as Hs. by rewrite Hp in Hs.
Qed.

(** As many solvers as one likes. *)
Lemma abandon_many n input o : abandons = Some (input, o) ->
  exists x, rtc thread_step threaded_init x /\ quiescent x /\ detached x = replicate n input.
Proof.
  intros Hab. induction n as [|n (x & Hr & Hq & Hd)].
  - eexists. split; [apply rtc_once, thread_other; [by eapply server_accept|done]|done].
  - destruct (abandon_one x input o Hab Hq) as (x' & Hr' & Hq' & Hd'). exists x'.
    split; [by etrans|]. split; [done|]. by rewrite Hd', Hd.
Qed.

End threads.

(** ** The server of the miner *)
Lemma map_size_one {A} (m : gmap nat A) :
  (forall i j, is_Some (m !! i) -> is_Some (m !! j) -> i = j) -> (size m <= 1)%nat.
Proof.
  intros Hm. destruct (decide (m = ∅)) as [->|Hne]; [by rewrite map_size_empty; lia|].
  apply map_choose in Hne as (i & a & Hi).
  assert (m = {[i := a]}) as ->; [|by rewrite map_size_singleton].
  apply map_eq. intros j. destruct (decide (i = j)) as [<-|Hj].
  - by rewrite lookup_singleton_eq.
  - rewrite lookup_singleton_ne by done. destruct (m !! j) eqn:E; [|done].
    destruct Hj. apply Hm; rewrite ?Hi, ?E; eauto.
Qed.

Section client_threads.
Context `{T : MinerConfig} `{F : Foreign} `{V : VotesBound} `{US : UnstableSort} `{W : Web}.

(** C9: The solver threads of the server, whatever the interleaving and whatever
    is dropped or times out.  Underneath runs the server as it was described
    without threads.  A solver that is waited for belongs to the one request that
    holds the permit, so there is at most one; a solver nobody waits for was left
    behind by a request that timed out or was dropped while it waited.  So at most
    one solver more runs than requests have abandoned theirs. *)
Theorem solver_threads x :
  rtc (thread_step (H := ClientHandler)) threaded_init x ->
  rtc (server_step (H := ClientHandler)) server_init (server x) /\
  (forall j input, attached x !! j = Some input ->
     exists i k, requests (server x) !! j = Some (i, Serving (Vis (MineSolution input) k) true)) /\
  (size (attached x) <= 1)%nat /\
  (size (attached x) + length (detached x) <= 1 + abandoned x)%nat.
Proof.
  intros Hr. pose proof (threaded_server (H := ClientHandler) x Hr) as Hs.
  destruct (threads_inv_reachable (H := ClientHandler) x Hr) as [Ha Hd].
  assert (server_inv (server x)) as Hi by exact (server_inv_reachable (H := ClientHandler) _ Hs).
  assert (forall j input, attached x !! j = Some input ->
    exists i k, requests (server x) !! j = Some (i, Serving (Vis (MineSolution input) k) true)) as Hheld.
  { intros j input Hj. destruct (Ha j input Hj) as (i & k & permit & Hreq).
    pose proof (next_op_allowed _ _ _ _ _ _ Hi Hreq) as Hp. cbn in Hp. subst. eauto. }
  assert (size (attached x) <= 1)%nat as Hone.
  { apply map_size_one. intros j1 j2 [i1 H1] [i2 H2].
    destruct (Hheld _ _ H1) as (c1 & k1 & R1). destruct (Hheld _ _ H2) as (c2 & k2 & R2).
    by eapply one_holder. }
  split_and!; [done..|lia].
Qed.

End client_threads.

(** ** An example: the permit does not limit the solvers *)
#[local] Existing Instance toy_web.

(** A node with a staking state, and a body that is a configuration. *)
Definition simulate_node : handler := {|
  answer := fun R o t =>
    match o in op R return R with CollectBody _ => Collected "{}" | o => TwoWinners.answers o t end;
  fires := fun _ _ => false;
|}.

Lemma simulate_abandons : exists input o,
  abandons (H := ClientHandler) simulate_request simulate_node 3000 = Some (input, o).
Proof.
  assert (is_Some (abandons (H := ClientHandler) simulate_request simulate_node 3000)) as [[input o] E];
    [|by exists input, o].
  assert (match abandons (H := ClientHandler) simulate_request simulate_node 3000 with
          | Some _ => true | None => false end = true) as Hv
    by (vm_compute; reflexivity).
  destruct (abandons _ _ _) as [x|]; [by exists x|discriminate Hv].
Qed.

Lemma piled_up (n : nat) : exists x,
  rtc (thread_step (H := ClientHandler)) threaded_init x /\
  quiescent x /\ length (detached x) = n.
Proof.
  destruct simulate_abandons as (input & o & Hab).
  destruct (abandon_many (H := ClientHandler) _ _ _ n input o Hab) as (x & Hr & Hq & Hd).
  exists x. split; [exact Hr|]. split; [exact Hq|]. by rewrite Hd, length_replicate.
Qed.

(** For every [n] there is a run after which [n] solvers are at work while no
    request awaits one and the permit is free: a request that times out gives its
    permit back, and leaves its solver running. *)
Theorem detached_solvers_pile_up (n : nat) : exists x,
  rtc (thread_step (H := ClientHandler)) threaded_init x /\
  prediction_permits (server x) = 1%nat /\ attached x = ∅ /\ length (detached x) = n.
Proof. destruct (piled_up n) as (x & Hr & (_ & Hp & Ha) & Hd). by exists x. Qed.

Lemma solver_threads_witness : exists x,
  rtc (thread_step (H := ClientHandler)) threaded_init x /\ length (detached x) = 2%nat /\
  rtc (server_step (H := ClientHandler)) server_init (server x) /\
  (size (attached x) + 2 <= 1 + abandoned x)%nat.
Proof.
  destruct (piled_up 2) as (x & Hr & _ & Hd).
  exists x. split; [exact Hr|]. split; [exact Hd|].
  destruct (solver_threads x Hr) as (Hs & _ & _ & Hle). split; [exact Hs|]. rewrite Hd in Hle. exact Hle.
Defined.
