(* ===== verification/Main.v ===== *)
(** * The process

    [src/main.rs]: the commands, the start of the process, the task that follows
    upgrades of the runtime and the selection between the command, that task and
    the signals; with the start of the monitor and server commands. *)

From S2P Require Import Prelude RustStr Errors Strategy Chain Metrics Types Effects Traces ChainAccess Signing ElectionData Submission SnapshotFetch Miner Listener Janitor Client Staking Predictions Runtime Predict System Server.
Local Open Scope Z_scope.

(** ** Commands *)

(** [MultiBlockMonitorConfig] *)
Record MultiBlockMonitorConfig `{SO : ScoreOrder} : Type := {
  seed_or_path : string;
  mb_submission_strategy : SubmissionStrategy;
  mb_do_reduce : bool;
  mb_chunk_size : nat;
  mb_min_signed_phase_blocks : Z;
  mb_shady : bool;
  mb_balancing_iterations : Z;
  mb_algorithm : ElectionAlgorithm;
}.

(** What [miner_task] passes on for each block. *)
Definition process_config `{SO : ScoreOrder} (c : MultiBlockMonitorConfig) : ProcessConfig := {|
  submission_strategy := mb_submission_strategy c;
  Miner.do_reduce := mb_do_reduce c;
  chunk_size := mb_chunk_size c;
  min_signed_phase_blocks := mb_min_signed_phase_blocks c;
  shady := mb_shady c |}.

(** [ServerConfig] *)
Record ServerConfig : Type := {
  port : Z;
  listen : string;
}.

Module Command.
Inductive t `{SO : ScoreOrder} : Type :=
| Monitor (config : MultiBlockMonitorConfig)
| Info
| Predict (config : PredictConfig)
| Server (config : ServerConfig).
End Command.

(** [Opt] *)
Record Opt `{SO : ScoreOrder} : Type := {
  uri : string;
  command : Command.t;
  prometheus_port : Z;
  opt_log : string;
}.

(** Predictions and the server read historic state: they use the legacy backend. *)
Definition legacy_backend `{SO : ScoreOrder} (c : Command.t) : bool :=
  match c with Command.Predict _ | Command.Server _ => true | _ => false end.

Section main.
Context `{T : MinerConfig} `{SO : ScoreOrder} `{F : Foreign}.

(** ** The start of the process *)

(** [main] up to the selection.  A failure of the metrics endpoint is logged;
    [prometheus::init] is in [Metrics]; the shared client is set once.  The client
    itself is the environment of the operations that follow. *)
Definition startup {S} (opt : Opt) : M S Chains.Chain :=
  r ← ask (ParseDirective (opt_log opt));
  (match r with ok _ => mret tt | err e => throw (Error.LogParse e) end);;
  ask (PrometheusRun (prometheus_port opt));;
  metric set_last_block_processing_time;;
  (if legacy_backend (command opt) then client_new_with_legacy_backend (uri opt)
   else client_new (uri opt));;
  at_block ← query AtCurrentBlock;
  version_bytes ← query (CoreVersion at_block);
  runtime_version ← match version_bytes with ok v => mret v | err e => throw (Error.Codec e) end;
  chain ← Ret (Chains.try_from runtime_version);
  ask SpawnUpgradeTask;;
  at_block ← query AtCurrentBlock;
  update_metadata_constants at_block;;
  mret chain.

(** [run_command], before the selection. *)
Definition signal_streams {S} : M S unit :=
  r ← ask (SignalStream "interrupt");
  (match r with ok _ => mret tt | err e => throw (Error.Io e) end);;
  r ← ask (SignalStream "terminate");
  match r with ok _ => mret tt | err e => throw (Error.Io e) end.

(** [main] before the selection. *)
Definition before_select {S} (opt : Opt) : M S unit :=
  startup opt;; signal_streams.

(** ** Upgrades of the runtime *)

(** One turn of the loop of [runtime_upgrade_task], the state is
    [last_spec_version]; an error is sent before the task returns. *)
Definition upgrade_check : M (option Z) (option Error.t) :=
  ask HealthCheckTick;;
  r ← ask AtCurrentBlock;
  match r with
  | err _ => mret None
  | ok at_block =>
      let current_spec := ab_spec_version at_block in
      last_spec_version ← get_state;
      failure ←
        match last_spec_version with
        | Some prev =>
            if decide (current_spec <> prev) then
              r ← catch (update_metadata_constants at_block);
              match r with
              | err e => mret (Some e)
              | ok _ => metric on_runtime_upgrade;; mret None
              end
            else mret None
        | None => mret None
        end;
      match failure with
      | Some e => mret (Some e)
      | None => put_state (Some current_spec);; mret None
      end
  end.

(** [runtime_upgrade_task] for [n] turns; the error it sends, if any. *)
Fixpoint runtime_upgrade_task (n : nat) : M (option Z) (option Error.t) :=
  match n with
  | 0%nat => mret None
  | Datatypes.S n =>
      r ← upgrade_check;
      match r with
      | Some e => mret (Some e)
      | None => runtime_upgrade_task n
      end
  end.

(** ** The start of the commands *)

(** [monitor_cmd] until it spawns its tasks. *)
Definition monitor_start `{K : Crypto} {S} (c : MultiBlockMonitorConfig) : M S Signer :=
  set_balancing_iterations (mb_balancing_iterations c);;
  set_algorithm (mb_algorithm c);;
  signer ← signer_new (seed_or_path c);
  at_block ← query AtCurrentBlock;
  account ← query (TryFetchAccount at_block (signer_account_id (signer_deref signer)));
  match account with
  | None => throw Error.AccountDoesNotExists
  | Some account_info => metric (set_balance (ai_free account_info));; mret signer
  end.

(** [serve] until it accepts connections. *)
Definition serve_start {S} (c : ServerConfig) : M S unit :=
  r ← ask (SocketAddr (listen c) (port c));
  addr ← match r with
         | ok addr => mret addr
         | err e => throw (Error.Other ("Invalid listen address '" +:+ listen c +:+ "': " +:+ e))
         end;
  r ← ask (TcpBind addr);
  match r with
  | ok _ => mret tt
  | err e => throw (Error.Other ("Failed to bind to " +:+ addr +:+ ": " +:+ e))
  end.

End main.

(** ** The process

    The main task, the upgrade task and whatever the command runs, concurrently. *)
Section process.
Context `{T : MinerConfig} `{SO : ScoreOrder} `{F : Foreign} `{V : VotesBound} `{US : UnstableSort} `{W : Web} `{K : Crypto}.
Context (opt : Opt).

(** The future of a command; [info] prints the runtime version and returns. *)
Inductive Running : Type :=
| RunProgram (p : M unit unit)
| MonitorStarting (c : MultiBlockMonitorConfig) (p : M unit Signer)
| MonitorRunning (c : MultiBlockMonitorConfig) (signer : Signer) (x : System)
| ServerStarting (p : M unit unit)
| ServerRunning (x : Server).

Definition command_future (c : Command.t) : Running :=
  match c with
  | Command.Info => RunProgram (mret tt)
  | Command.Monitor c => MonitorStarting c (monitor_start c)
  | Command.Predict c => RunProgram (predict_cmd c)
  | Command.Server c => ServerStarting (serve_start c)
  end.

(** How the future makes progress; the operations of its own program go to the
    trace of the main task.  The listener is observed for [n] iterations. *)
Inductive running_step : Running * trace -> Running * trace -> Prop :=
| run_program p t p' t' :
    prog_step (p, tt, t) (p', tt, t') -> running_step (RunProgram p, t) (RunProgram p', t')
| run_monitor_start c p t p' t' :
    prog_step (p, tt, t) (p', tt, t') -> running_step (MonitorStarting c p, t) (MonitorStarting c p', t')
| run_monitor_spawn c signer n t :
    running_step (MonitorStarting c (Ret (Ok signer)), t) (MonitorRunning c signer (monitor_init n), t)
| run_monitor c signer x x' t :
    system_step (signer_account_id (signer_deref signer)) (process_config c) x x' ->
    running_step (MonitorRunning c signer x, t) (MonitorRunning c signer x', t)
| run_server_start p t p' t' :
    prog_step (p, tt, t) (p', tt, t') -> running_step (ServerStarting p, t) (ServerStarting p', t')
| run_server_accepts t :
    running_step (ServerStarting (Ret (Ok tt)), t) (ServerRunning server_init, t)
| run_server x x' t :
    server_step (H := ClientHandler) x x' -> running_step (ServerRunning x, t) (ServerRunning x', t).

(** The task of the monitor that has ended. *)
Definition ended (x : System) (which : TaskName) (o : outcome unit) : Prop :=
  match which with
  | ListenerTask => listener x = Ended o
  | MinerTask => task (miner x) = Ended o
  | ClearOldRoundsTask => task (clear_old_rounds x) = Ended o
  | EraPruningTask => task (era_pruning x) = Ended o
  end.

(** What a future may return.  The server accepts connections for ever. *)
Inductive running_result : Running -> outcome unit -> Prop :=
| result_program o : running_result (RunProgram (Ret o)) o
| result_monitor_error c e : running_result (MonitorStarting c (Ret (Err e))) (Err e)
| result_monitor_panic c msg : running_result (MonitorStarting c (Ret (Panic msg))) (Panic msg)
| result_monitor c signer x which o :
    ended x which o ->
    running_result (MonitorRunning c signer x)
      (match monitor_result which o with ok u => Ok u | err e => Err e end)
| result_server_error e : running_result (ServerStarting (Ret (Err e))) (Err e).

(** Why the process ended. *)
Inductive Exit : Type :=
| ExitStartup (o : outcome unit)
| ExitSignal
| ExitUpgrade (e : Error.t)
| ExitUnreachable
| ExitCommand (o : outcome unit).

Inductive MainTask : Type :=
| Starting (p : M unit unit)
| Selecting (c : Running)
| Exited (e : Exit).

(** The upgrade task; [Returning] has sent its error and still owns the sender. *)
Inductive UpgradeTask : Type :=
| NotSpawned
| Checking (p : M (option Z) (option Error.t)) (last_spec_version : option Z)
| Returning
| Gone.

(** The sender of the oneshot channel lives until the task is gone. *)
Record Process : Type := {
  main_task : MainTask;
  main_log : trace;
  upgrade : UpgradeTask;
  upgrade_log : trace;
  sent : option Error.t;
}.

Definition process_init : Process :=
  {| main_task := Starting (before_select opt); main_log := []; upgrade := NotSpawned;
     upgrade_log := []; sent := None |}.

(** The main task moves, the others do not. *)
Definition with_main (m : MainTask) (t : trace) (x : Process) : Process :=
  {| main_task := m; main_log := t; upgrade := upgrade x; upgrade_log := upgrade_log x; sent := sent x |}.

Definition with_upgrade (u : UpgradeTask) (t : trace) (message : option Error.t) (x : Process) : Process :=
  {| main_task := main_task x; main_log := main_log x; upgrade := u; upgrade_log := t; sent := message |}.

Definition is_spawn {R} (o : op R) : bool := match o with SpawnUpgradeTask => true | _ => false end.

(** The operation that spawns the upgrade task. *)
Definition spawns (p : M unit unit) : bool := match p with Vis o _ => is_spawn o | _ => false end.

Inductive process_step (x : Process) : Process -> Prop :=
(* the start *)
| main_starts p p' t' :
    main_task x = Starting p -> spawns p = false -> prog_step (p, tt, main_log x) (p', tt, t') ->
    process_step x (with_main (Starting p') t' x)
(* with a channel of its own *)
| main_spawns k :
    main_task x = Starting (Vis SpawnUpgradeTask k) ->
    process_step x (with_upgrade (Checking upgrade_check None) [] None
      (with_main (Starting (k tt)) (Event SpawnUpgradeTask tt :: main_log x) x))
| main_fails o :
    main_task x = Starting (Ret o) -> o <> Ok tt ->
    process_step x (with_main (Exited (ExitStartup o)) (main_log x) x)
| main_selects :
    main_task x = Starting (Ret (Ok tt)) ->
    process_step x (with_main (Selecting (command_future (command opt))) (main_log x) x)
(* the selection *)
| select_future c c' t' :
    main_task x = Selecting c -> running_step (c, main_log x) (c', t') ->
    process_step x (with_main (Selecting c') t' x)
| select_command c o :
    main_task x = Selecting c -> running_result c o ->
    process_step x (with_main (Exited (ExitCommand o)) (main_log x) x)
| select_signal c :
    main_task x = Selecting c -> process_step x (with_main (Exited ExitSignal) (main_log x) x)
| select_upgrade c e :
    main_task x = Selecting c -> sent x = Some e ->
    process_step x (with_main (Exited (ExitUpgrade e)) (main_log x) x)
| select_closed c :
    main_task x = Selecting c -> sent x = None -> upgrade x = Gone ->
    process_step x (with_main (Exited ExitUnreachable) (main_log x) x)
(* the upgrade task *)
| upgrade_runs p s p' s' t' :
    upgrade x = Checking p s -> prog_step (p, s, upgrade_log x) (p', s', t') ->
    process_step x (with_upgrade (Checking p' s') t' (sent x) x)
| upgrade_turns s :
    upgrade x = Checking (Ret (Ok None)) s ->
    process_step x (with_upgrade (Checking upgrade_check s) (upgrade_log x) (sent x) x)
| upgrade_sends e s :
    upgrade x = Checking (Ret (Ok (Some e))) s ->
    process_step x (with_upgrade Returning (upgrade_log x) (Some e) x)
| upgrade_returns :
    upgrade x = Returning -> process_step x (with_upgrade Gone (upgrade_log x) (sent x) x)
| upgrade_unwinds o s :
    upgrade x = Checking (Ret o) s -> (forall r, o <> Ok r) ->
    process_step x (with_upgrade Gone (upgrade_log x) (sent x) x).

(** What the process returns. *)
Definition exit_outcome (e : Exit) : outcome unit :=
  match e with
  | ExitStartup o | ExitCommand o => o
  | ExitSignal => Ok tt
  | ExitUpgrade e => Err e
  | ExitUnreachable => Panic "A message is sent before the upgrade task is closed; qed"
  end.

End process.
