(* ===== verification/MainSpec.v ===== *)
(** * Theorems on the process *)

From S2P Require Import Prelude RustStr Errors Strategy Chain Metrics Types Effects Calls Traces Scenario ChainAccess Signing ElectionData ElectionDataSpec Submission SnapshotFetch Miner Listener Janitor Client Staking StakingSpec Predictions PredictionsSpec Runtime Predict PredictSpec System SystemSpec Server ServerSpec Main.
Local Open Scope Z_scope.

(** ** Upgrades of the runtime *)
Section upgrades.
Context `{T : MinerConfig} `{SO : ScoreOrder} `{F : Foreign}.

(** The version of the runtime at a block the task has read. *)
Definition version_read (e : event) : option Z :=
  match e with Event o r =>
    match o in op R return R -> option Z with
    | AtCurrentBlock => fun r => match r with ok b => Some (ab_spec_version b) | err _ => None end
    | _ => fun _ => None
    end r
  end.

(** The versions a trace has read, newest first. *)
Definition versions (t : trace) : list Z := omap version_read t.

(** How often two neighbours of a list differ. *)
Fixpoint changes (l : list Z) : nat :=
  match l with
  | x :: l => ((match l with y :: _ => if decide (x <> y) then 1 else 0 | [] => 0 end) + changes l)%nat
  | [] => 0%nat
  end.

Definition upgrade_metric (e : event) : option unit :=
  match metric_of e with Some on_runtime_upgrade => Some tt | _ => None end.

(** The upgrades that were counted. *)
Definition upgrades (t : trace) : nat := length (omap upgrade_metric t).

(** The cells that were set, oldest first. *)
Definition cells_set (t : trace) : list Param := reverse (param_sets t).*1.

(** What [n] updates of the constants set. *)
Definition updates (n : nat) : list Param := mjoin (replicate n metadata_params).

Lemma updates_S n : updates (Datatypes.S n) = updates n ++ metadata_params.
Proof. unfold updates. rewrite replicate_S_end, join_app. f_equal. Qed.

(** Between two turns: the task knows the last version it read, and there was one
    update of the six constants, each of its cells and in order, and one count, per
    change of the version. *)
Record followed (s : option Z) (t : trace) : Prop := {
  fw_last : s = head (versions t);
  fw_counted : upgrades t = changes (versions t);
  fw_sets : cells_set t = updates (upgrades t);
}.

(** When an update has failed: it is the one of the last change, and it has set
    the first of the cells. *)
Record failed_update (t : trace) : Prop := {
  fu_counted : changes (versions t) = Datatypes.S (upgrades t);
  fu_sets : exists part, cells_set t = updates (upgrades t) ++ part /\ part `prefix_of` metadata_params;
}.

(** What [update_metadata_constants] does not touch. *)
Definition upgrade_view (v : option Z * list Z * nat) (s : option Z) (t : trace) : Prop :=
  (s, versions t, upgrades t) = v.

Lemma upgrade_view_neutral {R} v (o : op R) :
  match o with AtCurrentBlock | MetricOp _ => false | _ => true end = true -> neutral (upgrade_view v) o.
Proof. intros Ho s t r <-. unfold upgrade_view, versions, upgrades. by destruct o. Qed.

Lemma keeps_upgrade_view v b : keeps (upgrade_view v) (update_metadata_constants b) anything.
Proof.
  unfold update_metadata_constants, fetch_constant, fetch_block_length, set_param.
  repeat (keeps_step ltac:(apply upgrade_view_neutral; reflexivity)).
Qed.

Lemma set_of_mask l : (omap set_of (mask <$> l)).*1 = (omap set_of l).*1.
Proof.
  induction l as [|a l IH]; [done|]. cbn. destruct a as [p v| | | | | |]; cbn; try done.
  case_decide; cbn; by rewrite IH.
Qed.

Lemma set_of_params l : (omap set_of ((fun p => ActSet p 0) <$> l)).*1 = l.
Proof. induction l as [|p l IH]; [done|]. cbn. by rewrite IH. Qed.

(** The cells an update sets are the first ones, and all when it returns. *)
Lemma emitted_cells t t' P : emitted ((fun p => ActSet p 0) <$> metadata_params) t t' P ->
  exists part, cells_set t' = cells_set t ++ part /\ part `prefix_of` metadata_params /\ (P -> part = metadata_params).
Proof.
  intros (new & Hn & [rest Hr] & Heq). exists (omap set_of new).*1. split_and!.
  - unfold cells_set.
    by rewrite !param_sets_acts, Hn, omap_app, omap_reverse, fmap_app, reverse_app, fmap_reverse, reverse_involutive.
  - exists (omap set_of rest).*1. rewrite <- (set_of_params metadata_params), Hr, omap_app, fmap_app.
    by rewrite set_of_mask.
  - intros HP. rewrite <- set_of_mask, Heq by done. apply set_of_params.
Qed.

(** All that is known of a failing or succeeding update. *)
Lemma wp_update_constants b (s : option Z) t :
  wp Itrue (update_metadata_constants b)
    (fun o s' t' => s' = s /\ versions t' = versions t /\ upgrades t' = upgrades t /\ metadata_error o /\
       exists part, cells_set t' = cells_set t ++ part /\ part `prefix_of` metadata_params /\
         (o = Ok tt -> part = metadata_params)) s t.
Proof.
  pose proof (wp_and _ _ _ _ _ _ _ (update_metadata_constants_errors b s t)
    (emits_update_metadata_constants b s t)) as H1.
  pose proof (wp_and _ _ _ _ _ _ _ H1 (keeps_upgrade_view (s, versions t, upgrades t) b s t eq_refl)) as H2.
  eapply wp_mono; [done| |exact H2]. cbv beta.
  intros o s' t' [[Hm (part & Hc & Hp & Hall)%emitted_cells] [[= -> -> ->] _]]. split_and!; try done.
  exists part. split_and!; [done..|]. intros ->. eauto.
Qed.

Definition turned (o : outcome (option Error.t)) (s : option Z) (t : trace) : Prop :=
  match o with
  | Ok None => followed s t
  | Ok (Some e) => (exists msg, e = Error.InvalidMetadata msg) /\ failed_update t
  | _ => False
  end.

Lemma changes_cons x l :
  changes (x :: l) = ((if decide (Some x <> head l /\ l <> []) then 1 else 0) + changes l)%nat.
Proof. destruct l as [|y l]; cbn; repeat case_decide; naive_solver. Qed.

Lemma wp_upgrade_check s t : followed s t -> wp Itrue upgrade_check turned s t.
Proof.
  intros [Hlast Hcount Hsets]. unfold upgrade_check.
  apply wp_bind. intros []. split; [done|]. apply wp_ret. cbn [bind_post].
  apply wp_bind. intros r. split; [done|]. apply wp_ret. cbn [bind_post].
  destruct r as [b|e]; [|by split].
  set (t1 := Event AtCurrentBlock (ok b) :: Event HealthCheckTick tt :: t).
  assert (versions t1 = ab_spec_version b :: versions t) as Hv by done.
  assert (upgrades t1 = upgrades t) as Hu by done.
  assert (cells_set t1 = cells_set t) as Hp by done.
  clearbody t1. cbv zeta. apply wp_bind, wp_get. cbn [bind_post].
  assert (changes (versions t1) = changes (versions t) -> followed (Some (ab_spec_version b)) t1) as Hsame.
  { intros Hc. split; rewrite ?Hv, ?Hu, ?Hp in *; [done|congruence|done]. }
  rewrite Hv, changes_cons, <- Hlast in Hsame.
  destruct s as [prev|].
  2: { apply wp_bind, wp_ret. cbn [bind_post]. cbn. apply Hsame. case_decide as E; [|done].
       by destruct E as [_ E], (versions t). }
  cbv iota. destruct (decide (ab_spec_version b <> prev)) as [Hne|Hne].
  2: { apply wp_bind, wp_ret. cbn [bind_post]. cbn. apply Hsame. case_decide as E; [|done].
       destruct E as [E _]. exfalso. apply E. f_equal. by apply dec_stable. }
  assert (changes (versions t1) = Datatypes.S (upgrades t)) as Hc.
  { rewrite Hv, changes_cons, <- Hlast, Hcount. rewrite decide_True; [done|].
    split; [congruence|]. by destruct (versions t). }
  apply wp_bind, wp_bind, wp_catch. eapply wp_mono; [done| |apply wp_update_constants].
  intros o s' t' (-> & Hv' & Hu' & Hm & part & Hl & Hle & Hn). destruct o as [[]|e|msg|]; try done; cbn [bind_post].
  - apply wp_bind. intros []. split; [done|]. do 2 apply wp_ret. cbn [bind_post]. cbn.
    split; cbn -[versions upgrades cells_set].
    + change (versions (Event (MetricOp on_runtime_upgrade) tt :: t')) with (versions t'). by rewrite Hv', Hv.
    + change (upgrades (Event (MetricOp on_runtime_upgrade) tt :: t')) with (Datatypes.S (upgrades t')).
      change (versions (Event (MetricOp on_runtime_upgrade) tt :: t')) with (versions t'). congruence.
    + change (upgrades (Event (MetricOp on_runtime_upgrade) tt :: t')) with (Datatypes.S (upgrades t')).
      change (cells_set (Event (MetricOp on_runtime_upgrade) tt :: t')) with (cells_set t').
      rewrite updates_S, Hl, (Hn eq_refl). congruence.
  - apply wp_ret. cbn. split; [done|]. split; [congruence|]. exists part. split; [|done]. congruence.
Qed.

Lemma wp_upgrade_task n : forall s t, followed s t -> wp Itrue (runtime_upgrade_task n) turned s t.
Proof.
  induction n as [|n IH]; intros s t Hf; cbn [runtime_upgrade_task]; [done|].
  apply wp_bind. eapply wp_mono; [done| |by apply wp_upgrade_check].
  intros [[e|]|e|msg|] s' t' Ho; cbn [bind_post]; try done. by apply IH.
Qed.

(** C28: The upgrade task follows the versions of the runtime: whatever the node
    answers and for any number of turns, it has set the cells of all six constants,
    each once and in the order of the code, and counted an upgrade, once per change
    of the version between two blocks it has read, and no other cell; the first
    version it reads changes nothing.  It ends only by sending an error about the
    metadata when the update for the last change failed, after setting the cells
    before the failure, and it never panics. *)
Theorem upgrade_task_follows h n :
  let '(o, s, t) := run h (runtime_upgrade_task n) None [] in
  match o with
  | Ok None => followed s t
  | Ok (Some e) => (exists msg, e = Error.InvalidMetadata msg) /\ failed_update t
  | _ => False
  end.
Proof.
  pose proof (wp_run _ _ _ None [] h (wp_upgrade_task n None [] ltac:(by split))) as H.
  by destruct (run h _ None []) as [[o s] t].
Qed.

End upgrades.

(** ** The cells a program sets *)
Section sets.
Context `{T : MinerConfig} `{SO : ScoreOrder} `{F : Foreign}.

(** The cells set so far, with their values, newest first. *)
Definition sets_are {S} (l : list (Param * Z)) (_ : S) (t : trace) : Prop := param_sets t = l.

Lemma sets_neutral {S R} l (o : op R) :
  match o with ParamSet _ _ => false | _ => true end = true -> neutral (sets_are (S := S) l) o.
Proof. intros Ho s t r <-. unfold sets_are, param_sets. by destruct o. Qed.

Lemma param_sets_cons e t :
  param_sets (e :: t) = match param_set e with Some x => x :: param_sets t | None => param_sets t end.
Proof. by unfold param_sets; cbn; destruct (param_set e). Qed.

(** The six constants of the metadata were set, in order, before anything else. *)
Definition metadata_first (t : trace) : Prop :=
  exists later base, param_sets t = later ++ base /\ reverse base.*1 = metadata_params.

Lemma metadata_first_cons e t : metadata_first t -> metadata_first (e :: t).
Proof.
  intros (later & base & Hs & Hb). unfold metadata_first. rewrite param_sets_cons, Hs.
  destruct (param_set e) as [x|].
  - by exists (x :: later), base.
  - by exists later, base.
Qed.

Lemma metadata_first_prog {S A} (p p' : prog S A) s s' t t' :
  metadata_first t -> prog_step (p, s, t) (p', s', t') -> metadata_first t'.
Proof.
  intros Ht Hs. destruct p as [a|k|u k|k|R o k]; cbn in Hs; [done| | | |].
  - by simplify_eq.
  - by simplify_eq.
  - destruct Hs as [b Hs]. by simplify_eq.
  - destruct Hs as [r Hs]. simplify_eq. by apply metadata_first_cons.
Qed.

End sets.

Ltac unset := apply sets_neutral; reflexivity.
Ltac keeps_sets := repeat (keeps_step unset).

Section starts.
Context `{T : MinerConfig} `{SO : ScoreOrder} `{F : Foreign} {S : Type}.

Lemma keeps_sets_try_endpoint l n uri legacy : forall last,
  keeps (sets_are (S := S) l) (try_endpoint n uri legacy last) anything.
Proof.
  induction n as [|n IH]; intros last; cbn [try_endpoint]; [keeps_sets|].
  eapply (keeps_bind _ _ _ anything); [unfold try_connect; keeps_sets|].
  intros [c|e]; [keeps_sets|]. eapply (keeps_bind _ _ _ anything); [keeps_sets|]. intros _. apply IH.
Qed.

Lemma keeps_sets_client l legacy uris : keeps (sets_are (S := S) l) (client_of legacy uris) anything.
Proof.
  assert (forall todo eps start attempts last,
    keeps (sets_are (S := S) l) (failover_loop todo eps start legacy attempts last) anything) as Hloop.
  { induction todo as [|i todo IH]; intros eps start attempts last; cbn [failover_loop]; [keeps_sets|].
    cbv zeta. case_match; [|keeps_sets]. eapply keeps_bind; [apply keeps_sets_try_endpoint|].
    intros [c|e]; [keeps_sets|apply IH]. }
  unfold client_of. cbv zeta. case_match; [keeps_sets|].
  eapply keeps_bind; [apply Hloop|]. intros [c i]. keeps_sets.
Qed.

(** [update_metadata_constants] sets its six cells. *)
Lemma wp_metadata_sets b l (s : S) t : param_sets t = l ->
  wp Itrue (update_metadata_constants b)
    (fun o _ t' => o = Ok tt -> exists base, param_sets t' = base ++ l /\ reverse base.*1 = metadata_params) s t.
Proof.
  intros <-. eapply wp_mono; [done| |apply emits_update_metadata_constants].
  intros o s' t' (new & Hn & _ & Heq) ->. specialize (Heq ltac:(eauto)).
  exists (omap set_of (reverse new)). rewrite !param_sets_acts, Hn, omap_app. split; [done|].
  rewrite omap_reverse, fmap_reverse, reverse_involutive, <- set_of_mask, Heq. apply set_of_params.
Qed.

(** A program that returns has made [P] of the trace. *)
Definition if_ok {A} (P : trace -> Prop) (o : outcome A) (_ : S) (t : trace) : Prop :=
  match o with Ok _ => P t | _ => True end.

Lemma wp_sets_bind {A B} l (m : M S A) (f : A -> M S B) P s t :
  keeps (sets_are l) m anything -> param_sets t = l ->
  (forall a s' t', param_sets t' = l -> wp Itrue (f a) (if_ok P) s' t') ->
  wp Itrue (mbind f m) (if_ok P) s t.
Proof.
  intros Hm Ht Hf. eapply wp_keeps_bind; [exact Hm|exact Ht| |].
  - intros a s' t' Ht' _. by apply Hf.
  - intros o s' t' _ Ho. destruct o; [by edestruct Ho|done..].
Qed.

Lemma wp_sets_end {A} l (m : M S A) P s t :
  keeps (sets_are l) m anything -> param_sets t = l -> (forall t', param_sets t' = l -> P t') ->
  wp Itrue m (if_ok P) s t.
Proof.
  intros Hm Ht HP. eapply wp_mono; [done| |apply Hm, Ht]. intros o s' t' [Ht' _].
  destruct o; [by apply HP|done..].
Qed.

(** Before the selection the six constants are set and nothing else. *)
Lemma wp_before_select opt (s : S) :
  wp Itrue (before_select opt) (if_ok (fun t => reverse (param_sets t).*1 = metadata_params)) s [].
Proof.
  unfold before_select, startup. apply wp_bind.
  eapply (wp_mono Itrue _ _ (if_ok (fun t => reverse (param_sets t).*1 = metadata_params))); [done| |].
  { intros [c|e|msg|] s' t' Ht; cbn [bind_post]; [|done..].
    apply (wp_sets_end (param_sets t')); [|done|by intros t'' ->]. unfold signal_streams. keeps_sets. }
  do 4 (apply (wp_sets_bind []); [keeps_sets|done|intros ? ? ? ?]).
  apply (wp_sets_bind []); [case_match; apply keeps_sets_client|done|intros ? ? ? ?].
  do 3 (apply (wp_sets_bind []); [keeps_sets|done|intros ? ? ? ?]).
  match goal with |- context [Chains.try_from ?v] => destruct (Chains.try_from v) end; try done.
  apply wp_bind, wp_ret. cbn [bind_post].
  do 2 (apply (wp_sets_bind []); [keeps_sets|done|intros ? ? ? ?]).
  apply wp_bind. eapply wp_mono; [done| |by apply (wp_metadata_sets _ [])].
  intros [[]|e|msg|] s1 t1 Ho; cbn [bind_post]; [|done..].
  destruct (Ho eq_refl) as (base & Hs & Hb). apply wp_ret. unfold if_ok. by rewrite Hs, app_nil_r.
Qed.

(** The monitor has set its own configuration after them. *)
Definition monitor_set (c : MultiBlockMonitorConfig) (t : trace) : Prop :=
  exists base, reverse base.*1 = metadata_params /\
    param_sets t = (ParamAlgorithm, algorithm_byte (mb_algorithm c)) ::
                   (ParamBalancingIterations, mb_balancing_iterations c) :: base.

Lemma wp_monitor_start `{K : Crypto} c (s : S) t : reverse (param_sets t).*1 = metadata_params ->
  wp Itrue (monitor_start c) (if_ok (monitor_set c)) s t.
Proof.
  intros Ht. unfold monitor_start.
  apply wp_bind. intros []. split; [done|]. apply wp_ret. cbn [bind_post].
  apply wp_bind. intros []. split; [done|]. apply wp_ret. cbn [bind_post].
  eapply wp_sets_bind; [unfold signer_new; keeps_sets|done|]. intros signer s1 t1 H1.
  eapply wp_sets_bind; [keeps_sets|done|]. intros b s2 t2 H2.
  eapply wp_sets_bind; [keeps_sets|done|]. intros account s3 t3 H3.
  eapply wp_sets_end; [keeps_sets|done|]. intros t' Ht'. exists (param_sets t). by split.
Qed.

Lemma monitor_set_first c t : monitor_set c t -> metadata_first t.
Proof. intros (base & Hb & Ht). by exists [(ParamAlgorithm, algorithm_byte (mb_algorithm c)); (ParamBalancingIterations, mb_balancing_iterations c)], base. Qed.

End starts.

(** ** The process *)
Section process.
Context `{T : MinerConfig} `{SO : ScoreOrder} `{F : Foreign} `{V : VotesBound} `{US : UnstableSort} `{W : Web} `{K : Crypto}.
Context (opt : Opt).

Lemma wp_true_step {S A} (p p' : prog S A) Q s s' t t' :
  wp Itrue p Q s t -> prog_step (p, s, t) (p', s', t') -> wp Itrue p' Q s' t'.
Proof. intros Hp Hs. by destruct (wp_prog_step (fun _ => True) p p' Q s s' t t' Hp Logic.I Hs). Qed.

(** The command that runs is the one of the options. *)
Definition running_inv (c : Running) (t : trace) : Prop :=
  metadata_first t /\
  match c with
  | RunProgram _ => True
  | MonitorStarting c p => command opt = Command.Monitor c /\ wp Itrue p (if_ok (monitor_set c)) tt t
  | MonitorRunning c signer x =>
      command opt = Command.Monitor c /\ monitor_set c t /\
      exists n, rtc (system_step (signer_account_id (signer_deref signer)) (process_config c)) (monitor_init n) x
  | ServerStarting _ => exists c, command opt = Command.Server c
  | ServerRunning x =>
      (exists c, command opt = Command.Server c) /\ rtc (server_step (H := ClientHandler)) server_init x
  end.

Definition main_inv (m : MainTask) (t : trace) : Prop :=
  match m with
  | Starting p => wp Itrue p (if_ok (fun t => reverse (param_sets t).*1 = metadata_params)) tt t
  | Selecting c => running_inv c t
  | Exited (ExitUpgrade e) => exists msg, e = Error.InvalidMetadata msg
  | Exited ExitUnreachable => False
  | Exited _ => True
  end.

Definition upgrade_inv (u : UpgradeTask) (t : trace) (message : option Error.t) : Prop :=
  match u with
  | NotSpawned => t = [] /\ message = None
  | Checking p s => message = None /\ wp Itrue p turned s t
  | Returning | Gone => exists msg, message = Some (Error.InvalidMetadata msg)
  end.

Record process_inv (x : Process) : Prop := {
  pi_main : main_inv (main_task x) (main_log x);
  pi_upgrade : upgrade_inv (upgrade x) (upgrade_log x) (sent x);
}.

Lemma running_inv_step c t c' t' : running_inv c t -> running_step (c, t) (c', t') -> running_inv c' t'.
Proof.
  intros [Hm Hc] Hs. inversion Hs as [p t0 p' t0' Hp|c0 p t0 p' t0' Hp|c0 signer n t0|c0 signer x x' t0 Hx
    |p t0 p' t0' Hp|t0|x x' t0 Hx]; subst; cbn in Hc.
  - split; [by eapply metadata_first_prog|done].
  - destruct Hc as [Hc Hw]. split; [by eapply metadata_first_prog|]. split; [done|by eapply wp_true_step].
  - destruct Hc as [Hc Hw]. split; [done|]. split_and!; [done|done|]. exists n. apply rtc_refl.
  - destruct Hc as (Hc & Hset & n & Hr). split; [done|]. split_and!; [done..|].
    exists n. by eapply rtc_r.
  - split; [by eapply metadata_first_prog|done].
  - split; [done|]. split; [done|apply rtc_refl].
  - destruct Hc as [Hc Hr]. split; [done|]. split; [done|by eapply rtc_r].
Qed.

Lemma command_future_inv t :
  reverse (param_sets t).*1 = metadata_params -> running_inv (command_future (command opt)) t.
Proof.
  intros Ht. assert (metadata_first t) as Hm by (by exists [], (param_sets t)). split; [done|].
  destruct (command opt) as [c| |c|c] eqn:Ec; cbn; [|done|done|by exists c].
  split; [done|by apply wp_monitor_start].
Qed.

Lemma process_inv_step x x' : process_inv x -> process_step opt x x' -> process_inv x'.
Proof.
  intros [Hm Hu] Hs.
  destruct Hs as [p p' t' Ep _ Hp|k Ep|o Ep Ho|Ep|c c' t' Ec Hc|c o Ec Ho|c Ec|c e Ec Hsent|c Ec Hsent Eu
    |p s p' s' t' Eu Hp|s Eu|e s Eu|Eu|o s Eu Ho];
    try rewrite Ep in Hm; try rewrite Ec in Hm; try rewrite Eu in Hu; cbn [main_inv upgrade_inv] in Hm, Hu; split; try done; cbn [main_inv upgrade_inv main_task main_log upgrade upgrade_log sent with_main with_upgrade].
  - by eapply wp_true_step.
  - by destruct (Hm tt).
  - split; [done|]. apply wp_upgrade_check. by split.
  - by apply command_future_inv.
  - by eapply running_inv_step.
  - destruct (upgrade x) as [|p s| |]; cbn [upgrade_inv] in Hu.
    + destruct Hu. congruence.
    + destruct Hu. congruence.
    + destruct Hu as [msg Hu]. exists msg. congruence.
    + destruct Hu as [msg Hu]. exists msg. congruence.
  - destruct Hu. congruence.
  - destruct Hu. congruence.
  - destruct Hu as [Hs Hu]. split; [done|by eapply wp_true_step].
  - destruct Hu as [Hs Hu]. split; [done|by apply wp_upgrade_check].
  - destruct Hu as [_ [[msg ->] _]]. by exists msg.
  - destruct Hu as [_ Hu]. destruct o as [r| | |]; [by destruct (Ho r)|done..].
Qed.

Lemma process_inv_reachable x : rtc (process_step opt) (process_init opt) x -> process_inv x.
Proof.
  revert x. refine (rtc_ind_r _ _ _ _).
  - split; [apply wp_before_select|done].
  - intros x x' _ Hs IH. by eapply process_inv_step.
Qed.

(** C2: The process as a whole.  Its [unreachable!] is not reached: the upgrade
    task sends an error before it goes.  When the process ends with the error of
    that task, the error is about the metadata.  The command runs after the six
    constants were set; the monitor's tasks run with its own configuration set
    after those, from the state [monitor_cmd] starts them in, and the server's
    requests from the state [serve] starts with, so that what holds of every
    reachable state of those systems holds in the process. *)
Theorem process_safe x :
  rtc (process_step opt) (process_init opt) x ->
  main_task x <> Exited ExitUnreachable /\
  (forall e, main_task x = Exited (ExitUpgrade e) -> exists msg, e = Error.InvalidMetadata msg) /\
  (forall c, main_task x = Selecting c -> metadata_first (main_log x) /\
     match c with
     | MonitorRunning c signer s =>
         command opt = Command.Monitor c /\ monitor_set c (main_log x) /\
         exists n, rtc (system_step (signer_account_id (signer_deref signer)) (process_config c)) (monitor_init n) s
     | ServerRunning s =>
         (exists c, command opt = Command.Server c) /\ rtc (server_step (H := ClientHandler)) server_init s
     | _ => True
     end).
Proof.
  intros Hr. destruct (process_inv_reachable x Hr) as [Hm _]. split_and!.
  - intros E. by rewrite E in Hm.
  - intros e E. by rewrite E in Hm.
  - intros c E. rewrite E in Hm. destruct Hm as [Hf Hc]. split; [done|]. by destruct c.
Qed.

End process.

(** ** Schedules of the process *)
Section schedules.
Context `{T : MinerConfig} `{SO : ScoreOrder} `{F : Foreign} `{V : VotesBound} `{US : UnstableSort} `{W : Web} `{K : Crypto}.
Context (opt : Opt) (h hu : handler).

(** What moves next: the main task, the upgrade task or a task of the monitor. *)
Inductive Move : Type := MoveMain | MoveUpgrade | MoveMonitor (who : TaskName) | MoveSelect.

(** The start, against [h]. *)
Definition start_exec (p : M unit unit) (x : Process) : Process :=
  match p with
  | Ret (Ok _) => with_main (Selecting (command_future (command opt))) (main_log x) x
  | Ret o => with_main (Exited (ExitStartup o)) (main_log x) x
  | Vis o k =>
      let r := answer h _ o (main_log x) in
      let x' := with_main (Starting (k r)) (Event o r :: main_log x) x in
      if is_spawn o then with_upgrade (Checking upgrade_check None) [] None x' else x'
  | p => let '(p', _, t') := advance h p tt (main_log x) in with_main (Starting p') t' x
  end.

Definition upgrade_exec (x : Process) : Process :=
  match upgrade x with
  | Checking (Ret (Ok None)) s => with_upgrade (Checking upgrade_check s) (upgrade_log x) (sent x) x
  | Checking (Ret (Ok (Some e))) s => with_upgrade Returning (upgrade_log x) (Some e) x
  | Checking (Ret _) s => with_upgrade Gone (upgrade_log x) (sent x) x
  | Checking p s =>
      let '(p', s', t') := advance hu p s (upgrade_log x) in
      with_upgrade (Checking p' s') t' (sent x) x
  | Returning => with_upgrade Gone (upgrade_log x) (sent x) x
  | _ => x
  end.

(** The monitor command, its listener observed for three iterations. *)
Definition future_exec (x : Process) : Process :=
  match main_task x with
  | Starting p => start_exec p x
  | Selecting (MonitorStarting c (Ret (Ok signer))) =>
      with_main (Selecting (MonitorRunning c signer (monitor_init 3))) (main_log x) x
  | Selecting (MonitorStarting c (Ret _)) => x
  | Selecting (MonitorStarting c p) =>
      let '(p', _, t') := advance h p tt (main_log x) in
      with_main (Selecting (MonitorStarting c p')) t' x
  | _ => x
  end.

Definition process_exec_one (who : Move) (x : Process) : Process :=
  match who with
  | MoveMain => future_exec x
  | MoveUpgrade => upgrade_exec x
  | MoveMonitor name =>
      match main_task x with
      | Selecting (MonitorRunning c signer s) =>
          with_main (Selecting (MonitorRunning c signer (exec_one (signer_account_id (signer_deref signer)) (process_config c) h name s))) (main_log x) x
      | _ => x
      end
  | MoveSelect =>
      match main_task x, sent x with
      | Selecting _, Some e => with_main (Exited (ExitUpgrade e)) (main_log x) x
      | _, _ => x
      end
  end.

Definition process_exec (moves : list Move) (x : Process) : Process :=
  foldl (fun x who => process_exec_one who x) x moves.

Lemma start_exec_step p x : main_task x = Starting p -> process_step opt x (start_exec p x).
Proof.
  intros Hp. destruct p as [[[]|e|msg|]|k|[] k|k|R o k]; cbn [start_exec].
  - by apply main_selects.
  - by apply main_fails.
  - by apply main_fails.
  - by apply main_fails.
  - by eapply main_starts.
  - by eapply main_starts.
  - cbn. eapply main_starts; [done|done|]. by eexists.
  - destruct (is_spawn o) eqn:Ho.
    + destruct o; try done. destruct (answer h _ SpawnUpgradeTask (main_log x)). by eapply main_spawns.
    + eapply main_starts; [done|done|]. by eexists.
Qed.

Lemma upgrade_exec_step x : upgrade_exec x = x \/ process_step opt x (upgrade_exec x).
Proof.
  unfold upgrade_exec. destruct (upgrade x) as [|p s| |] eqn:Eu; [by left| |right|by left].
  - right. destruct p as [[[e|]|e|msg|]|k|s' k|k|R o k].
    + by eapply upgrade_sends.
    + by eapply upgrade_turns.
    + by eapply upgrade_unwinds.
    + by eapply upgrade_unwinds.
    + by eapply upgrade_unwinds.
    + by eapply upgrade_runs.
    + by eapply upgrade_runs.
    + eapply upgrade_runs; [done|]. by eexists.
    + eapply upgrade_runs; [done|]. by eexists.
  - by eapply upgrade_returns.
Qed.

Lemma with_main_id x : with_main (main_task x) (main_log x) x = x.
Proof. by destruct x. Qed.

Lemma process_exec_one_step who x :
  process_exec_one who x = x \/ process_step opt x (process_exec_one who x).
Proof.
  destruct who as [| |name|]; cbn [process_exec_one].
  - unfold future_exec. destruct (main_task x) as [p|[p|c p|c signer s|p|s]|e] eqn:Em;
      [right; by apply start_exec_step|by left| |by left..].
    destruct p as [[signer|e|msg|]|k|[] k|k|R o k]; [|by left..| | | |]; right;
      (eapply select_future; [done|]).
    + constructor.
    + by constructor.
    + by constructor.
    + constructor. by eexists.
    + constructor. by eexists.
  - apply upgrade_exec_step.
  - destruct (main_task x) as [p|[p|c p|c signer s|p|s]|e] eqn:Em; try by left.
    destruct (exec_one_step (signer_account_id (signer_deref signer)) (process_config c) h name s) as [->|Hs].
    + left. rewrite <- Em. apply with_main_id.
    + right. eapply select_future; [done|]. by constructor.
  - destruct (main_task x) as [p|c|e] eqn:Em; [by left| |by left].
    destruct (sent x) as [e|] eqn:Es; [|by left]. right. by eapply select_upgrade.
Qed.

(** Every schedule is a run of the process. *)
Lemma process_exec_reachable moves : forall x, rtc (process_step opt) x (process_exec moves x).
Proof.
  induction moves as [|who moves IH]; intros x; [apply rtc_refl|]. unfold process_exec. cbn [foldl].
  destruct (process_exec_one_step who x) as [->|Hs]; [apply IH|]. eapply rtc_l; [exact Hs|apply IH].
Qed.

End schedules.

(** ** An example: the monitor runs until an upgrade removes a constant *)
#[local] Existing Instance stake_order.
#[local] Existing Instance toy_web.
#[local] Existing Instance toy_crypto.

Definition demo_monitor : MultiBlockMonitorConfig := {|
  seed_or_path := "//Alice"; mb_submission_strategy := IfLeading; mb_do_reduce := false; mb_chunk_size := 0;
  mb_min_signed_phase_blocks := 10; mb_shady := false; mb_balancing_iterations := 10; mb_algorithm := Phragmms |}.

Definition demo_opt : Opt := {|
  uri := "ws://127.0.0.1:9944"; command := Command.Monitor demo_monitor; prometheus_port := 9999; opt_log := "info" |}.

(** A node whose runtime is at another version at every read, without the
    constant of the voters. *)
Definition upgraded_node : handler := {|
  answer := fun R o t =>
    match o in op R return R with
    | AtCurrentBlock =>
        ok {| ab_hash := 7; ab_number := 100; ab_spec_version := 1 + Z.of_nat (length (versions t)) |}
    | Constant _ _ variant => if String.eqb variant "VoterSnapshotPerBlock" then err "not found" else ok (ok 4)
    | o => node_answer good_node o t
    end;
  fires := fun _ _ => false;
|}.

Definition demo_process (moves : list Move) : Process :=
  process_exec demo_opt (node_handler good_node) upgraded_node moves (process_init demo_opt).

(** The process up to the monitor at work, and on to the failing update. *)
Definition demo_moves : list Move :=
  replicate 60 MoveMain ++ replicate 60 (MoveMonitor ListenerTask) ++ replicate 40 (MoveMonitor MinerTask).

Definition demo_upgrade : list Move := replicate 30 MoveUpgrade ++ [MoveSelect].

Definition demo_running : Process := demo_process demo_moves.
Definition demo_exited : Process := demo_process (demo_moves ++ demo_upgrade).

(** The operations of the miner so far; the error of the upgrade task. *)
Definition miner_ops (m : MainTask) : option nat :=
  match m with Selecting (MonitorRunning _ _ x) => Some (length (log (miner x))) | _ => None end.
Definition upgrade_error (m : MainTask) : option Error.t :=
  match m with Exited (ExitUpgrade e) => Some e | _ => None end.

Lemma demo_reaches moves : rtc (process_step demo_opt) (process_init demo_opt) (demo_process moves).
Proof. apply process_exec_reachable. Qed.

Lemma process_safe_witness :
  (exists c signer x, main_task demo_running = Selecting (MonitorRunning c signer x) /\
     length (log (miner x)) = 16%nat /\ monitor_set c (main_log demo_running)) /\
  (exists e msg, main_task demo_exited = Exited (ExitUpgrade e) /\ e = Error.InvalidMetadata msg).
Proof.
  split.
  - destruct (process_safe demo_opt demo_running (demo_reaches demo_moves)) as (_ & _ & Hs).
    assert (miner_ops (main_task demo_running) = Some 16%nat) as Hv by (vm_compute; reflexivity).
    destruct (main_task demo_running) as [|[| |c signer x| |]|]; try discriminate Hv.
    exists c, signer, x. split; [reflexivity|]. split; [by injection Hv|].
    exact (proj1 (proj2 (proj2 (Hs _ eq_refl)))).
  - destruct (process_safe demo_opt demo_exited (demo_reaches (demo_moves ++ demo_upgrade))) as (_ & He & _).
    assert (is_Some (upgrade_error (main_task demo_exited))) as Hv by (vm_compute; eexists; reflexivity).
    destruct (main_task demo_exited) as [|c|[|  |e| |]]; try by destruct Hv.
    destruct (He e eq_refl) as [msg Hm]. exists e, msg. split; [reflexivity|exact Hm].
Defined.

(** The first version the upgrade task reads changes nothing, so an upgrade
    between the start of the process and that read goes unnoticed: here the
    constants were read at version 1, the task has seen version 2 only, and has
    updated nothing. *)
Definition second_version : handler := {|
  answer := fun R o t =>
    match o in op R return R with
    | AtCurrentBlock => ok {| ab_hash := 8; ab_number := 101; ab_spec_version := 2 |}
    | o => node_answer good_node o t
    end;
  fires := fun _ _ => false;
|}.

Example first_version_unnoticed :
  let x := process_exec demo_opt (node_handler good_node) second_version
             (replicate 60 MoveMain ++ replicate 100 MoveUpgrade) (process_init demo_opt) in
  match upgrade x with
  | Checking _ last => last = Some 2 /\ versions (main_log x) <> [] /\
      Forall (fun v => v = 1) (versions (main_log x)) /\ param_sets (upgrade_log x) = []
  | _ => False
  end.
Proof. vm_compute. repeat constructor. discriminate. Qed.
