(* ===== verification/Options.v ===== *)
(** * The command line

    The options [src/main.rs] and [src/commands/types.rs] declare with [clap]: the
    declared arguments with their names, environment variables and defaults, how
    the fields of the structures are read from the matched values, and that the
    command line reaches exactly the option values within the declared ranges.

    The matcher of [clap] is a parameter (class [Clap]): what its documentation
    says of long options is a law of the class. *)

From Stdlib Require Import Ascii.
From S2P Require Import Prelude RustStr Errors Strategy Types Tokens ElectionData Predictions Runtime Predict Main.
Local Open Scope Z_scope.

(** ** Declared arguments *)

Inductive ArgAction : Type := SetValue | SetTrue.

(** An argument: the field, its long and short name, its environment variable,
    its default, and whether a value must be there. *)
Record Arg : Type := {
  id : string;
  long : string;
  short : option ascii;
  arg_env : option string;
  default_value : option string;
  required : bool;
  action : ArgAction;
}.

Definition DEFAULT_URI : string := "ws://127.0.0.1:9944".
Definition DEFAULT_PROMETHEUS_PORT : Z := 9999.

Definition uri_arg : Arg := {|
  id := "uri"; long := "uri"; short := Some "u"%char; arg_env := Some "URI";
  default_value := Some DEFAULT_URI; required := false; action := SetValue |}.
Definition prometheus_port_arg : Arg := {|
  id := "prometheus_port"; long := "prometheus-port"; short := Some "p"%char; arg_env := Some "PROMETHEUS_PORT";
  default_value := Some (pretty DEFAULT_PROMETHEUS_PORT); required := false; action := SetValue |}.
Definition log_arg : Arg := {|
  id := "log"; long := "log"; short := Some "l"%char; arg_env := None;
  default_value := Some "info"; required := false; action := SetValue |}.

(** [Opt], beside its command. *)
Definition opt_args : list Arg := [uri_arg; prometheus_port_arg; log_arg].

(** A long option with a default, and one without. *)
Definition long_arg (name field default : string) : Arg := {|
  id := field; long := name; short := None; arg_env := None;
  default_value := Some default; required := false; action := SetValue |}.
Definition option_arg (name field : string) : Arg := {|
  id := field; long := name; short := None; arg_env := None;
  default_value := None; required := false; action := SetValue |}.
Definition flag_arg (name field : string) : Arg := {|
  id := field; long := name; short := None; arg_env := None;
  default_value := Some "false"; required := false; action := SetTrue |}.

Definition seed_arg : Arg := {|
  id := "seed_or_path"; long := "seed-or-path"; short := Some "s"%char; arg_env := Some "SEED";
  default_value := None; required := true; action := SetValue |}.
Definition strategy_arg : Arg := long_arg "submission-strategy" "submission_strategy" "if-leading".
Definition do_reduce_arg : Arg := flag_arg "do-reduce" "do_reduce".
Definition chunk_size_arg : Arg := long_arg "chunk-size" "chunk_size" "0".
Definition min_blocks_arg : Arg := long_arg "min-signed-phase-blocks" "min_signed_phase_blocks" "10".
Definition shady_arg : Arg := flag_arg "shady" "shady".
Definition balancing_arg : Arg := long_arg "balancing-iterations" "balancing_iterations" "10".
Definition algorithm_arg : Arg := long_arg "algorithm" "algorithm" "seq-phragmen".

(** [MultiBlockMonitorConfig] *)
Definition monitor_args : list Arg :=
  [seed_arg; strategy_arg; do_reduce_arg; chunk_size_arg; min_blocks_arg; shady_arg; balancing_arg; algorithm_arg].

Definition desired_validators_arg : Arg := option_arg "desired-validators" "desired_validators".
Definition output_dir_arg : Arg := long_arg "output-dir" "output_dir" "results".
Definition block_number_arg : Arg := option_arg "block-number" "block_number".
Definition overrides_arg : Arg := option_arg "overrides" "overrides".

(** [PredictConfig] *)
Definition predict_args : list Arg :=
  [desired_validators_arg; output_dir_arg; balancing_arg; do_reduce_arg; block_number_arg; overrides_arg; algorithm_arg].

Definition port_arg : Arg := {|
  id := "port"; long := "port"; short := Some "p"%char; arg_env := Some "PORT";
  default_value := Some "8080"; required := false; action := SetValue |}.
Definition listen_arg : Arg := {|
  id := "listen"; long := "listen"; short := Some "l"%char; arg_env := None;
  default_value := Some "127.0.0.1"; required := false; action := SetValue |}.

(** [ServerConfig] *)
Definition server_args : list Arg := [port_arg; listen_arg].

(** [Command]: the subcommands. *)
Definition subcommand_args (name : string) : option (list Arg) :=
  if String.eqb name "monitor" then Some monitor_args
  else if String.eqb name "info" then Some []
  else if String.eqb name "predict" then Some predict_args
  else if String.eqb name "server" then Some server_args
  else None.

(** ** The matcher *)

(** Matched values by field, for the options before the subcommand and after it. *)
Record Matches : Type := {
  m_value : string -> option string;
  m_subcommand : string;
  m_sub_value : string -> option string;
}.

(** An argument as it is written: a flag, [--long value] or [--long=value]. *)
Inductive Given : Type :=
| Flag (a : Arg)
| Separate (a : Arg) (v : string)
| Joined (a : Arg) (v : string).

Definition given_arg (g : Given) : Arg := match g with Flag a | Separate a _ | Joined a _ => a end.
Definition given_value (g : Given) : string := match g with Flag _ => "true" | Separate _ v | Joined _ v => v end.

Definition spell (g : Given) : list string :=
  match g with
  | Flag a => ["--" +:+ long a]
  | Separate a v => ["--" +:+ long a; v]
  | Joined a v => ["--" +:+ long a +:+ "=" +:+ v]
  end.

(** A value after a space must not look like an option. *)
Definition plain (v : string) : bool := match v with String c _ => negb (Ascii.eqb c "-"%char) | EmptyString => true end.

Definition spelled_well (g : Given) : bool :=
  match g with
  | Flag a => match action a with SetTrue => true | SetValue => false end
  | Separate a v => match action a with SetTrue => false | SetValue => plain v end
  | Joined a _ => match action a with SetTrue => false | SetValue => true end
  end.

(** Declared arguments, each at most once. *)
Definition fits (args : list Arg) (gs : list Given) : Prop :=
  Forall (fun g => given_arg g ∈ args /\ spelled_well g = true) gs /\ NoDup ((fun g => id (given_arg g)) <$> gs).

(** The value of an argument: as given, else from the environment, else the default. *)
Fixpoint given_lookup (gs : list Given) (field : string) : option string :=
  match gs with
  | [] => None
  | g :: gs => if String.eqb (id (given_arg g)) field then Some (given_value g) else given_lookup gs field
  end.

Definition resolve (env : string -> option string) (gs : list Given) (a : Arg) : option string :=
  match given_lookup gs (id a) with
  | Some v => Some v
  | None =>
      match arg_env a ≫= env with
      | Some v => Some v
      | None => default_value a
      end
  end.

(** [clap]: the values of a well-formed command line, and of whatever it accepts
    a declared subcommand, with a value for every argument that has a default.
    [ranged] is its parser of bounded integers. *)
Class Clap : Type := {
  get_matches : (string -> option string) -> list string -> option Matches;
  ranged : Z -> Z -> string -> option Z;
  ranged_in lo hi s n : ranged lo hi s = Some n -> lo <= n <= hi;
  ranged_pretty lo hi n : 0 <= lo -> lo <= n <= hi -> ranged lo hi (pretty n) = Some n;
  get_matches_spelled env program gs name args gs' :
    fits opt_args gs -> subcommand_args name = Some args -> fits args gs' ->
    Forall (fun a => required a = true -> is_Some (resolve env gs' a)) args ->
    exists m, get_matches env (program :: concat (spell <$> gs) ++ name :: concat (spell <$> gs')) = Some m /\
      Forall (fun a => m_value m (id a) = resolve env gs a) opt_args /\
      m_subcommand m = name /\ Forall (fun a => m_sub_value m (id a) = resolve env gs' a) args;
  get_matches_declared env argv m :
    get_matches env argv = Some m ->
    exists args, subcommand_args (m_subcommand m) = Some args /\
      Forall (fun a => is_Some (default_value a) -> is_Some (m_sub_value m (id a))) args;
}.

(** ** The fields *)

(** [usize::from_str] *)
Definition usize_max : Z := 2 ^ 64 - 1.

Definition parse_usize (s : string) : option Z :=
  let digits := match s with String c rest => if Ascii.eqb c "+"%char then rest else s | EmptyString => s end in
  match digits with
  | EmptyString => None
  | _ => n ← digits_value digits 0; if n <=? usize_max then Some n else None
  end.

(** The names [ElectionAlgorithm] declares for its values. *)
Definition algorithm_from_name (s : string) : option ElectionAlgorithm :=
  if String.eqb s "seq-phragmen" then Some SeqPhragmen
  else if String.eqb s "phragmms" then Some Phragmms
  else None.

Definition algorithm_name (a : ElectionAlgorithm) : string :=
  match a with SeqPhragmen => "seq-phragmen" | Phragmms => "phragmms" end.

Definition flag_value (s : string) : option bool :=
  if String.eqb s "true" then Some true else if String.eqb s "false" then Some false else None.

(** Lines with each declared argument at most once. *)
Ltac fits_line :=
  split; [repeat constructor; set_solver | apply (bool_decide_unpack _); vm_compute; exact I].

(** What the matcher found for the arguments of a line. *)
Definition matched (env v : string -> option string) (args : list Arg) (gs : list Given) : Prop :=
  Forall (fun a => v (id a) = resolve env gs a) args.

Ltac matches H :=
  unfold matched in H; repeat (apply Forall_cons in H as [?Hv H]); unfold resolve in *; cbn in * |-;
  repeat match goal with E : ?v _ = _ |- context [?v _] => rewrite E; clear E end.

Section options.
Context `{SO : ScoreOrder} `{CL : Clap}.

Definition strategy_value (s : string) : option SubmissionStrategy :=
  match strategy_from_str s with ok st => Some st | err _ => None end.

(** A field of type [Option]: no value is [None], a value that is refused an error. *)
Definition optional {A} (f : string -> option A) (v : option string) : option (option A) :=
  match v with None => Some None | Some s => Some <$> f s end.

(** [MultiBlockMonitorConfig] from its matches. *)
Definition monitor_from (v : string -> option string) : option MultiBlockMonitorConfig :=
  seed ← v "seed_or_path";
  strategy ← v "submission_strategy" ≫= strategy_value;
  reduce ← v "do_reduce" ≫= flag_value;
  chunk ← v "chunk_size" ≫= parse_usize;
  min_blocks ← v "min_signed_phase_blocks" ≫= ranged 1 u32_max;
  is_shady ← v "shady" ≫= flag_value;
  iterations ← v "balancing_iterations" ≫= parse_usize;
  algo ← v "algorithm" ≫= algorithm_from_name;
  Some {| seed_or_path := seed; mb_submission_strategy := strategy; mb_do_reduce := reduce;
          mb_chunk_size := Z.to_nat chunk; mb_min_signed_phase_blocks := min_blocks; mb_shady := is_shady;
          mb_balancing_iterations := iterations; mb_algorithm := algo |}.

(** [PredictConfig] from its matches. *)
Definition predict_from (v : string -> option string) : option PredictConfig :=
  desired ← optional (ranged 0 u32_max) (v "desired_validators");
  iterations ← v "balancing_iterations" ≫= parse_usize;
  reduce ← v "do_reduce" ≫= flag_value;
  number ← optional (ranged 0 u32_max) (v "block_number");
  algo ← v "algorithm" ≫= algorithm_from_name;
  Some {| pc_desired_validators := desired; output_dir := v "output_dir"; balancing_iterations := iterations;
          do_reduce := reduce; pc_block_number := number;
          overrides := overrides_config_from_str <$> v "overrides"; algorithm := algo |}.

(** [ServerConfig] from its matches. *)
Definition server_from (v : string -> option string) : option ServerConfig :=
  p ← v "port" ≫= ranged 0 65535;
  l ← v "listen";
  Some {| port := p; listen := l |}.

(** [Command] from its matches. *)
Definition command_from (name : string) (v : string -> option string) : option Command.t :=
  if String.eqb name "monitor" then Command.Monitor <$> monitor_from v
  else if String.eqb name "info" then Some Command.Info
  else if String.eqb name "predict" then Command.Predict <$> predict_from v
  else if String.eqb name "server" then Command.Server <$> server_from v
  else None.

(** [Opt] from its matches. *)
Definition opt_from (m : Matches) : option Opt :=
  u ← m_value m "uri";
  p ← m_value m "prometheus_port" ≫= ranged 0 65535;
  l ← m_value m "log";
  c ← command_from (m_subcommand m) (m_sub_value m);
  Some {| uri := u; command := c; prometheus_port := p; opt_log := l |}.

(** [Opt::try_parse_from] *)
Definition try_parse_from (env : string -> option string) (argv : list string) : option Opt :=
  m ← get_matches env argv; opt_from m.

(** ** Writing options *)

Definition flag_line (a : Arg) (b : bool) : list Given := if b then [Flag a] else [].
Definition option_line (a : Arg) (v : option string) : list Given :=
  match v with Some v => [Joined a v] | None => [] end.

Definition opt_line (o : Opt) : list Given :=
  [Joined uri_arg (uri o); Joined prometheus_port_arg (pretty (prometheus_port o)); Joined log_arg (opt_log o)].

Definition monitor_line (strategy : string) (c : MultiBlockMonitorConfig) : list Given :=
  [Joined seed_arg (seed_or_path c); Joined strategy_arg strategy] ++ flag_line do_reduce_arg (mb_do_reduce c) ++
  [Joined chunk_size_arg (pretty (Z.of_nat (mb_chunk_size c)));
   Joined min_blocks_arg (pretty (mb_min_signed_phase_blocks c))] ++ flag_line shady_arg (mb_shady c) ++
  [Joined balancing_arg (pretty (mb_balancing_iterations c)); Joined algorithm_arg (algorithm_name (mb_algorithm c))].

Definition overrides_text (x : option OverridesConfig) : option string :=
  match x with Some (Path p) => Some p | _ => None end.

Definition predict_line (c : PredictConfig) : list Given :=
  option_line desired_validators_arg (pretty <$> pc_desired_validators c) ++
  option_line output_dir_arg (output_dir c) ++
  [Joined balancing_arg (pretty (balancing_iterations c))] ++ flag_line do_reduce_arg (do_reduce c) ++
  option_line block_number_arg (pretty <$> pc_block_number c) ++
  option_line overrides_arg (overrides_text (overrides c)) ++
  [Joined algorithm_arg (algorithm_name (algorithm c))].

Definition server_line (c : ServerConfig) : list Given :=
  [Joined port_arg (pretty (port c)); Joined listen_arg (listen c)].

Definition command_line (program strategy : string) (o : Opt) : list string :=
  let '(name, gs) :=
    match command o with
    | Command.Monitor c => ("monitor", monitor_line strategy c)
    | Command.Info => ("info", [])
    | Command.Predict c => ("predict", predict_line c)
    | Command.Server c => ("server", server_line c)
    end in
  program :: concat (spell <$> opt_line o) ++ name :: concat (spell <$> gs).

(** ** The values the options can have *)

Definition usize_ok (n : Z) : Prop := 0 <= n <= usize_max.
Definition option_ok {A} (P : A -> Prop) (x : option A) : Prop := match x with Some a => P a | None => True end.

Definition monitor_ok (strategy : string) (c : MultiBlockMonitorConfig) : Prop :=
  strategy_from_str strategy = ok (mb_submission_strategy c) /\
  usize_ok (Z.of_nat (mb_chunk_size c)) /\ 1 <= mb_min_signed_phase_blocks c <= u32_max /\
  usize_ok (mb_balancing_iterations c).

Definition predict_ok (c : PredictConfig) : Prop :=
  option_ok (fun n => 0 <= n <= u32_max) (pc_desired_validators c) /\ is_Some (output_dir c) /\
  usize_ok (balancing_iterations c) /\ option_ok (fun n => 0 <= n <= u32_max) (pc_block_number c) /\
  option_ok (fun x => exists p, x = Path p) (overrides c).

Definition options_ok (strategy : string) (o : Opt) : Prop :=
  0 <= prometheus_port o <= 65535 /\
  match command o with
  | Command.Monitor c => monitor_ok strategy c
  | Command.Info => True
  | Command.Predict c => predict_ok c
  | Command.Server c => 0 <= port c <= 65535
  end.

(** ** Reading back what was written *)

Lemma to_digit_nonneg c d : to_digit c = Some d -> 0 <= d.
Proof.
  unfold to_digit. destruct (48 <=? _) eqn:E; [|done]. apply Z.leb_le in E.
  destruct (_ <=? 57); [|done]. intros [= <-]. lia.
Qed.

Lemma digits_value_nonneg s : forall acc n, 0 <= acc -> digits_value s acc = Some n -> 0 <= n.
Proof.
  induction s as [|c s IH]; intros acc n Hacc; cbn; [by intros [= <-]|].
  destruct (to_digit c) as [d|] eqn:Hd; [|done]. cbn. apply IH. apply to_digit_nonneg in Hd. lia.
Qed.

Lemma parse_usize_pretty n : usize_ok n -> parse_usize (pretty n) = Some n.
Proof.
  intros [H0 Hn]. pose proof (digits_value_pretty n H0) as Hp. unfold parse_usize.
  destruct (pretty n) as [|c rest] eqn:Hs.
  - injection Hp as <-. by compute in Hs.
  - destruct (Ascii.eqb_spec c "+"%char) as [->|]; [done|]. rewrite Hp. cbn.
    by destruct (Z.leb_spec n usize_max); [|lia].
Qed.

Lemma parse_usize_ok s n : parse_usize s = Some n -> usize_ok n.
Proof.
  unfold parse_usize. destruct (match s with String _ _ => _ | EmptyString => _ end) as [|c rest]; [done|].
  destruct (digits_value (String c rest) 0) as [k|] eqn:Hk; [|done]. cbn.
  destruct (Z.leb_spec k usize_max); [|done]. intros [= <-]. split; [|done].
  by eapply digits_value_nonneg.
Qed.

Lemma algorithm_from_name_of a : algorithm_from_name (algorithm_name a) = Some a.
Proof. by destruct a. Qed.

Lemma opt_line_fits o : fits opt_args (opt_line o).
Proof. fits_line. Qed.

Lemma monitor_line_fits strategy c : fits monitor_args (monitor_line strategy c).
Proof. unfold monitor_line. destruct (mb_do_reduce c), (mb_shady c); fits_line. Qed.

Lemma predict_line_fits c : fits predict_args (predict_line c).
Proof.
  unfold predict_line. destruct (pc_desired_validators c), (output_dir c), (do_reduce c), (pc_block_number c),
    (overrides_text (overrides c)); fits_line.
Qed.

Lemma server_line_fits c : fits server_args (server_line c).
Proof. fits_line. Qed.

Lemma monitor_from_line env v strategy c : monitor_ok strategy c ->
  matched env v monitor_args (monitor_line strategy c) -> monitor_from v = Some c.
Proof using CL.
  destruct c as [seed st reduce chunk blocks sh iterations algo].
  intros (Hs & Hc & Hb & Hi) H. cbn in Hs, Hc, Hb, Hi. unfold monitor_line in H. cbn in H.
  unfold monitor_from. destruct reduce, sh; matches H; cbn -[pretty ranged algorithm_name algorithm_from_name];
    unfold strategy_value;
    rewrite Hs, !parse_usize_pretty, ranged_pretty, algorithm_from_name_of by done; cbn; by rewrite Nat2Z.id.
Qed.

Lemma predict_from_line env v c : predict_ok c ->
  matched env v predict_args (predict_line c) -> predict_from v = Some c.
Proof using CL.
  destruct c as [desired out iterations reduce number over algo].
  intros (Hd & [dir Hdir] & Hi & Hn & Ho) H. cbn in Hd, Hdir, Hi, Hn, Ho. subst out.
  assert (over = Path <$> overrides_text over) as Hover by (destruct over as [x|]; [by destruct Ho as [p ->]|done]).
  unfold predict_line in H. cbn in H. rewrite Hover. clear Ho Hover. generalize dependent (overrides_text over).
  intros text H. unfold predict_from.
  destruct desired, reduce, number, text; matches H;
    cbn -[pretty ranged algorithm_name algorithm_from_name];
    rewrite ?ranged_pretty by done; cbn -[pretty ranged algorithm_name algorithm_from_name];
    rewrite ?ranged_pretty by done; cbn -[pretty ranged algorithm_name algorithm_from_name];
    by rewrite parse_usize_pretty, algorithm_from_name_of by done.
Qed.

Lemma server_from_line env v c : 0 <= port c <= 65535 ->
  matched env v server_args (server_line c) -> server_from v = Some c.
Proof using CL.
  destruct c as [p l]. cbn. intros Hp H. unfold server_line in H. cbn in H. unfold server_from.
  matches H. cbn -[pretty ranged]. by rewrite ranged_pretty by done.
Qed.

(** One command of a line. *)
Lemma parse_line env program (o : Opt) name args gs :
  0 <= prometheus_port o <= 65535 ->
  subcommand_args name = Some args -> fits args gs ->
  Forall (fun a => required a = true -> is_Some (resolve env gs a)) args ->
  (forall v, matched env v args gs -> command_from name v = Some (command o)) ->
  try_parse_from env (program :: concat (spell <$> opt_line o) ++ name :: concat (spell <$> gs)) = Some o.
Proof using CL.
  intros Hp Hargs Hfits Hreq Hcmd. unfold try_parse_from.
  destruct (get_matches_spelled env program (opt_line o) name args gs (opt_line_fits o) Hargs Hfits Hreq)
    as (m & -> & Ho & Hname & Hm). cbn. unfold opt_from. rewrite Hname, (Hcmd _ Hm).
  change (matched env (m_value m) opt_args (opt_line o)) in Ho. unfold opt_line in Ho.
  matches Ho. cbn -[pretty ranged]. rewrite ranged_pretty by done. by destruct o.
Qed.

Lemma parse_command_line env program strategy o :
  options_ok strategy o -> try_parse_from env (command_line program strategy o) = Some o.
Proof using CL.
  intros [Hp Hc]. unfold command_line. destruct (command o) as [c| |c|c] eqn:E; eapply parse_line; try done;
    rewrite ?E; try apply monitor_line_fits; try apply predict_line_fits; try apply server_line_fits;
    try (repeat constructor; done).
  - intros v Hv. cbn. by rewrite (monitor_from_line _ _ _ _ Hc Hv).
  - intros v Hv. cbn. by rewrite (predict_from_line _ _ _ Hc Hv).
  - intros v Hv. cbn. by rewrite (server_from_line _ _ _ Hc Hv).
Qed.

(** ** What can be read *)

Lemma optional_ok {A} (f : string -> option A) (P : A -> Prop) v x :
  (forall s a, f s = Some a -> P a) -> optional f v = Some x -> option_ok P x.
Proof.
  intros Hf. destruct v as [s|]; cbn; [|by intros [= <-]].
  destruct (f s) as [a|] eqn:E; [|done]. intros [= <-]. by eapply Hf.
Qed.

Lemma monitor_from_ok v c : monitor_from v = Some c -> exists strategy, monitor_ok strategy c.
Proof using CL.
  unfold monitor_from. intros (seed & _ & H)%bind_Some. cbn in H.
  apply bind_Some in H as (st & (text & _ & Hst)%bind_Some & H).
  apply bind_Some in H as (reduce & _ & H).
  apply bind_Some in H as (chunk & (? & _ & Hchunk)%bind_Some & H).
  apply bind_Some in H as (blocks & (? & _ & Hblocks)%bind_Some & H).
  apply bind_Some in H as (sh & _ & H).
  apply bind_Some in H as (iterations & (? & _ & Hit)%bind_Some & H).
  apply bind_Some in H as (algo & _ & H). injection H as <-. exists text. unfold monitor_ok. cbn.
  unfold strategy_value in Hst. destruct (strategy_from_str text); [|done]. injection Hst as ->.
  apply parse_usize_ok in Hchunk, Hit. apply ranged_in in Hblocks. unfold usize_ok in *.
  rewrite Z2Nat.id by lia. done.
Qed.

Lemma predict_from_ok v c : is_Some (v "output_dir") -> predict_from v = Some c -> predict_ok c.
Proof using CL.
  intros Hdir. unfold predict_from. intros (desired & Hd & H)%bind_Some.
  apply bind_Some in H as (iterations & (? & _ & Hit)%bind_Some & H).
  apply bind_Some in H as (reduce & _ & H).
  apply bind_Some in H as (number & Hn & H).
  apply bind_Some in H as (algo & _ & H). injection H as <-. unfold predict_ok. cbn.
  apply parse_usize_ok in Hit.
  apply (optional_ok _ (fun n => 0 <= n <= u32_max)) in Hd; [|intros s a; apply ranged_in].
  apply (optional_ok _ (fun n => 0 <= n <= u32_max)) in Hn; [|intros s a; apply ranged_in].
  split_and!; try done. destruct (v "overrides"); cbn; [by eexists|done].
Qed.

Lemma parsed_ok env argv o : try_parse_from env argv = Some o -> exists strategy, options_ok strategy o.
Proof using CL.
  unfold try_parse_from. intros (m & Hm & H)%bind_Some.
  destruct (get_matches_declared _ _ _ Hm) as (args & Hargs & Hdef). unfold opt_from in H.
  apply bind_Some in H as (u & _ & H).
  apply bind_Some in H as (p & (ptext & _ & Hp)%bind_Some & H).
  apply bind_Some in H as (l & _ & H).
  apply bind_Some in H as (c & Hc & H). injection H as <-. apply ranged_in in Hp.
  unfold options_ok. cbn. unfold command_from, subcommand_args in *.
  destruct (String.eqb_spec (m_subcommand m) "monitor").
  { apply fmap_Some in Hc as (x & Hx & ->). apply monitor_from_ok in Hx as [text Hx]. by exists text. }
  exists "". split; [done|].
  destruct (String.eqb_spec (m_subcommand m) "info"); [by injection Hc as <-|].
  destruct (String.eqb_spec (m_subcommand m) "predict").
  { apply fmap_Some in Hc as (x & Hx & ->). eapply predict_from_ok; [|exact Hx].
    injection Hargs as <-. rewrite Forall_forall in Hdef.
    apply (Hdef output_dir_arg); [set_solver|by eexists]. }
  destruct (String.eqb_spec (m_subcommand m) "server"); [|done].
  apply fmap_Some in Hc as (x & Hx & ->). unfold server_from in Hx.
  apply bind_Some in Hx as (q & (? & _ & Hq)%bind_Some & Hx). apply bind_Some in Hx as (li & _ & Hx).
  injection Hx as <-. cbn. by eapply ranged_in.
Qed.

End options.

(** C35: The command line reaches exactly the options within the declared ranges.
    Whatever the environment, options whose ports are [u16], whose minimum of
    blocks is a [u32] from 1, whose sizes are [usize], whose strategy is that of a
    text, whose output directory is set and whose overrides are a path can be
    written as a command line that parses back to exactly them; and whatever
    command line is accepted, the options have such values. *)
Theorem options_roundtrip `{SO : ScoreOrder} `{CL : Clap} (env : string -> option string) :
  (forall program strategy o, options_ok strategy o ->
     try_parse_from env (command_line program strategy o) = Some o) /\
  (forall argv o, try_parse_from env argv = Some o -> exists strategy, options_ok strategy o).
Proof.
  split; [intros program strategy o; apply parse_command_line|intros argv o; apply parsed_ok].
Qed.

(** ** The tests of [src/main.rs] *)
Module CliTests.
Section tests.
Context `{SO : ScoreOrder} `{CL : Clap} (env : string -> option string) (CARGO_PKG_NAME : string).

(** The configuration of the tests: the defaults, but for some fields. *)
Definition alice (reduce : bool) (chunk : nat) (blocks : Z) (is_shady : bool) : MultiBlockMonitorConfig := {|
  seed_or_path := "//Alice"; mb_submission_strategy := IfLeading; mb_do_reduce := reduce;
  mb_chunk_size := chunk; mb_min_signed_phase_blocks := blocks; mb_shady := is_shady;
  mb_balancing_iterations := 10; mb_algorithm := SeqPhragmen |}.

Definition cli_monitor_works : Prop :=
  try_parse_from env [CARGO_PKG_NAME; "--uri"; "hi"; "--prometheus-port"; "9999"; "monitor";
                      "--seed-or-path"; "//Alice"; "--do-reduce"] =
  Some {| uri := "hi"; prometheus_port := 9999; opt_log := "info"; command := Command.Monitor (alice true 0 10 false) |}.

Definition cli_monitor_default_works : Prop :=
  command <$> try_parse_from env [CARGO_PKG_NAME; "--uri"; "hi"; "monitor"; "--seed-or-path"; "//Alice"] =
  Some (Command.Monitor (alice false 0 10 false)).

Definition cli_monitor_with_chunk_size_works : Prop :=
  command <$> try_parse_from env [CARGO_PKG_NAME; "--uri"; "hi"; "monitor"; "--seed-or-path"; "//Alice";
                                  "--chunk-size"; "4"] =
  Some (Command.Monitor (alice false 4 10 false)).

Definition cli_monitor_with_min_signed_phase_blocks_works : Prop :=
  command <$> try_parse_from env [CARGO_PKG_NAME; "--uri"; "hi"; "monitor"; "--seed-or-path"; "//Alice";
                                  "--min-signed-phase-blocks"; "5"] =
  Some (Command.Monitor (alice false 0 5 false)).

Definition cli_monitor_with_shady_works : Prop :=
  command <$> try_parse_from env [CARGO_PKG_NAME; "--uri"; "hi"; "monitor"; "--seed-or-path"; "//Alice"; "--shady"] =
  Some (Command.Monitor (alice false 0 10 true)).

(** A [monitor] line read by the matcher. *)
Lemma parse_monitor gs gs' p c :
  fits opt_args gs -> fits monitor_args gs' -> is_Some (resolve env gs' seed_arg) ->
  resolve env gs prometheus_port_arg = Some (pretty p) -> 0 <= p <= 65535 ->
  (forall v, matched env v monitor_args gs' -> monitor_from v = Some c) ->
  try_parse_from env (CARGO_PKG_NAME :: concat (spell <$> gs) ++ "monitor" :: concat (spell <$> gs')) =
    (u ← resolve env gs uri_arg; l ← resolve env gs log_arg;
     Some {| uri := u; prometheus_port := p; opt_log := l; command := Command.Monitor c |}).
Proof.
  intros Hgs Hgs' Hseed Hport Hp Hc. unfold try_parse_from.
  destruct (get_matches_spelled env CARGO_PKG_NAME gs "monitor" monitor_args gs' Hgs eq_refl Hgs')
    as (m & -> & Ho & Hname & Hm).
  { constructor; [done|]. by repeat constructor. }
  cbn. unfold opt_from. rewrite Hname. unfold command_from. cbn [String.eqb]. rewrite (Hc _ Hm).
  repeat (apply Forall_cons in Ho as [?H Ho]). cbn in *. rewrite H, H0, H1, Hport. cbn -[resolve].
  destruct (resolve env gs uri_arg); [|done]. cbn -[resolve]. by rewrite ranged_pretty by done.
Qed.

Lemma port_unset gs : given_lookup gs "prometheus_port" = None -> env "PROMETHEUS_PORT" = None ->
  resolve env gs prometheus_port_arg = Some (pretty 9999).
Proof. intros Hg He. unfold resolve. cbn -[pretty]. by rewrite Hg, He. Qed.

(** The fields of a line whose values are known. *)
Ltac reads_line := intros v Hv; matches Hv; cbn -[ranged]; change "10" with (pretty 10); change "5" with (pretty 5);
  rewrite ranged_pretty by (unfold u32_max; lia); reflexivity.

Lemma cli_monitor_passes : cli_monitor_works.
Proof.
  refine (eq_trans (parse_monitor [Separate uri_arg "hi"; Separate prometheus_port_arg "9999"]
    [Separate seed_arg "//Alice"; Flag do_reduce_arg] 9999 (alice true 0 10 false) _ _ _ _ _ _) _);
    [fits_line|fits_line|by eexists|reflexivity|lia| |reflexivity]. unfold monitor_from. reads_line.
Qed.

Lemma cli_others_pass : env "PROMETHEUS_PORT" = None ->
  cli_monitor_default_works /\ cli_monitor_with_chunk_size_works /\
  cli_monitor_with_min_signed_phase_blocks_works /\ cli_monitor_with_shady_works.
Proof.
  intros He.
  assert (forall gs' c, fits monitor_args gs' -> is_Some (resolve env gs' seed_arg) ->
    (forall v, matched env v monitor_args gs' -> monitor_from v = Some c) ->
    command <$> try_parse_from env (CARGO_PKG_NAME :: concat (spell <$> [Separate uri_arg "hi"]) ++
                                    "monitor" :: concat (spell <$> gs')) = Some (Command.Monitor c)) as H.
  { intros gs' c Hf Hs Hc. erewrite (parse_monitor _ _ 9999); [|fits_line|done|done| |lia|exact Hc]; [done|].
    by apply port_unset. }
  split_and!.
  - apply (H [Separate seed_arg "//Alice"]); [fits_line|by eexists|]. unfold monitor_from. reads_line.
  - apply (H [Separate seed_arg "//Alice"; Separate chunk_size_arg "4"]); [fits_line|by eexists|].
    unfold monitor_from. reads_line.
  - apply (H [Separate seed_arg "//Alice"; Separate min_blocks_arg "5"]); [fits_line|by eexists|].
    unfold monitor_from. reads_line.
  - apply (H [Separate seed_arg "//Alice"; Flag shady_arg]); [fits_line|by eexists|].
    unfold monitor_from. reads_line.
Qed.

End tests.
End CliTests.

(** ** An example: a matcher of long options *)
Module LongOptions.

(** [name=value] *)
Fixpoint split_eq (s : string) : string * option string :=
  match s with
  | EmptyString => (EmptyString, None)
  | String c rest =>
      if Ascii.eqb c "="%char then (EmptyString, Some rest)
      else let '(name, v) := split_eq rest in (String c name, v)
  end.

Fixpoint find_arg (key : Arg -> string) (args : list Arg) (s : string) : option Arg :=
  match args with
  | [] => None
  | a :: args => if String.eqb (key a) s then Some a else find_arg key args s
  end.

Definition add (g : Given) (r : option (list Given * list string)) : option (list Given * list string) :=
  '(gs, rest) ← r; if spelled_well g then Some (g :: gs, rest) else None.

(** The options at the start of a line, and the rest of it. *)
Fixpoint take_args (args : list Arg) (words : list string) : option (list Given * list string) :=
  match words with
  | [] => Some ([], [])
  | w :: words' =>
      match strip_prefix "--" w with
      | None => Some ([], words)
      | Some body =>
          let '(name, v) := split_eq body in
          a ← find_arg long args name;
          match v, action a, words' with
          | Some v, _, _ => add (Joined a v) (take_args args words')
          | None, SetTrue, _ => add (Flag a) (take_args args words')
          | None, SetValue, v :: words'' => add (Separate a v) (take_args args words'')
          | None, SetValue, [] => None
          end
      end
  end.

Definition look (env : string -> option string) (args : list Arg) (gs : list Given) (field : string) : option string :=
  a ← find_arg id args field; resolve env gs a.

Definition line_matches (env : string -> option string) (argv : list string) : option Matches :=
  '(gs, rest) ← take_args opt_args (tail argv);
  match rest with
  | [] => None
  | name :: words =>
      args ← subcommand_args name;
      '(gs', rest) ← take_args args words;
      if bool_decide (rest = []) && forallb (fun a => negb (required a) || bool_decide (is_Some (resolve env gs' a))) args
      then Some {| m_value := look env opt_args gs; m_subcommand := name; m_sub_value := look env args gs' |}
      else None
  end.

Definition digits_between (lo hi : Z) (s : string) : option Z :=
  match s with
  | EmptyString => None
  | _ => n ← digits_value s 0; if (lo <=? n) && (n <=? hi) then Some n else None
  end.

(** Names that can be told apart. *)
Definition names_ok (args : list Arg) : Prop :=
  Forall (fun a => split_eq (long a) = (long a, None) /\ (forall v, split_eq (long a +:+ "=" +:+ v) = (long a, Some v)) /\
    find_arg long args (long a) = Some a /\ find_arg id args (id a) = Some a) args.

Lemma opt_names_ok : names_ok opt_args.
Proof. by repeat constructor. Qed.

Lemma subcommand_names_ok name args : subcommand_args name = Some args ->
  names_ok args /\ strip_prefix "--" name = None.
Proof.
  unfold subcommand_args.
  repeat match goal with |- context [String.eqb name ?s] =>
    destruct (String.eqb_spec name s) as [->|_]; [intros [= <-]; by repeat constructor|] end.
  done.
Qed.

Lemma take_args_spelled args gs rest : names_ok args -> fits args gs ->
  match rest with [] => True | w :: _ => strip_prefix "--" w = None end ->
  take_args args (concat (spell <$> gs) ++ rest) = Some (gs, rest).
Proof.
  intros Hn [Hgs _] Hrest. induction Hgs as [|g gs [Hin Hg] _ IH].
  { destruct rest as [|w rest]; [done|]. cbn -[strip_prefix]. by rewrite Hrest. }
  destruct (proj1 (Forall_forall _ _) Hn (given_arg g) Hin) as (H1 & H2 & H3 & _).
  destruct g as [a|a v|a v]; cbn -[strip_prefix String.append] in *; rewrite strip_prefix_app, ?H2, ?H1, H3; cbn -[String.append];
    destruct (action a) eqn:E; try done; rewrite IH; cbn; rewrite ?E, ?Hg; done.
Qed.

Lemma look_resolves env args gs : names_ok args -> Forall (fun a => look env args gs (id a) = resolve env gs a) args.
Proof.
  intros Hn. eapply Forall_impl; [exact Hn|]. intros a (_ & _ & _ & Ha). unfold look. by rewrite Ha.
Qed.

Lemma resolve_default env gs a : is_Some (default_value a) -> is_Some (resolve env gs a).
Proof. intros [d Hd]. unfold resolve. rewrite Hd. destruct (given_lookup _ _); [|destruct (_ ≫= _)]; by eexists. Qed.

#[export] Instance long_options : Clap.
Proof.
  refine {| get_matches := line_matches; ranged := digits_between |}.
  - intros lo hi s n. unfold digits_between. destruct s as [|c s]; [done|].
    destruct (digits_value (String c s) 0) as [k|]; [|done]. cbn.
    destruct (Z.leb_spec lo k), (Z.leb_spec k hi); try done. by intros [= <-].
  - intros lo hi n H0 Hn. pose proof (digits_value_pretty n ltac:(lia)) as Hp. unfold digits_between.
    destruct (pretty n) as [|c s] eqn:Hs; [injection Hp as <-; by compute in Hs|]. rewrite Hp. cbn.
    by destruct (Z.leb_spec lo n), (Z.leb_spec n hi); try lia.
  - intros env program gs name args gs' Hgs Hargs Hgs' Hreq.
    destruct (subcommand_names_ok _ _ Hargs) as [Hn Hname]. unfold line_matches. cbn [tail].
    rewrite (take_args_spelled opt_args gs (name :: _) opt_names_ok Hgs Hname). cbn -[take_args].
    rewrite Hargs. cbn -[take_args]. rewrite <- (app_nil_r (concat (spell <$> gs'))).
    rewrite (take_args_spelled args gs' [] Hn Hgs' I). cbn.
    replace (forallb _ args) with true.
    + eexists. split; [reflexivity|]. split_and!; [apply look_resolves, opt_names_ok|done|by apply look_resolves].
    + symmetry. apply forallb_forall. intros a Ha%list_elem_of_In. rewrite Forall_forall in Hreq.
      destruct (required a) eqn:E; [|done]. cbn. by apply bool_decide_eq_true, Hreq.
  - intros env argv m. unfold line_matches. destruct (take_args opt_args (tail argv)) as [[gs rest]|]; [|done]. cbn.
    destruct rest as [|name words]; [done|]. destruct (subcommand_args name) as [args|] eqn:Hargs; [|done]. cbn.
    destruct (take_args args words) as [[gs' rest']|]; [|done]. cbn. destruct (_ && _); [|done].
    intros [= <-]. exists args. split; [done|]. cbn.
    destruct (subcommand_names_ok _ _ Hargs) as [Hn _]. eapply Forall_impl; [by apply look_resolves|].
    intros a -> Hd. by apply resolve_default.
Defined.

End LongOptions.

Definition demo_options : @Opt stake_order := {|
  uri := "wss://a,wss://b"; prometheus_port := 9616; opt_log := "debug";
  command := Command.Predict {| pc_desired_validators := Some 600; output_dir := Some "out";
    balancing_iterations := 20; do_reduce := true; pc_block_number := None;
    overrides := Some (Path "overrides.json"); algorithm := Phragmms |} |}.

(** The line [miner --uri=wss://a,wss://b .. predict --desired-validators=600 ..]. *)
Lemma options_roundtrip_witness :
  @try_parse_from stake_order LongOptions.long_options (fun _ => None) (command_line "miner" "" demo_options) = Some demo_options /\
  command_line "miner" "" demo_options =
    ["miner"; "--uri=wss://a,wss://b"; "--prometheus-port=9616"; "--log=debug"; "predict"; "--desired-validators=600";
     "--output-dir=out"; "--balancing-iterations=20"; "--do-reduce"; "--overrides=overrides.json"; "--algorithm=phragmms"].
Proof.
  split; [|reflexivity].
  apply (proj1 (@options_roundtrip stake_order LongOptions.long_options (fun _ => None))).
  unfold options_ok, predict_ok, usize_ok, usize_max, u32_max. cbn.
  split_and!; try lia; try exact I; by eexists.
Defined.
