(* ===== verification/Cells.v ===== *)
(** * The shared parameter types

    The static parameter types of [src/static_types/multi_block.rs] are cells that
    all tasks of the process share: the main task and the upgrade task set them
    from the metadata, the monitor from its configuration, and the tasks of the
    monitor read them while they run.  Here the process runs with those cells as
    memory: a read returns what was set last, by whichever task. *)

From S2P Require Import Prelude RustStr Errors Strategy Chain Metrics Types Effects Traces Observe Scenario ChainAccess Signing ElectionData ElectionDataSpec Submission SubmissionSends SnapshotFetch SnapshotSpec Miner MinerSpec Listener ListenerSpec Janitor Client Staking StakingSpec Predictions PredictionsSpec Runtime Predict PredictSpec System SystemSpec Server ServerSpec Main MainSpec.
Local Open Scope Z_scope.

(** ** What the tasks of the monitor do with the cells *)
Section tasks.
Context `{T : MinerConfig} `{SO : ScoreOrder}.

(** They set none of them. *)
Definition no_sets {S} (_ : S) (t : trace) : Prop := param_sets t = [].

Lemma no_sets_neutral {S R} (o : op R) :
  match o with ParamSet _ _ => false | _ => true end = true -> neutral (no_sets (S := S)) o.
Proof. apply sets_neutral. Qed.

Ltac no_sets_step := keeps_step ltac:(by apply no_sets_neutral).

Lemma no_sets_storage_at_head {S} : keeps (no_sets (S := S)) storage_at_head anything.
Proof. unfold storage_at_head, get_latest_finalized_head, storage_at. repeat no_sets_step. Qed.

Lemma no_sets_submit_and_finalize {S} c : keeps (no_sets (S := S)) (submit_and_finalize c) anything.
Proof. unfold submit_and_finalize, sign_and_submit, wait_tx_in_finalized_block. repeat no_sets_step. Qed.

Lemma no_sets_get {S} : keeps (no_sets (S := S)) get_state anything.
Proof. by intros s t H. Qed.

Lemma no_sets_put {S} (s0 : S) : keeps no_sets (put_state s0) anything.
Proof. by intros s t H. Qed.

Ltac no_sets_tac := repeat (apply no_sets_storage_at_head || apply no_sets_submit_and_finalize ||
  apply no_sets_get || apply no_sets_put || no_sets_step).

Lemma no_sets_cleanup_rounds {S} signer b rounds : forall cleaned found,
  keeps (no_sets (S := S)) (cleanup_rounds signer b rounds cleaned found) anything.
Proof.
  induction rounds as [|r rounds IH]; intros cleaned found; cbn [cleanup_rounds]; [no_sets_tac|].
  unfold clear_old_round_data. repeat (apply IH || no_sets_tac).
Qed.

Lemma no_sets_clear_step signer m : keeps no_sets (clear_step signer m) anything.
Proof.
  destruct m. cbn [clear_step]. unfold run_clear_old_rounds_cleanup.
  repeat (apply no_sets_cleanup_rounds || no_sets_tac).
Qed.

Lemma no_sets_era_step m : keeps no_sets (era_step m) anything.
Proof.
  destruct m; cbn [era_step]; [no_sets_tac..|].
  unfold get_pruneable_era_index, call_prune_era_step. no_sets_tac.
Qed.

(** The miner also keeps, for its whole life, the number of pages it has read
    when it started. *)
Definition pages_of_start (s : MinerState) (t : trace) : Prop :=
  param_sets t = [] /\ last t = Some (Event PagesGet (n_pages (ms_snapshot s))).

Lemma pages_of_start_cons {R} (o : op R) r s t :
  match o with ParamSet _ _ => false | _ => true end = true ->
  pages_of_start s t -> pages_of_start s (Event o r :: t).
Proof.
  intros Ho [Hs Hl]. split; [by apply (no_sets_neutral (S := MinerState) o Ho s t r)|].
  destruct t; [done|exact Hl].
Qed.

#[local] Instance SendInvariant_pages_of_start rnd signer :
  SendInvariant pages_of_start (fun _ => True) (fun _ => True) rnd signer.
Proof.
  split; try done.
  - intros R o Ho s t r H. apply pages_of_start_cons; [by destruct o|done].
  - intros; by apply pages_of_start_cons.
  - intros; by apply pages_of_start_cons.
  - intros; by apply pages_of_start_cons.
Qed.

Lemma set_voter_page_n_pages s p v h s' : set_voter_page s p v h = Some s' -> n_pages s' = n_pages s.
Proof. unfold set_voter_page. case_match; [|done]. by intros [= <-]. Qed.

#[local] Instance CacheInvariant_pages_of_start : CacheInvariant pages_of_start.
Proof.
  split.
  - intros R o Ho s t r H. apply pages_of_start_cons; [by destruct o|done].
  - intros s t p v h x [Hs Hl] _ _ Hx%set_voter_page_n_pages. split; [done|]. cbn. by rewrite Hx.
  - by intros s t v h [Hs Hl] _.
Qed.

Lemma pages_of_start_step signer config m :
  keeps pages_of_start (miner_step signer config m) anything.
Proof.
  destruct m as [state|]; cbn [miner_step].
  - eapply (keeps_bind _ _ _ anything).
    + eapply keeps_weaken; [apply (keeps_catch _ _ anything)|done].
      apply free_process_block; [apply _|apply _| |].
      * intros s t s' H _. by split; [|apply pages_of_start_cons].
      * apply (free_solution_of_round signer); [apply _|apply _| |by intros s t c H].
        intros input s t r. by apply pages_of_start_cons.
    + intros [u|e]; [by apply keeps_ret|]. destruct (is_critical_miner_error e); [apply keeps_throw|by apply keeps_ret].
  - intros s t [Hs Hl]. apply wp_bind, wp_get_snapshot. cbn [bind_post].
    apply wp_bind, wp_put_snapshot; [by split|]. cbn [bind_post]. apply wp_bind, wp_get. cbn [bind_post]. by apply wp_put.
Qed.

(** A block the listener hands over carries a number of pages it has read. *)
Definition pages_justified (e : event) (past : trace) : Prop :=
  match msg_of e with
  | Some (ToMiner (ProcessBlock state)) => Event PagesGet (bd_n_pages state) ∈ past
  | _ => True
  end.

Definition listens (_ : ListenerState) (t : trace) : Prop :=
  param_sets t = [] /\ guarded pages_justified t.

Lemma listens_neutral {R} (o : op R) :
  match o with ParamSet _ _ => false | _ => true end = true ->
  (forall r t, pages_justified (Event o r) t) -> neutral listens o.
Proof.
  intros Ho Hj s t r [Hs Hg]. split; [by apply (no_sets_neutral (S := ListenerState) o Ho s t r)|]. by split.
Qed.

Ltac listens_tac := apply listens_neutral; [reflexivity|intros ? ?; exact Logic.I].

Lemma listens_mining at_ p hash rnd : keeps listens (mining_work at_ p hash rnd) anything.
Proof.
  unfold mining_work. eapply (keeps_bind_post _ _ _ (fun bd _ t => Event PagesGet (bd_n_pages bd) ∈ t)).
  - unfold block_details_new, storage_at.
    do 2 (eapply (keeps_bind _ _ _ anything); [repeat (keeps_step listens_tac)|intros ?]).
    eapply (keeps_bind_post _ _ _ (fun n _ t => Event PagesGet n ∈ t)).
    + apply keeps_ask; [listens_tac|]. intros. by left.
    + intros n s t HI Hn. by apply wp_ret.
  - intros bd s t HI Hbd. unfold send_block.
    apply wp_bind, wp_metric; [by apply (listens_neutral (MetricOp observe_block_details_duration))|].
    cbn [bind_post]. set (t1 := Event (MetricOp _) _ :: t).
    assert (listens s t1) as H1 by by apply (listens_neutral (MetricOp observe_block_details_duration)).
    apply wp_bind. intros r.
    assert (listens s (Event (MinerTrySend (ProcessBlock bd)) r :: t1)) as H2.
    { destruct H1 as [Hs Hg]. split; [done|]. split; [|done]. unfold pages_justified. cbn. by right. }
    split; [done|]. apply wp_ret. cbn [bind_post].
    apply (keeps_elim listens _ anything); [|done]. repeat (keeps_step listens_tac).
Qed.

Lemma listens_get : keeps listens get_state anything.
Proof. by intros s t H. Qed.

Lemma listens_put s0 : keeps listens (put_state s0) anything.
Proof. by intros s t H. Qed.

Lemma listens_send_era m : keeps listens (send_era m) anything.
Proof. unfold send_era. repeat (keeps_step listens_tac). Qed.

Lemma listens_block at_ hash : keeps listens (process_block_internal at_ hash) anything.
Proof.
  unfold process_block_internal, get_block_state, storage_at, set_prev_round, on_round_increment,
    phase_work, set_prev_phase.
  repeat (apply listens_mining || apply listens_send_era || apply listens_get || apply listens_put
    || keeps_step listens_tac).
Qed.

Lemma listens_task n : keeps listens (listener_task n) anything.
Proof.
  apply keeps_listener_task; [|done|apply listens_block].
  intros R o Ho. apply listens_neutral; [by destruct o|by destruct o].
Qed.

End tasks.

(** ** The systems of the monitor with respect to the cells *)
Section monitor.
Context `{T : MinerConfig} `{SO : ScoreOrder} (signer : AccountId) (config : ProcessConfig).

(** A task whose body keeps an invariant [I] of its state and trace that implies
    that it sets nothing. *)
Definition setless_spec {S Msg} (body : Msg -> M S unit) (I : S -> trace -> Prop)
    (Hsets : forall s t, I s t -> param_sets t = []) (Hbody : forall m, keeps I (body m) anything) :
  TaskSpec body.
Proof.
  refine {| task_state := fun _ => I; task_trace := fun _ t => param_sets t = [] |}.
  - intros _. exact Hsets.
  - done.
  - intros _ m s t HI. eapply wp_mono; [exact Hsets| |by apply Hbody]. by intros o s' t' [H _] _.
Defined.

Definition miner_cells : TaskSpec (miner_step signer config) :=
  setless_spec _ pages_of_start (fun s t H => proj1 H) (pages_of_start_step signer config).
Definition clear_cells : TaskSpec (clear_step signer) :=
  setless_spec _ no_sets (fun s t H => H) (no_sets_clear_step signer).
Definition era_cells : TaskSpec era_step :=
  setless_spec _ no_sets (fun s t H => H) no_sets_era_step.

Record cells_inv (x : System) : Prop := {
  ci_listens : listens listener_init (listener_log x);
  ci_listener : match listener x with
                | Busy p s => wp (fun _ t => listens listener_init t) p (fun _ _ _ => True) s (listener_log x)
                | _ => True
                end;
  ci_channel : channel_inv (observed accepted_miner (listener_log x)) (miner x);
  ci_miner : receiver_inv _ (TS := miner_cells) (miner x);
  ci_clear : receiver_inv _ (TS := clear_cells) (clear_old_rounds x);
  ci_era : receiver_inv _ (TS := era_cells) (era_pruning x);
}.

Lemma cells_inv_transmit x e c p s : cells_inv x -> transmits (channels x) e c ->
  listens listener_init (e :: listener_log x) ->
  wp (fun _ t => listens listener_init t) p (fun _ _ _ => True) s (e :: listener_log x) ->
  cells_inv (with_listener (Busy p s) (e :: listener_log x) c).
Proof.
  intros [Hl Hw Hc Hm Hcl He] Ht Hl' Hw'.
  assert (channel_inv (observed accepted_miner (e :: listener_log x)) c.1.1) as Hc'.
  { rewrite observed_cons. destruct Ht as [m r y Hs|m r y Hs|m r y Hs|m r y Hs|m r y Hs|R o r Ho].
    - pose proof (channel_inv_try _ _ _ _ _ Hc Hs) as H. by destruct r.
    - pose proof (channel_inv_send _ _ _ _ _ Hc Hs) as H. by destruct r.
    - destruct r; cbn; by rewrite app_nil_r.
    - destruct r; cbn; by rewrite app_nil_r.
    - destruct r; cbn; by rewrite app_nil_r.
    - destruct o; cbn; by rewrite ?app_nil_r. }
  destruct Ht as [m r y Hs|m r y Hs|m r y Hs|m r y Hs|m r y Hs|R o r Ho]; (split; try done);
    (by eapply receiver_inv_try) || (by eapply receiver_inv_send).
Qed.

Lemma cells_inv_step x x' : cells_inv x -> system_step signer config x x' -> cells_inv x'.
Proof.
  intros Hi. pose proof Hi as [Hl Hw Hc Hm Hcl He].
  destruct 1 as [p s p' s' Hx Hs|p s p' s' e c Hx Hs Ht|R o k s r secs k' Hx Hwt Hd Hk|o s Hx|m Hst|c Hst|c Hst].
  - rewrite Hx in Hw. destruct (wp_prog_step _ _ _ _ _ _ _ _ Hw Hl Hs) as [Hw' _]. by split.
  - rewrite Hx in Hw. destruct (wp_prog_step _ _ _ _ _ _ _ _ Hw Hl Hs) as [Hw' Hl'].
    by apply cells_inv_transmit.
  - rewrite Hx in Hw. destruct (wp_drop _ _ _ _ _ _ _ _ _ Hw Hk) as [Hw' Hl'].
    split; try done. cbn [with_listener miner listener_log]. rewrite observed_cons. unfold accepted_miner.
    rewrite (dropped_not_accepted o r Hd). cbn. by rewrite app_nil_r.
  - by split.
  - split; try done; cbn; [by eapply channel_inv_step|by eapply receiver_inv_step].
  - split; try done. cbn. by eapply receiver_inv_step.
  - split; try done. cbn. by eapply receiver_inv_step.
Qed.

Lemma cells_inv_init n : cells_inv (monitor_init n).
Proof.
  split; try done.
  - cbn. eapply wp_mono; [| |apply (listens_task n listener_init [])]; done.
  - split; [cbn; lia|done].
Qed.

Lemma cells_inv_reachable n x : rtc (system_step signer config) (monitor_init n) x -> cells_inv x.
Proof.
  revert x. refine (rtc_ind_r _ _ _ _); [apply cells_inv_init|].
  intros x x' _ Hs IH. by eapply cells_inv_step.
Qed.

(** What follows for the tasks: none of them sets a cell. *)
Definition task_logs (x : System) : list trace :=
  [listener_log x; log (miner x); log (clear_old_rounds x); log (era_pruning x)].

Lemma cells_inv_sets x : cells_inv x -> Forall (fun t => param_sets t = []) (task_logs x).
Proof. intros [[Hl _] _ _ [Hm _] [Hc _] [He _]]. repeat constructor; done. Qed.

(** The miner between two messages has as many pages as it read first. *)
Lemma cells_inv_pages x s : cells_inv x -> task (miner x) = Idle s -> pages_of_start s (log (miner x)).
Proof. intros [_ _ _ [_ Hm] _ _] Hs. by rewrite Hs in Hm. Qed.

Lemma guarded_pages t state : guarded pages_justified t -> ProcessBlock state ∈ observed to_miner t ->
  Event PagesGet (bd_n_pages state) ∈ t.
Proof.
  induction t as [|e t IH]; [by intros _ ?%not_elem_of_nil|]. intros [He Hg].
  rewrite observed_cons. intros [Hin|Hin]%elem_of_app; [right; by apply IH|].
  unfold to_miner in Hin. unfold pages_justified in He.
  destruct (msg_of e) as [[m| |]|]; cbn in Hin; try by apply not_elem_of_nil in Hin.
  apply list_elem_of_singleton in Hin. subst m. by right.
Qed.

Lemma cells_inv_block x state : cells_inv x -> ProcessBlock state ∈ received (miner x) ->
  Event PagesGet (bd_n_pages state) ∈ listener_log x.
Proof.
  intros [[_ Hg] _ [_ Hc] _ _ _] Hin. apply guarded_pages; [done|].
  eapply elem_of_sublist; [|apply accepted_miner_offered]. rewrite <- Hc. apply elem_of_app. by left.
Qed.

End monitor.

(** ** Where the values come from *)
Section provenance.
Context `{T : MinerConfig} `{SO : ScoreOrder} `{F : Foreign}.

(** The constant a cell mirrors. *)
Definition param_item (p : Param) : option PalletItem :=
  match p with
  | ParamPages => Some PAGES
  | ParamTargetSnapshotPerBlock => Some TARGET_SNAPSHOT_PER_BLOCK
  | ParamVoterSnapshotPerBlock => Some VOTER_SNAPSHOT_PER_BLOCK
  | ParamMaxWinnersPerPage => Some MAX_WINNERS_PER_PAGE
  | ParamMaxBackersPerWinner => Some MAX_BACKERS_PER_WINNER
  | ParamMaxLength | ParamBalancingIterations | ParamAlgorithm => None
  end.

(** An event that gives [v] for the cell [p]: the metadata has that constant, or
    a block length of which [v] is three quarters. *)
Definition provides (p : Param) (v : Z) (e : event) : Prop :=
  match e with
  | Event o r =>
      match o in op R return R -> Prop with
      | Constant _ pallet_name name => fun r =>
          r = ok (ok v) /\ param_item p = Some {| pallet := pallet_name; variant := name |}
      | ConstantBlockLength _ => fun r =>
          p = ParamMaxLength /\ exists len, r = ok (ok len) /\ v = percent_mul 75 (block_length_total len)
      | _ => fun _ => False
      end r
  end.

Definition provided (p : Param) (v : Z) (t : trace) : Prop := exists e, e ∈ t /\ provides p v e.

Lemma provided_cons p v e t : provided p v t -> provided p v (e :: t).
Proof. intros (e' & He & Hp). exists e'. split; [by right|done]. Qed.

Lemma provides_param p v e : provides p v e -> p ∈ metadata_params.
Proof.
  destruct e as [R o r]. unfold metadata_params. destruct o; cbn; try done; destruct p; try done; set_solver.
Qed.

(** A set is justified by the constant read before, or by a configuration. *)
Definition set_justified (configured : Param -> Z -> Prop) (e : event) (past : trace) : Prop :=
  match param_set e with
  | Some (p, v) => provided p v past \/ configured p v
  | None => True
  end.

Section justified.
Context (configured : Param -> Z -> Prop).

Definition justified_sets {S} (_ : S) (t : trace) : Prop := guarded (set_justified configured) t.

Lemma justified_neutral {S R} (o : op R) :
  match o with ParamSet _ _ => false | _ => true end = true -> neutral (justified_sets (S := S)) o.
Proof. intros Ho s t r Hg. split; [|done]. unfold set_justified. by destruct o. Qed.

Ltac justified := keeps_step ltac:(by apply justified_neutral).

(** A program that sets nothing keeps the sets justified. *)
Lemma wp_justified {S A} (p : prog S A) Q : forall s t,
  wp (sets_are (param_sets t)) p Q s t -> justified_sets s t ->
  wp justified_sets p (fun o s' t' => justified_sets s' t') s t.
Proof.
  induction p as [a|k IH|s' k IH|? k IH|R o k IH]; intros s t Hw Hg.
  - exact Hg.
  - by apply IH.
  - by apply (IH s' t Hw).
  - intros b. by apply IH.
  - intros r. destruct (Hw r) as [Hs Hk].
    assert (param_set (Event o r) = None) as Hn.
    { unfold sets_are in Hs. rewrite param_sets_cons in Hs. destruct (param_set (Event o r)); [|done].
      apply (f_equal length) in Hs. cbn in Hs. lia. }
    assert (justified_sets s (Event o r :: t)) as Hg' by (split; [unfold set_justified; by rewrite Hn|exact Hg]).
    split; [exact Hg'|]. apply IH; [|exact Hg']. rewrite param_sets_cons, Hn. exact Hk.
Qed.

Lemma keeps_justified {S A} (m : M S A) :
  (forall l, keeps (sets_are l) m anything) -> keeps justified_sets m anything.
Proof.
  intros Hm s t Hg. eapply wp_mono; [done| |eapply wp_justified; [by apply (Hm (param_sets t))|exact Hg]].
  intros o s' t' H. by destruct o.
Qed.

(** The reads of the metadata. *)
Lemma keeps_fetch_constant {S} b p i ty : param_item p = Some i ->
  keeps (justified_sets (S := S)) (fetch_constant b i ty) (fun v _ t => provided p v t).
Proof.
  intros Hi s t Hg. apply wp_bind. intros r.
  assert (justified_sets s (Event (Constant b (pallet i) (variant i)) r :: t)) as Hg' by by apply justified_neutral.
  split; [exact Hg'|]. apply wp_ret. cbn [bind_post]. destruct r as [[v|e]|e]; cbn; try done.
  split; [exact Hg'|]. eexists. split; [by left|]. cbn. split; [done|]. rewrite Hi. by destruct i.
Qed.

Lemma keeps_fetch_block_length {S} b :
  keeps (justified_sets (S := S)) (fetch_block_length b)
    (fun len _ t => provided ParamMaxLength (percent_mul 75 (block_length_total len)) t).
Proof.
  intros s t Hg. apply wp_bind. intros r.
  assert (justified_sets s (Event (ConstantBlockLength b) r :: t)) as Hg' by by apply justified_neutral.
  split; [exact Hg'|]. apply wp_ret. cbn [bind_post]. destruct r as [[v|e]|e]; cbn; try done.
  split; [exact Hg'|]. eexists. split; [by left|]. cbn. eauto.
Qed.

(** A cell is set right after its value was read, or to a configured value. *)
Lemma wp_set_param {S} p v s t : provided p v t \/ configured p v -> justified_sets (S := S) s t ->
  wp justified_sets (set_param p v)
    (fun o s' t' => justified_sets s' t' /\ match o with Ok u => anything u s' t' | _ => True end) s t.
Proof. intros Hp Hg r. assert (justified_sets s (Event (ParamSet p v) r :: t)) as H by by split. by split. Qed.

Lemma keeps_then_set {S A X} (m : M S X) p (f : X -> Z) (k : M S A) :
  keeps justified_sets m (fun x _ t => provided p (f x) t) -> keeps justified_sets k anything ->
  keeps justified_sets (x ← m; set_param p (f x);; k) anything.
Proof.
  intros Hm Hk. eapply keeps_bind_post; [exact Hm|]. intros x s t Hg Hp. apply wp_bind.
  eapply wp_mono; [done| |by apply wp_set_param; [left|]].
  intros [u|e|msg|] s' t' [H' _]; cbn [bind_post]; [by apply Hk|done..].
Qed.

Lemma keeps_update_metadata {S} b : keeps (justified_sets (S := S)) (update_metadata_constants b) anything.
Proof.
  unfold update_metadata_constants.
  do 3 (apply (keeps_then_set _ _ id); [by apply keeps_fetch_constant|]).
  apply (keeps_then_set _ _ (fun len => percent_mul 75 (block_length_total len))); [apply keeps_fetch_block_length|].
  apply (keeps_then_set _ _ id); [by apply keeps_fetch_constant|].
  eapply keeps_bind_post; [by apply (keeps_fetch_constant _ ParamMaxBackersPerWinner)|].
  intros v s t Hg Hp. by apply wp_set_param; [left|].
Qed.

(** The start of the process, and a turn of the upgrade task. *)
Lemma keeps_before_select {S} opt : keeps (justified_sets (S := S)) (before_select opt) anything.
Proof.
  unfold before_select, startup, signal_streams, display_error.
  repeat (apply keeps_update_metadata
    || (apply keeps_justified; intros l; apply keeps_sets_client)
    || lazymatch goal with
       | |- keeps _ (Ret (Chains.try_from ?v)) _ => intros ? ? ?; destruct (Chains.try_from v); done
       end
    || justified).
Qed.

Lemma keeps_upgrade_check : keeps justified_sets upgrade_check anything.
Proof.
  unfold upgrade_check.
  repeat (apply keeps_update_metadata
    || lazymatch goal with
       | |- keeps _ get_state _ => by intros ? ? ?
       | |- keeps _ (put_state _) _ => by intros ? ? ?
       end
    || justified).
Qed.

(** The start of the monitor, whose configuration is the one configured. *)
Lemma keeps_monitor_start `{K : Crypto} {S} c :
  configured ParamBalancingIterations (mb_balancing_iterations c) ->
  configured ParamAlgorithm (algorithm_byte (mb_algorithm c)) ->
  keeps (justified_sets (S := S)) (monitor_start c) anything.
Proof.
  intros Hb Ha s t Hg. unfold monitor_start, set_balancing_iterations, set_algorithm.
  apply wp_bind. eapply wp_mono; [done| |by apply wp_set_param; [right|]].
  intros [u|e|msg|] s1 t1 H1; cbn [bind_post]; try done. destruct H1 as [H1 _].
  apply wp_bind. eapply wp_mono; [done| |by apply wp_set_param; [right|]].
  intros [u'|e|msg|] s2 t2 H2; cbn [bind_post]; try done. destruct H2 as [H2 _].
  apply (keeps_elim justified_sets _ anything); [|done]. unfold signer_new. repeat justified.
Qed.

End justified.

End provenance.

(** ** The process with its cells *)
Section memory.
Context `{T : MinerConfig} `{SO : ScoreOrder} `{F : Foreign} `{V : VotesBound} `{US : UnstableSort} `{W : Web} `{K : Crypto}.
Context (opt : Opt).

Definition Cells : Type := Param -> Z.

Definition cells_after (e : event) (c : Cells) : Cells :=
  match param_set e with
  | Some (p, v) => fun q => if decide (q = p) then v else c q
  | None => c
  end.

(** What an operation reads of the cells. *)
Definition cell_read (e : event) : option (Param * Z) :=
  match e with
  | Event o r =>
      match o in op R return R -> option (Param * Z) with
      | PagesGet => fun r => Some (ParamPages, r)
      | ParamGet p => fun r => Some (p, r)
      | _ => fun _ => None
      end r
  end.

Definition reads_cells (c : Cells) (e : event) : Prop :=
  match cell_read e with Some (p, v) => v = c p | None => True end.

(** The traces of the main task, of the upgrade task and of the tasks of the
    monitor. *)
Definition monitor_logs (m : MainTask) : list trace :=
  match m with Selecting (MonitorRunning _ _ s) => task_logs s | _ => [[]; []; []; []] end.

Definition process_logs (x : Process) : list trace :=
  main_log x :: upgrade_log x :: monitor_logs (main_task x).

(** A step of the process in which no task operates, or one in which one of them
    does: what it reads of the cells is what they hold, and what it sets is what
    they hold from then on. *)
Inductive memory_step : Process * Cells -> Process * Cells -> Prop :=
| memory_moves x x' c :
    process_step opt x x' ->
    process_logs x' = process_logs x \/ (exists e, x' = with_main (Exited e) (main_log x) x) ->
    memory_step (x, c) (x', c)
| memory_operates x x' c i t e :
    process_step opt x x' ->
    process_logs x !! i = Some t -> process_logs x' = <[i := e :: t]> (process_logs x) ->
    reads_cells c e ->
    memory_step (x, c) (x', cells_after e c).

Definition memory_init : Process * Cells := (process_init opt, param_initial).

Lemma memory_step_process y y' : memory_step y y' -> process_step opt y.1 y'.1.
Proof. by destruct 1. Qed.

Lemma memory_run_process y y' : rtc memory_step y y' -> rtc (process_step opt) y.1 y'.1.
Proof.
  induction 1 as [y|y1 y2 y3 Hs _ IH]; [apply rtc_refl|].
  eapply rtc_l; [by apply memory_step_process|exact IH].
Qed.

(** ** The programs of the monitor command *)
Context (config : MultiBlockMonitorConfig) (is_monitor : command opt = Command.Monitor config).

(** What the monitor sets from its configuration. *)
Definition configured (p : Param) (v : Z) : Prop :=
  match p with
  | ParamBalancingIterations => v = mb_balancing_iterations config
  | ParamAlgorithm => v = algorithm_byte (mb_algorithm config)
  | _ => False
  end.

Definition unconfigured (_ : Param) (_ : Z) : Prop := False.

Definition running_cells (c : Running) (t : trace) : Prop :=
  match c with
  | MonitorStarting _ p => wp (justified_sets configured) p (fun _ _ _ => True) tt t
  | MonitorRunning c signer s => cells_inv (signer_account_id (signer_deref signer)) (process_config c) s
  | _ => False
  end.

Record sets_inv (x : Process) : Prop := {
  se_main_log : guarded (set_justified configured) (main_log x);
  se_main : match main_task x with
            | Starting p => wp (justified_sets configured) p (fun _ _ _ => True) tt (main_log x)
            | Selecting c => running_cells c (main_log x)
            | Exited _ => True
            end;
  se_upgrade_log : guarded (set_justified unconfigured) (upgrade_log x);
  se_upgrade : match upgrade x with
               | NotSpawned => upgrade_log x = []
               | Checking p s => wp (justified_sets unconfigured) p (fun _ _ _ => True) s (upgrade_log x)
               | _ => True
               end;
}.

Lemma keeps_wp_true {S A} I (m : M S A) s t : keeps I m anything -> I s t -> wp I m (fun _ _ _ => True) s t.
Proof. intros Hm HI. eapply wp_mono; [done| |by apply Hm]. done. Qed.

Lemma wp_justified_step {S A} conf (p p' : prog S A) Q s s' t t' :
  wp (justified_sets conf) p Q s t -> guarded (set_justified conf) t -> prog_step (p, s, t) (p', s', t') ->
  guarded (set_justified conf) t' /\ wp (justified_sets conf) p' Q s' t'.
Proof. intros Hw Hg Hs. apply and_comm. exact (wp_prog_step (guarded (set_justified conf)) _ _ _ _ _ _ _ Hw Hg Hs). Qed.

Lemma running_cells_step c t c' t' :
  guarded (set_justified configured) t -> running_cells c t -> running_step (c, t) (c', t') ->
  guarded (set_justified configured) t' /\ running_cells c' t'.
Proof.
  intros Hg Hc Hs. inversion Hs; subst; try done.
  - by eapply wp_justified_step.
  - split; [done|]. apply cells_inv_init.
  - split; [done|]. by eapply cells_inv_step.
Qed.

Lemma sets_inv_step x x' : sets_inv x -> process_step opt x x' -> sets_inv x'.
Proof using is_monitor.
  intros [Hml Hm Hul Hu] Hs.
  destruct Hs as [p p' t' Ep _ Hp|k Ep|o Ep Ho|Ep|c c' t' Ec Hc|c o Ec Ho|c Ec|c e Ec Hsent|c Ec Hsent Eu
    |p s p' s' t' Eu Hp|s Eu|e s Eu|Eu|o s Eu Ho];
    try rewrite Ep in Hm; try rewrite Ec in Hm; try rewrite Eu in Hu;
    cbv beta iota in Hm, Hu; split; try done; cbn [main_task main_log upgrade upgrade_log with_main with_upgrade].
  - by destruct (wp_justified_step _ _ _ _ _ _ _ _ Hm Hml Hp).
  - by destruct (wp_justified_step _ _ _ _ _ _ _ _ Hm Hml Hp).
  - by destruct (Hm tt).
  - apply keeps_wp_true; [apply keeps_upgrade_check|done].
  - rewrite is_monitor. cbn. apply keeps_wp_true; [by apply keeps_monitor_start|done].
  - by destruct (running_cells_step _ _ _ _ Hml Hm Hc).
  - by destruct (running_cells_step _ _ _ _ Hml Hm Hc).
  - by rewrite Eu.
  - by destruct (wp_justified_step _ _ _ _ _ _ _ _ Hu Hul Hp).
  - by destruct (wp_justified_step _ _ _ _ _ _ _ _ Hu Hul Hp).
  - apply keeps_wp_true; [apply keeps_upgrade_check|done].
Qed.

Lemma sets_inv_reachable x : rtc (process_step opt) (process_init opt) x -> sets_inv x.
Proof using is_monitor.
  revert x. refine (rtc_ind_r _ _ _ _).
  - split; try done. apply keeps_wp_true; [apply keeps_before_select|done].
  - intros x x' _ Hs IH. by eapply sets_inv_step.
Qed.

(** ** What the cells hold and what is read of them *)

Definition all_sets (x : Process) : list (Param * Z) := param_sets (main_log x) ++ param_sets (upgrade_log x).

Definition read_was_set (x : Process) (e : event) : Prop :=
  match cell_read e with Some pv => pv ∈ all_sets x | None => True end.

Record memory_inv (x : Process) (c : Cells) : Prop := {
  mv_cells p : (c p = param_initial p /\ p ∉ (all_sets x).*1) \/ (p, c p) ∈ all_sets x;
  mv_reads : Forall (Forall (read_was_set x)) (monitor_logs (main_task x));
}.

(** The sets of the process after an event of the main or the upgrade task. *)
Lemma mv_cells_set x x' c e :
  (forall p, (c p = param_initial p /\ p ∉ (all_sets x).*1) \/ (p, c p) ∈ all_sets x) ->
  all_sets x' ≡ₚ match param_set e with Some pv => pv :: all_sets x | None => all_sets x end ->
  forall p, (cells_after e c p = param_initial p /\ p ∉ (all_sets x').*1) \/ (p, cells_after e c p) ∈ all_sets x'.
Proof.
  intros Hc Hp p. setoid_rewrite Hp. unfold cells_after. destruct (param_set e) as [[q v]|]; [|apply Hc].
  case_decide as E; [subst; right; by left|].
  destruct (Hc p) as [[H1 H2]|H]; [left|right; by right]. split; [done|].
  cbn. rewrite elem_of_cons. tauto.
Qed.

Lemma reads_more x x' t : (forall pv, pv ∈ all_sets x -> pv ∈ all_sets x') ->
  Forall (read_was_set x) t -> Forall (read_was_set x') t.
Proof.
  intros Hsub Ht. eapply Forall_impl; [exact Ht|]. intros e. unfold read_was_set. destruct (cell_read e); [apply Hsub|done].
Qed.

(** Once the monitor runs, every cell was set. *)
Lemma running_all_set x c signer s p :
  process_inv opt x -> main_task x = Selecting (MonitorRunning c signer s) -> p ∈ (all_sets x).*1.
Proof.
  intros [Hm _] Ex. rewrite Ex in Hm. destruct Hm as [_ (_ & (base & Hb & Hs) & _)].
  unfold all_sets. rewrite fmap_app, Hs. apply elem_of_app. left. cbn. rewrite !elem_of_cons.
  assert (p ∈ base.*1 <-> p ∈ metadata_params) as Hin by by rewrite <- Hb, elem_of_reverse.
  rewrite Hin. unfold metadata_params. destruct p; set_solver.
Qed.

Lemma monitor_logs_length m : length (monitor_logs m) = 4%nat.
Proof. by destruct m as [|[]|]. Qed.

(** The tasks of the monitor set nothing. *)
Lemma monitor_logs_sets x : sets_inv x -> Forall (fun t => param_sets t = []) (monitor_logs (main_task x)).
Proof.
  intros [_ Hm _ _]. destruct (main_task x) as [p|[p|c p|c signer s|p|s]|e]; try (repeat constructor; done).
  by eapply cells_inv_sets.
Qed.

(** An operation of one of them, at [i] among their traces. *)
Lemma memory_inv_task x x' c i t e :
  process_inv opt x' -> sets_inv x' -> memory_inv x c ->
  main_log x' = main_log x -> upgrade_log x' = upgrade_log x ->
  monitor_logs (main_task x) !! i = Some t ->
  monitor_logs (main_task x') = <[i := e :: t]> (monitor_logs (main_task x)) -> reads_cells c e ->
  memory_inv x' (cells_after e c).
Proof.
  intros Hp Hs [Hc Hr] Hml Hul Hi Hl He.
  assert (all_sets x' = all_sets x) as Hall by (unfold all_sets; congruence).
  assert (monitor_logs (main_task x') !! i = Some (e :: t)) as Hi'.
  { rewrite Hl. apply list_lookup_insert_eq. by eapply lookup_lt_Some. }
  assert (param_set e = None) as Hn.
  { pose proof (Forall_lookup_1 _ _ _ _ (monitor_logs_sets x' Hs) Hi') as H. cbv beta in H.
    rewrite param_sets_cons in H. by destruct (param_set e). }
  unfold cells_after. rewrite Hn. split; [by rewrite Hall|].
  assert (forall ts, Forall (Forall (read_was_set x)) ts -> Forall (Forall (read_was_set x')) ts) as Hmore.
  { intros ts Hts. eapply Forall_impl; [exact Hts|]. intros t'. apply reads_more. by rewrite Hall. }
  rewrite Hl. apply Forall_insert; [by apply Hmore|]. constructor.
  - unfold read_was_set. destruct (cell_read e) as [[p v]|] eqn:Er; [|done].
    unfold reads_cells in He. rewrite Er in He. subst v. rewrite Hall.
    destruct (Hc p) as [[_ Hnot]|H]; [|done]. destruct Hnot. rewrite <- Hall.
    destruct (main_task x') as [q|[q|cc q|cc signer s|q|s]|ex] eqn:Em;
      try (exfalso; do 4 (destruct i as [|i]; [discriminate Hi'|]); discriminate Hi').
    by eapply running_all_set.
  - eapply reads_more; [|by eapply Forall_lookup_1; [exact Hr|exact Hi]]. by rewrite Hall.
Qed.

(** An operation of the main or of the upgrade task. *)
Lemma memory_inv_set x x' c e :
  memory_inv x c ->
  all_sets x' ≡ₚ match param_set e with Some pv => pv :: all_sets x | None => all_sets x end ->
  monitor_logs (main_task x') = monitor_logs (main_task x) -> memory_inv x' (cells_after e c).
Proof.
  intros [Hc Hr] Hall Hmon. split; [by eapply mv_cells_set|]. rewrite Hmon. eapply Forall_impl; [exact Hr|].
  intros t. apply reads_more. intros pv Hpv. rewrite Hall. destruct (param_set e); [by right|done].
Qed.

Lemma memory_inv_step x x' c c' :
  process_inv opt x' -> sets_inv x' -> memory_inv x c -> memory_step (x, c) (x', c') -> memory_inv x' c'.
Proof.
  intros Hp Hs Hi Hm. inversion Hm as [x0 x0' c0 Hst Hlogs|x0 x0' c0 i t e Hst Hl Hlogs He]; subst.
  - destruct Hi as [Hc Hr]. destruct Hlogs as [Hlogs|[e ->]].
    + injection Hlogs as Hml Hul Hmon.
      assert (all_sets x' = all_sets x) as Hall by (unfold all_sets; congruence).
      split; [by rewrite Hall|]. rewrite Hmon. eapply Forall_impl; [exact Hr|].
      intros t. apply reads_more. by rewrite Hall.
    + split; [exact Hc|]. repeat constructor.
  - unfold process_logs in Hl, Hlogs. destruct i as [|[|i]]; cbn in Hl, Hlogs.
    + injection Hlogs as Hml Hul Hmon. injection Hl as <-. eapply memory_inv_set; [done| |done].
      unfold all_sets. rewrite Hml, Hul, param_sets_cons. by destruct (param_set e).
    + injection Hlogs as Hml Hul Hmon. injection Hl as <-. eapply memory_inv_set; [done| |done].
      unfold all_sets. rewrite Hml, Hul, param_sets_cons. destruct (param_set e); [|done].
      by rewrite <- Permutation_middle.
    + injection Hlogs as Hml Hul Hmon. by eapply memory_inv_task.
Qed.

Lemma memory_inv_reachable x c : rtc memory_step memory_init (x, c) -> memory_inv x c.
Proof using is_monitor.
  intros Hr. assert (forall y, rtc memory_step memory_init y -> memory_inv y.1 y.2) as H; [|exact (H (x, c) Hr)].
  clear x c Hr. refine (rtc_ind_r _ _ _ _).
  - split; [|repeat constructor]. intros p. left. split; [done|]. by intros ?%not_elem_of_nil.
  - intros [x c] [x' c'] Hrun Hs IH.
    assert (rtc (process_step opt) (process_init opt) x') as Hx.
    { apply (memory_run_process memory_init (x', c')). by eapply rtc_r. }
    eapply memory_inv_step; [by apply process_inv_reachable|by apply sets_inv_reachable|exact IH|exact Hs].
Qed.

(** A set of a cell has its value from the metadata, or is configured. *)
Lemma guarded_set conf t p v : guarded (set_justified conf) t -> (p, v) ∈ param_sets t ->
  provided p v t \/ conf p v.
Proof.
  induction t as [|e t IH]; [by intros _ ?%not_elem_of_nil|]. intros [He Hg]. rewrite param_sets_cons.
  unfold set_justified in He. destruct (param_set e) as [[q w]|].
  - intros [[= -> ->]|Hin]%elem_of_cons.
    + destruct He as [He|He]; [left; by apply provided_cons|by right].
    + destruct (IH Hg Hin) as [H|H]; [left; by apply provided_cons|by right].
  - intros Hin. destruct (IH Hg Hin) as [H|H]; [left; by apply provided_cons|by right].
Qed.

(** The metadata gave [v] for [p], to the main task or to the upgrade task. *)
Definition from_metadata (x : Process) (p : Param) (v : Z) : Prop :=
  provided p v (main_log x) \/ provided p v (upgrade_log x).

Lemma set_from_metadata x p v : sets_inv x -> (p, v) ∈ all_sets x -> p ∈ metadata_params -> from_metadata x p v.
Proof.
  intros [Hml _ Hul _] Hin Hp. apply elem_of_app in Hin as [Hin|Hin].
  - destruct (guarded_set _ _ _ _ Hml Hin) as [H|H]; [by left|]. exfalso. revert H Hp.
    unfold metadata_params. destruct p; cbn; try done; set_solver.
  - destruct (guarded_set _ _ _ _ Hul Hin) as [H|[]]. by right.
Qed.

Lemma set_configured x p v : sets_inv x -> (p, v) ∈ all_sets x -> p ∉ metadata_params -> configured p v.
Proof.
  intros [Hml _ Hul _] Hin Hp.
  assert (forall t, ~ provided p v t) as Hno by (intros t (e & _ & He%provides_param); done).
  apply elem_of_app in Hin as [Hin|Hin].
  - destruct (guarded_set _ _ _ _ Hml Hin) as [H|H]; [by destruct (Hno _ H)|done].
  - destruct (guarded_set _ _ _ _ Hul Hin) as [H|[]]. by destruct (Hno _ H).
Qed.

(** C8: While the monitor runs, with the parameter types as memory that the tasks
    share: the algorithm and the iterations are those of its configuration, also
    after upgrades; every other parameter type holds, and every page count that a
    task has read was, a value that the metadata gave to the main task or to the
    upgrade task, never the initial zero; the blocks the miner gets carry such a
    page count; and the miner between two messages still has the page count it
    read when it started. *)
Theorem monitor_cells x c cfg signer s :
  rtc memory_step memory_init (x, c) ->
  main_task x = Selecting (MonitorRunning cfg signer s) ->
  c ParamAlgorithm = algorithm_byte (mb_algorithm config) /\
  c ParamBalancingIterations = mb_balancing_iterations config /\
  (forall p, p ∈ metadata_params -> from_metadata x p (c p)) /\
  (forall t v, t ∈ task_logs s -> Event PagesGet v ∈ t -> from_metadata x ParamPages v) /\
  (forall state, ProcessBlock state ∈ received (miner s) -> from_metadata x ParamPages (bd_n_pages state)) /\
  (forall ms, task (miner s) = Idle ms ->
     last (log (miner s)) = Some (Event PagesGet (n_pages (ms_snapshot ms))) /\
     from_metadata x ParamPages (n_pages (ms_snapshot ms))).
Proof using is_monitor.
  intros Hr Ex. pose proof (memory_inv_reachable x c Hr) as [Hc Hreads].
  pose proof (memory_run_process _ _ Hr) as Hrun. cbn [fst memory_init] in Hrun.
  pose proof (process_inv_reachable opt x Hrun) as Hp. pose proof (sets_inv_reachable x Hrun) as Hs.
  assert (forall p, (p, c p) ∈ all_sets x) as Hset.
  { intros p. destruct (Hc p) as [[_ Hnot]|H]; [|done]. destruct Hnot. by eapply running_all_set. }
  pose proof Hs as [_ Hm _ _]. rewrite Ex in Hm. cbn in Hm.
  rewrite Ex in Hreads. change (monitor_logs _) with (task_logs s) in Hreads.
  assert (forall t v, t ∈ task_logs s -> Event PagesGet v ∈ t -> from_metadata x ParamPages v) as Hpages.
  { intros t v Ht He. apply set_from_metadata; [done| |unfold metadata_params; set_solver].
    rewrite Forall_forall in Hreads. specialize (Hreads t Ht). rewrite Forall_forall in Hreads.
    exact (Hreads _ He). }
  split_and!.
  - apply (set_configured x ParamAlgorithm); [done..|]. unfold metadata_params. set_solver.
  - apply (set_configured x ParamBalancingIterations); [done..|]. unfold metadata_params. set_solver.
  - intros p Hin. by apply set_from_metadata.
  - exact Hpages.
  - intros state Hin. apply (Hpages (listener_log s)); [by left|]. by eapply cells_inv_block.
  - intros ms Hms. destruct (cells_inv_pages _ _ _ _ Hm Hms) as [_ Hl]. split; [exact Hl|].
    apply (Hpages (log (miner s))); [right; by left|]. apply list_elem_of_lookup.
    rewrite last_lookup in Hl. eauto.
Qed.

End memory.

(** ** Schedules with memory *)
Section schedules.
Context `{T : MinerConfig} `{SO : ScoreOrder} `{F : Foreign} `{V : VotesBound} `{US : UnstableSort} `{W : Web} `{K : Crypto}.
Context (opt : Opt) (h hu : handler).

(** A handler that reads the cells from memory. *)
Definition cell_handler (c : Cells) (h : handler) : handler := {|
  answer := fun R o t =>
    match o in op R return R with
    | PagesGet => c ParamPages
    | ParamGet p => c p
    | o => answer h _ o t
    end;
  fires := fires h;
|}.

Lemma cell_handler_reads c h0 {R} (o : op R) t : reads_cells c (Event o (answer (cell_handler c h0) _ o t)).
Proof. by destruct o. Qed.

(** The events by which traces have grown. *)
Fixpoint new_events (l l' : list trace) : list event :=
  match l, l' with
  | t :: l, t' :: l' => (if (length t <? length t')%nat then option_list (head t') else []) ++ new_events l l'
  | _, _ => []
  end.

Lemma new_events_refl l : new_events l l = [].
Proof. induction l as [|t l IH]; [done|]. cbn [new_events]. by rewrite Nat.ltb_irrefl, IH. Qed.

Lemma new_events_insert l : forall i t e, l !! i = Some t -> new_events l (<[i := e :: t]> l) = [e].
Proof.
  induction l as [|t0 l IH]; intros [|i] t e Hi; try done; cbn in Hi; cbn [new_events insert list_insert].
  - injection Hi as ->. rewrite new_events_refl. by destruct (Nat.ltb_spec (length t) (length (e :: t))); [|cbn in *; lia].
  - rewrite Nat.ltb_irrefl. exact (IH i t e Hi).
Qed.

Lemma new_events_none l : forall l', Forall (fun t => t = []) l' -> new_events l l' = [].
Proof.
  induction l as [|t l IH]; intros [|t' l'] Hl; try done. apply Forall_cons in Hl as [-> Hl]. cbn. by apply IH.
Qed.

(** The upgrade task is spawned when it has done nothing yet. *)
Definition may_move (x : Process) : bool :=
  match main_task x with
  | Starting p => negb (spawns p) || match upgrade_log x with [] => true | _ => false end
  | _ => true
  end.

Definition memory_exec_one (who : Move) (y : Process * Cells) : Process * Cells :=
  let '(x, c) := y in
  if negb (may_move x) then y else
  let x' := process_exec_one opt (cell_handler c h) (cell_handler c hu) who x in
  (x', foldl (fun c e => cells_after e c) c (new_events (process_logs x) (process_logs x'))).

Definition memory_exec (moves : list Move) (y : Process * Cells) : Process * Cells :=
  foldl (fun y who => memory_exec_one who y) y moves.

(** One move changes at most one trace, by an event that reads the cells. *)
Definition one_event (c : Cells) (l l' : list trace) : Prop :=
  l' = l \/ exists i t e, l !! i = Some t /\ l' = <[i := e :: t]> l /\ reads_cells c e.

Lemma advance_event {S A} c h0 (p : prog S A) s t :
  let t' := (advance (cell_handler c h0) p s t).2 in
  t' = t \/ exists e, t' = e :: t /\ reads_cells c e.
Proof.
  destruct p as [a|k|s' k|k|R o k]; cbn; auto. right. eexists. split; [done|]. apply cell_handler_reads.
Qed.

Lemma one_event_at c (i : nat) (t t' : trace) l : l !! i = Some t ->
  (t' = t \/ exists e, t' = e :: t /\ reads_cells c e) -> one_event c l (<[i := t']> l).
Proof.
  intros Hi [->|(e & -> & He)]; [left; by apply list_insert_id|right]. by exists i, t, e.
Qed.

Lemma receiver_exec_event {S Msg} c h0 (body : Msg -> M S unit) (r : Receiver S Msg) :
  let t' := log (receiver_exec (cell_handler c h0) body r) in
  t' = log r \/ exists e, t' = e :: log r /\ reads_cells c e.
Proof.
  unfold receiver_exec. destruct (task r) as [s|p s|o]; [|pose proof (advance_event c h0 p s (log r)) as Ha|by left].
  - destruct (queue r); by left.
  - destruct p as [[[]|e|msg|]|k|s' k|k|R o k]; cbn in *; auto.
Qed.

Lemma try_exec_log {S Msg} (m : Msg) (r : Receiver S Msg) : log (try_exec m r).2 = log r.
Proof. unfold try_exec. by repeat case_match. Qed.

Lemma send_exec_log {S Msg} (m : Msg) (r : Receiver S Msg) : log (send_exec m r).2 = log r.
Proof. unfold send_exec. by repeat case_match. Qed.

Lemma listener_answer_logs h0 (ch : Channels) t {R} (o : op R) :
  let c' := (listener_answer h0 ch t o).2 in
  log c'.1.1 = log ch.1.1 /\ log c'.1.2 = log ch.1.2 /\ log c'.2 = log ch.2.
Proof.
  destruct o; cbn; try done;
    match goal with
    | |- context [try_exec ?m ?r] => pose proof (try_exec_log m r); by destruct (try_exec m r)
    | |- context [send_exec ?m ?r] => pose proof (send_exec_log m r); by destruct (send_exec m r)
    end.
Qed.

Lemma listener_answer_reads c h0 ch t {R} (o : op R) :
  reads_cells c (Event o (listener_answer (cell_handler c h0) ch t o).1).
Proof. destruct o; cbn; try done; by destruct (_ : _ * Receiver _ _). Qed.

Lemma exec_one_event c h0 signer config who s :
  one_event c (task_logs s) (task_logs (exec_one signer config (cell_handler c h0) who s)).
Proof.
  destruct who; cbn [exec_one].
  - unfold listener_exec. destruct (listener s) as [u|p u|o]; [by left| |by left].
    destruct p as [o|k|u' k|k|R o k]; try by left.
    destruct (waits_b (channels s) o); [by left|].
    pose proof (listener_answer_logs (cell_handler c h0) (channels s) (listener_log s) o) as Hl.
    pose proof (listener_answer_reads c h0 (channels s) (listener_log s) o) as Hr.
    destruct (listener_answer _ _ _ o) as [r [[m cl] er]]. destruct Hl as (H1 & H2 & H3). cbn in H1, H2, H3, Hr.
    right. exists 0%nat, (listener_log s), (Event o r). split; [done|]. split; [|done].
    unfold task_logs. cbn. by rewrite H1, H2, H3.
  - exact (one_event_at c 1 (log (miner s)) _ (task_logs s) eq_refl (receiver_exec_event c h0 (miner_step signer config) (miner s))).
  - exact (one_event_at c 2 (log (clear_old_rounds s)) _ (task_logs s) eq_refl (receiver_exec_event c h0 (clear_step signer) (clear_old_rounds s))).
  - exact (one_event_at c 3 (log (era_pruning s)) _ (task_logs s) eq_refl (receiver_exec_event c h0 era_step (era_pruning s))).
Qed.

(** One move of the process. *)
Lemma one_event_main c x m t' : monitor_logs m = monitor_logs (main_task x) ->
  (t' = main_log x \/ exists e, t' = e :: main_log x /\ reads_cells c e) ->
  one_event c (process_logs x) (process_logs (with_main m t' x)).
Proof.
  intros Hm Ht. unfold process_logs. cbn [with_main main_log upgrade_log main_task]. rewrite Hm.
  exact (one_event_at c 0 (main_log x) t' (process_logs x) eq_refl Ht).
Qed.

Lemma one_event_upgrade c x u t' message :
  (t' = upgrade_log x \/ exists e, t' = e :: upgrade_log x /\ reads_cells c e) ->
  one_event c (process_logs x) (process_logs (with_upgrade u t' message x)).
Proof. exact (one_event_at c 1 (upgrade_log x) t' (process_logs x) eq_refl). Qed.

Lemma start_exec_event c p x : main_task x = Starting p -> may_move x = true ->
  one_event c (process_logs x) (process_logs (start_exec opt (cell_handler c h) p x)) \/
  (exists e, start_exec opt (cell_handler c h) p x = with_main (Exited e) (main_log x) x).
Proof.
  intros Em Hmove. unfold may_move in Hmove. rewrite Em in Hmove.
  destruct p as [[[]|e|msg|]|k|[] k|k|R o k]; cbn [start_exec]; eauto.
  - left. apply one_event_main; [|by left]. rewrite Em. by destruct (command opt).
  - left. cbn. apply one_event_main; [by rewrite Em|by left].
  - left. cbn. apply one_event_main; [by rewrite Em|by left].
  - left. cbn. apply one_event_main; [by rewrite Em|by left].
  - left. pose proof (cell_handler_reads c h o (main_log x)) as Hr. cbv zeta.
    set (x' := with_main _ _ x).
    assert (one_event c (process_logs x) (process_logs x')) as Hone.
    { apply one_event_main; [by rewrite Em|]. right. by eexists. }
    destruct (is_spawn o) eqn:Eo; [|exact Hone]. cbn in Hmove. rewrite Eo in Hmove. cbn in Hmove.
    destruct (upgrade_log x) eqn:El; [|done].
    replace (process_logs (with_upgrade _ [] None x')) with (process_logs x'); [exact Hone|].
    unfold process_logs. cbn. by rewrite El.
Qed.

Lemma process_exec_event c who x : may_move x = true ->
  let x' := process_exec_one opt (cell_handler c h) (cell_handler c hu) who x in
  one_event c (process_logs x) (process_logs x') \/ (exists e, x' = with_main (Exited e) (main_log x) x).
Proof.
  intros Hmove. destruct who as [| |name|]; cbn [process_exec_one].
  - unfold future_exec. destruct (main_task x) as [p|[p|cc p|cc signer s|p|s]|e] eqn:Em; try by (left; left).
    + by apply start_exec_event.
    + left. destruct p as [[signer|e|msg|]|k|[] k|k|R o k]; try by left.
      all: apply one_event_main; [by rewrite Em|].
      all: try by left. right. eexists. split; [done|]. apply cell_handler_reads.
  - left. unfold upgrade_exec. destruct (upgrade x) as [|p s| |]; try by left.
    destruct p as [[[e|]|e|msg|]|k|s' k|k|R o k]; try by left.
    right. exists 1%nat, (upgrade_log x). eexists. split; [done|]. split; [done|]. apply cell_handler_reads.
  - left. destruct (main_task x) as [p|[p|cc p|cc signer s|p|s]|e] eqn:Em; try by left.
    destruct (exec_one_event c h (signer_account_id (signer_deref signer)) (process_config cc) name s)
      as [Hl|(i & t & e & Hi & Hl & He)].
    + left. unfold process_logs. cbn. by rewrite Hl, Em.
    + right. exists (S (S i)), t, e. unfold process_logs. rewrite Em. split; [exact Hi|]. split; [|exact He].
      cbn. by rewrite Hl.
  - destruct (main_task x) as [p|cc|e] eqn:Em; try by (left; left).
    destruct (sent x) as [e|]; [|by left; left]. right. by exists (ExitUpgrade e).
Qed.

Lemma memory_exec_one_step who y : memory_exec_one who y = y \/ memory_step opt y (memory_exec_one who y).
Proof.
  destruct y as [x c]. unfold memory_exec_one. destruct (may_move x) eqn:Hm; [|by left]. cbn [negb].
  pose proof (process_exec_event c who x Hm) as He. cbv zeta in He.
  destruct (process_exec_one_step opt (cell_handler c h) (cell_handler c hu) who x) as [Hx|Hs].
  { left. rewrite Hx. by rewrite new_events_refl. }
  right. set (x' := process_exec_one _ _ _ who x) in *. destruct He as [[Hl|(i & t & e & Hi & Hl & He)]|[e Hx]].
  - rewrite Hl, new_events_refl. apply memory_moves; [done|by left].
  - rewrite Hl, (new_events_insert _ _ _ _ Hi). cbn. by eapply memory_operates.
  - assert (new_events (process_logs x) (process_logs x') = []) as ->.
    { rewrite Hx. unfold process_logs. cbn [new_events with_main main_log upgrade_log main_task].
      rewrite !Nat.ltb_irrefl. cbn. apply new_events_none. repeat constructor. }
    apply memory_moves; [done|]. right. by exists e.
Qed.

Lemma memory_exec_reachable moves : forall y, rtc (memory_step opt) y (memory_exec moves y).
Proof.
  induction moves as [|who moves IH]; intros y; [apply rtc_refl|]. unfold memory_exec. cbn [foldl].
  destruct (memory_exec_one_step who y) as [->|Hs]; [apply IH|]. eapply rtc_l; [exact Hs|apply IH].
Qed.

End schedules.

(** ** An example: an upgrade that changes the number of pages *)
#[local] Existing Instance stake_order.
#[local] Existing Instance toy_web.
#[local] Existing Instance toy_crypto.

(** What the upgrade task sees: another version at every read, with six pages. *)
Definition six_pages : handler := {|
  answer := fun R o t =>
    match o in op R return R with
    | AtCurrentBlock =>
        ok {| ab_hash := 7; ab_number := 100; ab_spec_version := 1 + Z.of_nat (length (versions t)) |}
    | Constant _ _ _ => ok (ok 6)
    | o => node_answer good_node o t
    end;
  fires := fun _ _ => false;
|}.

(** The process starts and its miner reads the number of pages; then an upgrade
    is noticed; then a block arrives and the miner processes it. *)
Definition upgrade_moves : list Move :=
  replicate 60 MoveMain ++ replicate 3 (MoveMonitor MinerTask) ++ replicate 60 MoveUpgrade ++
  replicate 60 (MoveMonitor ListenerTask) ++ replicate 400 (MoveMonitor MinerTask).

Definition upgraded_run : Process * Cells :=
  memory_exec demo_opt (node_handler good_node) six_pages upgrade_moves (memory_init demo_opt).

Definition upgraded_process : Process := upgraded_run.1.
Definition upgraded_cells : Cells := upgraded_run.2.

Definition running_system (m : MainTask) : option System :=
  match m with Selecting (MonitorRunning _ _ s) => Some s | _ => None end.

Definition block_pages (m : MinerMessage) : option Z :=
  match m with ProcessBlock state => Some (bd_n_pages state) | ClearSnapshots => None end.

Definition idle_pages (x : Task MinerState) : option Z :=
  match x with Idle ms => Some (n_pages (ms_snapshot ms)) | _ => None end.

(** The page counts of the blocks the miner got, its own, and
    the pages and the voter pages of what it gave to the solver. *)
Definition page_counts (m : MainTask) : option (list Z * option Z * list (Z * nat)) :=
  s ← running_system m;
  Some (omap block_pages (received (miner s)), idle_pages (task (miner s)),
        (fun i => (mi_pages i, length (mi_voter_pages i))) <$> mined (log (miner s))).

(** The miner keeps the page count it started with: after an upgrade to six pages
    the solver is asked for six pages with the voters of four, and the targets are
    those of the fourth page. *)
Example stale_page_count :
  upgraded_cells ParamPages = 6 /\
  page_counts (main_task upgraded_process) = Some ([6], Some 4, [(6, 4%nat)]).
Proof. split; vm_compute; reflexivity. Qed.

Lemma upgraded_run_reachable : rtc (memory_step demo_opt) (memory_init demo_opt) (upgraded_process, upgraded_cells).
Proof. unfold upgraded_process, upgraded_cells. rewrite <- surjective_pairing. apply memory_exec_reachable. Qed.

Lemma monitor_cells_witness :
  exists cfg signer s, main_task upgraded_process = Selecting (MonitorRunning cfg signer s) /\
    upgraded_cells ParamPages = 6 /\ from_metadata upgraded_process ParamPages 6 /\
    upgraded_cells ParamAlgorithm = algorithm_byte Phragmms /\
    exists ms, task (miner s) = Idle ms /\ from_metadata upgraded_process ParamPages (n_pages (ms_snapshot ms)).
Proof.
  assert (upgraded_cells ParamPages = 6) as Hp by (vm_compute; reflexivity).
  assert (is_Some (m ← running_system (main_task upgraded_process); idle_pages (task (miner m)))) as Hv
    by (vm_compute; eexists; reflexivity).
  pose proof (fun cfg signer s => monitor_cells demo_opt demo_monitor eq_refl upgraded_process upgraded_cells
    cfg signer s upgraded_run_reachable) as Hm.
  generalize dependent (main_task upgraded_process).
  intros m Hv Hm. destruct m as [|[| |cfg signer s| |]|]; try (destruct Hv as [? Hv]; discriminate Hv).
  destruct (Hm cfg signer s eq_refl) as (Ha & _ & Hc & _ & _ & Hi).
  destruct Hv as [n Hidle]. change (idle_pages (task (miner s)) = Some n) in Hidle.
  exists cfg, signer, s. split; [reflexivity|]. split; [exact Hp|]. split.
  - rewrite <- Hp. apply Hc. left.
  - split; [exact Ha|]. destruct (task (miner s)) as [ms| |] eqn:Et; try discriminate Hidle.
    exists ms. split; [reflexivity|]. apply (Hi ms eq_refl).
Defined.
