(* ===== verification/Conformance.v ===== *)
(** * The unit tests of the repository

    The tests of [src/dynamic/election_data.rs], [src/utils.rs] and
    [src/commands/server.rs] that exercise code modelled here, on the model: one
    definition per test, with its data and its assertions, and that it passes.
    What the tests take from other crates (addresses, scores, query strings) is
    instantiated by functions that do on the data of the tests what those crates
    do. *)

From Stdlib Require Import Ascii.
From S2P Require Import Prelude RustStr Errors Strategy Chain Metrics Types Effects Traces Scenario SnapshotFetch ElectionData ElectionDataSpec Tokens Predictions PredictionsSpec Server.
Local Open Scope Z_scope.

(** [assert!(xs.contains(&x))] *)
Definition contains (x : Z) (l : list Z) : bool := bool_decide (x ∈ l).

(** ** [src/dynamic/election_data.rs] *)
Module ElectionDataTests.

Definition UNIT : Z := 1000000000000.
Definition TEST_PAGES : Z := 1.
Definition TEST_VOTERS_PER_PAGE : nat := 100.

#[local] Instance TestMinerConfig : SnapshotBounds := {|
  Pages := TEST_PAGES;
  VoterSnapshotPerBlock := TEST_VOTERS_PER_PAGE;
  TargetSnapshotPerBlock := 1000;
  MaxVotesPerVoter := 16;
|}.

(** An account is its repeated byte, its address the number of the account. *)
Definition account (id : Z) : AccountId := id.
Definition to_ss58check (a : AccountId) : string := pretty a.

Definition no_overrides : ElectionOverrides := {|
  candidates_include := []; candidates_exclude := []; voters_include := []; voters_exclude := [] |}.

(** Only candidates to include. *)
Definition including (l : list CandidateInclude) : ElectionOverrides := {|
  candidates_include := l; candidates_exclude := candidates_exclude no_overrides;
  voters_include := voters_include no_overrides; voters_exclude := voters_exclude no_overrides |}.

(** [apply_overrides(..).unwrap()], and the assertions on its result. *)
Definition overridden (candidates : list ValidatorData) (voters : list NominatorData)
    (overrides : ElectionOverrides) (asserts : list ValidatorData -> list NominatorData -> bool) : bool :=
  match apply_overrides parse_account candidates voters overrides with
  | ok (candidates, voters) => asserts candidates voters
  | err _ => false
  end.

Definition test_apply_overrides_logic : bool :=
  let acc1 := account 1 in let acc2 := account 2 in let acc3 := account 3 in let acc4 := account 4 in
  let s1 := to_ss58check acc1 in let s2 := to_ss58check acc2 in
  let s3 := to_ss58check acc3 in let s4 := to_ss58check acc4 in
  let candidates := [(acc1, 1000); (acc2, 2000)] in
  let voters := [(acc3, 500, [acc1])] in
  let overrides := {|
    candidates_include := [Address s4];
    candidates_exclude := [s1];
    voters_include := [(s4, 1500, [s2; s4])];
    voters_exclude := [s3] |} in
  overridden candidates voters overrides (fun new_candidates new_voters =>
    (length new_candidates =? 2)%nat &&
    contains acc2 new_candidates.*1 &&
    existsb (fun c => (c.1 =? acc4) && (c.2 =? 0)) new_candidates &&
    negb (contains acc1 new_candidates.*1) &&
    bool_decide (new_voters = [(acc4, 1500, [acc2; acc4])])).

Definition candidate_include_self_stake_adds_self_vote : bool :=
  let existing := account 1 in let injected := account 9 in
  let bare := account 8 in let nominator := account 3 in
  let candidates := [(existing, 1000)] in
  let voters := [(nominator, 500, [existing])] in
  let overrides := including [WithSelfStake (to_ss58check injected) (7 * UNIT); Address (to_ss58check bare)] in
  overridden candidates voters overrides (fun candidates voters =>
    existsb (fun c => (c.1 =? injected) && (c.2 =? 7 * UNIT)) candidates &&
    existsb (fun c => (c.1 =? bare) && (c.2 =? 0)) candidates &&
    bool_decide (voters = [(nominator, 500, [existing]); (injected, 7 * UNIT, [injected])])).

Definition candidate_include_self_stake_overrides_existing_stake : bool :=
  let validator := account 1 in let nominator := account 3 in
  let candidates := [(validator, UNIT)] in
  let voters := [(validator, UNIT, [validator]); (nominator, 500, [validator])] in
  let overrides := including [WithSelfStake (to_ss58check validator) (9 * UNIT)] in
  overridden candidates voters overrides (fun candidates voters =>
    bool_decide (candidates = [(validator, 9 * UNIT)]) &&
    bool_decide (voters = [(validator, 9 * UNIT, [validator]); (nominator, 500, [account 1])])).

Definition candidate_include_self_stake_replaces_nominations : bool :=
  let nominator := account 3 in let target_a := account 1 in let target_b := account 2 in
  let voters := [(nominator, 500, [target_a; target_b])] in
  let overrides := including [WithSelfStake (to_ss58check nominator) (4 * UNIT)] in
  overridden [] voters overrides (fun candidates voters =>
    bool_decide (candidates = [(nominator, 4 * UNIT)]) &&
    bool_decide (voters = [(nominator, 4 * UNIT, [nominator])])).

Definition voters_include_wins_over_candidate_self_stake : bool :=
  let injected := account 9 in
  let overrides := {|
    candidates_include := [WithSelfStake (to_ss58check injected) (7 * UNIT)];
    candidates_exclude := candidates_exclude no_overrides;
    voters_include := [(to_ss58check injected, 2 * UNIT, [to_ss58check injected])];
    voters_exclude := voters_exclude no_overrides |} in
  overridden [] [] overrides (fun _ voters =>
    bool_decide (voters = [(injected, 2 * UNIT, [injected])])).

(** The two tests at capacity: voters strongest first, and one more injected. *)
Definition capacity : nat := (Z.to_nat TEST_PAGES * TEST_VOTERS_PER_PAGE)%nat.

Definition voters_at_capacity : list NominatorData :=
  (fun i => let who := account (Z.of_nat i + 1) in (who, (Z.of_nat capacity - Z.of_nat i) * UNIT, [who]))
    <$> seq 0 capacity.

Definition strongest : AccountId := account 1.
Definition weakest : AccountId := account (Z.of_nat capacity).

Definition injected_at_capacity (stake : Z) (asserts : list VoterSnapshotPage -> bool) : bool :=
  let injected := account 200 in
  overridden [] voters_at_capacity (including [WithSelfStake (to_ss58check injected) stake])
    (fun candidates voters => asserts (convert_election_data_to_snapshots candidates voters Staking).2).

Definition overrides_beyond_snapshot_capacity_drop_the_weakest_voters : bool :=
  injected_at_capacity (50 * UNIT) (fun voter_snapshot =>
    let voters := (concat voter_snapshot).*1.*1 in
    (Z.of_nat (length voter_snapshot) =? TEST_PAGES) &&
    (length voters =? capacity)%nat &&
    contains (account 200) voters && contains strongest voters && negb (contains weakest voters)).

Definition an_injected_self_stake_too_small_to_make_the_cut_is_dropped : bool :=
  injected_at_capacity (UNIT / 2) (fun voter_snapshot =>
    let voters := (concat voter_snapshot).*1.*1 in
    (length voters =? capacity)%nat &&
    negb (contains (account 200) voters) && contains weakest voters).

Example election_data_tests_pass :
  forallb id [test_apply_overrides_logic; candidate_include_self_stake_adds_self_vote;
    candidate_include_self_stake_overrides_existing_stake; candidate_include_self_stake_replaces_nominations;
    voters_include_wins_over_candidate_self_stake; overrides_beyond_snapshot_capacity_drop_the_weakest_voters;
    an_injected_self_stake_too_small_to_make_the_cut_is_dropped] = true.
Proof. vm_compute. reflexivity. Qed.

(** The last test mines.  A solver that is enough for its voters, who vote for one
    target each: the targets with the most stake win, and the solution lists the
    winners. *)
Definition backing (voter_pages : list VoterSnapshotPage) (target : AccountId) : list (AccountId * Z) :=
  omap (fun v => if decide (v.2 = [target]) then Some v.1 else None) (concat voter_pages).

Definition support_of (voter_pages : list VoterSnapshotPage) (target : AccountId) : Support := {|
  sup_total := foldr (fun v acc => v.2 + acc) 0 (backing voter_pages target);
  sup_voters := backing voter_pages target;
|}.

Definition single_vote_winners (input : MineInput) : list AccountId :=
  let total t := sup_total (support_of (mi_voter_pages input) t) in
  take (Z.to_nat (mi_desired_targets input))
    (@merge_sort _ (fun a b => total b <= total a) (fun a b => Z_le_dec _ _) (mi_all_targets input)).

Definition single_vote_solver : handler := {|
  answer := fun R o t => match o in op R return R with
    | PagesGet => TEST_PAGES
    | MineSolution input =>
        ok (ok {| solution_pages := single_vote_winners input; score := score0; prs_round := mi_round input |})
    | EvaluateSupports s voter_pages _ _ =>
        ok [(fun w => (w, support_of voter_pages w)) <$> solution_pages s]
    | o => node_answer good_node o t
    end;
  fires := fun _ _ => false;
|}.

Definition predict (candidates : list ValidatorData) (voters : list NominatorData)
    (overrides : ElectionOverrides) (desired_targets : Z) : M unit ValidatorsPrediction :=
  match apply_overrides parse_account candidates voters overrides with
  | err e => panic "called `Result::unwrap()` on an `Err` value"
  | ok (candidates, voters) =>
      let '(target_snapshot, voter_snapshot) := convert_election_data_to_snapshots candidates voters Staking in
      solution ← mine_solution target_snapshot voter_snapshot 1 0 desired_targets 0 false;
      let ctx := {| ctx_round := 0; ctx_desired_targets := desired_targets; ctx_block_number := 0;
        ctx_ss58_prefix := 0; ctx_token_decimals := 0; ctx_token_symbol := "PLANCK"; ctx_data_source := Staking |} in
      r ← build_predictions_from_solution solution target_snapshot voter_snapshot ctx;
      mret r.1
  end.

Definition predicted (overrides : ElectionOverrides) (asserts : list ValidatorInfo -> bool) : bool :=
  let candidates := [(account 1, 0); (account 2, 0); (account 3, 0)] in
  let voters := [(account 1, 3 * UNIT, [account 1]); (account 2, 2 * UNIT, [account 2]);
                 (account 3, UNIT, [account 3])] in
  match (run single_vote_solver (predict candidates voters overrides 3) tt []).1.1 with
  | Ok elected => asserts (results elected)
  | _ => false
  end.

Definition elects (l : list ValidatorInfo) (address : string) : bool := bool_decide (address ∈ vi_account <$> l).

Definition injected_candidate_is_elected_by_its_self_stake : bool :=
  let weakest := account 3 in let injected := account 9 in
  let injected_ss58 := encode_account_id injected 0 in let weakest_ss58 := encode_account_id weakest 0 in
  let with_self_stake := including [WithSelfStake (to_ss58check injected) (5 * UNIT)] in
  let without_self_stake := including [Address (to_ss58check injected)] in
  predicted with_self_stake (fun elected =>
    (length elected =? 3)%nat && elects elected injected_ss58 && negb (elects elected weakest_ss58) &&
    match list_find (fun v => vi_account v = injected_ss58) elected with
    | Some (_, injected_info) =>
        String.eqb (vi_self_stake injected_info) "5000000000000 PLANCK" &&
        String.eqb (vi_total_stake injected_info) "5000000000000 PLANCK" &&
        (vi_nominator_count injected_info =? 0)%nat
    | None => false
    end) &&
  predicted without_self_stake (fun not_elected =>
    negb (elects not_elected injected_ss58) && elects not_elected weakest_ss58).

Example injected_candidate_test_passes : injected_candidate_is_elected_by_its_self_stake = true.
Proof. vm_compute. reflexivity. Qed.

End ElectionDataTests.

(** ** [src/utils.rs] *)
Module UtilsTests.

(** Scores in the order of their fields, the squares reversed; a threshold is a
    part of a billion, rounded up, of the value that has to be beaten. *)
#[local] Instance lexicographic : ScoreOrder := {|
  Perbill := Z;
  perbill_zero := 0;
  from_percent := fun n => Z.min n 100 * 10000000;
  strict_threshold_better := fun a b eps =>
    let margin y := (y * eps + 999999999) / 1000000000 in
    let beats x y := y + margin y <? x in
    let close x y := Z.abs (x - y) <=? margin y in
    beats (minimal_stake a) (minimal_stake b) ||
    close (minimal_stake a) (minimal_stake b) &&
      (beats (sum_stake a) (sum_stake b) ||
       close (sum_stake a) (sum_stake b) && beats (sum_stake_squared b) (sum_stake_squared a));
  strict_better := fun a b =>
    (minimal_stake b <? minimal_stake a) ||
    (minimal_stake b =? minimal_stake a) &&
      ((sum_stake b <? sum_stake a) ||
       (sum_stake b =? sum_stake a) && (sum_stake_squared a <? sum_stake_squared b));
|}.

Definition score_passes_strategy_works : bool :=
  let s x := {| minimal_stake := x; sum_stake := 0; sum_stake_squared := 0 |} in
  let two := from_percent 2 in
  let passes st (xy : Z * Z) := score_passes_strategy (s xy.1) (s xy.2) st in
  forallb (passes Always) [(0, 0); (5, 0); (5, 10)] &&
  forallb (passes IfLeading) [(1, 0); (2, 0)] &&
  forallb (fun xy => negb (passes IfLeading xy)) [(0, 0); (5, 10); (9, 10); (10, 10)] &&
  forallb (fun xy => negb (passes (ClaimBetterThan two) xy)) [(50, 100); (100, 100); (101, 100); (102, 100)] &&
  forallb (passes (ClaimBetterThan two)) [(103, 100); (150, 100)] &&
  forallb (fun xy => negb (passes (ClaimNoWorseThan two) xy)) [(50, 100); (97, 100)] &&
  forallb (passes (ClaimNoWorseThan two))
    [(98, 100); (99, 100); (100, 100); (101, 100); (102, 100); (103, 100); (150, 100)].

Definition meets_minimum_score_works : bool :=
  let score x y z := {| minimal_stake := x; sum_stake := y; sum_stake_squared := z |} in
  let floor := score 100 100 100 in
  meets_minimum_score (score 0 0 0) None &&
  negb (meets_minimum_score floor (Some floor)) &&
  meets_minimum_score (score 101 0 999) (Some floor) &&
  negb (meets_minimum_score (score 99 999 0) (Some floor)) &&
  meets_minimum_score (score 100 101 999) (Some floor) &&
  negb (meets_minimum_score (score 100 99 0) (Some floor)) &&
  meets_minimum_score (score 100 100 99) (Some floor) &&
  negb (meets_minimum_score (score 100 100 101) (Some floor)).

Definition submission_strategy_from_str_works : Prop :=
  strategy_from_str "if-leading" = ok IfLeading /\
  strategy_from_str "always" = ok Always /\
  strategy_from_str "  percent-better 99   " = ok (ClaimBetterThan (from_percent 99)).

Definition test_planck_to_token : Prop :=
  planck_to_token 100 2 "DOT" = Some "1 DOT" /\
  planck_to_token 100 0 "DOT" = Some "100 DOT" /\
  planck_to_token 1234 3 "DOT" = Some "1.234 DOT" /\
  planck_to_token 1230 3 "DOT" = Some "1.23 DOT" /\
  planck_to_token 5 2 "DOT" = Some "0.05 DOT" /\
  planck_to_token 0 5 "DOT" = Some "0 DOT".

Definition test_planck_to_token_u64 : Prop :=
  planck_to_token_u64 100 2 "KSM" = Some "1 KSM" /\
  planck_to_token_u64 123456789 6 "KSM" = Some "123.456789 KSM".

(** A file system with one file, whose content is what was written last. *)
Definition written (t : trace) : string :=
  default "" (head (omap (fun e => match e with
    | Event o _ => match o with FileWriteAll _ content => Some content | _ => None end end) t)).

Definition one_file : handler := {|
  answer := fun R o t => match o in op R return R with
    | FileReadToString _ => ok (written t)
    | o => node_answer good_node o t
    end;
  fires := fun _ _ => false;
|}.

(** The data of the test, and a text for it that can be read back. *)
Definition numbers_to_json (l : list Z) : Result string string := ok (String.concat "," (pretty <$> l)).
Definition numbers_from_json (s : string) : Result (list Z) string :=
  foldr (fun x acc => match parse_u32 x, acc with ok n, ok l => ok (n :: l) | _, _ => err "expected value" end)
    (ok []) (split ","%char s).

Definition test_read_write_json_file : Prop :=
  let data := [1; 2; 3] in
  let '(o, _, _) := run one_file
    (write_data_to_json_file numbers_to_json data {| parent_dir := "/tmp"; file_name := "test.json" |};;
     read_data_from_json_file numbers_from_json "/tmp/test.json") tt [] in
  o = Ok data.

Example utils_tests_pass :
  score_passes_strategy_works = true /\ meets_minimum_score_works = true /\
  submission_strategy_from_str_works /\ test_planck_to_token /\ test_planck_to_token_u64 /\
  test_read_write_json_file.
Proof. repeat split; vm_compute; reflexivity. Qed.

End UtilsTests.

(** ** [src/commands/server.rs] *)
Module ServerTests.

(** [url::form_urlencoded::parse] without escapes. *)
Definition key_value (s : string) : string * string :=
  match split "="%char s with
  | [key] => (key, "")
  | key :: value => (key, String.concat "=" value)
  | [] => ("", "")
  end.

#[local] Instance plain_queries : Web := {|
  json_to_vec := fun _ => None;
  config_from_slice := fun _ => err "";
  form_urlencoded_parse := fun s => key_value <$> filter (fun x => x <> "") (split "&"%char s);
|}.

Definition test_query_parsing : Prop :=
  let parsed query := query_block_number {| req_method := POST; req_path := "/simulate"; req_query := Some query |} in
  parsed "block=123&other=abc" = Some 123 /\ parsed "" = None.

Example server_tests_pass : test_query_parsing.
Proof. split; vm_compute; reflexivity. Qed.

End ServerTests.
